(* ===== verification/_CoqProject ===== *)
-Q . S2P
Prelude.v
JsNum.v
JsVal.v
Crypto.v
Concrete.v
Seal.v
Cose.v
SupplyChain.v
Grant.v
Capability.v
Kernel.v
Merkle.v
TransLog.v
Sortition.v
Vrf.v
Leader.v
Chain.v
Finality.v
Equivocation.v
Gossip.v
Network.v
Consensus.v
Governance.v
Permit.v
Settlement.v
HbsState.v
Keystore.v
Custody.v
Negative.v
Cnsa.v
Cbom.v
Receipts.v
Attest.v
Separation.v
Node.v
Guard.v
EvmProfile.v
Portable.v
Evm.v
Profile.v
Projection.v
Modular.v
Group.v
ZkRange.v
Membership.v
PolicyProof.v
Suite.v
Accumulator.v
Sloth.v
SeedTree.v
Macaroon.v
SigTree.v
VerifyCli.v
