(* ===== verification/Prelude.v ===== *)
(** * Nerion: a verification development

    Nerion (src/) is an admission layer for autonomous agents: an agent's action
    is admitted by a pure kernel against delegated capabilities, the admission is
    turned into a short-lived permit bound to the action and, for the higher
    tiers, into a signed receipt anchored in an append-only log; a proof-of-stake
    ledger finalizes blocks, governance revokes capabilities, and a disclosure
    layer proves facts about committed amounts.  This library translates the
    TypeScript of that program into Rocq definitions, function by function, and
    proves what makes each part, and the parts together, correct.

    ** Conventions

    A function that may throw returns [res] ([Ok] or [Throw message]); [try]/
    [catch] is [try_catch] or a match.  A method that changes an object and may
    throw half-way returns the object together with the result.  Numbers are
    JavaScript numbers ([JsNum.num]: NaN, infinities, exact dyadics with rounding
    at 53 bits; the 32-bit operators apart), bigints are [Z], [Uint8Array] is
    [list byte], a string is a list of characters of which only ASCII is produced
    by the program, a value handed to the CBOR encoder is [JsVal.jsval].  Each
    record has the fields of the interface it translates, prefixed where two
    interfaces share a name.

    Third-party code is a class: [Crypto.Lib] (cbor2, the hashes, MACs, KDF and
    signatures of @noble, hex helpers), [Vrf.Ed25519], [EvmProfile.Keccak],
    [Group.Group] and [Group.Xof] (ristretto255, SHAKE256), [Group.Random] (the
    CSPRNG as a stream of draws), [Keystore.KeyGen], [Keystore.Sealer] (the custody
    backend), [Seal.SealLib] (KEMs, AES-GCM), [Cose.CborShape] (the shape of
    decoded wire values), [Custody.Platform] (HTTP, clock, JSON, base64).  What a theorem needs of them is a
    second class it takes as an argument: [CborLaws] (encodings are injective up
    to the encoding of parts, decode back, and do not depend on key order),
    [HexLaws], [HashLen], [SigLaws] (a signature verifies), [Ed25519Laws],
    [KeccakLen], [GroupLaws],
    [KeyGenLaws], [AeadSealer], [SealLaws], [PlatformLaws],
    [Custody.KmsService] (what the key service answers to which requests).
    No law says that a hash has no collisions or that a signature cannot be
    forged: where security rests on it, the theorem's conclusion offers a
    collision among the strings that were hashed, which it lists, or names the
    signatures that verified.  Every law
    class has an instance ([Concrete.v] and the ends of the other files), so the
    theorems are not vacuous; witnesses evaluate the model there.

    ** The parts, in the order they build on each other

    - [Prelude], [JsNum], [JsVal]: the error monad, tactics, numbers, data values.
    - [Crypto] (crypto/src: suites, sign, cbor, domains, symmetric, envelope):
      what every other part signs, MACs and encodes with.  [Concrete]: an
      instance of the library.  [Seal] (kem, seal, AEAD): a sealed message
      opens for its recipient, and none of its parts can be exchanged.  [Cose]
      (cose): COSE_Sign1 messages, their wire form, and what a signature binds.
    - [Grant], [Capability] (capabilities/src: grant, capability, resolver): what
      a grant authorizes, exactly; a verified chain never exceeds its root, hence
      no link authorizes what a parent does not; which candidate is chosen.
      [Profile] (profile.ts): manifests, base58btc, did:key.
    - [Kernel] (kernel/src): [decide] admits exactly the requests the policy, a
      resolved capability and the revocation list allow (default deny), is
      antitone in restrictions, and replays.
    - [Merkle], [TransLog] (translog/src): the tree and its two verifiers, sound
      up to a hash collision and complete; the in-memory and the persistent log;
      signed tree heads, append-only checks, split views.
    - [Sortition], [Vrf], [Leader], [Chain] (ledger/src: types, sortition, vrf,
      leader, chain): stakes, leaders, blocks, [verifyFinalized], the ledger.
      [Finality] holds the theorems: a finalized block has its quorum, honest
      runs finalize (with and without VRF leaders), the stored chain is linked
      and each head commits to it.
    - [Equivocation] (equivocation.ts): detection, proofs, slashing; two
      finalized blocks at one height convict a third of the stake.
    - [Gossip], [Network] (gossip.ts): the node's handlers as a state monad with
      events, the bus, reachability of a node by rule induction; a node never
      attests two blocks at a height, stores only what it verified, and two
      nodes that fork hold the evidence; the drain loop terminates.
    - [Consensus]: a voting machine as the specification of the ledger, its
      agreement, and the refinement: a network of nodes under any schedule (and
      the program's own bus) is a run of that machine, so honest nodes agree.
    - [Governance] (governance/src): quorum approval, the revocation registry
      (composed with the kernel: a revoked capability is denied), kill switch.
    - [Permit] (planes/src: permit, caveat): action-bound permits, attenuation.
    - [Settlement], [HbsState] (settlement/src, keystore/src/hbs-state.ts): the
      metering books; one-time indices are never reused.
    - [Keystore] (keystore/src: types, providers, sealing-provider): the key
      providers; the sealing provider as a machine whose steps are calls and
      answers of the backend, in any interleaving, over a heap of secret buffers:
      what is wiped, which blobs load, and that what loads signs.
    - [Custody] (aws-kms, azure-kv, azure-provider, pkcs11, ops/src/env): the
      custody backends as sequential calls of a remote service: SigV4 requests,
      the AAD as encryption context, pinned key versions; the AWS backend
      implements the sealer interface [Keystore] asks for.
    - [Receipts] (receipts/src, disclosure/src/selective.ts): receipts, quorum
      receipts, their verification against the log.
    - [Attest], [Node], [Guard] (attest/src, planes/src/node.ts, sdks/ts/src):
      the composition.  Evidence is appraised into a session, the node admits a
      request with kernel, permit, receipt and log, and the guarded tool runs its
      handler only behind all of them.  [Projection] (vc-projection.ts) renders a
      permit as credentials.
    - [Separation]: the messages the packages sign or MAC as tagged canonical
      CBOR, as one type; two with the same bytes are of one space and say the
      same; the two generations of domain tags.  EVM attestations (a Keccak
      digest), Signature Version 4 and bytes handed to a key provider are outside.
    - [EvmProfile], [Portable] (ledger/src: evmprofile, portable, evm): finality
      for other chains: the keccak commitment and its verifier, the portable
      proof and its JSON form.
    - [Modular], [Group], [ZkRange], [Membership], [PolicyProof] (disclosure/src:
      zkrange, setmembership, policyproof, commitbind): Pedersen commitments over an
      abstract group of prime order, the range, membership and policy proofs:
      completeness; special soundness of the range and membership proofs, with the
      extractor written out: two accepted proofs that asked the random oracle one
      query and got different challenges give an opening of the commitment, in
      range or in the set, or a relation between the generators; what the policy
      verifier checks; binding of digests and of amounts.
    - [SupplyChain], [Cnsa], [Cbom], [Negative] (conformance/src,
      crypto/src/cnsa.ts): signed statements and their profile, CNSA 2.0
      verdicts, the inventory of algorithms and its CycloneDX form, the oracle
      that checks that extra fields cannot change a decision, and that the
      kernel passes it.
    - [Suite] (conformance/src/suite.ts): the program's own 24 conformance
      checks, run over the parts above.  Nine of them are proved to return true
      over every library that satisfies its laws and does not throw on the
      checks' inputs; all of them pass on the concrete one
      ([conformance_passes]).
    - [VerifyCli] (tools/verify-receipt.mjs): the external receipt verifier, which
      takes its trust anchors from outside the bundle.
    - [Accumulator], [Sloth], [SeedTree], [Macaroon], [SigTree] (labs/spikes:
      rev-001, vrf-002, nzk-002, cap-001, led-001): the algorithms the prototypes
      implement.  The sparse Merkle accumulator decides revocation by slots and
      its root commits to them; the delay function verifies, and exactly which
      outputs and proofs its verifier accepts; an opening of the seed tree
      rebuilds all leaves but one and binds them.

    ** Bounds and fuel

    Recursion of the source that is not structural runs on fuel that is shown to
    be enough: the Merkle recursions on the number of entries (the unconditional
    equations [merkleRoot_eq], [inclusionProof_eq], [subproof_eq]), base58 and
    varint digits on the bit length (the round trips), the gossip drain loop on the
    size of the stores ([Network.drain_terminates]).  The verifiers of the tree are proved for trees
    of up to [MAX_TREE_SIZE] leaves, the code's own bound, which keeps the 32-bit
    operators exact.

    ** Not modelled

    Timing; the text of error messages where a comment says so; JavaScript values
    outside the declared TypeScript types, except where the code itself tests for
    them (wire evidence, stakes, caveats).  Strings that are not ASCII (their
    UTF-8 encoding is the identity here).
    Remote services, HTTP, the PKCS#11 token and the process environment are
    parameters; loading a .env file is I/O.  The
    measurements and size models of benchmarks and labs (ker-001, nzk-001 and
    vrf-001 hold little else), the site, the other tools, and the code in other
    languages.

    What modelling showed to be wrong in the code is stated as theorems next to
    the parts (for example [Equivocation.unsigned_copies_hide_equivocation],
    [TransLog.persistent_empty_leaf_lost], [Network.nan_blocks_jam_node],
    [Settlement.grant_throws_after_crediting], [Attest.silent_rejection_accepted],
    [Portable.portable_threshold_untrusted], [Profile.base58_zeros_grow],
    [Sloth.vdf_second_output], [SigTree.repeated_leaf_same_root]). *)
From Stdlib Require Export ZArith Lia Bool Ascii String.
From Stdlib Require Export Strings.Byte.
From stdpp Require Export base gmap sets list strings sorting.
From stdpp Require pretty.

#[export] Set Warnings "-clear-no-such-hyp".

(** ** The error monad

    A TypeScript function that may throw returns [res]: [Ok v] when it returns
    [v], [Throw msg] when it throws an [Error] whose [message] is [msg]. *)
Inductive res (A : Type) : Type :=
| Ok (a : A)
| Throw (msg : string).
Arguments Ok {A} a.
Arguments Throw {A} msg.

#[export] Instance res_ret : MRet res := fun A a => Ok a.
#[export] Instance res_bind : MBind res := fun A B k c =>
  match c with Ok a => k a | Throw e => Throw e end.
#[export] Instance res_fmap : FMap res := fun A B f c =>
  match c with Ok a => Ok (f a) | Throw e => Throw e end.
#[export] Instance res_eq_dec `{EqDecision A} : EqDecision (res A).
Proof. solve_decision. Defined.

(** [try { return c } catch (e) { return h(e.message) }] *)
Definition try_catch {A} (c : res A) (h : string -> A) : A :=
  match c with Ok a => a | Throw e => h e end.

(** [if (b) throw new Error(e)] *)
Definition throw_if (b : bool) (e : string) : res unit :=
  if b then Throw e else Ok tt.

Definition is_ok {A} (c : res A) : bool :=
  match c with Ok _ => true | Throw _ => false end.

Lemma bind_ok {A B} (c : res A) (k : A -> res B) b :
  (c ≫= k) = Ok b -> exists a, c = Ok a /\ k a = Ok b.
Proof. destruct c; cbn; [eauto | discriminate]. Qed.

Lemma Ok_inj {A} (a b : A) : Ok a = Ok b -> a = b.
Proof. congruence. Qed.

Lemma throw_if_ok b e u : throw_if b e = Ok u -> b = false.
Proof. destruct b; cbn; [discriminate | done]. Qed.

Lemma try_catch_true (c : res bool) :
  try_catch c (fun _ => false) = true <-> c = Ok true.
Proof. destruct c as [[]|]; cbn; split; congruence. Qed.

Lemma mapM_ok {A B} (f : A -> res B) l : forall k, mapM f l = Ok k ->
  Forall2 (fun x y => f x = Ok y) l k.
Proof.
  induction l as [|x l IH]; intros k E; cbn in E; [by apply Ok_inj in E as <-|].
  apply bind_ok in E as (y & Ey & E). apply bind_ok in E as (k' & Ek & E).
  apply Ok_inj in E as <-. constructor; auto.
Qed.

(** ** Bytes: the contents of a [Uint8Array] *)
Abbreviation bytes := (list byte).

#[export] Instance byte_eq_dec : EqDecision byte := Byte.byte_eq_dec.

(** ** Boolean reflection used all over the development *)
Create Rewrite HintDb nerion.
#[export] Hint Rewrite andb_true_iff andb_false_iff orb_true_iff orb_false_iff
  negb_true_iff negb_false_iff Z.eqb_eq Z.ltb_lt Z.leb_le Z.eqb_neq Z.ltb_ge
  Z.leb_gt bool_decide_eq_true bool_decide_eq_false forallb_forall : nerion.

(** Turns boolean hypotheses and goals into propositions. *)
Ltac bool_to_prop := autorewrite with nerion in *.
(** Splits the conjunctions a boolean guard produces. *)
Ltac split_hyps := repeat match goal with
  | H : _ /\ _ |- _ => destruct H
  | H : exists _, _ |- _ => destruct H
  end.
(** Takes an early-return chain apart: every [if] that is on the way to the
    result is decided, branches that contradict the hypothesis go. *)
Ltac guards H := repeat (case_match; try discriminate H; try congruence).

(** ** Strings *)
(** [s.endsWith(t)] *)
Fixpoint str_rev_list (s : string) (acc : list ascii) : list ascii :=
  match s with EmptyString => acc | String c s' => str_rev_list s' (c :: acc) end.

Definition ends_with_char (s : string) (c : ascii) : bool :=
  match str_rev_list s [] with
  | d :: _ => bool_decide (d = c)
  | [] => false
  end.

Lemma str_rev_list_app s : forall acc, str_rev_list s acc = rev (list_ascii_of_string s) ++ acc.
Proof. induction s as [|c s IH]; intros acc; cbn; [done|]. by rewrite IH, <- app_assoc. Qed.

Lemma ends_with_char_iff s c : ends_with_char s c = true <-> exists p, s = (p +:+ String c EmptyString)%string.
Proof.
  unfold ends_with_char. rewrite str_rev_list_app, app_nil_r. split.
  - destruct (rev (list_ascii_of_string s)) as [|d l] eqn:E; [done|]. intros ->%bool_decide_eq_true.
    exists (string_of_list_ascii (rev l)). apply (f_equal (@rev ascii)) in E. rewrite rev_involutive in E.
    cbn [rev] in E. rewrite <- (string_of_list_ascii_of_string s), E. clear E.
    induction (rev l) as [|x k IH]; cbn; [done | by apply (f_equal (String x))].
  - intros [p ->]. assert (E : list_ascii_of_string (p +:+ String c EmptyString)%string =
      list_ascii_of_string p ++ [c]).
    { induction p as [|x p IH]; [done|]. by apply (f_equal (cons x)). }
    rewrite E, rev_app_distr. cbn. by apply bool_decide_eq_true.
Qed.

(** Concatenation of strings *)
Lemma app_str_assoc (a b c : string) : ((a +:+ b) +:+ c)%string = (a +:+ (b +:+ c))%string.
Proof. induction a as [|x a IH]; [done | apply (f_equal (String x)), IH]. Qed.

Lemma append_nil_r (s : string) : (s +:+ EmptyString)%string = s.
Proof. induction s as [|x s IH]; [done | apply (f_equal (String x)), IH]. Qed.

(** [c] does not occur in [s]. *)
Definition free_of (c : ascii) (s : string) : Prop := c ∉ list_ascii_of_string s.

Lemma until_char c a : forall b r r', free_of c a -> free_of c b ->
  (a +:+ String c r = b +:+ String c r')%string -> a = b /\ r = r'.
Proof.
  unfold free_of. induction a as [|x a IH]; intros [|y b] r r' Ha Hb E; cbn in *.
  - by injection E as ->.
  - injection E as <- _. by destruct Hb; apply elem_of_cons; left.
  - injection E as -> _. by destruct Ha; apply elem_of_cons; left.
  - injection E as -> E2. apply not_elem_of_cons in Ha as [_ Ha], Hb as [_ Hb].
    by destruct (IH _ _ _ Ha Hb E2) as [-> ->].
Qed.

Lemma same_length_app s : forall t r r', String.length s = String.length t ->
  (s +:+ r = t +:+ r')%string -> s = t /\ r = r'.
Proof.
  induction s as [|x s IH]; intros [|y t] r r' Hl E; cbn in *; try done.
  injection Hl as Hl. injection E as -> E. by destruct (IH _ _ _ Hl E) as [-> ->].
Qed.

(** Decimal digits only: a character that is no digit does not occur. *)
Lemma pretty_go_free c x : (forall d, pretty.pretty_N_char d <> c) ->
  forall s, free_of c s -> free_of c (pretty.pretty_N_go x s).
Proof.
  intros Hc. induction (N.lt_wf_0 x) as [x _ IH]; intros s Hs.
  destruct (N.eq_0_gt_0_cases x) as [->|Hx]; [by rewrite pretty.pretty_N_go_0|].
  rewrite pretty.pretty_N_go_step by done. apply IH; [by apply N.div_lt|].
  unfold free_of. cbn. rewrite not_elem_of_cons. split; [by intros E; apply (Hc (x `mod` 10)%N) | done].
Qed.

Lemma pretty_N_free c (n : N) : (forall d, pretty.pretty_N_char d <> c) ->
  free_of c (pretty.pretty n).
Proof.
  intros Hc. unfold pretty.pretty, pretty.pretty_N. case_match.
  - unfold free_of. cbn. intros E%list_elem_of_singleton. by apply (Hc 0%N).
  - apply pretty_go_free; [done|]. unfold free_of. cbn. by intros ?%elem_of_nil.
Qed.

Lemma pretty_Z_free c (z : Z) : (0 <= z)%Z -> (forall d, pretty.pretty_N_char d <> c) ->
  free_of c (pretty.pretty z).
Proof.
  intros Hz Hc. destruct z as [|p|p]; [| |lia].
  - change (pretty.pretty 0%Z) with (pretty.pretty 0%N). by apply pretty_N_free.
  - change (pretty.pretty (Zpos p)) with (pretty.pretty (Npos p)). by apply pretty_N_free.
Qed.

(** No digit is this character. *)
Ltac no_digit := let d := fresh in intros d; unfold pretty.pretty_N_char;
  repeat (destruct d as [|d]; try discriminate; repeat (destruct d as [d|d|]; try discriminate)).

(** [s.startsWith(p)] *)
Fixpoint starts_with (p s : string) : bool :=
  match p, s with
  | EmptyString, _ => true
  | String c p', String d s' => bool_decide (c = d) && starts_with p' s'
  | String _ _, EmptyString => false
  end.

Lemma starts_with_iff p : forall s, starts_with p s = true <-> exists r, s = (p +:+ r)%string.
Proof.
  induction p as [|c p IH]; intros s; cbn; [split; [eauto | done]|].
  destruct s as [|d s]; cbn; [by split; [|intros (? & [=])]|].
  rewrite andb_true_iff, bool_decide_eq_true, IH. split.
  - intros [-> [r ->]]. eauto.
  - intros [r [= -> ->]]. eauto.
Qed.

(** ** Lists *)
(** First element that satisfies [p] ([Array.prototype.find]). *)
Fixpoint find {A} (p : A -> bool) (l : list A) : option A :=
  match l with
  | [] => None
  | x :: l' => if p x then Some x else find p l'
  end.

Lemma find_some {A} (p : A -> bool) l x : find p l = Some x -> x ∈ l /\ p x = true.
Proof.
  induction l as [|y l IH]; cbn; [discriminate|]. case_match; intros Hx.
  - simplify_eq. split; [left | done].
  - destruct (IH Hx). split; [by right | done].
Qed.

Lemma find_none {A} (p : A -> bool) l : find p l = None <-> forall x, x ∈ l -> p x = false.
Proof.
  induction l as [|y l IH]; cbn; [set_solver|]. case_match.
  - split; [discriminate|]. intros Hx. rewrite (Hx y) in *; [done | left].
  - rewrite IH. set_solver.
Qed.

(** [l.includes(x)] *)
Definition includes `{EqDecision A} (l : list A) (x : A) : bool :=
  bool_decide (x ∈ l).

Lemma includes_spec `{EqDecision A} (l : list A) x : includes l x = true <-> x ∈ l.
Proof. unfold includes. apply bool_decide_eq_true. Qed.
#[export] Hint Rewrite @includes_spec : nerion.

(** A list whose keys are distinct has one element per key. *)
Lemma nodup_map_eq {A B} (f : A -> B) l x y :
  NoDup (map f l) -> x ∈ l -> y ∈ l -> f x = f y -> x = y.
Proof.
  induction l as [|z l IH]; [by intros _ ?%elem_of_nil|]. cbn [map].
  intros N Hx Hy E. inversion_clear N as [|? ? Nz N'].
  apply elem_of_cons in Hx as [->|Hx], Hy as [->|Hy]; [done| | |by apply IH].
  - destruct Nz. rewrite E. by apply (list_elem_of_fmap_2 f).
  - destruct Nz. rewrite <- E. by apply (list_elem_of_fmap_2 f).
Qed.
