(* ===== verification/JsNum.v ===== *)
(** * JavaScript numbers

    The numeric type of the program is IEEE-754 binary64.  A finite number is
    the dyadic rational [m / 2^k] ([Fin m k]); comparisons are exact on the
    values, addition and subtraction round to nearest, ties to even, at 53 bits
    of significand and overflow to an infinity.  [-0] is not told apart from
    [0]: no operation of the modelled code can see the difference.  The second
    half of the file holds the 32-bit integer operators ([|], [^], [>>], [<<],
    [&] on numbers) that the Merkle verifier uses. *)
From S2P Require Import Prelude.
Open Scope Z_scope.

Inductive num : Type :=
| NaN
| Inf (neg : bool)
| Fin (m : Z) (k : N).

#[export] Instance num_eq_dec : EqDecision num.
Proof. solve_decision. Defined.

(** An integer literal. *)
Definition Int (z : Z) : num := Fin z 0.

Definition pow2 (k : N) : Z := 2 ^ Z.of_N k.

Lemma pow2_pos k : 0 < pow2 k.
Proof. unfold pow2. lia. Qed.
#[export] Hint Resolve pow2_pos : core.

(** [a < b], [a <= b], [a === b] *)
Definition num_ltb (a b : num) : bool :=
  match a, b with
  | NaN, _ | _, NaN => false
  | Inf s, Inf t => s && negb t
  | Inf s, Fin _ _ => s
  | Fin _ _, Inf t => negb t
  | Fin m k, Fin n l => m * pow2 l <? n * pow2 k
  end.

Definition num_eqb (a b : num) : bool :=
  match a, b with
  | NaN, _ | _, NaN => false
  | Inf s, Inf t => Bool.eqb s t
  | Fin m k, Fin n l => m * pow2 l =? n * pow2 k
  | _, _ => false
  end.

Definition num_leb (a b : num) : bool := num_ltb a b || num_eqb a b.

Definition isFinite (a : num) : bool :=
  match a with Fin _ _ => true | _ => false end.

(** [Number.isInteger] and [Number.isSafeInteger] *)
Definition isInteger (a : num) : bool :=
  match a with Fin m k => m mod pow2 k =? 0 | _ => false end.

Definition MAX_SAFE : Z := 2 ^ 53 - 1.

(** The value of a number that is an integer. *)
Definition num_Z (a : num) : Z :=
  match a with Fin m k => m / pow2 k | _ => 0 end.

Definition isSafeInteger (a : num) : bool :=
  isInteger a && (- MAX_SAFE <=? num_Z a) && (num_Z a <=? MAX_SAFE).

(** *** Rounding *)
(** [m / 2^d] rounded to the nearest integer, ties to even. *)
Definition round_half_even (m d : Z) : Z :=
  let q := m / 2 ^ d in
  let r := m mod 2 ^ d in
  let h := 2 ^ (d - 1) in
  if r <? h then q
  else if h <? r then q + 1
  else if Z.even q then q else q + 1.

(** The binary64 number nearest to [m / 2^k]. *)
Definition round53 (m : Z) (k : N) : num :=
  let bits := Z.log2 (Z.abs m) + 1 in
  if bits <=? 53 then Fin m k
  else
    let d := bits - 53 in
    let r := round_half_even m d * 2 ^ d in
    if 2 ^ 1024 * pow2 k <=? Z.abs r then Inf (r <? 0) else Fin r k.

Definition num_neg (a : num) : num :=
  match a with NaN => NaN | Inf s => Inf (negb s) | Fin m k => Fin (- m) k end.

Definition num_add (a b : num) : num :=
  match a, b with
  | NaN, _ | _, NaN => NaN
  | Inf s, Inf t => if Bool.eqb s t then Inf s else NaN
  | Inf s, _ => Inf s
  | _, Inf t => Inf t
  | Fin m k, Fin n l => round53 (m * pow2 l + n * pow2 k) (k + l)
  end.

Definition num_sub (a b : num) : num := num_add a (num_neg b).

(** [Math.min], [Math.max] *)
Definition num_min (a b : num) : num :=
  match a, b with
  | NaN, _ | _, NaN => NaN
  | _, _ => if num_ltb b a then b else a
  end.
Definition num_max (a b : num) : num :=
  match a, b with
  | NaN, _ | _, NaN => NaN
  | _, _ => if num_ltb a b then b else a
  end.

(** ** Numbers with the same value

    [Fin 2 1] and [Fin 1 0] are the same number; [≡] is equality of values and
    the observations of a number respect it. *)
#[export] Instance num_equiv : Equiv num := fun a b =>
  match a, b with
  | NaN, NaN => True
  | Inf s, Inf t => s = t
  | Fin m k, Fin n l => m * pow2 l = n * pow2 k
  | _, _ => False
  end.

#[export] Instance num_equivalence : Equivalence (≡@{num}).
Proof.
  split.
  - intros [|s|m k]; cbn; done.
  - intros [|s|m k] [|t|n l]; cbn; done.
  - intros [|s|m k] [|t|n l] [|u|p q]; cbn; try done; [congruence|].
    intros H1 H2. pose proof (pow2_pos l).
    apply Z.mul_reg_r with (pow2 l); [lia|].
    transitivity (n * pow2 k * pow2 q); [rewrite <- H1; ring|].
    transitivity (n * pow2 q * pow2 k); [ring|]. rewrite H2. ring.
Qed.

Lemma cross_lt (m n a b c d : Z) (m' n' : Z) :
  0 < a -> 0 < b -> 0 < c -> 0 < d ->
  m * c = m' * a -> n * d = n' * b -> (m * b < n * a <-> m' * d < n' * c).
Proof.
  intros Ha Hb Hc Hd E F.
  rewrite (Z.mul_lt_mono_pos_r (c * d)) by nia.
  rewrite (Z.mul_lt_mono_pos_r (a * b) (m' * d)) by nia.
  replace (m * b * (c * d)) with (m * c * (b * d)) by ring.
  replace (n * a * (c * d)) with (n * d * (a * c)) by ring.
  rewrite E, F. by replace (m' * a * (b * d)) with (m' * d * (a * b)) by ring;
  replace (n' * b * (a * c)) with (n' * c * (a * b)) by ring.
Qed.

#[export] Instance num_ltb_proper : Proper ((≡) ==> (≡) ==> (=)) num_ltb.
Proof.
  intros [|s|m k] [|s'|m' k'] E [|t|n l] [|t'|n' l'] F; cbn in *; try done;
    try congruence.
  apply Bool.eq_iff_eq_true. rewrite !Z.ltb_lt. apply cross_lt; auto.
Qed.

#[export] Instance num_eqb_proper : Proper ((≡) ==> (≡) ==> (=)) num_eqb.
Proof.
  intros [|s|m k] [|s'|m' k'] E [|t|n l] [|t'|n' l'] F; cbn in *; try done;
    try congruence.
  apply Bool.eq_iff_eq_true. rewrite !Z.eqb_eq.
  pose proof (cross_lt m n (pow2 k) (pow2 l) (pow2 k') (pow2 l') m' n').
  pose proof (cross_lt n m (pow2 l) (pow2 k) (pow2 l') (pow2 k') n' m').
  pose proof (pow2_pos k); pose proof (pow2_pos l).
  pose proof (pow2_pos k'); pose proof (pow2_pos l'). lia.
Qed.

#[export] Instance num_leb_proper : Proper ((≡) ==> (≡) ==> (=)) num_leb.
Proof. intros a a' Ha b b' Hb. unfold num_leb. by rewrite Ha, Hb. Qed.

(** A number that is an integer is [≡] to the literal of its value. *)
Lemma isInteger_equiv a : isInteger a = true -> a ≡ Int (num_Z a).
Proof.
  destruct a as [|s|m k]; cbn; try discriminate. rewrite Z.eqb_eq. intros H.
  pose proof (pow2_pos k). change (pow2 0) with 1.
  pose proof (Z.div_mod m (pow2 k)). lia.
Qed.

Lemma num_Z_equiv a z : a ≡ Int z -> num_Z a = z /\ isInteger a = true.
Proof.
  destruct a as [|s|m k]; cbn; try done. change (pow2 0) with 1.
  rewrite Z.mul_1_r. intros ->. rewrite Z.eqb_eq, Z.div_mul, Z.mod_mul; auto;
  pose proof (pow2_pos k); lia.
Qed.

(** The safe integers: what the guards of the program let through. *)
Lemma isSafeInteger_spec a :
  isSafeInteger a = true <-> a ≡ Int (num_Z a) /\ - MAX_SAFE <= num_Z a <= MAX_SAFE.
Proof.
  unfold isSafeInteger. bool_to_prop. split.
  - intros [[H ?] ?]. split; [by apply isInteger_equiv | lia].
  - intros [H ?]. apply num_Z_equiv in H as [_ H]. tauto.
Qed.

Lemma isSafeInteger_Int z : isSafeInteger (Int z) = (- MAX_SAFE <=? z) && (z <=? MAX_SAFE).
Proof.
  unfold isSafeInteger, Int, isInteger, num_Z, pow2. cbn [Z.of_N].
  by rewrite Z.pow_0_r, Z.mod_1_r, Z.div_1_r.
Qed.

Lemma num_ltb_Int x y : num_ltb (Int x) (Int y) = (x <? y).
Proof. cbn. by rewrite !Z.mul_1_r. Qed.
Lemma num_eqb_Int x y : num_eqb (Int x) (Int y) = (x =? y).
Proof. cbn. by rewrite !Z.mul_1_r. Qed.
Lemma num_leb_Int x y : num_leb (Int x) (Int y) = (x <=? y).
Proof. unfold num_leb. rewrite num_ltb_Int, num_eqb_Int. lia. Qed.

Lemma isInteger_Int x : isInteger (Int x) = true.
Proof. apply (num_Z_equiv _ x). done. Qed.
Lemma num_Z_Int x : num_Z (Int x) = x.
Proof. apply (num_Z_equiv _ x). done. Qed.

(** On integers the comparisons are those of [Z]. *)
Lemma num_ltb_Z a b : isInteger a = true -> isInteger b = true ->
  num_ltb a b = (num_Z a <? num_Z b).
Proof.
  intros Ha Hb. rewrite (isInteger_equiv a Ha), (isInteger_equiv b Hb) at 1.
  apply num_ltb_Int.
Qed.
Lemma num_eqb_Z a b : isInteger a = true -> isInteger b = true ->
  num_eqb a b = (num_Z a =? num_Z b).
Proof.
  intros Ha Hb. rewrite (isInteger_equiv a Ha), (isInteger_equiv b Hb) at 1.
  apply num_eqb_Int.
Qed.
Lemma num_leb_Z a b : isInteger a = true -> isInteger b = true ->
  num_leb a b = (num_Z a <=? num_Z b).
Proof.
  intros Ha Hb. unfold num_leb. rewrite num_ltb_Z, num_eqb_Z by done. lia.
Qed.

(** ** Addition on the safe integers *)
Lemma round53_small z : Z.abs z < 2 ^ 53 -> round53 z 0 = Int z.
Proof.
  intros H. unfold round53. rewrite (proj2 (Z.leb_le _ _)); [done|].
  destruct (Z.eq_dec z 0) as [->|]; [by vm_compute|].
  assert (Z.log2 (Z.abs z) < 53); [|lia]. apply Z.log2_lt_pow2; lia.
Qed.

Lemma num_add_Int x y : Z.abs (x + y) < 2 ^ 53 -> num_add (Int x) (Int y) = Int (x + y).
Proof.
  intros H. cbn. change (pow2 0) with 1. rewrite !Z.mul_1_r. by apply round53_small.
Qed.

(** A sum of two non-negative safe integers may round, but never to or below a
    safe bound that the exact sum exceeds. *)
Lemma round53_above z c :
  2 ^ 53 <= z < 2 ^ 54 -> c <= MAX_SAFE -> num_ltb (Int c) (round53 z 0) = true.
Proof.
  intros Hz Hc. unfold round53. replace (Z.abs z) with z by lia.
  assert (Z.log2 z = 53) as -> by (apply Z.log2_unique; lia).
  change (53 + 1 <=? 53) with false. cbv zeta. change (53 + 1 - 53) with 1.
  assert (Hq : 2 ^ 52 <= z / 2 ^ 1 < 2 ^ 53).
  { change (2 ^ 1) with 2. split; [apply Z.div_le_lower_bound | apply Z.div_lt_upper_bound]; lia. }
  assert (Hr : 2 ^ 52 <= round_half_even z 1 <= 2 ^ 53).
  { unfold round_half_even. repeat case_match; lia. }
  change (2 ^ 1) with 2. unfold pow2 at 1. cbn [Z.of_N]. rewrite Z.pow_0_r, Z.mul_1_r.
  rewrite (proj2 (Z.leb_gt _ _)); [|].
  - change (num_ltb (Int c) (Int (round_half_even z 1 * 2)) = true).
    rewrite num_ltb_Int. unfold MAX_SAFE in *. lia.
  - assert (2 ^ 55 < 2 ^ 1024) by (apply Z.pow_lt_mono_r; lia). lia.
Qed.

(** The cap test [a + b > c] of the program is exact on non-negative safe
    integers even where the sum leaves the safe range. *)
Lemma num_add_gt x y c :
  0 <= x <= MAX_SAFE -> 0 <= y <= MAX_SAFE -> c <= MAX_SAFE ->
  num_ltb (Int c) (num_add (Int x) (Int y)) = (c <? x + y).
Proof.
  intros Hx Hy Hc. unfold MAX_SAFE in *. destruct (Z.lt_ge_cases (x + y) (2 ^ 53)).
  - rewrite num_add_Int by lia. apply num_ltb_Int.
  - cbn [num_add Int]. change (pow2 0) with 1. rewrite !Z.mul_1_r, (proj2 (Z.ltb_lt c _)) by lia.
    change (0 + 0)%N with 0%N. apply round53_above; unfold MAX_SAFE; lia.
Qed.

(** *** Addition depends on the values only *)
Lemma round_half_even_scale m d j : 0 < d -> 0 <= j ->
  round_half_even (m * 2 ^ j) (d + j) = round_half_even m d.
Proof.
  intros Hd Hj. unfold round_half_even.
  replace (d + j - 1) with (d - 1 + j) by lia. rewrite !Z.pow_add_r by lia.
  assert (0 < 2 ^ j /\ 0 < 2 ^ d) as [Pj Pd] by lia.
  rewrite Z.div_mul_cancel_r, Z.mul_mod_distr_r by lia.
  set (q := m / 2 ^ d). set (r := m mod 2 ^ d). set (h := 2 ^ (d - 1)).
  destruct (Z.ltb_spec r h), (Z.ltb_spec (r * 2 ^ j) (h * 2 ^ j)); try nia.
  destruct (Z.ltb_spec h r), (Z.ltb_spec (h * 2 ^ j) (r * 2 ^ j)); nia.
Qed.

Lemma round_half_even_exact m d : 0 < d -> round_half_even (m * 2 ^ d) d = m.
Proof.
  intros Hd. unfold round_half_even. rewrite Z.div_mul, Z.mod_mul by lia.
  case_match eqn:E; [done|]. apply Z.ltb_ge in E.
  assert (0 < 2 ^ (d - 1)) by lia. lia.
Qed.

Lemma log2_scale m j : 0 <= j -> m <> 0 -> Z.log2 (Z.abs (m * 2 ^ j)) = Z.log2 (Z.abs m) + j.
Proof.
  intros Hj Hm. rewrite Z.abs_mul, (Z.abs_eq (2 ^ j)) by lia.
  rewrite Z.log2_mul_pow2 by lia. lia.
Qed.

Lemma pow2_add k j : pow2 (k + j) = pow2 k * pow2 j.
Proof. unfold pow2. rewrite N2Z.inj_add, Z.pow_add_r by lia. done. Qed.

Lemma round53_scale m k j : round53 (m * pow2 j) (k + j) ≡ round53 m k.
Proof.
  destruct (Z.eq_dec m 0) as [->|Hm]; [by rewrite Z.mul_0_l|].
  pose proof (pow2_pos k) as Pk. pose proof (pow2_pos j) as Pj.
  assert (HB : Z.log2 (Z.abs (m * pow2 j)) = Z.log2 (Z.abs m) + Z.of_N j)
    by (unfold pow2; apply log2_scale; lia).
  unfold round53. rewrite !HB, pow2_add. cbv zeta. clear HB.
  pose proof (Z.log2_spec (Z.abs m) ltac:(lia)) as [_ Hlog].
  set (b := Z.log2 (Z.abs m)) in *. assert (0 <= b) by apply Z.log2_nonneg.
  destruct (Z.leb_spec (b + Z.of_N j + 1) 53).
  { rewrite (proj2 (Z.leb_le (b + 1) 53)) by lia. cbn. rewrite pow2_add.
    unfold pow2. lia. }
  destruct (Z.leb_spec (b + 1) 53).
  - set (d := b + Z.of_N j + 1 - 53).
    assert (Hj : pow2 j = 2 ^ (53 - (b + 1)) * 2 ^ d)
      by (unfold pow2, d; rewrite <- Z.pow_add_r by lia; f_equal; lia).
    assert (Hr : round_half_even (m * pow2 j) d * 2 ^ d = m * pow2 j).
    { rewrite Hj, Z.mul_assoc, round_half_even_exact; unfold d; lia. }
    rewrite Hr, (proj2 (Z.leb_gt _ _)); [cbn; rewrite pow2_add; ring|].
    rewrite Z.abs_mul, (Z.abs_eq (pow2 j)) by lia. apply Z.lt_le_trans with (2 ^ 53 * pow2 j).
    + apply Z.mul_lt_mono_pos_r; [lia|]. apply Z.lt_le_trans with (2 ^ Z.succ b); [done|].
      apply Z.pow_le_mono_r; lia.
    + rewrite Z.mul_assoc. apply Z.mul_le_mono_nonneg_r; [lia|].
      assert (2 ^ 53 <= 2 ^ 1024) by (apply Z.pow_le_mono_r; lia). nia.
  - set (d := b + 1 - 53). replace (b + Z.of_N j + 1 - 53) with (d + Z.of_N j) by lia.
    set (r := round_half_even m d * 2 ^ d).
    assert (Hr : round_half_even (m * pow2 j) (d + Z.of_N j) * 2 ^ (d + Z.of_N j) = r * pow2 j).
    { unfold pow2, r. rewrite round_half_even_scale, Z.pow_add_r; unfold d; lia. }
    rewrite Hr, Z.abs_mul, (Z.abs_eq (pow2 j)), Z.mul_assoc by lia.
    replace (r * pow2 j <? 0) with (r <? 0) by nia.
    destruct (Z.leb_spec (2 ^ 1024 * pow2 k) (Z.abs r));
    destruct (Z.leb_spec (2 ^ 1024 * pow2 k * pow2 j) (Z.abs r * pow2 j)); try nia; [done|].
    cbn. rewrite pow2_add. ring.
Qed.

#[export] Instance num_add_proper : Proper ((≡) ==> (≡) ==> (≡)) num_add.
Proof.
  intros [|s|m k] [|s'|m' k'] E [|t|n l] [|t'|n' l'] F; cbn [num_add]; try done;
    cbn in E, F; subst; try done.
  rewrite <- (round53_scale _ (k + l) (k' + l')), <- (round53_scale _ (k' + l') (k + l)).
  rewrite (N.add_comm (k' + l') (k + l)), !pow2_add.
  match goal with |- round53 ?x _ ≡ round53 ?y _ => replace x with y; [done|] end.
  transitivity (m' * pow2 k * (pow2 l * pow2 l') + n' * pow2 l * (pow2 k * pow2 k')); [ring|].
  rewrite <- E, <- F. ring.
Qed.

(** The cap test on safe integers in any representation. *)
Lemma num_add_gt_Z a b c :
  isSafeInteger a = true -> isSafeInteger b = true -> isSafeInteger c = true ->
  0 <= num_Z a -> 0 <= num_Z b ->
  num_ltb c (num_add a b) = (num_Z c <? num_Z a + num_Z b).
Proof.
  rewrite !isSafeInteger_spec. intros [Ha ?] [Hb ?] [Hc ?] ??.
  rewrite Ha, Hb, Hc at 1. apply num_add_gt; lia.
Qed.

(** ** The 32-bit integer operators

    On a number that is an integer, [ToInt32] keeps the low 32 bits and reads
    them as two's complement; shift counts are taken modulo 32. *)
Definition to_int32 (z : Z) : Z :=
  let r := z mod 2 ^ 32 in if r <? 2 ^ 31 then r else r - 2 ^ 32.

Definition xor32 (a b : Z) : Z := Z.lxor (to_int32 a) (to_int32 b).
Definition and32 (a b : Z) : Z := Z.land (to_int32 a) (to_int32 b).
Definition shr32 (a k : Z) : Z := Z.shiftr (to_int32 a) (k mod 32).
Definition shl32 (a k : Z) : Z := to_int32 (Z.shiftl (to_int32 a) (k mod 32)).

Lemma to_int32_id z : - 2 ^ 31 <= z < 2 ^ 31 -> to_int32 z = z.
Proof.
  intros H. unfold to_int32. destruct (Z.lt_ge_cases z 0).
  - rewrite <- (Z.mod_unique z (2 ^ 32) (-1) (z + 2 ^ 32)) by lia.
    rewrite (proj2 (Z.ltb_ge _ _)) by lia. lia.
  - by rewrite Z.mod_small, (proj2 (Z.ltb_lt _ _)) by lia.
Qed.
