(* ===== verification/JsVal.v ===== *)
(** * JavaScript data values, sorting and hex decoding

    [jsval] is the data a value handed to the CBOR encoder can hold; every
    record of the model that the program hashes or signs has a translation to
    it that lists the fields in the order the source builds them.  The file
    also holds the small parts of the JavaScript run time that the modelled
    code uses on arrays and strings: the stable [Array.prototype.sort], string
    order, [parseInt(_, 16)] on two characters, the big-endian bytes of a bigint,
    [TextEncoder]. *)
From S2P Require Import Prelude JsNum.
Open Scope Z_scope.

(** A key of a [Map]. *)
Inductive mapkey := KNum (n : num) | KStr (s : string).

#[local] Unset Elimination Schemes.
Inductive jsval : Type :=
| VUndef
| VNull
| VBool (b : bool)
| VNum (n : num)
| VBig (z : Z)
| VStr (s : string)
| VBytes (b : bytes)
| VArr (l : list jsval)
| VObj (fs : list (string * jsval))
| VMap (es : list (mapkey * jsval)).
#[local] Set Elimination Schemes.

(** Induction that reaches the elements of arrays, objects and maps. *)
Section jsval_ind.
Context (P : jsval -> Prop)
  (HUndef : P VUndef) (HNull : P VNull) (HBool : forall b, P (VBool b))
  (HNum : forall n, P (VNum n)) (HBig : forall z, P (VBig z))
  (HStr : forall s, P (VStr s)) (HBytes : forall b, P (VBytes b))
  (HArr : forall l, Forall P l -> P (VArr l))
  (HObj : forall fs, Forall (fun kv => P kv.2) fs -> P (VObj fs))
  (HMap : forall es, Forall (fun kv => P kv.2) es -> P (VMap es)).

Fixpoint jsval_ind (v : jsval) : P v :=
  match v with
  | VUndef => HUndef
  | VNull => HNull
  | VBool b => HBool b
  | VNum n => HNum n
  | VBig z => HBig z
  | VStr s => HStr s
  | VBytes b => HBytes b
  | VArr l => HArr l ((fix go l : Forall P l :=
      match l with
      | [] => Forall_nil_2 _
      | x :: l' => Forall_cons_2 _ _ _ (jsval_ind x) (go l')
      end) l)
  | VObj fs => HObj fs ((fix go fs : Forall (fun kv => P kv.2) fs :=
      match fs with
      | [] => Forall_nil_2 _
      | kv :: fs' => Forall_cons_2 (fun kv => P kv.2) kv fs' (jsval_ind kv.2) (go fs')
      end) fs)
  | VMap es => HMap es ((fix go es : Forall (fun kv => P kv.2) es :=
      match es with
      | [] => Forall_nil_2 _
      | kv :: es' => Forall_cons_2 (fun kv => P kv.2) kv es' (jsval_ind kv.2) (go es')
      end) es)
  end.
End jsval_ind.

(** [x ?? null] for an optional field; [...(x !== undefined ? {k: x} : {})]. *)
Definition or_null {A} (f : A -> jsval) (o : option A) : jsval :=
  match o with Some a => f a | None => VNull end.
Definition field_if {A} (k : string) (f : A -> jsval) (o : option A) : list (string * jsval) :=
  match o with Some a => [(k, f a)] | None => [] end.
Definition VStrs (l : list string) : jsval := VArr (map VStr l).

(** ** Strings *)
(** [a < b] on strings: lexicographic on the code units. *)
Definition str_ltb (a b : string) : bool :=
  match String.compare a b with Lt => true | _ => false end.

(** The text of [s] between double quotes, as template literals print it. *)
Definition quoted (s : string) : string :=
  let q := String (ascii_of_nat 34) EmptyString in (q +:+ s +:+ q)%string.

(** [s.slice(0, n)] *)
Definition str_take (n : nat) (s : string) : string := String.substring 0 n s.

(** ** [Array.prototype.sort]: stable, with the order "x before y" *)
Section sort.
Context {A : Type} (ltb : A -> A -> bool).

Fixpoint insert_sorted (x : A) (l : list A) : list A :=
  match l with
  | [] => [x]
  | y :: l' => if ltb y x then y :: insert_sorted x l' else x :: l
  end.
Definition js_sort (l : list A) : list A := foldr insert_sorted [] l.

Lemma insert_sorted_perm x l : insert_sorted x l ≡ₚ x :: l.
Proof.
  induction l as [|y l IH]; cbn; [done|]. case_match; [|done].
  rewrite IH. by rewrite Permutation_swap.
Qed.

Lemma js_sort_perm l : js_sort l ≡ₚ l.
Proof.
  induction l as [|x l IH]; cbn; [done|]. by rewrite insert_sorted_perm, IH.
Qed.

Definition sorted_ltb : relation A := fun x y => ltb y x = false.

Context (Htrans : forall x y z, ltb y x = false -> ltb z y = false -> ltb z x = false)
        (Hasym : forall x y, ltb x y = true -> ltb y x = false).

Lemma insert_sorted_sorted x l :
  StronglySorted sorted_ltb l -> StronglySorted sorted_ltb (insert_sorted x l).
Proof.
  induction 1 as [|y l Hl IH Hy]; cbn; [by repeat constructor|].
  case_match eqn:E.
  - constructor; [done|]. rewrite Forall_forall in *. intros z.
    rewrite insert_sorted_perm, elem_of_cons. intros [->|Hz]; [by apply Hasym | auto].
  - constructor; [by constructor|]. constructor; [done|].
    rewrite Forall_forall in *. intros z Hz. apply (Htrans x y z); [done|].
    by apply Hy.
Qed.

Lemma js_sort_sorted l : StronglySorted sorted_ltb (js_sort l).
Proof.
  induction l as [|x l IH]; cbn; [constructor|]. by apply insert_sorted_sorted.
Qed.
End sort.

(** *** String order *)
Lemma str_ltb_compare a b : str_ltb a b = true <-> String.compare a b = Lt.
Proof. unfold str_ltb. destruct (String.compare a b); naive_solver. Qed.

Lemma ascii_compare a b : Ascii.compare a b = N.compare (N_of_ascii a) (N_of_ascii b).
Proof. done. Qed.

Lemma str_ltb_irrefl a : str_ltb a a = false.
Proof.
  unfold str_ltb. induction a as [|c a IH]; cbn; [done|].
  by rewrite ascii_compare, N.compare_refl.
Qed.

Lemma str_ltb_trans a : forall b c, str_ltb a b = true -> str_ltb b c = true -> str_ltb a c = true.
Proof.
  setoid_rewrite str_ltb_compare. induction a as [|x a IH]; intros [|y b] [|z c]; cbn; try done.
  rewrite !ascii_compare.
  destruct (N.compare_spec (N_of_ascii x) (N_of_ascii y)),
    (N.compare_spec (N_of_ascii y) (N_of_ascii z)),
    (N.compare_spec (N_of_ascii x) (N_of_ascii z)); try done; try lia. apply IH.
Qed.

Lemma str_ltb_total a : forall b, str_ltb a b = false -> str_ltb b a = false -> a = b.
Proof.
  unfold str_ltb. induction a as [|x a IH]; intros [|y b]; cbn; try done.
  rewrite !ascii_compare.
  destruct (N.compare_spec (N_of_ascii x) (N_of_ascii y)) as [E|E|E],
    (N.compare_spec (N_of_ascii y) (N_of_ascii x)) as [F|F|F]; try done; try lia.
  intros H1 H2. rewrite (IH b H1 H2). f_equal.
  rewrite <- (ascii_N_embedding x), <- (ascii_N_embedding y). by rewrite E.
Qed.

Lemma str_leb_trans a b c : str_ltb b a = false -> str_ltb c b = false -> str_ltb c a = false.
Proof.
  intros H1 H2. apply not_true_iff_false. intros H3.
  destruct (str_ltb a b) eqn:E; [|destruct (str_ltb b c) eqn:F].
  - rewrite (str_ltb_trans c a b H3 E) in H2. done.
  - rewrite (str_ltb_trans b c a F H3) in H1. done.
  - rewrite (str_ltb_total a b E H1) in H3. congruence.
Qed.

(** *** Sorting by a string key *)
Section sort_by.
Context {A : Type} (key : A -> string).

Definition by_key (a b : A) : bool := str_ltb (key a) (key b).

Lemma sort_by_sorted l : StronglySorted (sorted_ltb by_key) (js_sort by_key l).
Proof.
  apply js_sort_sorted; unfold by_key.
  - intros x y z. apply str_leb_trans.
  - intros x y H. apply not_true_iff_false. intros H'.
    pose proof (str_ltb_trans _ _ _ H H') as F. by rewrite str_ltb_irrefl in F.
Qed.

(** Sorting items with distinct keys does not depend on the order they came in. *)
Lemma sort_by_perm vs ws : NoDup (map key vs) -> vs ≡ₚ ws ->
  js_sort by_key vs = js_sort by_key ws.
Proof.
  intros Hn Hp. apply (StronglySorted_unique_strong (sorted_ltb by_key)).
  - intros x y Hx Hy H1 H2. rewrite js_sort_perm in Hx, Hy. rewrite <- Hp in Hy.
    apply (nodup_map_eq key vs); [done..|]. by apply str_ltb_total.
  - apply sort_by_sorted.
  - apply sort_by_sorted.
  - by rewrite !js_sort_perm.
Qed.

(** A sorted list is left as it is; a map that keeps the key commutes. *)
Lemma sort_by_idem l : js_sort by_key (js_sort by_key l) = js_sort by_key l.
Proof.
  generalize (js_sort by_key l), (sort_by_sorted l). induction 1 as [|x k _ IH Hx]; [done|].
  change (insert_sorted by_key x (js_sort by_key k) = x :: k). rewrite IH. destruct Hx as [|y k E _]; cbn; [done|]. by rewrite E.
Qed.
Lemma sort_by_map (f : A -> A) l : (forall x, key (f x) = key x) ->
  js_sort by_key (map f l) = map f (js_sort by_key l).
Proof.
  intros K. assert (I : forall x l, insert_sorted by_key (f x) (map f l) = map f (insert_sorted by_key x l)).
  { intros x. induction l0 as [|y m IH]; cbn; [done|].
    assert (by_key (f y) (f x) = by_key y x) as -> by (unfold by_key; by rewrite !K).
    destruct (by_key y x); cbn; [by rewrite IH | done]. }
  unfold js_sort. induction l as [|x l IH]; cbn; [done|]. by rewrite IH, I.
Qed.
End sort_by.

(** ** Property access *)
(** [v[k]]: [None] is [undefined]; only the literal objects of the model have
    fields. *)
Definition get (v : jsval) (k : string) : option jsval :=
  match v with
  | VObj fs => snd <$> find (fun kv => String.eqb kv.1 k) fs
  | _ => None
  end.

(** ** Substrings *)
(** [s.toUpperCase()] on ASCII *)
Definition upper_char (c : ascii) : ascii :=
  let n := nat_of_ascii c in
  if ((97 <=? n) && (n <=? 122))%nat then ascii_of_nat (n - 32) else c.
Fixpoint to_upper (s : string) : string :=
  match s with EmptyString => EmptyString | String c s' => String (upper_char c) (to_upper s') end.

(** [s.includes(sub)] on strings *)
Fixpoint contains (s sub : string) : bool :=
  starts_with sub s || match s with EmptyString => false | String _ s' => contains s' sub end.

Lemma contains_iff s sub : contains s sub = true <-> exists a b, s = (a +:+ sub +:+ b)%string.
Proof.
  induction s as [|c s IH]; cbn [contains]; rewrite orb_true_iff, starts_with_iff.
  - split; [intros [[r E]|[=]]; by exists EmptyString, r|].
    intros ([|x a] & b & E); [left; by exists b | done].
  - rewrite IH. split.
    + intros [[r E]|(a & b & ->)]; [by exists EmptyString, r | by exists (String c a), b].
    + intros ([|x a] & b & E); [left; by exists b|]. injection E as -> ->. right. by exists a, b.
Qed.

(** [l.join(sep)] *)
Fixpoint join_with (sep : string) (l : list string) : string :=
  match l with
  | [] => EmptyString
  | [x] => x
  | x :: l' => (x +:+ sep +:+ join_with sep l')%string
  end.

(** ** Hex digits: [parseInt(two characters, 16)] stored into a [Uint8Array] *)
Definition hex_digit (c : ascii) : option Z :=
  let n := Z.of_nat (nat_of_ascii c) in
  if (48 <=? n) && (n <=? 57) then Some (n - 48)
  else if (97 <=? n) && (n <=? 102) then Some (n - 87)
  else if (65 <=? n) && (n <=? 70) then Some (n - 55)
  else None.

(** White space that [parseInt] skips (code units below 256). *)
Definition is_js_space (c : ascii) : bool :=
  let n := nat_of_ascii c in
  bool_decide (n ∈ [9; 10; 11; 12; 13; 32; 160]%nat).

(** [parseInt(s, 16)] on at most two characters; [None] is [NaN]. *)
Definition parse_hex (s : list ascii) : option Z :=
  match s with
  | [c; d] =>
      match hex_digit c, hex_digit d with
      | Some x, Some y => Some (16 * x + y)
      | Some x, None => Some x
      | None, Some y =>
          if is_js_space c || bool_decide (c = "+"%char) then Some y
          else if bool_decide (c = "-"%char) then Some (- y) else None
      | None, None => None
      end
  | [c] => hex_digit c
  | _ => None
  end.

Definition byte_of_Z (z : Z) : byte :=
  match Byte.of_N (Z.to_N (z mod 256)) with Some b => b | None => x00 end.

Definition Z_of_byte (b : byte) : Z := Z.of_N (Byte.to_N b).

Lemma Z_of_byte_of_Z z : Z_of_byte (byte_of_Z z) = z mod 256.
Proof.
  unfold Z_of_byte, byte_of_Z. assert (0 <= z mod 256 < 256) by (apply Z.mod_pos_bound; lia).
  destruct (Byte.of_N (Z.to_N (z mod 256))) eqn:E.
  - apply Byte.to_of_N in E. lia.
  - apply Byte.of_N_None_iff in E. lia.
Qed.

Lemma byte_of_Z_of_byte b : byte_of_Z (Z_of_byte b) = b.
Proof. destruct b; by vm_compute. Qed.

Lemma Z_of_byte_range b : 0 <= Z_of_byte b < 256.
Proof. destruct b; vm_compute; split; congruence. Qed.

(** ** Hex text: two lower-case digits per byte *)
Definition hex_char (n : Z) : ascii :=
  ascii_of_nat (Z.to_nat (if n <? 10 then 48 + n else 87 + n)).
Fixpoint to_hex (b : bytes) : string :=
  match b with
  | [] => EmptyString
  | x :: b' => String (hex_char (Z_of_byte x / 16))
                 (String (hex_char (Z_of_byte x mod 16)) (to_hex b'))
  end.

Lemma hex_digits_byte x :
  hex_digit (hex_char (Z_of_byte x / 16)) = Some (Z_of_byte x / 16) /\
  hex_digit (hex_char (Z_of_byte x mod 16)) = Some (Z_of_byte x mod 16).
Proof. by destruct x; vm_compute. Qed.

Lemma to_hex_digits b : Forall (fun c => is_Some (hex_digit c)) (list_ascii_of_string (to_hex b)).
Proof.
  induction b as [|x b IH]; cbn; [constructor|]. destruct (hex_digits_byte x) as [E F].
  constructor; [by rewrite E|]. constructor; [by rewrite F | done].
Qed.

Lemma to_hex_length b : String.length (to_hex b) = (2 * length b)%nat.
Proof. induction b as [|x b IH]; cbn in *; [done | lia]. Qed.

Lemma hex_digit_not_space c : is_Some (hex_digit c) -> is_js_space c = false.
Proof.
  intros [z Hz]. destruct c as [b0 b1 b2 b3 b4 b5 b6 b7].
  destruct b0, b1, b2, b3, b4, b5, b6, b7; vm_compute in Hz |- *; congruence.
Qed.

(** [hexToBytesLocal]: pairs of characters, [NaN] stored as 0; a last single
    character is dropped with the fraction of the length. *)
Fixpoint hex_pairs (s : list ascii) : bytes :=
  match s with
  | c :: d :: s' => byte_of_Z (default 0 (parse_hex [c; d])) :: hex_pairs s'
  | _ => []
  end.
Definition hexToBytesLocal (hex : string) : bytes := hex_pairs (list_ascii_of_string hex).

Lemma hexToBytesLocal_to_hex b : hexToBytesLocal (to_hex b) = b.
Proof.
  unfold hexToBytesLocal. induction b as [|x b IH]; [done|].
  cbn [to_hex list_ascii_of_string hex_pairs]. rewrite IH. f_equal. by destruct x; vm_compute.
Qed.

Lemma to_hex_inj a b : to_hex a = to_hex b -> a = b.
Proof. intros E. apply (f_equal hexToBytesLocal) in E. by rewrite !hexToBytesLocal_to_hex in E. Qed.

(** [s.toLowerCase()] on code units below 256 *)
Definition lower_char (c : ascii) : ascii :=
  let n := nat_of_ascii c in
  if ((65 <=? n) && (n <=? 90) || (192 <=? n) && (n <=? 222) && negb (n =? 215))%nat
  then ascii_of_nat (n + 32) else c.
Fixpoint to_lower (s : string) : string :=
  match s with EmptyString => EmptyString | String c s' => String (lower_char c) (to_lower s') end.

(** ** Big-endian bytes of a bigint *)
(** The loop that writes [n] bytes of [t], the last byte first. *)
Fixpoint be_bytes (n : nat) (t : Z) : bytes :=
  match n with
  | O => []
  | S n' => be_bytes n' (Z.shiftr t 8) ++ [byte_of_Z (Z.land t 255)]
  end.

(** The number big-endian bytes write. *)
Definition be_value (b : bytes) : Z := fold_left (fun acc x => acc * 256 + Z_of_byte x) b 0.

Lemma be_bytes_length n : forall t, length (be_bytes n t) = n.
Proof. induction n as [|n IH]; intros t; cbn [be_bytes]; [done|]. rewrite length_app, IH. cbn. lia. Qed.

Lemma be_value_bytes n : forall t, 0 <= t -> be_value (be_bytes n t) = t mod 256 ^ Z.of_nat n.
Proof.
  induction n as [|n IH]; intros t Ht; cbn [be_bytes]; [by rewrite Z.mod_1_r|].
  unfold be_value in *. rewrite fold_left_app, IH by (by apply Z.shiftr_nonneg). cbn [fold_left].
  rewrite Z_of_byte_of_Z, Z.shiftr_div_pow2 by done. change (2 ^ 8) with 256.
  change 255 with (Z.ones 8). rewrite Z.land_ones by done. change (2 ^ 8) with 256.
  rewrite Z.mod_mod by done. rewrite Nat2Z.inj_succ, Z.pow_succ_r, Z.rem_mul_r by lia. lia.
Qed.

(** ** [TextEncoder.encode] *)
(** A string of the model is its UTF-8 bytes. *)
Definition utf8 (s : string) : bytes := list_byte_of_string s.

Lemma utf8_inj s t : utf8 s = utf8 t -> s = t.
Proof.
  unfold utf8. intros E. apply (f_equal string_of_list_byte) in E.
  by rewrite !string_of_list_byte_of_string in E.
Qed.
