(* ===== verification/Crypto.v ===== *)
(** * crypto/: library interface, suites, canonical encoding, envelopes

    [Lib] is the third-party code the program calls: cbor2, the [@noble]
    hashes, MACs, KDF and signatures, and noble's hex helpers.  Everything the
    files under src/crypto/src do with it is defined here over that interface:
    the suite registry and negotiation (suites.ts), the signer registry
    (sign.ts), canonical CBOR (cbor.ts), the domain-tag registry (domains.ts),
    constant-time comparison and the MAC (symmetric.ts), signed envelopes and
    PermitTokens (envelope.ts). *)
From S2P Require Import Prelude JsNum JsVal.
Open Scope Z_scope.

(** ** Third-party code *)
Class Lib := {
  (** cbor2: [encode(v, {dcbor: true})] and [decode(b)]; both may throw *)
  cbor_encode : jsval -> res bytes;
  cbor_decode : bytes -> res jsval;
  (** @noble/hashes *)
  sha3_256 : bytes -> bytes;
  hmac_sha384 : bytes -> bytes -> bytes;
  hkdf_sha384 : bytes -> bytes -> bytes -> Z -> bytes;
  bytesToHex : bytes -> string;
  hexToBytes : string -> res bytes;
  (** @noble/post-quantum: sign message secretKey context, verify sig message
      publicKey context; both throw on malformed inputs *)
  ml_dsa87_sign : bytes -> bytes -> option bytes -> res bytes;
  ml_dsa87_verify : bytes -> bytes -> bytes -> option bytes -> res bool;
  slh_dsa_sign : bytes -> bytes -> option bytes -> res bytes;
  slh_dsa_verify : bytes -> bytes -> bytes -> option bytes -> res bool;
}.

(** *** What the program relies on

    The documented behaviour of the third-party code, as classes: a theorem
    that needs a law takes the class as an argument. *)
Section laws.
Context {L : Lib}.

(** Two values with the same encoding. *)
Definition same_enc (v w : jsval) : Prop :=
  exists b, cbor_encode v = Ok b /\ cbor_encode w = Ok b.

(** CBOR items are length-prefixed: arrays encode their elements, objects
    and [Map]s their sorted entries (an object whatever the order of its keys), strings and byte strings their contents; a number
    is encoded by its value; an encoding the encoder produced decodes, to a
    value with that encoding. *)
Class CborLaws := {
  cbor_arr : forall l m, same_enc (VArr l) (VArr m) -> Forall2 same_enc l m;
  cbor_obj : forall fs gs, map fst fs = map fst gs -> NoDup (map fst fs) ->
    same_enc (VObj fs) (VObj gs) -> Forall2 same_enc (map snd fs) (map snd gs);
  cbor_obj_keys : forall fs gs, NoDup (map fst fs) -> NoDup (map fst gs) ->
    same_enc (VObj fs) (VObj gs) -> map fst fs ≡ₚ map fst gs;
  cbor_obj_order : forall fs gs, NoDup (map fst fs) -> fs ≡ₚ gs ->
    cbor_encode (VObj fs) = cbor_encode (VObj gs);
  cbor_map : forall es fs, map fst es = map fst fs -> NoDup (map fst es) ->
    same_enc (VMap es) (VMap fs) -> Forall2 same_enc (map snd es) (map snd fs);
  cbor_str : forall s t, same_enc (VStr s) (VStr t) -> s = t;
  cbor_bytes : forall a b, same_enc (VBytes a) (VBytes b) -> a = b;
  cbor_num : forall m n, isSafeInteger m = true -> isSafeInteger n = true ->
    same_enc (VNum m) (VNum n) -> m ≡ n;
  cbor_num_value : forall pre post m n, m ≡ n ->
    cbor_encode (VArr (pre ++ VNum m :: post)) = cbor_encode (VArr (pre ++ VNum n :: post));
  cbor_decode_encode : forall v b, cbor_encode v = Ok b ->
    exists w, cbor_decode b = Ok w /\ cbor_encode w = Ok b }.

(** [bytesToHex] prints two lower-case hex digits per byte; [hexToBytes]
    inverts it. *)
Class HexLaws := {
  hex_roundtrip : forall b, hexToBytes (bytesToHex b) = Ok b;
  hex_text : forall b, bytesToHex b = to_hex b }.

(** SHA3-256 digests are 32 bytes long. *)
Class HashLen := {
  hash_length : forall b, length (sha3_256 b) = 32%nat }.

(** ML-DSA-87 correctness: what the secret key of a generated pair signs
    verifies under its public key. *)
Class SigLaws (keypair : bytes -> bytes -> Prop) := {
  ml_dsa87_correct : forall pk sk m ctx s, keypair pk sk ->
    ml_dsa87_sign m sk ctx = Ok s -> ml_dsa87_verify s m pk ctx = Ok true }.
End laws.
Arguments CborLaws : clear implicits.
Arguments HexLaws : clear implicits.
Arguments HashLen : clear implicits.
Arguments SigLaws : clear implicits.

Record KeyPair := { publicKey : bytes; secretKey : bytes }.

(** ** domains.ts: the message-space registry *)
Inductive TagGeneration := v2 | v3.

Definition PROTOCOL_TAG_GENERATION : TagGeneration := v2.

Open Scope string_scope.
Definition DOMAIN_TAGS_V2 : list (string * string) := [
  ("ENVELOPE_SIGNED", "PolarSeek-Signed-v1");
  ("CAPABILITY_GRANT", "polarseek/capability/grant/v2");
  ("GOVERNANCE_PROPOSAL", "polarseek-gov-v1");
  ("RECEIPT", "nerion-receipt-v1");
  ("QUORUM_RECEIPT", "polarseek-quorum-receipt-v1");
  ("STH", "polarseek-sth-v1");
  ("ATTEST_EVIDENCE", "polarseek/attest/evidence/v1");
  ("CREDIT_GRANT", "polarseek-credit-grant-v1");
  ("BLOCK_SIG", "polarseek-block-sig-v1");
  ("ATTESTATION", "polarseek-attest-v2");
  ("TIMEOUT", "polarseek-timeout-v2");
  ("EVM_ATTEST", "Nerion/evm-attest/v1");
  ("PERMIT_MAC", "PolarSeek-Permit-v1");
  ("PERMIT_AUDIENCE_KDF", "PolarSeek-Permit-AudienceKDF-v1");
  ("PERMIT_CAVEAT", "Nerion/permit-caveat/v1");
  ("COSE_EAT", "polarseek/cose/eat-result/v1");
  ("COSE_SBOM", "polarseek/cose/cyclonedx-sbom/v1");
  ("COSE_SLSA", "polarseek/cose/slsa-provenance/v1");
  ("SUITE_NEGOTIATION", "polarseek/suite-negotiation");
  ("SESSION_KDF", "polarseek/session-key/v1");
  ("KEM_SEAL", "polarseek/kem-seal");
  ("SALTED_COMMIT", "Nerion/disclosure/salted-commit/v1");
  ("COMMIT_BIND", "PolarSeek/disclosure/commit-bind/v2");
  ("SET_MEMBERSHIP", "Nerion/disclosure/set-membership/v1");
  ("SET_MEMBERSHIP_DIGEST", "nerion-setmembership-v1");
  ("POLICY_PROOF", "polarseek-psp-v1");
  ("ZK_GENERATOR_H", "PolarSeek/disclosure/generator-H/v1");
  ("ZK_STMT_PREFIX", "PolarSeek/disclosure/stmt/v2");
  ("ZK_BIT_PREFIX", "PolarSeek/disclosure/bit");
  ("BLOCK_HASH", "polarseek-block-v1");
  ("VRF", "polarseek-vrf-v1");
  ("NATIVE_CONSENSUS_SET", "polarseek-consensus-set/v1");
  ("SORTITION", "polarseek-sortition-v1");
  ("EVM_CONSENSUS_SET", "Nerion/evm-consensus-set/v1");
  ("CNSA_VERDICT", "PolarSeek-CNSA-Verdict-v1");
  ("CBOM", "PolarSeek-CBOM-v1")].

Definition DOMAIN_TAGS_V3 : list (string * string) := [
  ("ENVELOPE_SIGNED", "Nerion/envelope/signed/v2");
  ("CAPABILITY_GRANT", "Nerion/capability/grant/v3");
  ("GOVERNANCE_PROPOSAL", "Nerion/governance/proposal/v2");
  ("RECEIPT", "nerion-receipt-v1");
  ("QUORUM_RECEIPT", "Nerion/receipts/quorum/v2");
  ("STH", "Nerion/translog/sth/v2");
  ("ATTEST_EVIDENCE", "Nerion/attest/evidence/v2");
  ("CREDIT_GRANT", "Nerion/settlement/credit-grant/v2");
  ("BLOCK_SIG", "Nerion/ledger/block-sig/v2");
  ("ATTESTATION", "Nerion/consensus/attest/v3");
  ("TIMEOUT", "Nerion/consensus/timeout/v3");
  ("EVM_ATTEST", "Nerion/evm-attest/v1");
  ("PERMIT_MAC", "Nerion/permit/mac/v2");
  ("PERMIT_AUDIENCE_KDF", "Nerion/permit/audience-kdf/v2");
  ("PERMIT_CAVEAT", "Nerion/permit-caveat/v1");
  ("COSE_EAT", "Nerion/cose/eat-result/v2");
  ("COSE_SBOM", "Nerion/cose/cyclonedx-sbom/v2");
  ("COSE_SLSA", "Nerion/cose/slsa-provenance/v2");
  ("SUITE_NEGOTIATION", "polarseek/suite-negotiation");
  ("SESSION_KDF", "Nerion/planes/session-key/v2");
  ("KEM_SEAL", "Nerion/crypto/kem-seal/v2");
  ("SALTED_COMMIT", "Nerion/disclosure/salted-commit/v1");
  ("COMMIT_BIND", "Nerion/disclosure/commit-bind/v3");
  ("SET_MEMBERSHIP", "Nerion/disclosure/set-membership/v1");
  ("SET_MEMBERSHIP_DIGEST", "nerion-setmembership-v1");
  ("POLICY_PROOF", "Nerion/disclosure/psp/v2");
  ("ZK_GENERATOR_H", "PolarSeek/disclosure/generator-H/v1");
  ("ZK_STMT_PREFIX", "PolarSeek/disclosure/stmt/v2");
  ("ZK_BIT_PREFIX", "PolarSeek/disclosure/bit");
  ("BLOCK_HASH", "Nerion/ledger/block/v2");
  ("VRF", "Nerion/ledger/vrf/v2");
  ("NATIVE_CONSENSUS_SET", "Nerion/consensus/set/v2");
  ("SORTITION", "Nerion/ledger/sortition/v2");
  ("EVM_CONSENSUS_SET", "Nerion/evm-consensus-set/v1");
  ("CNSA_VERDICT", "Nerion/conformance/cnsa-verdict/v2");
  ("CBOM", "Nerion/conformance/cbom/v2")].

Definition domainTagsFor (gen : TagGeneration) : list (string * string) :=
  match gen with v2 => DOMAIN_TAGS_V2 | v3 => DOMAIN_TAGS_V3 end.

Definition DOMAIN_TAGS : list (string * string) := domainTagsFor PROTOCOL_TAG_GENERATION.

Definition allDomainTags : list string := map snd DOMAIN_TAGS.

(** [DOMAIN_TAGS.K] *)
Definition tag (k : string) : string :=
  match find (fun kv => bool_decide (kv.1 = k)) DOMAIN_TAGS with
  | Some kv => kv.2
  | None => ""
  end.

(** ** suites.ts: the suite registry *)
Inductive SuiteStatus := active | pending_standardization | not_load_bearing | deprecated.

#[export] Instance SuiteStatus_eq_dec : EqDecision SuiteStatus.
Proof. solve_decision. Defined.

Record Suite := {
  suite_id : string;
  status : SuiteStatus;
  category : Z;
  preference : Z;
  kemId : string;
  sigId : string;
  aeadId : string;
  macId : string;
  hashId : string }.

Definition PS_1 := "PS-1".
Definition PS_5 := "PS-5".
Definition PS_5_HQC := "PS-5-HQC".
Definition PS_5_FN := "PS-5-FN".

Definition SUITES : list Suite := [
  {| suite_id := PS_1; status := active; category := 3; preference := 20;
     kemId := "XWING-MLKEM768-X25519"; sigId := "ML-DSA-87"; aeadId := "AES-256-GCM";
     macId := "HMAC-SHA-384"; hashId := "SHA3-256/SHAKE256" |};
  {| suite_id := PS_5; status := active; category := 5; preference := 10;
     kemId := "MLKEM1024-P384"; sigId := "ML-DSA-87"; aeadId := "AES-256-GCM";
     macId := "HMAC-SHA-384"; hashId := "SHA3-256/SHAKE256" |};
  {| suite_id := PS_5_HQC; status := pending_standardization; category := 5; preference := 90;
     kemId := "HQC-256"; sigId := "ML-DSA-87"; aeadId := "AES-256-GCM";
     macId := "HMAC-SHA-384"; hashId := "SHA3-256/SHAKE256" |};
  {| suite_id := PS_5_FN; status := not_load_bearing; category := 5; preference := 95;
     kemId := "MLKEM1024-P384"; sigId := "FN-DSA-1024"; aeadId := "AES-256-GCM";
     macId := "HMAC-SHA-384"; hashId := "SHA3-256/SHAKE256" |}].

(** The members every object literal inherits: [SUITES[k]] is truthy for them. *)
Definition object_prototype_keys : list string :=
  ["constructor"; "__defineGetter__"; "__defineSetter__"; "hasOwnProperty";
   "__lookupGetter__"; "__lookupSetter__"; "isPrototypeOf"; "propertyIsEnumerable";
   "toString"; "valueOf"; "__proto__"; "toLocaleString"].

(** [getSuite]: [Ok None] is an inherited member of the registry object, which
    passes the [!suite] test although it is no suite. *)
Definition getSuite (id : string) : res (option Suite) :=
  match find (fun s => bool_decide (suite_id s = id)) SUITES with
  | Some s => Ok (Some s)
  | None =>
      if includes object_prototype_keys id then Ok None
      else Throw ("unknown SuiteID: " +:+ id)
  end.

Definition allSuites : list Suite := SUITES.

Definition activeSuiteIds : list string :=
  map suite_id
    (js_sort (fun a b => (preference a <? preference b)%Z)
       (filter (fun s => status s = active) allSuites)).

Definition negotiate (local remote : list string) : res string :=
  let candidates := filter (fun id => includes local id && includes remote id) activeSuiteIds in
  match candidates with
  | best :: _ => Ok best
  | [] => Throw "no mutually-supported active SuiteID"
  end.

Section lib.
Context {L : Lib}.

(** *** cbor.ts *)
Definition encodeCanonical (v : jsval) : res bytes := cbor_encode v.
Definition decodeCbor (b : bytes) : res jsval := cbor_decode b.

Definition decodeCanonical (b : bytes) : res jsval :=
  value ← cbor_decode b;
  reencoded ← encodeCanonical value;
  if bool_decide (reencoded = b) then Ok value
  else Throw "non-canonical CBOR: input is not the deterministic encoding of its decoded value".

Definition canonicalRoundTrip (v : jsval) : res bytes :=
  first ← encodeCanonical v;
  w ← decodeCbor first;
  second ← encodeCanonical w;
  if bool_decide (first = second) then Ok first
  else Throw "canonical CBOR is not stable across round-trip".

(** *** symmetric.ts *)
Fixpoint xor_diff (a b : bytes) (diff : Z) : Z :=
  match a, b with
  | x :: a', y :: b' => xor_diff a' b' (Z.lor diff (Z.lxor (Z_of_byte x) (Z_of_byte y)))
  | _, _ => diff
  end.

Definition constantTimeEqual (a b : bytes) : bool :=
  if negb (length a =? length b)%nat then false
  else (xor_diff a b 0 =? 0)%Z.

Definition HMAC_SHA384_compute (key message : bytes) : bytes := hmac_sha384 key message.
Definition HMAC_SHA384_verify (key message mac : bytes) : bool :=
  constantTimeEqual (hmac_sha384 key message) mac.

(** *** errors.ts: the text of a [NotImplementedError] *)
Definition NotImplementedError (what connect : string) : string :=
  what +:+ " is registered but not implemented (CONNECT: " +:+ connect +:+ ")".

(** *** sign.ts *)
Record SignatureScheme := {
  scheme_id : string;
  scheme_sign : bytes -> bytes -> option bytes -> res bytes;
  scheme_verify : bytes -> bytes -> bytes -> option bytes -> res bool }.

(** [getSigner]: the registry of signers; the Falcon entry throws. *)
Definition getSigner (id : string) : res SignatureScheme :=
  if bool_decide (id = "ML-DSA-87") then
    Ok {| scheme_id := id; scheme_sign := ml_dsa87_sign; scheme_verify := ml_dsa87_verify |}
  else if bool_decide (id = "SLH-DSA-SHAKE-256f") then
    Ok {| scheme_id := id; scheme_sign := slh_dsa_sign; scheme_verify := slh_dsa_verify |}
  else if bool_decide (id = "FN-DSA-1024") then
    Throw (NotImplementedError "FN-DSA-1024 (Falcon) signatures"
      "FIPS 206 final + a hardened constant-time Falcon implementation (draft as of June 2026)")
  else Throw (NotImplementedError ("signer " +:+ quoted id) "register it in crypto/src/sign.ts").

Definition signerFor (id : string) : res SignatureScheme :=
  suite ← getSuite id;
  match suite with
  | Some s => getSigner (sigId s)
  | None => getSigner "undefined"
  end.

(** [signerFor(suite).sign(msg, sk)] and [signerFor(suite).verify(sig, msg, pk)] *)
Definition suite_sign (suite : string) (msg sk : bytes) : res bytes :=
  s ← signerFor suite; scheme_sign s msg sk None.
Definition suite_verify (suite : string) (sg msg pk : bytes) : res bool :=
  s ← signerFor suite; scheme_verify s sg msg pk None.

(** *** suites.ts: the negotiation transcript *)
Record NegotiationContext := {
  neg_sessionId : bytes;
  initiatorId : string;
  responderId : string;
  initiatorOffered : list string;
  responderOffered : list string;
  chosen : string }.

Definition negotiationTranscript (ctx : NegotiationContext) : res bytes :=
  pre ← encodeCanonical (VArr [VStr "polarseek/suite-negotiation"; VNum (Int 1);
    VBytes (neg_sessionId ctx); VStr (initiatorId ctx); VStr (responderId ctx);
    VStrs (initiatorOffered ctx); VStrs (responderOffered ctx); VStr (chosen ctx)]);
  Ok (sha3_256 pre).

Definition verifyNegotiationTranscript (peerTranscript : bytes) (ctx : NegotiationContext)
  : res bool :=
  t ← negotiationTranscript ctx; Ok (constantTimeEqual peerTranscript t).

(** *** envelope.ts *)
Record SignedEnvelope := {
  env_suite : string;
  env_context : string;
  env_payload : bytes;
  env_sig : bytes }.

Record PermitToken := { tok_suite : string; tok_body : bytes; tok_mac : bytes }.

Definition toBeSigned (suite context : string) (payload : bytes) : res bytes :=
  encodeCanonical (VArr [VStr (tag "ENVELOPE_SIGNED"); VStr suite; VStr context; VBytes payload]).

Definition toBeMaced (suite : string) (body : bytes) : res bytes :=
  encodeCanonical (VArr [VStr (tag "PERMIT_MAC"); VStr suite; VBytes body]).

Definition signEnvelopeWith (payload : jsval) (suite : string)
    (signFn : bytes -> res bytes) (context : string) : res SignedEnvelope :=
  payloadBytes ← encodeCanonical payload;
  tbs ← toBeSigned suite context payloadBytes;
  sg ← signFn tbs;
  Ok {| env_suite := suite; env_context := context; env_payload := payloadBytes; env_sig := sg |}.

Definition signEnvelope (payload : jsval) (suite : string) (sk : bytes) (context : string)
  : res SignedEnvelope :=
  signEnvelopeWith payload suite (fun tbs => suite_sign suite tbs sk) context.

Definition verifyEnvelope (env : SignedEnvelope) (pk : bytes)
    (allowedSuites : option (list string)) : bool :=
  if match allowedSuites with
     | Some allowed => negb (includes allowed (env_suite env))
     | None => false
     end then false
  else try_catch
    (signer ← signerFor (env_suite env);
     tbs ← toBeSigned (env_suite env) (env_context env) (env_payload env);
     scheme_verify signer (env_sig env) tbs pk None)
    (fun _ => false).

Definition openEnvelope (env : SignedEnvelope) : res jsval := decodeCbor (env_payload env).

Definition deriveAudiencePermitKey (sessionKey : bytes) (audience : string) : res bytes :=
  info ← encodeCanonical (VArr [VStr (tag "PERMIT_AUDIENCE_KDF"); VStr audience]);
  Ok (hkdf_sha384 sessionKey [] info 48).

Definition issuePermit (claims : jsval) (suite : string) (key : bytes) : res PermitToken :=
  body ← encodeCanonical claims;
  tbm ← toBeMaced suite body;
  Ok {| tok_suite := suite; tok_body := body; tok_mac := HMAC_SHA384_compute key tbm |}.

Definition verifyPermit (token : PermitToken) (key : bytes) : res bool :=
  tbm ← toBeMaced (tok_suite token) (tok_body token);
  Ok (HMAC_SHA384_verify key tbm (tok_mac token)).

Definition permitMac (suite : string) (body key : bytes) : res bytes :=
  tbm ← toBeMaced suite body; Ok (HMAC_SHA384_compute key tbm).

Definition readPermit (token : PermitToken) : res jsval := decodeCbor (tok_body token).

End lib.

(** ** Lemmas *)
Section lemmas.
Context {L : Lib}.

Lemma bytesToHex_inj `{!HexLaws L} a b : bytesToHex a = bytesToHex b -> a = b.
Proof.
  intros H. apply (f_equal hexToBytes) in H. rewrite !hex_roundtrip in H. congruence.
Qed.

Lemma Z_of_byte_inj x y : Z_of_byte x = Z_of_byte y -> x = y.
Proof. intros H. rewrite <- (byte_of_Z_of_byte x), H. apply byte_of_Z_of_byte. Qed.

Lemma xor_diff_zero a : forall b d, length a = length b ->
  xor_diff a b d = 0%Z <-> d = 0%Z /\ a = b.
Proof.
  induction a as [|x a IH]; intros [|y b] d Hl; cbn in *; try discriminate; [tauto|].
  rewrite IH, Z.lor_eq_0_iff, Z.lxor_eq_0_iff by congruence.
  split; [intros [[? ?%Z_of_byte_inj] ?]; by subst |].
  intros [-> [= -> ->]]. done.
Qed.

Lemma constantTimeEqual_true a b : constantTimeEqual a b = true <-> a = b.
Proof.
  unfold constantTimeEqual. destruct (Nat.eqb_spec (length a) (length b)) as [E|E]; cbn.
  - rewrite Z.eqb_eq, xor_diff_zero by done. tauto.
  - split; [done | by intros ->].
Qed.

Lemma constantTimeEqual_refl a : constantTimeEqual a a = true.
Proof. by apply constantTimeEqual_true. Qed.

Lemma activeSuiteIds_eq : activeSuiteIds = [PS_5; PS_1].
Proof. by vm_compute. Qed.

Lemma getSuite_active id : id ∈ activeSuiteIds ->
  exists s, getSuite id = Ok (Some s) /\ status s = active /\ sigId s = "ML-DSA-87".
Proof. rewrite activeSuiteIds_eq, !elem_of_cons. intros [->|[->|[]%elem_of_nil]]; eauto. Qed.

(** Every active suite signs with ML-DSA-87. *)
Lemma signerFor_active id : id ∈ activeSuiteIds ->
  signerFor id = Ok {| scheme_id := "ML-DSA-87"; scheme_sign := ml_dsa87_sign;
                       scheme_verify := ml_dsa87_verify |}.
Proof.
  intros (s & E & _ & Hs)%getSuite_active. unfold signerFor. by rewrite E; cbn; rewrite Hs.
Qed.

Lemma suite_sign_verify `{!SigLaws L kpr} suite pk sk m s :
  suite ∈ activeSuiteIds -> kpr pk sk -> suite_sign suite m sk = Ok s ->
  suite_verify suite s m pk = Ok true.
Proof.
  intros Hs Hk. unfold suite_sign, suite_verify. rewrite (signerFor_active _ Hs). cbn.
  by apply ml_dsa87_correct.
Qed.

Lemma same_strs {CL : CborLaws L} l m : same_enc (VStrs l) (VStrs m) -> l = m.
Proof.
  intros H%cbor_arr. revert m H. induction l as [|s l IH]; intros [|t m] H; cbn in H; try by inversion H.
  apply Forall2_cons_1 in H as [E%cbor_str H]. subst t. f_equal. by apply IH.
Qed.

Lemma decodeCanonical_ok b v :
  decodeCanonical b = Ok v <-> cbor_decode b = Ok v /\ cbor_encode v = Ok b.
Proof.
  unfold decodeCanonical, encodeCanonical. destruct (cbor_decode b) as [w|]; cbn.
  - destruct (cbor_encode w) as [c|] eqn:E; cbn; [case_bool_decide as D|].
    + subst c. split; [by intros [= <-] | by intros [[= <-] _]].
    + split; [done | intros [[= <-] E']; congruence].
    + split; [done | intros [[= <-] E']; congruence].
  - split; [done | by intros [? _]].
Qed.
End lemmas.
#[export] Hint Rewrite @constantTimeEqual_true : nerion.
Close Scope string_scope.

(** Takes the element-wise equality of two encoded arrays or objects apart. *)
Ltac split_fields H := cbn in H; repeat match goal with
  H : Forall2 same_enc (_ :: _) (_ :: _) |- _ => apply Forall2_cons_1 in H as [? H] end.
