(* ===== verification/Concrete.v ===== *)
(** * A concrete instance of the library interface

    Witnesses evaluate the model, so they need the third-party functions to be
    concrete: a self-delimiting serialisation stands for cbor2 (it rejects
    [undefined], as dCBOR does, and its decoder inverts it), the hash is a
    polynomial in the input, a signature is the key followed by the message.  Nothing in the
    development depends on this file except the witnesses. *)
From S2P Require Import Prelude JsNum JsVal Crypto.
Open Scope Z_scope.

(** ** Serialisation *)
Fixpoint ser_pos (p : positive) : bytes :=
  match p with
  | xH => [x03]
  | xO p => x01 :: ser_pos p
  | xI p => x02 :: ser_pos p
  end.
Definition ser_Z (z : Z) : bytes :=
  match z with Z0 => [x00] | Zpos p => x01 :: ser_pos p | Zneg p => x02 :: ser_pos p end.
Definition ser_nat (n : nat) : bytes := ser_Z (Z.of_nat n).
Definition ser_str (s : string) : bytes :=
  ser_nat (String.length s) ++ map byte_of_ascii (list_ascii_of_string s).
Definition ser_num (n : num) : bytes :=
  match n with
  | NaN => [x00]
  | Inf b => [if b then x01 else x02]
  | Fin m k => x03 :: ser_Z m ++ ser_Z (Z.of_N k)
  end.

Definition ser_key (k : mapkey) : bytes :=
  match k with KNum n => x01 :: ser_num n | KStr s => x02 :: ser_str s end.

Fixpoint ser (v : jsval) : option bytes :=
  match v with
  | VUndef => None
  | VNull => Some [x01]
  | VBool b => Some [if b then x02 else x03]
  | VNum n => Some (x04 :: ser_num n)
  | VBig z => Some (x05 :: ser_Z z)
  | VStr s => Some (x06 :: ser_str s)
  | VBytes b => Some (x07 :: ser_nat (length b) ++ b)
  | VArr l =>
      body ← foldr (fun x acc => b ← ser x; r ← acc; Some (b ++ r)) (Some []) l;
      Some (x08 :: ser_nat (length l) ++ body)
  | VObj fs =>
      body ← foldr (fun kv acc => b ← ser kv.2; r ← acc; Some (ser_str kv.1 ++ b ++ r))
               (Some []) fs;
      Some (x09 :: ser_nat (length fs) ++ body)
  | VMap es =>
      body ← foldr (fun kv acc => b ← ser kv.2; r ← acc; Some (ser_key kv.1 ++ b ++ r))
               (Some []) es;
      Some (x0a :: ser_nat (length es) ++ body)
  end.

(** ** Parsing *)
Fixpoint par_pos (b : bytes) : option (positive * bytes) :=
  match b with
  | x03 :: r => Some (1%positive, r)
  | x01 :: r => '(p, r') ← par_pos r; Some (xO p, r')
  | x02 :: r => '(p, r') ← par_pos r; Some (xI p, r')
  | _ => None
  end.
Definition par_Z (b : bytes) : option (Z * bytes) :=
  match b with
  | x00 :: r => Some (0, r)
  | x01 :: r => '(p, r') ← par_pos r; Some (Zpos p, r')
  | x02 :: r => '(p, r') ← par_pos r; Some (Zneg p, r')
  | _ => None
  end.
Definition par_nat (b : bytes) : option (nat * bytes) :=
  '(z, r) ← par_Z b; Some (Z.to_nat z, r).
Definition par_bytes (b : bytes) : option (bytes * bytes) :=
  '(n, r) ← par_nat b; Some (take n r, drop n r).
Definition par_str (b : bytes) : option (string * bytes) :=
  '(x, r) ← par_bytes b; Some (string_of_list_ascii (map ascii_of_byte x), r).
Definition par_num (b : bytes) : option (num * bytes) :=
  match b with
  | x00 :: r => Some (NaN, r)
  | x01 :: r => Some (Inf true, r)
  | x02 :: r => Some (Inf false, r)
  | x03 :: r => '(m, r1) ← par_Z r; '(k, r2) ← par_Z r1; Some (Fin m (Z.to_N k), r2)
  | _ => None
  end.

Definition par_key (b : bytes) : option (mapkey * bytes) :=
  match b with
  | x01 :: r => '(n, r') ← par_num r; Some (KNum n, r')
  | x02 :: r => '(s, r') ← par_str r; Some (KStr s, r')
  | _ => None
  end.

Fixpoint par_list {A} (p : bytes -> option (A * bytes)) (n : nat) (b : bytes)
  : option (list A * bytes) :=
  match n with
  | O => Some ([], b)
  | S n' => '(x, r) ← p b; '(xs, r') ← par_list p n' r; Some (x :: xs, r')
  end.

Fixpoint par (fuel : nat) (b : bytes) : option (jsval * bytes) :=
  match fuel with
  | O => None
  | S fuel =>
      match b with
      | x01 :: r => Some (VNull, r)
      | x02 :: r => Some (VBool true, r)
      | x03 :: r => Some (VBool false, r)
      | x04 :: r => '(n, r') ← par_num r; Some (VNum n, r')
      | x05 :: r => '(z, r') ← par_Z r; Some (VBig z, r')
      | x06 :: r => '(s, r') ← par_str r; Some (VStr s, r')
      | x07 :: r => '(s, r') ← par_bytes r; Some (VBytes s, r')
      | x08 :: r =>
          '(n, r1) ← par_nat r; '(l, r2) ← par_list (par fuel) n r1; Some (VArr l, r2)
      | x09 :: r =>
          '(n, r1) ← par_nat r;
          '(l, r2) ← par_list (fun b => '(k, r) ← par_str b; '(v, r') ← par fuel r;
                                 Some ((k, v), r')) n r1;
          Some (VObj l, r2)
      | x0a :: r =>
          '(n, r1) ← par_nat r;
          '(l, r2) ← par_list (fun b => '(k, r) ← par_key b; '(v, r') ← par fuel r;
                                 Some ((k, v), r')) n r1;
          Some (VMap l, r2)
      | _ => None
      end
  end.

Lemma par_pos_ser p r : par_pos (ser_pos p ++ r) = Some (p, r).
Proof. induction p as [p IH|p IH|]; cbn; by rewrite ?IH. Qed.
Lemma par_Z_ser z r : par_Z (ser_Z z ++ r) = Some (z, r).
Proof. destruct z; cbn; by rewrite ?par_pos_ser. Qed.
Lemma par_nat_ser n r : par_nat (ser_nat n ++ r) = Some (n, r).
Proof. unfold par_nat, ser_nat. rewrite par_Z_ser. cbn. by rewrite Nat2Z.id. Qed.
Lemma par_bytes_ser x r : par_bytes ((ser_nat (length x) ++ x) ++ r) = Some (x, r).
Proof.
  unfold par_bytes. rewrite <- app_assoc, par_nat_ser. cbn.
  by rewrite take_app_length, drop_app_length.
Qed.
Lemma par_str_ser s r : par_str (ser_str s ++ r) = Some (s, r).
Proof.
  unfold par_str, ser_str.
  replace (String.length s) with (length (map byte_of_ascii (list_ascii_of_string s))).
  - rewrite par_bytes_ser. cbn. rewrite map_map, (map_ext _ id), map_id.
    + by rewrite string_of_list_ascii_of_string.
    + apply ascii_of_byte_of_ascii.
  - rewrite length_map. induction s; cbn; congruence.
Qed.
Lemma par_num_ser n r : par_num (ser_num n ++ r) = Some (n, r).
Proof.
  destruct n as [|[]|m k]; cbn; try done.
  rewrite <- app_assoc, par_Z_ser. cbn. rewrite par_Z_ser. cbn. by rewrite N2Z.id.
Qed.
Lemma par_key_ser k r : par_key (ser_key k ++ r) = Some (k, r).
Proof. destruct k; cbn; by rewrite ?par_num_ser, ?par_str_ser. Qed.

(** Enough fuel to parse a value back. *)
Fixpoint vsize (v : jsval) : nat :=
  match v with
  | VArr l => S (foldr (fun x n => vsize x + n) 0 l)%nat
  | VObj fs => S (foldr (fun kv n => vsize kv.2 + n) 0 fs)%nat
  | VMap es => S (foldr (fun kv n => vsize kv.2 + n) 0 es)%nat
  | _ => 1
  end.

Lemma par_ser v : forall b r fuel, ser v = Some b -> (vsize v <= fuel)%nat ->
  par fuel (b ++ r) = Some (v, r).
Proof.
  induction v as [| | []| | | | |l IH|fs IH|es IH] using jsval_ind;
    intros bs r fuel Hb Hf; cbn in Hb, Hf; (destruct fuel as [|fuel]; [lia|]);
    try discriminate; simplify_eq; cbn.
  - done.
  - done.
  - done.
  - by rewrite par_num_ser.
  - by rewrite par_Z_ser.
  - by rewrite par_str_ser.
  - by rewrite par_bytes_ser.
  - destruct (foldr _ _ _) as [body|] eqn:E; cbn in Hb; simplify_eq; cbn.
    rewrite <- app_assoc, par_nat_ser. cbn.
    enough (par_list (par fuel) (length l) (body ++ r) = Some (l, r)) as -> by done.
    revert body E Hf. clear -IH.
    induction IH as [|x l Hx Hl IHl]; cbn; intros body E Hf; [by simplify_eq|].
    destruct (ser x) as [bx|] eqn:Ex; cbn in E; [|done].
    destruct (foldr _ _ _) as [bl|] eqn:El in E; cbn in E; simplify_eq.
    rewrite <- app_assoc, (Hx bx _ fuel) by (done || lia). cbn. by rewrite IHl by (done || lia).
  - destruct (foldr _ _ _) as [body|] eqn:E; cbn in Hb; simplify_eq; cbn.
    rewrite <- app_assoc, par_nat_ser. cbn.
    match goal with |- context [par_list ?p ?n ?b] =>
      enough (par_list p n b = Some (fs, r)) as -> by done end.
    revert body E Hf. clear -IH.
    induction IH as [|[k x] l Hx Hl IHl]; cbn; intros body E Hf; [by simplify_eq|].
    destruct (ser x) as [bx|] eqn:Ex; cbn in E; [|done].
    destruct (foldr _ _ _) as [bl|] eqn:El in E; cbn in E; simplify_eq.
    rewrite <- !app_assoc, par_str_ser. cbn in *.
    rewrite (Hx bx _ fuel) by (done || lia). cbn. by rewrite IHl by (done || lia).
  - destruct (foldr _ _ _) as [body|] eqn:E; cbn in Hb; simplify_eq; cbn.
    rewrite <- app_assoc, par_nat_ser. cbn.
    match goal with |- context [par_list ?p ?n ?b] =>
      enough (par_list p n b = Some (es, r)) as -> by done end.
    revert body E Hf. clear -IH.
    induction IH as [|[k x] l Hx Hl IHl]; cbn; intros body E Hf; [by simplify_eq|].
    destruct (ser x) as [bx|] eqn:Ex; cbn in E; [|done].
    destruct (foldr _ _ _) as [bl|] eqn:El in E; cbn in E; simplify_eq.
    rewrite <- !app_assoc, par_key_ser. cbn in *.
    rewrite (Hx bx _ fuel) by (done || lia). cbn. by rewrite IHl by (done || lia).
Qed.

Lemma ser_pos_length p : (1 <= length (ser_pos p))%nat.
Proof. destruct p; cbn; lia. Qed.
Lemma vsize_ser v : forall b, ser v = Some b -> (vsize v <= length b)%nat.
Proof.
  induction v as [| | []| | | | |l IH|fs IH|es IH] using jsval_ind; intros bs Hb; cbn in Hb |- *;
    try discriminate; simplify_eq; cbn; try lia.
  - destruct (foldr _ _ _) as [body|] eqn:E in Hb; cbn in Hb; simplify_eq; cbn.
    rewrite length_app. apply le_n_S. transitivity (length body); [|lia].
    revert body E. induction IH as [|x l Hx Hl IHl]; cbn; intros body E; [lia|].
    destruct (ser x) as [bx|] eqn:Ex; cbn in E; [|done].
    destruct (foldr _ _ l) as [bl|] eqn:El in E; cbn in E; simplify_eq.
    specialize (Hx _ eq_refl). specialize (IHl _ El). rewrite length_app. lia.
  - destruct (foldr _ _ _) as [body|] eqn:E in Hb; cbn in Hb; simplify_eq; cbn.
    rewrite length_app. apply le_n_S. transitivity (length body); [|lia].
    revert body E. induction IH as [|[k x] l Hx Hl IHl]; cbn; intros body E; [lia|].
    destruct (ser x) as [bx|] eqn:Ex; cbn in E; [|done].
    destruct (foldr _ _ l) as [bl|] eqn:El in E; cbn in E; simplify_eq.
    specialize (Hx _ Ex). specialize (IHl _ El). rewrite !length_app. cbn in *. lia.
  - destruct (foldr _ _ _) as [body|] eqn:E in Hb; cbn in Hb; simplify_eq; cbn.
    rewrite length_app. apply le_n_S. transitivity (length body); [|lia].
    revert body E. induction IH as [|[k x] l Hx Hl IHl]; cbn; intros body E; [lia|].
    destruct (ser x) as [bx|] eqn:Ex; cbn in E; [|done].
    destruct (foldr _ _ l) as [bl|] eqn:El in E; cbn in E; simplify_eq.
    specialize (Hx _ Ex). specialize (IHl _ El). rewrite !length_app. cbn in *. lia.
Qed.

(** ** Hex *)
Fixpoint of_hex (s : string) : res bytes :=
  match s with
  | EmptyString => Ok []
  | String c (String d s') =>
      match hex_digit c, hex_digit d with
      | Some x, Some y => r ← of_hex s'; Ok (byte_of_Z (16 * x + y) :: r)
      | _, _ => Throw "hex string expected, got non-hex character"
      end
  | _ => Throw "hex string expected, got unpadded hex of odd length"
  end.

Lemma of_to_hex b : of_hex (to_hex b) = Ok b.
Proof.
  induction b as [|x b IH]; [done|]. cbn [to_hex of_hex]. rewrite IH.
  destruct x; by vm_compute.
Qed.

(** ** Numbers by value, keys in order

    The encoder writes [m / 2^k] in lowest terms, and the keys of an object in
    ascending order. *)
Fixpoint red (k : nat) (m : Z) : num :=
  match k with
  | O => Fin m 0
  | S k' => if Z.even m then red k' (m / 2) else Fin m (N.of_nat k)
  end.
Definition canon (n : num) : num := match n with Fin m k => red (N.to_nat k) m | _ => n end.

Definition canon_key (k : mapkey) : mapkey :=
  match k with KNum n => KNum (canon n) | KStr _ => k end.

Fixpoint norm (v : jsval) : jsval :=
  match v with
  | VNum n => VNum (canon n)
  | VArr l => VArr (map norm l)
  | VObj fs => VObj (js_sort (by_key fst) (map (fun kv => (kv.1, norm kv.2)) fs))
  | VMap es => VMap (map (fun kv => (canon_key kv.1, norm kv.2)) es)
  | _ => v
  end.

(** [Fin m k] in lowest terms. *)
Definition lowest (m : Z) (k : N) : Prop := k = 0%N \/ Z.even m = false.

Lemma red_spec k : forall m, exists m' k', red k m = Fin m' k' /\ lowest m' k' /\
  m * 2 ^ Z.of_N k' = m' * 2 ^ Z.of_nat k.
Proof.
  induction k as [|k IH]; intros m; cbn [red].
  - exists m, 0%N. split_and!; [done | by left | done].
  - destruct (Z.even m) eqn:E.
    + destruct (IH (m / 2)) as (m' & k' & -> & Hl & Hv). exists m', k'. split_and!; [done | done |].
      apply Z.even_spec in E as [q ->]. replace (2 * q / 2) with q in Hv by (rewrite (Z.mul_comm 2 q), Z.div_mul; lia).
      rewrite Nat2Z.inj_succ, Z.pow_succ_r by lia. nia.
    + exists m, (N.of_nat (S k)). split_and!; [done | by right |]. by rewrite nat_N_Z.
Qed.

Lemma lowest_unique m k n l : lowest m k -> lowest n l ->
  m * 2 ^ Z.of_N l = n * 2 ^ Z.of_N k -> m = n /\ k = l.
Proof.
  assert (G : forall m k n l, lowest n l -> (k < l)%N ->
    m * 2 ^ Z.of_N l = n * 2 ^ Z.of_N k -> False).
  { clear. intros m k n l [->|Hn] Hk E; [lia|].
    replace (Z.of_N l) with (Z.of_N k + (1 + (Z.of_N l - Z.of_N k - 1))) in E by lia.
    rewrite !Z.pow_add_r in E by lia.
    assert (E' : n = 2 * (m * 2 ^ (Z.of_N l - Z.of_N k - 1))).
    { apply Z.mul_reg_r with (2 ^ Z.of_N k); [lia|]. rewrite <- E. ring. }
    rewrite E', Z.even_mul in Hn. done. }
  intros Hm Hn E. destruct (N.lt_trichotomy k l) as [H|[->|H]].
  - by exfalso; eapply (G m k n l).
  - split; [|done]. apply Z.mul_reg_r with (2 ^ Z.of_N l); [lia | done].
  - by exfalso; eapply (G n l m k).
Qed.

Lemma canon_equiv m n : m ≡ n -> canon m = canon n.
Proof.
  destruct m as [|s|m k], n as [|t|n l]; cbn; try done; [by intros -> |].
  unfold pow2. intros E.
  destruct (red_spec (N.to_nat k) m) as (m1 & k1 & -> & L1 & V1).
  destruct (red_spec (N.to_nat l) n) as (n1 & l1 & -> & L2 & V2).
  rewrite !N_nat_Z in *. destruct (lowest_unique m1 k1 n1 l1) as [-> ->]; try done.
  assert (0 < 2 ^ Z.of_N k) by lia. assert (0 < 2 ^ Z.of_N l) by lia.
  apply Z.mul_reg_r with (2 ^ Z.of_N k * 2 ^ Z.of_N l); [lia|].
  transitivity (m1 * 2 ^ Z.of_N k * (2 ^ Z.of_N l1 * 2 ^ Z.of_N l)); [ring|]. rewrite <- V1.
  transitivity (m * 2 ^ Z.of_N l * (2 ^ Z.of_N k1 * 2 ^ Z.of_N l1)); [ring|]. rewrite E.
  transitivity (n * 2 ^ Z.of_N l1 * (2 ^ Z.of_N k1 * 2 ^ Z.of_N k)); [ring|]. rewrite V2. ring.
Qed.
Lemma canon_value m : canon m ≡ m.
Proof.
  destruct m as [|s|m k]; [done | done |]. cbn [canon].
  destruct (red_spec (N.to_nat k) m) as (m1 & k1 & -> & L1 & V1). cbn. unfold pow2.
  by rewrite <- N_nat_Z at 1.
Qed.
Lemma canon_idem m : canon (canon m) = canon m.
Proof. apply canon_equiv, canon_value. Qed.

Lemma norm_idem v : norm (norm v) = norm v.
Proof.
  induction v as [| | | | | | |l IH|fs IH|es IH] using jsval_ind; cbn; try done.
  - by rewrite canon_idem.
  - f_equal. rewrite map_map. induction IH as [|x l Hx _ IHl]; cbn; [done|]. by rewrite Hx, IHl.
  - f_equal. rewrite <- (sort_by_map fst) by done. rewrite map_map, sort_by_idem. f_equal.
    induction IH as [|x l Hx _ IHl]; cbn in *; [done|]. by rewrite Hx, IHl.
  - f_equal. rewrite map_map. induction IH as [|[[n|s] x] l Hx _ IHl]; cbn in *; [done| |];
      by rewrite ?canon_idem, Hx, IHl.
Qed.

(** ** A 32-byte hash: a polynomial in the input modulo 2^256 *)
Fixpoint le_bytes (n : nat) (z : Z) : bytes :=
  match n with O => [] | S n' => byte_of_Z z :: le_bytes n' (Z.shiftr z 8) end.
Definition toy_hash (b : bytes) : bytes :=
  le_bytes 32 (fold_left (fun acc x => Z.land (acc + Z.shiftl acc 8 + Z_of_byte x + 1) (Z.ones 256)) b 0).

Lemma length_le_bytes n : forall z, length (le_bytes n z) = n.
Proof. induction n as [|n IH]; intros z; cbn; [done | by rewrite IH]. Qed.

(** ** The instance *)
Definition concrete_decode (b : bytes) : res jsval :=
  match par (length b) b with
  | Some (v, []) => Ok v
  | _ => Throw "bad CBOR"
  end.

#[export] Instance concrete : Lib := {|
  cbor_encode := fun v => match ser (norm v) with Some b => Ok b | None => Throw "undefined" end;
  cbor_decode := concrete_decode;
  sha3_256 := toy_hash;
  hmac_sha384 := fun k m => k ++ x00 :: m;
  hkdf_sha384 := fun ikm salt info n => ikm ++ x01 :: salt ++ x01 :: info;
  bytesToHex := to_hex;
  hexToBytes := of_hex;
  ml_dsa87_sign := fun m sk ctx => Ok (sk ++ x00 :: default [] ctx ++ m);
  ml_dsa87_verify := fun s m pk ctx => Ok (bool_decide (s = pk ++ x00 :: default [] ctx ++ m));
  slh_dsa_sign := fun m sk ctx => Ok (sk ++ x01 :: default [] ctx ++ m);
  slh_dsa_verify := fun s m pk ctx => Ok (bool_decide (s = pk ++ x01 :: default [] ctx ++ m));
|}.

(** In the concrete scheme the public key is the secret key. *)
Definition kp (name : string) : KeyPair :=
  let k := map byte_of_ascii (list_ascii_of_string name) in
  {| publicKey := k; secretKey := k |}.
Definition kp_hex (name : string) : string := to_hex (publicKey (kp name)).

(** ** The laws *)
Lemma concrete_decode_ser v b : ser v = Some b -> concrete_decode b = Ok v.
Proof.
  intros E. unfold concrete_decode. pose proof (par_ser v b [] (length b) E (vsize_ser _ _ E)) as H.
  by rewrite app_nil_r in H; rewrite H.
Qed.

Lemma concrete_encode_ok v b : cbor_encode v = Ok b <-> ser (norm v) = Some b.
Proof. cbn. destruct (ser (norm v)); naive_solver. Qed.

Lemma same_enc_eq v w : same_enc v w -> norm v = norm w /\ exists b, ser (norm w) = Some b.
Proof.
  intros (b & H1%concrete_encode_ok & H2%concrete_encode_ok). split; [|eauto].
  apply concrete_decode_ser in H1, H2. congruence.
Qed.

Lemma same_enc_norm v w b : norm v = norm w -> ser (norm w) = Some b -> same_enc v w.
Proof. intros E F. exists b. by rewrite !concrete_encode_ok, E. Qed.

Definition norm_field (kv : string * jsval) : string * jsval := (kv.1, norm kv.2).
Lemma norm_fields fs : map fst (map norm_field fs) = map fst fs.
Proof. by rewrite map_map. Qed.
Lemma norm_obj fs : norm (VObj fs) = VObj (js_sort (by_key fst) (map norm_field fs)).
Proof. done. Qed.

Lemma ser_fields fs b : ser (VObj fs) = Some b -> forall kv, kv ∈ fs -> is_Some (ser kv.2).
Proof.
  cbn [ser]. destruct (foldr _ _ fs) as [body|] eqn:E; [|done]. intros _. revert body E.
  induction fs as [|x fs IH]; intros body E kv; [by intros ?%elem_of_nil|]. cbn in E.
  destruct (ser x.2) eqn:Ex; [|done]. destruct (foldr _ _ fs) as [r|] eqn:Er in E; [|done].
  intros [->|H]%elem_of_cons; [eauto | by eapply IH].
Qed.

(** Lists of entries with the same keys, all different, that are permutations
    of each other are equal. *)
Lemma perm_same_keys (l m : list (string * jsval)) : l ≡ₚ m -> map fst l = map fst m ->
  NoDup (map fst l) -> l = m.
Proof.
  intros P K N. apply list_eq. intros i. pose proof (f_equal (fun k => k !! i) K) as Ki. cbn in Ki.
  change (map fst) with (@fmap list _ _ _ (@fst string jsval)) in *.
  rewrite !list_lookup_fmap in Ki. destruct (l !! i) as [[k v]|] eqn:El, (m !! i) as [[k' w]|] eqn:Em;
    try done. cbn in Ki. injection Ki as <-.
  assert (M : (k, v) ∈ m) by (rewrite <- P; by eapply list_elem_of_lookup_2).
  apply list_elem_of_lookup in M as [j Ej].
  assert (j = i) as ->.
  { rewrite K in N. eapply NoDup_lookup; [exact N | |]; rewrite list_lookup_fmap, ?Ej, ?Em; done. }
  congruence.
Qed.

#[export] Instance concrete_cbor : CborLaws concrete.
Proof.
  split.
  - intros l m (E & b & F)%same_enc_eq. cbn in E, F. injection E as E.
    destruct (foldr _ _ _) as [body|] eqn:G; [clear F|done]. revert l body E G.
    induction m as [|x m IH]; intros [|y l] body E G; cbn in E, G; try done.
    injection E as E1 E2. destruct (ser (norm x)) as [bx|] eqn:Ex; [|done].
    destruct (foldr _ _ (map norm m)) as [bm|] eqn:Em in G; [|done].
    constructor; [by eapply same_enc_norm | by eapply IH].
  - intros fs gs K N (E & b & F)%same_enc_eq. rewrite !norm_obj in E. rewrite norm_obj in F.
    injection E as E. assert (P : map norm_field fs = map norm_field gs).
    { apply perm_same_keys; rewrite ?norm_fields; try done.
      by rewrite <- (js_sort_perm (by_key fst) (map norm_field fs)), E, js_sort_perm. }
    assert (S : forall kv, kv ∈ gs -> is_Some (ser (norm kv.2))).
    { intros kv H. apply (ser_fields _ _ F (norm_field kv)). rewrite js_sort_perm.
      by apply list_elem_of_fmap_2. }
    clear E F K N. revert fs P. induction gs as [|y gs IH]; intros [|x fs] P; try done.
    injection P as _ P1 P2. destruct (S y) as [c Hc]; [left|].
    constructor; [by eapply same_enc_norm|]. apply IH; [intros kv H; apply S; by right | done].
  - intros fs gs _ _ (E & _)%same_enc_eq. rewrite !norm_obj in E. injection E as E.
    rewrite <- (norm_fields fs), <- (norm_fields gs).
    by rewrite <- (js_sort_perm (by_key fst) (map norm_field fs)), E, js_sort_perm.
  - intros fs gs N P. cbn [cbor_encode concrete]. rewrite !norm_obj.
    rewrite (sort_by_perm fst (map norm_field fs) (map norm_field gs)); [done | by rewrite norm_fields |].
    by rewrite P.
  - intros fs gs _ _ (E & b & F)%same_enc_eq. cbn in E, F. injection E as E.
    destruct (foldr _ _ _) as [body|] eqn:G; [clear F|done]. revert fs body E G.
    induction gs as [|x m IH]; intros [|y l] body E G; cbn in E, G; try done.
    injection E as _ E1 E2. destruct (ser (norm x.2)) as [bx|] eqn:Ex; [|done].
    destruct (foldr _ _ (map _ m)) as [bm|] eqn:Em in G; [|done].
    constructor; [by eapply same_enc_norm | by eapply IH].
  - by intros s t ([= ->] & _)%same_enc_eq.
  - by intros s t ([= ->] & _)%same_enc_eq.
  - intros m n _ _ ([= E] & _)%same_enc_eq. by rewrite <- (canon_value m), E, canon_value.
  - intros pre post m n E. cbn [cbor_encode concrete].
    assert (norm (VArr (pre ++ VNum m :: post)) = norm (VArr (pre ++ VNum n :: post))) as ->; [|done].
    cbn. rewrite !map_app. cbn. by rewrite (canon_equiv m n).
  - intros v b E. apply concrete_encode_ok in E. exists (norm v).
    split; [by apply concrete_decode_ser|]. apply concrete_encode_ok. by rewrite norm_idem.
Qed.

#[export] Instance concrete_hex : HexLaws concrete.
Proof. split; [apply of_to_hex | done]. Qed.

#[export] Instance concrete_sig : SigLaws concrete eq.
Proof. split. intros pk ? m ctx s <- [= <-]. cbn. by rewrite bool_decide_true. Qed.

#[export] Instance concrete_hash : HashLen concrete.
Proof. split. intros b. apply length_le_bytes. Qed.
