(* ===== verification/Seal.v ===== *)
(** * crypto/: KEM registry, AEAD, sealed messages

    src/crypto/src/kem.ts, seal.ts and the AEAD wrapper of symmetric.ts, over the
    hybrid KEMs of @noble/post-quantum and AES-256-GCM of @noble/ciphers.  The
    coins of an encapsulation and the fresh nonce are arguments. *)
From S2P Require Import Prelude JsNum JsVal Crypto Concrete.
Open Scope string_scope.
Open Scope Z_scope.
Open Scope list_scope.

(** ** Third-party code *)
(** The KEM with that id, [XWing] or [MLKEM1024P384]; [gcm(key, nonce, aad)]
    with its [encrypt] and [decrypt].  All may throw. *)
Class SealLib := {
  kem_keygen : string -> bytes -> res KeyPair;
  kem_encapsulate : string -> bytes -> bytes -> res (bytes * bytes);
  kem_decapsulate : string -> bytes -> bytes -> res bytes;
  gcm_encrypt : bytes -> bytes -> bytes -> bytes -> res bytes;
  gcm_decrypt : bytes -> bytes -> bytes -> bytes -> res bytes }.

(** What is relied on: decapsulation inverts encapsulation, and GCM decrypts
    exactly the ciphertexts its own encryption gives (the tag is a function of
    the key, the nonce, the text and the associated data). *)
Class SealLaws {SL : SealLib} (kempair : string -> bytes -> bytes -> Prop) := {
  kem_correct : forall id pk sk coins ct ss, kempair id pk sk ->
    kem_encapsulate id pk coins = Ok (ct, ss) -> kem_decapsulate id ct sk = Ok ss;
  gcm_exact : forall k n a p c, gcm_decrypt k n a c = Ok p <-> gcm_encrypt k n a p = Ok c }.

(** ** symmetric.ts: [AES_256_GCM] *)
Section aead.
Context {SL : SealLib}.

Definition aead_keyLength : Z := 32.
Definition aead_nonceLength : Z := 12.

Definition aead_seal (key nonce plaintext aad : bytes) : res bytes :=
  gcm_encrypt key nonce aad plaintext.

Definition aead_open (key nonce ciphertext aad : bytes) : res bytes :=
  match gcm_decrypt key nonce aad ciphertext with
  | Ok p => Ok p
  | Throw _ => Throw "AES-256-GCM authentication tag verification failed"
  end.

Lemma aead_open_ok k n c a p : aead_open k n c a = Ok p <-> gcm_decrypt k n a c = Ok p.
Proof. unfold aead_open. destruct (gcm_decrypt k n a c); naive_solver. Qed.

(** ** kem.ts *)
Record Kem := {
  kem_id : string;
  keygen_kem : bytes -> res KeyPair;
  encapsulate : bytes -> bytes -> res (bytes * bytes);
  decapsulate : bytes -> bytes -> res bytes }.

Definition wrap_kem (id : string) : Kem := {|
  kem_id := id; keygen_kem := kem_keygen id;
  encapsulate := kem_encapsulate id; decapsulate := kem_decapsulate id |}.

Definition XWING := "XWING-MLKEM768-X25519".
Definition MLKEM1024_P384 := "MLKEM1024-P384".
Definition HQC256 := "HQC-256".

(** [getKem]; [Ok None] is an inherited member of the registry object: it is
    called, and throws or gives a value without the methods of a KEM, on which
    the caller throws. *)
Definition getKem (id : string) : res (option Kem) :=
  if bool_decide (id = XWING) || bool_decide (id = MLKEM1024_P384) then Ok (Some (wrap_kem id)) else
  if bool_decide (id = HQC256)
  then Throw (NotImplementedError "HQC-256 KEM"
    "liboqs / NIST FIPS 207 reference once HQC is standardized (selected 2025-03-11, final ~2027)") else
  if includes object_prototype_keys id then Ok None else
  Throw (NotImplementedError ("KEM " +:+ quoted id) "register it in crypto/src/kem.ts").

Definition implementedKemIds : list string := [XWING; MLKEM1024_P384].

(** A KEM with its methods, or the [TypeError] of the call on what is none. *)
Definition usable_kem (id : string) : res Kem :=
  k ← getKem id;
  match k with Some kem => Ok kem | None => Throw "kem.encapsulate is not a function" end.

Lemma usable_kem_ok id kem : usable_kem id = Ok kem <-> id ∈ implementedKemIds /\ kem = wrap_kem id.
Proof.
  unfold usable_kem, getKem, implementedKemIds. rewrite !elem_of_cons, elem_of_nil.
  repeat case_bool_decide; cbn [orb mbind res_bind]; subst; try (naive_solver; fail).
  destruct (includes _ _); cbn; naive_solver.
Qed.
End aead.

(** ** seal.ts *)
Record SealParams := {
  sp_suite : string; sp_kemId : string; sp_senderId : string; sp_recipientId : string }.

Record SealedMessage := {
  sm_params : SealParams;
  kemCiphertext : bytes; sm_nonce : bytes; sm_ciphertext : bytes }.

Section seal.
Context {L : Lib} {SL : SealLib}.

Definition SEAL_LABEL : string := tag "KEM_SEAL".
Definition SEAL_VERSION : num := Int 1.

Definition info_val (p : SealParams) (pk ct : bytes) : jsval :=
  VArr [VStr SEAL_LABEL; VNum SEAL_VERSION; VStr (sp_suite p); VStr (sp_kemId p); VBytes pk;
        VBytes ct; VStr (sp_senderId p); VStr (sp_recipientId p)].
Definition aad_val (p : SealParams) (pk ct : bytes) : jsval :=
  VArr [VStr SEAL_LABEL; VNum SEAL_VERSION; VStr (sp_suite p); VStr (sp_kemId p); VBytes pk;
        VStr (sp_senderId p); VStr (sp_recipientId p); VBytes ct].

Definition sealInfo (p : SealParams) (pk ct : bytes) : res bytes := encodeCanonical (info_val p pk ct).
Definition sealAad (p : SealParams) (pk ct : bytes) : res bytes := encodeCanonical (aad_val p pk ct).

(** The working key *)
Definition seal_key (p : SealParams) (pk ct sharedSecret : bytes) : res bytes :=
  info ← sealInfo p pk ct;
  Ok (hkdf_sha384 sharedSecret [] info aead_keyLength).

Definition sealToKem (pk plaintext : bytes) (params : SealParams) (coins nonce : bytes)
  : res SealedMessage :=
  kem ← usable_kem (sp_kemId params);
  x ← encapsulate kem pk coins;
  key ← seal_key params pk x.1 x.2;
  aad ← sealAad params pk x.1;
  ciphertext ← aead_seal key nonce plaintext aad;
  Ok {| sm_params := params; kemCiphertext := x.1; sm_nonce := nonce; sm_ciphertext := ciphertext |}.

Definition openSealed (sealed : SealedMessage) (recipient : KeyPair)
    (expectedSuite expectedRecipient : string) : res bytes :=
  let p := sm_params sealed in
  if negb (bool_decide (sp_suite p = expectedSuite))
  then Throw "sealed message: suite mismatch (downgrade?)" else
  if negb (bool_decide (sp_recipientId p = expectedRecipient))
  then Throw "sealed message: recipient mismatch (not addressed to this party)" else
  kem ← usable_kem (sp_kemId p);
  sharedSecret ← decapsulate kem (kemCiphertext sealed) (secretKey recipient);
  key ← seal_key p (publicKey recipient) (kemCiphertext sealed) sharedSecret;
  aad ← sealAad p (publicKey recipient) (kemCiphertext sealed);
  aead_open key (sm_nonce sealed) (sm_ciphertext sealed) aad.

(** *** Lemmas *)
Lemma aad_binding {CL : CborLaws L} p pk ct q pk' ct' a :
  sealAad p pk ct = Ok a -> sealAad q pk' ct' = Ok a -> p = q /\ pk = pk' /\ ct = ct'.
Proof.
  intros A B. assert (S : same_enc (aad_val p pk ct) (aad_val q pk' ct')) by by exists a.
  apply cbor_arr in S. split_fields S. destruct p, q; cbn in *.
  repeat match goal with
  | H : same_enc (VStr _) (VStr _) |- _ => apply cbor_str in H
  | H : same_enc (VBytes _) (VBytes _) |- _ => apply cbor_bytes in H end.
  by subst.
Qed.

(** The inputs of the AEAD a message was opened with. *)
Record opening (sealed : SealedMessage) (recipient : KeyPair) (key aad : bytes) : Prop := {
  op_kem : sp_kemId (sm_params sealed) ∈ implementedKemIds;
  op_secret : exists ss, kem_decapsulate (sp_kemId (sm_params sealed)) (kemCiphertext sealed)
      (secretKey recipient) = Ok ss /\
    seal_key (sm_params sealed) (publicKey recipient) (kemCiphertext sealed) ss = Ok key;
  op_aad : sealAad (sm_params sealed) (publicKey recipient) (kemCiphertext sealed) = Ok aad }.

Lemma openSealed_ok `{!SealLaws kempair} sealed recipient suite recipientId pt :
  openSealed sealed recipient suite recipientId = Ok pt <->
  sp_suite (sm_params sealed) = suite /\ sp_recipientId (sm_params sealed) = recipientId /\
  exists key aad, opening sealed recipient key aad /\
    gcm_encrypt key (sm_nonce sealed) aad pt = Ok (sm_ciphertext sealed).
Proof.
  unfold openSealed. do 2 (case_bool_decide; cbn [negb]; [|split; [done | naive_solver]]). split.
  - intros (kem & K & E)%bind_ok. apply usable_kem_ok in K as [K ->].
    apply bind_ok in E as (ss & Es & E). apply bind_ok in E as (key & Ek & E).
    apply bind_ok in E as (aad & Ea & E). apply aead_open_ok, gcm_exact in E.
    split_and!; [done | done |]. exists key, aad. split; [|done].
    split; [done | by exists ss | done].
  - intros (_ & _ & key & aad & [K (ss & Es & Ek) Ea] & E).
    rewrite (proj2 (usable_kem_ok _ _) (conj K eq_refl)). cbn [mbind res_bind decapsulate wrap_kem].
    rewrite Es. cbn [mbind res_bind]. rewrite Ek. cbn [mbind res_bind]. rewrite Ea.
    cbn [mbind res_bind]. by apply aead_open_ok, gcm_exact.
Qed.

Lemma sealToKem_ok pk pt params coins nonce m : sealToKem pk pt params coins nonce = Ok m <->
  sm_params m = params /\ sm_nonce m = nonce /\ sp_kemId params ∈ implementedKemIds /\
  exists ss key aad, kem_encapsulate (sp_kemId params) pk coins = Ok (kemCiphertext m, ss) /\
    seal_key params pk (kemCiphertext m) ss = Ok key /\ sealAad params pk (kemCiphertext m) = Ok aad /\
    gcm_encrypt key nonce aad pt = Ok (sm_ciphertext m).
Proof.
  unfold sealToKem. split.
  - intros (kem & K & E)%bind_ok. apply usable_kem_ok in K as [K ->].
    apply bind_ok in E as ([ct ss] & Es & E). apply bind_ok in E as (key & Ek & E).
    apply bind_ok in E as (aad & Ea & E). apply bind_ok in E as (c & Ec & E).
    apply Ok_inj in E as <-. split_and!; [done..|]. by exists ss, key, aad.
  - intros (<- & <- & K & ss & key & aad & Es & Ek & Ea & Ec).
    rewrite (proj2 (usable_kem_ok _ _) (conj K eq_refl)). cbn [mbind res_bind encapsulate wrap_kem].
    rewrite Es. cbn [mbind res_bind fst snd]. rewrite Ek. cbn [mbind res_bind]. rewrite Ea.
    cbn [mbind res_bind]. unfold aead_seal. rewrite Ec. by destruct m.
Qed.

(** ** Properties *)
(** Sealing and opening.  What is sealed to a public key is opened to the same
    plaintext by the holder of the secret key who expects the message's suite
    and names itself as the recipient; under any other expectation it is
    refused, whatever the keys. *)
Theorem seal_roundtrip `{!SealLaws kempair} pk sk pt params coins nonce m :
  kempair (sp_kemId params) pk sk -> sealToKem pk pt params coins nonce = Ok m ->
  openSealed m {| publicKey := pk; secretKey := sk |} (sp_suite params) (sp_recipientId params) = Ok pt /\
  forall kp suite recipientId, suite <> sp_suite params \/ recipientId <> sp_recipientId params ->
    is_ok (openSealed m kp suite recipientId) = false.
Proof.
  intros P (Em & En & K & ss & key & aad & Es & Ek & Ea & Ec)%sealToKem_ok. split.
  - apply openSealed_ok. rewrite Em, En. split_and!; [done | done |]. exists key, aad.
    split; [|done]. split; cbn [publicKey secretKey]; rewrite Em; [done | | done].
    exists ss. split; [|done]. by eapply kem_correct.
  - intros kp suite rid H. unfold openSealed. rewrite Em.
    case_bool_decide; [|done]. case_bool_decide; [|done]. naive_solver.
Qed.

(** C19: Nothing of a sealed message can be exchanged.  If a message that carries
    the ciphertext of a sealed one is opened -- by whatever key pair, with
    whatever nonce, KEM ciphertext, suite, KEM id, sender and recipient -- then
    either it is that very message, for that very public key, and gives its
    plaintext, or AES-GCM encrypts two different inputs (key, nonce, associated
    data, plaintext) to one ciphertext. *)
Theorem sealed_binding {CL : CborLaws L} `{!SealLaws kempair} pk pt params coins nonce m m' kp suite rid pt' :
  sealToKem pk pt params coins nonce = Ok m ->
  sm_ciphertext m' = sm_ciphertext m -> openSealed m' kp suite rid = Ok pt' ->
  (m' = m /\ publicKey kp = pk /\ pt' = pt /\ suite = sp_suite params /\ rid = sp_recipientId params) \/
  exists k n a p k' n' a' p', (k, n, a, p) <> (k', n', a', p') /\
    gcm_encrypt k n a p = Ok (sm_ciphertext m) /\ gcm_encrypt k' n' a' p' = Ok (sm_ciphertext m).
Proof.
  intros (Em & En & K & ss & key & aad & _ & _ & Ea & Ec)%sealToKem_ok Ect
    (Hs & Hr & key' & aad' & [_ _ Ea'] & Ec')%openSealed_ok.
  rewrite Ect in Ec'.
  destruct (base.decide ((key, nonce, aad, pt) = (key', sm_nonce m', aad', pt'))) as [[= -> -> -> ->]|N].
  - left. destruct (aad_binding _ _ _ _ _ _ _ Ea Ea') as (E1 & E2 & E3).
    rewrite <- E1 in Hs, Hr. split_and!; try done.
    destruct m as [? ? ? ?], m' as [? ? ? ?]; cbn in *. congruence.
  - right. by exists key, nonce, aad, pt, key', (sm_nonce m'), aad', pt'.
Qed.
End seal.

(** ** Runs on a concrete library *)
Definition fourth (v : res jsval) : option bytes :=
  match v with
  | Ok (VArr l) => match l !! 3%nat with Some (VBytes p) => Some p | _ => None end
  | _ => None
  end.

#[export] Instance toy_seal : SealLib := {|
  kem_keygen := fun _ seed => Ok {| publicKey := seed; secretKey := seed |};
  kem_encapsulate := fun _ pk coins => Ok (coins, coins ++ pk);
  kem_decapsulate := fun _ ct sk => Ok (ct ++ sk);
  gcm_encrypt := fun k n a p => cbor_encode (VArr [VBytes k; VBytes n; VBytes a; VBytes p]);
  gcm_decrypt := fun k n a c =>
    match fourth (cbor_decode c) with
    | Some p =>
        if bool_decide (cbor_encode (VArr [VBytes k; VBytes n; VBytes a; VBytes p]) = Ok c)
        then Ok p else Throw "invalid tag"
    | None => Throw "invalid tag"
    end |}.

#[export] Instance toy_seal_laws : SealLaws (fun _ pk sk => pk = sk).
Proof.
  split.
  - by intros id pk ? coins ct ss <- [= <- <-].
  - intros k n a p c. cbn [gcm_decrypt gcm_encrypt toy_seal]. split.
    + destruct (fourth _); [|done]. case_bool_decide; [|done]. by intros [= ->].
    + intros E. pose proof E as E'. apply concrete_encode_ok, concrete_decode_ser in E'.
      change (concrete_decode c) with (cbor_decode c) in E'. rewrite E'. cbn [norm map fourth lookup list_lookup].
      by rewrite bool_decide_true.
Qed.

Definition toy_params : SealParams := {|
  sp_suite := PS_5; sp_kemId := MLKEM1024_P384; sp_senderId := "alice"; sp_recipientId := "bob" |}.
Definition bob : KeyPair := {| publicKey := [x0b]; secretKey := [x0b] |}.
Definition no_message : SealedMessage :=
  {| sm_params := toy_params; kemCiphertext := []; sm_nonce := []; sm_ciphertext := [] |}.
Definition message_of (r : res SealedMessage) : SealedMessage := match r with Ok m => m | _ => no_message end.
Definition toy_message : SealedMessage :=
  Eval vm_compute in message_of (sealToKem (publicKey bob) [x68; x69] toy_params [x01; x02] (repeat x0c 12)).

Lemma toy_message_eq :
  sealToKem (publicKey bob) [x68; x69] toy_params [x01; x02] (repeat x0c 12) = Ok toy_message.
Proof. vm_compute. reflexivity. Qed.

(** A change of the sender, of the key pair, of the KEM. *)
Example seal_runs :
  openSealed toy_message bob PS_5 "bob" = Ok [x68; x69] /\
  is_ok (openSealed {| sm_params := {| sp_suite := PS_5; sp_kemId := MLKEM1024_P384;
      sp_senderId := "mallory"; sp_recipientId := "bob" |};
    kemCiphertext := kemCiphertext toy_message; sm_nonce := sm_nonce toy_message;
    sm_ciphertext := sm_ciphertext toy_message |} bob PS_5 "bob") = false /\
  is_ok (openSealed toy_message {| publicKey := [x0a]; secretKey := [x0a] |} PS_5 "bob") = false /\
  getKem "constructor" = Ok None /\ is_ok (getKem HQC256) = false /\ is_ok (usable_kem "constructor") = false.
Proof. vm_compute. repeat split; reflexivity. Qed.

Lemma seal_roundtrip_witness :
  openSealed toy_message bob PS_5 "bob" = Ok [x68; x69] /\
  is_ok (openSealed toy_message bob PS_1 "bob") = false.
Proof.
  destruct (seal_roundtrip (kempair := fun _ pk sk => pk = sk) [x0b] [x0b] [x68; x69] toy_params [x01; x02]
    (repeat x0c 12) toy_message eq_refl toy_message_eq) as [A B].
  split; [exact A|]. apply B. by left.
Defined.

Lemma sealed_binding_witness :
  (toy_message = toy_message /\ publicKey bob = [x0b] /\ [x68; x69] = [x68; x69] /\
   PS_5 = PS_5 /\ "bob" = "bob") \/
  exists k n a p k' n' a' p', (k, n, a, p) <> (k', n', a', p') /\
    gcm_encrypt k n a p = Ok (sm_ciphertext toy_message) /\
    gcm_encrypt k' n' a' p' = Ok (sm_ciphertext toy_message).
Proof.
  apply (sealed_binding (kempair := fun _ pk sk => pk = sk) [x0b] [x68; x69] toy_params [x01; x02] (repeat x0c 12)
    toy_message toy_message bob PS_5 "bob" [x68; x69] toy_message_eq eq_refl).
  vm_compute. reflexivity.
Defined.
