(* ===== verification/Cose.v ===== *)
(** * crypto/: COSE_Sign1

    src/crypto/src/cose.ts: the protected header, the [Sig_structure], signing,
    verifying, the wire form and EAT attestation results. *)
From S2P Require Import Prelude JsNum JsVal Crypto Concrete.
Open Scope string_scope.
Open Scope Z_scope.
Open Scope list_scope.

(** ** Constants *)
Definition ML_DSA_44 : num := Int (-48).
Definition ML_DSA_65 : num := Int (-49).
Definition ML_DSA_87 : num := Int (-50).

(** [COSE_PROFILE] *)
Definition EAT_RESULT : string := tag "COSE_EAT".
Definition CYCLONEDX_SBOM : string := tag "COSE_SBOM".
Definition SLSA_PROVENANCE : string := tag "COSE_SLSA".

Definition coseProfileAad (profile : string) : bytes := utf8 profile.

(** [EAT_CLAIM.nonce] *)
Definition eat_nonce : num := Int 10.
Definition ALG_LABEL : num := Int 1.
Definition SIG_CONTEXT : string := "Signature1".

Record CoseSign1 := { protected : bytes; payload : bytes; signature : bytes }.

#[export] Instance CoseSign1_eq_dec : EqDecision CoseSign1.
Proof. solve_decision. Defined.

(** [map.set(k, v)] on a [Map] with a string key: an existing entry keeps its
    place. *)
Fixpoint map_set (es : list (mapkey * jsval)) (k : string) (v : jsval) : list (mapkey * jsval) :=
  match es with
  | [] => [(KStr k, v)]
  | (KStr k', w) :: es' =>
      if bool_decide (k' = k) then (KStr k', v) :: es' else (KStr k', w) :: map_set es' k v
  | e :: es' => e :: map_set es' k v
  end.

(** ** Operations *)
Section cose.
Context {L : Lib}.

Definition header_val (alg : num) : jsval := VMap [(KNum ALG_LABEL, VNum alg)].
Definition protectedHeader (alg : num) : res bytes := encodeCanonical (header_val alg).

Definition sig_structure (prot payload externalAad : bytes) : jsval :=
  VArr [VStr SIG_CONTEXT; VBytes prot; VBytes externalAad; VBytes payload].
Definition toBeSigned (prot payload externalAad : bytes) : res bytes :=
  encodeCanonical (sig_structure prot payload externalAad).

Definition coseSign1 (payload : bytes) (suite : string) (sk : bytes) (alg : num)
    (externalAad : bytes) : res CoseSign1 :=
  prot ← protectedHeader alg;
  signer ← signerFor suite;
  tbs ← toBeSigned prot payload externalAad;
  sg ← scheme_sign signer tbs sk None;
  Ok {| protected := prot; payload := payload; signature := sg |}.

Definition coseSign1Verify (msg : CoseSign1) (suite : string) (pk : bytes) (expectedAlg : num)
    (externalAad : bytes) : res bool :=
  expected ← protectedHeader expectedAlg;
  if negb (constantTimeEqual (protected msg) expected) then Ok false else
  Ok (try_catch
    (signer ← signerFor suite;
     tbs ← toBeSigned (protected msg) (payload msg) externalAad;
     scheme_verify signer (signature msg) tbs pk None)
    (fun _ => false)).

Definition wire_val (msg : CoseSign1) : jsval :=
  VArr [VBytes (protected msg); VMap []; VBytes (payload msg); VBytes (signature msg)].
Definition encodeCoseSign1 (msg : CoseSign1) : res bytes := encodeCanonical (wire_val msg).

(** [x instanceof Uint8Array] *)
Definition as_Uint8Array (v : jsval) : option bytes :=
  match v with VBytes b => Some b | _ => None end.

Definition decodeCoseSign1 (b : bytes) : res CoseSign1 :=
  v ← decodeCbor b;
  match v with
  | VArr [e0; _; e2; e3] =>
      match as_Uint8Array e0, as_Uint8Array e2, as_Uint8Array e3 with
      | Some prot, Some pl, Some sg => Ok {| protected := prot; payload := pl; signature := sg |}
      | _, _, _ => Throw "COSE_Sign1 protected/payload/signature must be byte strings"
      end
  | _ => Throw "not a COSE_Sign1 4-element array"
  end.

(** The claims map: the nonce, then every entry of [claims]. *)
Definition eat_val (nonce : bytes) (claims : list (string * jsval)) : jsval :=
  VMap (fold_left (fun m kv => map_set m kv.1 kv.2) claims [(KNum eat_nonce, VBytes nonce)]).

Definition signEatResult (nonce : bytes) (claims : list (string * jsval)) (suite : string)
    (sk : bytes) (alg : num) : res CoseSign1 :=
  eat ← encodeCanonical (eat_val nonce claims);
  coseSign1 eat suite sk alg (coseProfileAad EAT_RESULT).

(** ** Lemmas *)
(** The major type of a CBOR item is in its encoding: what encodes like an array
    is an array, like a byte string is that byte string. *)
Class CborShape : Prop := {
  shape_arr : forall l w, same_enc (VArr l) w -> exists m, w = VArr m;
  shape_bytes : forall b w, same_enc (VBytes b) w -> w = VBytes b }.

Lemma as_Uint8Array_some v b : as_Uint8Array v = Some b -> v = VBytes b.
Proof. destruct v; try done. by intros [= ->]. Qed.

Lemma map_set_fresh es k v : k ∉ omap (fun e => match e.1 with KStr s => Some s | _ => None end) es ->
  map_set es k v = es ++ [(KStr k, v)].
Proof.
  induction es as [|[[n|s] w] es IH]; cbn; [done| |].
  - intros H. by rewrite IH.
  - rewrite not_elem_of_cons. intros [N H]. case_bool_decide; [congruence|]. by rewrite IH.
Qed.

(** With distinct claim names, as an object has, the claims follow the nonce. *)
Lemma eat_val_entries nonce claims : NoDup (map fst claims) ->
  eat_val nonce claims =
  VMap ((KNum eat_nonce, VBytes nonce) :: map (fun kv => (KStr kv.1, kv.2)) claims).
Proof.
  intros N. unfold eat_val. f_equal.
  assert (G : forall es, (forall k, k ∈ map fst claims ->
      k ∉ omap (fun e : mapkey * jsval => match e.1 with KStr s => Some s | _ => None end) es) ->
    fold_left (fun m kv => map_set m kv.1 kv.2) claims es =
    es ++ map (fun kv => (KStr kv.1, kv.2)) claims); [|by apply G; intros k _ ?%elem_of_nil].
  induction claims as [|[k v] claims IH]; intros es F; cbn [fold_left map fst snd];
    [by rewrite app_nil_r|]. cbn [map fst] in N, F. inversion_clear N as [|? ? Nk N'].
  rewrite map_set_fresh by (apply F; left). rewrite IH; [by rewrite <- app_assoc | done |].
  intros x Hx. rewrite omap_app. cbn. intros [He|He]%elem_of_app.
  - by eapply (F x); [right|].
  - apply list_elem_of_singleton in He as ->. done.
Qed.

Lemma tbs_inj {CL : CborLaws L} p pl a p' pl' a' b :
  toBeSigned p pl a = Ok b -> toBeSigned p' pl' a' = Ok b -> p = p' /\ pl = pl' /\ a = a'.
Proof.
  intros E F. assert (S : same_enc (sig_structure p pl a) (sig_structure p' pl' a')) by by exists b.
  apply cbor_arr in S. split_fields S.
  repeat match goal with H : same_enc (VBytes _) (VBytes _) |- _ => apply cbor_bytes in H end. done.
Qed.

Lemma header_inj {CL : CborLaws L} m n b : isSafeInteger m = true -> isSafeInteger n = true ->
  protectedHeader m = Ok b -> protectedHeader n = Ok b -> m ≡ n.
Proof.
  intros Hm Hn E F. assert (S : same_enc (header_val m) (header_val n)) by by exists b.
  apply cbor_map in S; [|done | apply NoDup_singleton].
  split_fields S. by apply cbor_num.
Qed.

(** What a positive verification is. *)
Lemma coseSign1Verify_true msg suite pk alg aad : coseSign1Verify msg suite pk alg aad = Ok true <->
  protectedHeader alg = Ok (protected msg) /\
  exists tbs, toBeSigned (protected msg) (payload msg) aad = Ok tbs /\
    suite_verify suite (signature msg) tbs pk = Ok true.
Proof.
  unfold coseSign1Verify, suite_verify. destruct (protectedHeader alg) as [b|]; cbn [mbind res_bind];
    [|naive_solver].
  destruct (constantTimeEqual (protected msg) b) eqn:C; cbn [negb].
  - apply constantTimeEqual_true in C as <-. split.
    + intros [= V%try_catch_true]. split; [done|]. apply bind_ok in V as (s & -> & V).
      apply bind_ok in V as (tbs & Et & V). by exists tbs.
    + intros (_ & tbs & Et & V). f_equal. apply try_catch_true.
      apply bind_ok in V as (s & -> & V). cbn [mbind res_bind]. by rewrite Et.
  - split; [done|]. intros ([= ->] & _). by rewrite constantTimeEqual_refl in C.
Qed.

Lemma coseSign1_ok pl suite sk alg aad msg : coseSign1 pl suite sk alg aad = Ok msg <->
  payload msg = pl /\ protectedHeader alg = Ok (protected msg) /\
  exists tbs, toBeSigned (protected msg) pl aad = Ok tbs /\ suite_sign suite tbs sk = Ok (signature msg).
Proof.
  unfold coseSign1, suite_sign. split.
  - intros (p & Ep & E)%bind_ok. apply bind_ok in E as (s & Es & E).
    apply bind_ok in E as (tbs & Et & E). apply bind_ok in E as (sg & Eg & E).
    apply Ok_inj in E as <-. cbn [payload protected signature].
    split_and!; [done..|]. exists tbs. rewrite Es. by split.
  - intros (<- & -> & tbs & Et & (s & Es & Eg)%bind_ok). cbn [mbind res_bind].
    rewrite Es. cbn [mbind res_bind]. rewrite Et. cbn [mbind res_bind]. rewrite Eg. by destruct msg.
Qed.

Lemma decode_wire {CL : CborLaws L} `{!CborShape} msg w :
  encodeCoseSign1 msg = Ok w -> decodeCoseSign1 w = Ok msg.
Proof.
  intros E. unfold decodeCoseSign1, decodeCbor. destruct (cbor_decode_encode _ _ E) as (v & -> & Ev).
  cbn [mbind res_bind]. assert (S : same_enc (wire_val msg) v) by by exists w.
  destruct (shape_arr _ _ S) as [l ->]. apply cbor_arr in S.
  apply Forall2_cons_inv_l in S as (e0 & ? & S0 & S & ->).
  apply Forall2_cons_inv_l in S as (e1 & ? & _ & S & ->).
  apply Forall2_cons_inv_l in S as (e2 & ? & S2 & S & ->).
  apply Forall2_cons_inv_l in S as (e3 & ? & S3 & S & ->).
  apply Forall2_nil_inv_l in S as ->.
  apply shape_bytes in S0 as ->. apply shape_bytes in S2 as ->. apply shape_bytes in S3 as ->.
  by destruct msg.
Qed.

Lemma cose_accept_twice {CL : CborLaws L} msg msg' suite suite' pk alg alg' profile profile' :
  coseSign1Verify msg suite pk alg (coseProfileAad profile) = Ok true ->
  coseSign1Verify msg' suite' pk alg' (coseProfileAad profile') = Ok true ->
  signature msg' = signature msg ->
  (msg' = msg /\ profile' = profile) \/
  exists m m', m <> m' /\ suite_verify suite (signature msg) m pk = Ok true /\
    suite_verify suite' (signature msg) m' pk = Ok true.
Proof.
  intros (_ & t & Et & V)%coseSign1Verify_true (_ & t' & Et' & V')%coseSign1Verify_true S.
  rewrite S in V'. destruct (base.decide (t = t')) as [<-|N]; [left | right; by exists t, t'].
  destruct (tbs_inj _ _ _ _ _ _ _ Et Et') as (E1 & E2 & E3%utf8_inj).
  split; [destruct msg, msg'; cbn in *; congruence | done].
Qed.

(** ** Properties *)
(** A signed message survives its wire form: what [coseSign1] makes with the
    secret key of a generated pair decodes from its encoding to the same
    message, and that verifies under the public key for exactly the declared
    algorithm: under another one it is refused. *)
Theorem cose_roundtrip {CL : CborLaws L} `{!CborShape} `{!SigLaws L kpr} pl suite pk sk alg aad msg w :
  suite ∈ activeSuiteIds -> kpr pk sk ->
  coseSign1 pl suite sk alg aad = Ok msg -> encodeCoseSign1 msg = Ok w ->
  decodeCoseSign1 w = Ok msg /\ payload msg = pl /\
  coseSign1Verify msg suite pk alg aad = Ok true /\
  forall alg', isSafeInteger alg = true -> isSafeInteger alg' = true -> ~ alg ≡ alg' ->
    coseSign1Verify msg suite pk alg' aad <> Ok true.
Proof.
  intros A K (<- & Hp & tbs & Et & Es)%coseSign1_ok W. split; [by apply decode_wire|]. split; [done|].
  split.
  - apply coseSign1Verify_true. split; [done|]. exists tbs. split; [done|].
    by eapply suite_sign_verify.
  - intros alg' S S' N (Hp' & _)%coseSign1Verify_true. by destruct N; eapply header_inj.
Qed.

(** C20: A signature stands for one message of one application.  When two messages
    carrying the same signature verify under a key, whatever suites, algorithms
    and application profiles the two verifiers expect, either payload, header
    and profile are the same, or the signature scheme accepts that signature for
    two different byte strings. *)
Theorem cose_binding {CL : CborLaws L} msg msg' suite suite' pk alg alg' profile profile' :
  coseSign1Verify msg suite pk alg (coseProfileAad profile) = Ok true ->
  coseSign1Verify msg' suite' pk alg' (coseProfileAad profile') = Ok true ->
  signature msg' = signature msg ->
  (msg' = msg /\ profile' = profile) \/
  exists m m', m <> m' /\ suite_verify suite (signature msg) m pk = Ok true /\
    suite_verify suite' (signature msg) m' pk = Ok true.
Proof. apply cose_accept_twice. Qed.

(** The decoder gives a message only for an array of four items whose first,
    third and fourth are byte strings; it gives their contents. *)
Theorem decodeCoseSign1_ok b msg : decodeCoseSign1 b = Ok msg <->
  exists unprotected, decodeCbor b = Ok (VArr [VBytes (protected msg); unprotected;
    VBytes (payload msg); VBytes (signature msg)]).
Proof.
  unfold decodeCoseSign1. split.
  - intros (v & Ev & E)%bind_ok. rewrite Ev.
    destruct v as [| | | | | | |[|e0 [|u [|e2 [|e3 [|]]]]]| |]; try done.
    destruct (as_Uint8Array e0) as [p|] eqn:E0, (as_Uint8Array e2) as [pl|] eqn:E2,
      (as_Uint8Array e3) as [sg|] eqn:E3; try done.
    apply as_Uint8Array_some in E0 as ->, E2 as ->, E3 as ->. apply Ok_inj in E as <-. by exists u.
  - intros [u ->]. by destruct msg.
Qed.
End cose.

(** ** Runs on a concrete library *)
Lemma norm_keeps_arr l w : norm (VArr l) = norm w -> exists m, w = VArr m.
Proof. destruct w; try done. eauto. Qed.

#[export] Instance concrete_shape : CborShape (L := concrete).
Proof.
  split.
  - intros l w (E & _)%same_enc_eq. by eapply norm_keeps_arr.
  - intros b w (E & _)%same_enc_eq. by destruct w; inversion E.
Qed.

Definition no_cose : CoseSign1 := {| protected := []; payload := []; signature := [] |}.
Definition cose_of (r : res CoseSign1) : CoseSign1 := match r with Ok m => m | _ => no_cose end.
Definition toy_eat : CoseSign1 := Eval vm_compute in
  cose_of (signEatResult [x01; x02] [("ok", VBool true)] PS_5 (secretKey (kp "a")) ML_DSA_87).
Definition toy_wire : bytes := Eval vm_compute in
  match encodeCoseSign1 toy_eat with Ok b => b | _ => [] end.
Definition toy_eat_payload : bytes := Eval vm_compute in payload toy_eat.

Lemma toy_eat_signed :
  coseSign1 toy_eat_payload PS_5 (secretKey (kp "a")) ML_DSA_87 (coseProfileAad EAT_RESULT) = Ok toy_eat.
Proof. vm_compute. reflexivity. Qed.

Example cose_runs :
  signEatResult [x01; x02] [("ok", VBool true)] PS_5 (secretKey (kp "a")) ML_DSA_87 = Ok toy_eat /\
  coseSign1Verify toy_eat PS_5 (publicKey (kp "a")) ML_DSA_87 (coseProfileAad EAT_RESULT) = Ok true /\
  coseSign1Verify toy_eat PS_5 (publicKey (kp "a")) ML_DSA_65 (coseProfileAad EAT_RESULT) = Ok false /\
  coseSign1Verify toy_eat PS_5 (publicKey (kp "a")) ML_DSA_87 (coseProfileAad SLSA_PROVENANCE) = Ok false /\
  coseSign1Verify toy_eat "PS-9" (publicKey (kp "a")) ML_DSA_87 (coseProfileAad EAT_RESULT) = Ok false /\
  decodeCoseSign1 toy_wire = Ok toy_eat /\
  is_ok (decodeCoseSign1 [x01]) = false /\
  eat_val [x01] [("a", VNull); ("b", VNull); ("a", VBool true)] =
    VMap [(KNum eat_nonce, VBytes [x01]); (KStr "a", VBool true); (KStr "b", VNull)].
Proof. vm_compute. repeat split; reflexivity. Qed.

Lemma cose_roundtrip_witness :
  decodeCoseSign1 toy_wire = Ok toy_eat /\ payload toy_eat = toy_eat_payload /\
  coseSign1Verify toy_eat PS_5 (publicKey (kp "a")) ML_DSA_87 (coseProfileAad EAT_RESULT) = Ok true /\
  coseSign1Verify toy_eat PS_5 (publicKey (kp "a")) ML_DSA_44 (coseProfileAad EAT_RESULT) <> Ok true.
Proof.
  destruct (cose_roundtrip (kpr := eq) toy_eat_payload PS_5 (publicKey (kp "a")) (secretKey (kp "a"))
    ML_DSA_87 (coseProfileAad EAT_RESULT) toy_eat toy_wire) as (A & B & C & D).
  - by left.
  - reflexivity.
  - exact toy_eat_signed.
  - vm_compute. reflexivity.
  - split; [exact A|]. split; [exact B|]. split; [exact C|]. by apply D.
Defined.

Lemma cose_binding_witness :
  (toy_eat = toy_eat /\ EAT_RESULT = EAT_RESULT) \/
  exists m m', m <> m' /\ suite_verify PS_5 (signature toy_eat) m (publicKey (kp "a")) = Ok true /\
    suite_verify PS_5 (signature toy_eat) m' (publicKey (kp "a")) = Ok true.
Proof.
  apply (cose_binding toy_eat toy_eat PS_5 PS_5 (publicKey (kp "a")) ML_DSA_87 ML_DSA_87 EAT_RESULT EAT_RESULT);
    vm_compute; reflexivity.
Defined.
