(* ===== verification/SupplyChain.v ===== *)
(** * conformance/: supply-chain statements

    src/conformance/src/supplychain.ts: the SBOM, the build provenance, and
    their signatures as COSE messages bound to a profile. *)
From S2P Require Import Prelude JsNum JsVal Crypto Concrete Cose.
Open Scope string_scope.
Open Scope Z_scope.
Open Scope list_scope.

(** ** Data *)
Record SbomComponent := { sc_name : string; sc_version : string; sc_type : string; license : string }.

Record Sbom := {
  sbom_subject : string;
  sbom_generatedAt : num;
  sbom_components : list SbomComponent }.

Definition library (name version : string) : SbomComponent :=
  {| sc_name := name; sc_version := version; sc_type := "library"; license := "MIT" |}.

Definition NERION_DEPENDENCIES : list SbomComponent := [
  library "@noble/ciphers" "2.0.0";
  library "@noble/curves" "2.2.0";
  library "@noble/hashes" "2.0.0";
  library "@noble/post-quantum" "0.6.1";
  library "cbor2" "2.3.0"].

Definition buildSbom (components : list SbomComponent) (now : num) (subject : string) : Sbom := {|
  sbom_subject := subject;
  sbom_generatedAt := now;
  sbom_components := js_sort (by_key sc_name) components |}.

Record SlsaProvenance := {
  sp_subjectName : string;
  sp_subjectSha256 : string;
  buildType : string;
  resolvedDependencies : list (string * string);
  builderId : string;
  startedOn : num }.

Record SlsaOptions := {
  so_subjectName : string;
  so_subjectSha256 : string;
  so_buildType : string;
  so_builderId : string;
  so_dependencies : option (list SbomComponent);
  so_now : option num }.

Definition buildSlsaProvenance (opts : SlsaOptions) : SlsaProvenance := {|
  sp_subjectName := so_subjectName opts;
  sp_subjectSha256 := so_subjectSha256 opts;
  buildType := so_buildType opts;
  resolvedDependencies := map (fun d => (sc_name d, sc_version d))
    (default NERION_DEPENDENCIES (so_dependencies opts));
  builderId := so_builderId opts;
  startedOn := default (Int 0) (so_now opts) |}.

(** *** The objects they are *)
Definition component_val (c : SbomComponent) : jsval := VObj [
  ("name", VStr (sc_name c)); ("version", VStr (sc_version c)); ("type", VStr (sc_type c));
  ("license", VStr (license c))].

Definition sbom_val (s : Sbom) : jsval := VObj [
  ("bomFormat", VStr "CycloneDX"); ("specVersion", VStr "1.6"); ("subject", VStr (sbom_subject s));
  ("generatedAt", VNum (sbom_generatedAt s));
  ("components", VArr (map component_val (sbom_components s)))].

Definition STATEMENT_TYPE := "https://in-toto.io/Statement/v1".

Definition provenance_val (p : SlsaProvenance) : jsval := VObj [
  ("_type", VStr STATEMENT_TYPE);
  ("subject", VArr [VObj [("name", VStr (sp_subjectName p));
                          ("digest", VObj [("sha256", VStr (sp_subjectSha256 p))])]]);
  ("predicateType", VStr "https://slsa.dev/provenance/v1");
  ("predicate", VObj [
     ("buildDefinition", VObj [("buildType", VStr (buildType p));
        ("resolvedDependencies", VArr (map (fun d : string * string =>
            VObj [("name", VStr d.1); ("version", VStr d.2)])
          (resolvedDependencies p)))]);
     ("runDetails", VObj [("builder", VObj [("id", VStr (builderId p))]);
        ("metadata", VObj [("startedOn", VNum (startedOn p))])])])].

(** ** Profiles *)
(** [s[k] === text] for a string constant; anything but an object has no such
    property. *)
Definition has_string (s : jsval) (k text : string) : bool :=
  match get s k with Some (VStr t) => bool_decide (t = text) | _ => false end.

Definition statementProfile (s : jsval) : res string :=
  let isSbom := has_string s "bomFormat" "CycloneDX" in
  let isProv := has_string s "_type" STATEMENT_TYPE in
  if isSbom && isProv
  then Throw "ambiguous supply-chain statement: both SBOM and provenance shape" else
  if isSbom then Ok CYCLONEDX_SBOM else
  if isProv then Ok SLSA_PROVENANCE else
  Throw "unrecognized supply-chain statement shape — refusing to sign without a profile".

Section signing.
Context {L : Lib}.

Definition signSupplyChainStatement (statement : jsval) (suite : string) (sk : bytes) : res CoseSign1 :=
  pl ← encodeCanonical statement;
  profile ← statementProfile statement;
  coseSign1 pl suite sk ML_DSA_87 (coseProfileAad profile).

Definition verifySupplyChainStatement (msg : CoseSign1) (suite : string) (pk : bytes)
    (expectedProfile : string) : res bool :=
  coseSign1Verify msg suite pk ML_DSA_87 (coseProfileAad expectedProfile).

Definition supplyChainLeaf (msg : CoseSign1) : res bytes := encodeCoseSign1 msg.

(** ** Lemmas *)
Lemma profiles_differ : CYCLONEDX_SBOM <> SLSA_PROVENANCE /\ CYCLONEDX_SBOM <> EAT_RESULT /\
  SLSA_PROVENANCE <> EAT_RESULT.
Proof. split_and!; vm_compute; congruence. Qed.

Lemma has_string_true s k text : has_string s k text = true <-> get s k = Some (VStr text).
Proof.
  unfold has_string. destruct (get s k) as [[]|]; try (split; [done | intros [=]]).
  rewrite bool_decide_eq_true. naive_solver.
Qed.

Lemma sbom_profile s : statementProfile (sbom_val s) = Ok CYCLONEDX_SBOM.
Proof. reflexivity. Qed.
Lemma provenance_profile p : statementProfile (provenance_val p) = Ok SLSA_PROVENANCE.
Proof. reflexivity. Qed.

Lemma signSupplyChainStatement_ok st suite sk msg : signSupplyChainStatement st suite sk = Ok msg ->
  exists profile, statementProfile st = Ok profile /\ encodeCanonical st = Ok (payload msg) /\
    coseSign1 (payload msg) suite sk ML_DSA_87 (coseProfileAad profile) = Ok msg.
Proof.
  intros (pl & Ep & E)%bind_ok. apply bind_ok in E as (pr & Er & E). exists pr.
  pose proof E as (<- & _)%coseSign1_ok. done.
Qed.

(** ** Properties *)
(** The profile of a statement fails closed: a statement is signed under the
    SBOM profile exactly when it has the SBOM shape and not the provenance's,
    under the provenance profile in the mirror case, and in every other case
    nothing is signed. *)
Theorem statement_profile_spec s :
  let sbom := get s "bomFormat" = Some (VStr "CycloneDX") in
  let prov := get s "_type" = Some (VStr STATEMENT_TYPE) in
  (statementProfile s = Ok CYCLONEDX_SBOM <-> sbom /\ ~ prov) /\
  (statementProfile s = Ok SLSA_PROVENANCE <-> prov /\ ~ sbom) /\
  ((sbom <-> prov) -> forall suite sk, is_ok (signSupplyChainStatement s suite sk) = false).
Proof.
  cbv zeta. rewrite <- !has_string_true. destruct profiles_differ as (D & _).
  unfold signSupplyChainStatement, statementProfile.
  destruct (has_string s "bomFormat" _), (has_string s "_type" _); cbn [andb];
    (split_and!; [naive_solver congruence | naive_solver congruence |]);
    intros [H1 H2] suite sk; try (by discriminate H1 || by discriminate H2);
    by destruct (encodeCanonical s).
Qed.

(** A signed statement is what the relying party takes it for.  What the signer
    signed verifies under the statement's own profile, its payload decodes to a
    value with the statement's encoding; and if the message verifies under another profile,
    or another message does with the same signature, the signature scheme
    accepted one signature for two byte strings. *)
Theorem statement_verifies {CL : CborLaws L} `{!SigLaws L kpr} st suite pk sk msg :
  suite ∈ activeSuiteIds -> kpr pk sk -> signSupplyChainStatement st suite sk = Ok msg ->
  exists profile, statementProfile st = Ok profile /\
    verifySupplyChainStatement msg suite pk profile = Ok true /\
    (exists v, decodeCbor (payload msg) = Ok v /\ same_enc st v) /\
    forall msg' suite' profile', verifySupplyChainStatement msg' suite' pk profile' = Ok true ->
      signature msg' = signature msg ->
      (msg' = msg /\ profile' = profile) \/
      exists m m', m <> m' /\ suite_verify suite (signature msg) m pk = Ok true /\
        suite_verify suite' (signature msg) m' pk = Ok true.
Proof.
  intros A K (profile & Ep & Ee & Es)%signSupplyChainStatement_ok. exists profile. split; [done|].
  assert (V : verifySupplyChainStatement msg suite pk profile = Ok true).
  { apply coseSign1_ok in Es as (_ & Hp & tbs & Et & Es). apply coseSign1Verify_true.
    split; [done|]. exists tbs. split; [done|]. by eapply suite_sign_verify. }
  split; [done|]. split.
  - destruct (cbor_decode_encode _ _ Ee) as (v & Ev & Ew). exists v. split; [done|].
    by exists (payload msg).
  - intros msg' suite' profile' V' S. by apply (cose_accept_twice msg msg' suite suite' pk ML_DSA_87 ML_DSA_87).
Qed.
End signing.

(** The SBOM does not depend on the order its components were listed in, so the
    bytes that are signed and anchored do not either; it lists the same
    components, in the order of their names. *)
Theorem sbom_deterministic cs cs' now subject : cs ≡ₚ cs' ->
  sbom_components (buildSbom cs now subject) ≡ₚ cs /\
  StronglySorted (fun a b => str_ltb (sc_name b) (sc_name a) = false)
    (sbom_components (buildSbom cs now subject)) /\
  (NoDup (map sc_name cs) -> buildSbom cs now subject = buildSbom cs' now subject).
Proof.
  intros P. cbn [buildSbom sbom_components]. split; [apply js_sort_perm|].
  split; [apply (sort_by_sorted sc_name)|].
  intros N. unfold buildSbom. f_equal. by apply sort_by_perm.
Qed.

(** ** Runs on a concrete library *)
Definition toy_opts : SlsaOptions := {|
  so_subjectName := "nerion.tgz"; so_subjectSha256 := "00ff"; so_buildType := "npm"; so_builderId := "ci";
  so_dependencies := None; so_now := Some (Int 7) |}.
Definition toy_sbom : jsval := sbom_val (buildSbom NERION_DEPENDENCIES (Int 0) "PolarSeek").
Definition toy_prov : jsval := provenance_val (buildSlsaProvenance toy_opts).
Definition both_shapes : jsval :=
  VObj [("bomFormat", VStr "CycloneDX"); ("_type", VStr STATEMENT_TYPE)].
Definition toy_signed : CoseSign1 := Eval vm_compute in
  cose_of (signSupplyChainStatement toy_sbom PS_5 (secretKey (kp "a"))).

Lemma toy_signed_eq : signSupplyChainStatement toy_sbom PS_5 (secretKey (kp "a")) = Ok toy_signed.
Proof. vm_compute. reflexivity. Qed.

Example supplychain_runs :
  verifySupplyChainStatement toy_signed PS_5 (publicKey (kp "a")) CYCLONEDX_SBOM = Ok true /\
  verifySupplyChainStatement toy_signed PS_5 (publicKey (kp "a")) SLSA_PROVENANCE = Ok false /\
  statementProfile toy_prov = Ok SLSA_PROVENANCE /\
  is_ok (statementProfile both_shapes) = false /\ is_ok (statementProfile VNull) = false /\
  resolvedDependencies (buildSlsaProvenance toy_opts) !! 4%nat = Some ("cbor2", "2.3.0").
Proof. vm_compute. repeat split; reflexivity. Qed.

Lemma statement_profile_spec_witness :
  is_ok (signSupplyChainStatement both_shapes PS_5 [x01]) = false.
Proof.
  apply (statement_profile_spec both_shapes). split; intros _; vm_compute; reflexivity.
Defined.

Lemma statement_verifies_witness :
  exists profile, statementProfile toy_sbom = Ok profile /\
    verifySupplyChainStatement toy_signed PS_5 (publicKey (kp "a")) profile = Ok true.
Proof.
  destruct (statement_verifies (kpr := eq) toy_sbom PS_5 (publicKey (kp "a")) (secretKey (kp "a")) toy_signed)
    as (profile & A & B & _).
  - by left.
  - reflexivity.
  - exact toy_signed_eq.
  - by exists profile.
Defined.

Lemma sbom_deterministic_witness :
  buildSbom (rev NERION_DEPENDENCIES) (Int 0) "x" = buildSbom NERION_DEPENDENCIES (Int 0) "x".
Proof.
  apply sbom_deterministic; [apply Permutation_sym, Permutation_rev|].
  apply (bool_decide_unpack _). vm_compute. exact I.
Defined.
