(* ===== verification/Grant.v ===== *)
(** * capabilities/: grants, authorization, attenuation

    The data of src/capabilities/src/types.ts and the predicates of
    src/capabilities/src/grant.ts.  Numeric fields are JavaScript numbers, so
    the guards against [NaN], the infinities, fractions and unsafe integers
    are part of the definitions. *)
From S2P Require Import Prelude JsNum JsVal.
Open Scope Z_scope.

(** ** types.ts *)
Record ActionIntent := {
  type_ : string;
  resource : string;
  counterparty : option string;
  amount : option num;
  params : option jsval }.

Record CapabilityGrant := {
  grant_id : string;
  issuer : string;
  subject : string;
  actions : list string;
  perActionCeiling : option num;
  aggregateCap : option num;
  counterparties : option (list string);
  maxTier : num;
  notBefore : num;
  notAfter : num;
  delegable : bool }.

Record EvalContext := {
  now : num;
  tier : num;
  observedAggregate : num;
  holder : option string }.

(** ** grant.ts *)
(** [Number.isSafeInteger(x) && x >= 0] *)
Definition safe_nonneg (x : num) : bool := isSafeInteger x && num_leb (Int 0) x.

Definition authorizesIntent (grant : CapabilityGrant) (intent : ActionIntent)
    (ctx : EvalContext) : bool :=
  if negb (includes (actions grant) (type_ intent)) then false else
  if negb (isSafeInteger (now ctx)) then false else
  if negb (isSafeInteger (notBefore grant)) || negb (isSafeInteger (notAfter grant))
  then false else
  if num_ltb (now ctx) (notBefore grant) || num_ltb (notAfter grant) (now ctx) then false else
  if negb (safe_nonneg (tier ctx)) then false else
  if negb (safe_nonneg (maxTier grant)) then false else
  if num_ltb (maxTier grant) (tier ctx) then false else
  if match counterparties grant with
     | None => false
     | Some cps =>
         match counterparty intent with
         | None => true
         | Some c => negb (includes cps c)
         end
     end then false else
  if match amount intent with None => false | Some a => negb (safe_nonneg a) end
  then false else
  if negb (safe_nonneg (observedAggregate ctx)) then false else
  let amt := default (Int 0) (amount intent) in
  if match perActionCeiling grant with None => false | Some c => negb (safe_nonneg c) end
  then false else
  if match aggregateCap grant with None => false | Some c => negb (safe_nonneg c) end
  then false else
  if match perActionCeiling grant with None => false | Some c => num_ltb c amt end
  then false else
  if match aggregateCap grant with
     | None => false
     | Some c => num_ltb c (num_add (observedAggregate ctx) amt)
     end then false else
  true.

Definition ceilingNarrows (child parent : option num) : bool :=
  match parent with
  | None => true
  | Some p => match child with None => false | Some c => num_leb c p end
  end.

Definition setNarrows (child parent : option (list string)) : bool :=
  match parent with
  | None => true
  | Some p => match child with None => false | Some c => forallb (includes p) c end
  end.

Definition isWellFormedGrantNumerics (g : CapabilityGrant) : bool :=
  isSafeInteger (maxTier g) && num_leb (Int 0) (maxTier g) &&
  isSafeInteger (notBefore g) && isSafeInteger (notAfter g) &&
  match perActionCeiling g with None => true | Some c => safe_nonneg c end &&
  match aggregateCap g with None => true | Some c => safe_nonneg c end.

Definition isAttenuationOf (child parent : CapabilityGrant) : bool :=
  if negb (isWellFormedGrantNumerics child) || negb (isWellFormedGrantNumerics parent)
  then false else
  bool_decide (issuer child = subject parent) &&
  forallb (includes (actions parent)) (actions child) &&
  ceilingNarrows (perActionCeiling child) (perActionCeiling parent) &&
  ceilingNarrows (aggregateCap child) (aggregateCap parent) &&
  setNarrows (counterparties child) (counterparties parent) &&
  num_leb (maxTier child) (maxTier parent) &&
  num_leb (notBefore parent) (notBefore child) &&
  num_leb (notAfter child) (notAfter parent) &&
  (negb (delegable child) || delegable parent).

Record Attenuation := {
  r_actions : option (list string);
  r_perActionCeiling : option num;
  r_aggregateCap : option num;
  r_counterparties : option (list string);
  r_maxTier : option num;
  r_notBefore : option num;
  r_notAfter : option num;
  r_delegable : option bool }.

Definition minNullable (a b : option num) : option num :=
  match a, b with
  | None, _ => b
  | _, None => a
  | Some x, Some y => Some (num_min x y)
  end.

Record Binding := { b_id : string; b_issuer : string; b_subject : string }.

Definition narrow (parent : CapabilityGrant) (r : Attenuation) (binding : Binding)
  : CapabilityGrant := {|
  grant_id := b_id binding;
  issuer := b_issuer binding;
  subject := b_subject binding;
  actions := List.filter (includes (actions parent)) (default (actions parent) (r_actions r));
  perActionCeiling := minNullable (r_perActionCeiling r) (perActionCeiling parent);
  aggregateCap := minNullable (r_aggregateCap r) (aggregateCap parent);
  counterparties :=
    match r_counterparties r with
    | None => counterparties parent
    | Some rc =>
        match counterparties parent with
        | None => Some rc
        | Some pc => Some (List.filter (includes pc) rc)
        end
    end;
  maxTier := num_min (default (maxTier parent) (r_maxTier r)) (maxTier parent);
  notBefore := num_max (default (notBefore parent) (r_notBefore r)) (notBefore parent);
  notAfter := num_min (default (notAfter parent) (r_notAfter r)) (notAfter parent);
  delegable := default (delegable parent) (r_delegable r) && delegable parent |}.

(** ** Safe numbers as integers *)
Lemma safe_isInteger a : isSafeInteger a = true -> isInteger a = true.
Proof. unfold isSafeInteger. bool_to_prop. tauto. Qed.
#[export] Hint Resolve safe_isInteger : core.

(** [is_nat x z]: [x] is the non-negative safe integer [z]. *)
Definition is_nat (x : num) (z : Z) : Prop :=
  isSafeInteger x = true /\ num_Z x = z /\ 0 <= z.

Lemma safe_nonneg_spec x : safe_nonneg x = true <-> is_nat x (num_Z x).
Proof.
  unfold safe_nonneg, is_nat. rewrite andb_true_iff. split.
  - intros [H E]. rewrite num_leb_Z in E by auto. change (num_Z (Int 0)) with 0 in E.
    split_and!; [done | done | by apply Z.leb_le].
  - intros [H [_ E]]. rewrite num_leb_Z by auto. change (num_Z (Int 0)) with 0.
    split; [done | by apply Z.leb_le].
Qed.

Lemma num_min_cases a b : isInteger a = true -> isInteger b = true ->
  isInteger (num_min a b) = true /\ num_Z (num_min a b) = Z.min (num_Z a) (num_Z b) /\
  (num_min a b = a \/ num_min a b = b).
Proof.
  intros Ha Hb. assert (num_min a b = if num_ltb b a then b else a) as ->.
  { destruct a, b; try discriminate; done. }
  rewrite num_ltb_Z by done. case_match eqn:E; split_and!; auto; lia.
Qed.
Lemma num_max_cases a b : isInteger a = true -> isInteger b = true ->
  isInteger (num_max a b) = true /\ num_Z (num_max a b) = Z.max (num_Z a) (num_Z b) /\
  (num_max a b = a \/ num_max a b = b).
Proof.
  intros Ha Hb. assert (num_max a b = if num_ltb a b then b else a) as ->.
  { destruct a, b; try discriminate; done. }
  rewrite num_ltb_Z by done. case_match eqn:E; split_and!; auto; lia.
Qed.

Lemma forallb_includes (l m : list string) :
  forallb (includes l) m = true <-> m ⊆ l.
Proof.
  rewrite forallb_forall. split; intros H x Hx.
  - apply includes_spec, H. by apply list_elem_of_In.
  - apply includes_spec, H. by apply list_elem_of_In.
Qed.
#[export] Hint Rewrite forallb_includes : nerion.

(** ** What a grant means

    The declarative reading of [authorizesIntent], over the integers: the
    [Authorizes] predicate of src/kernel/spec/PolarSeekKernel.tla together
    with the well-formedness of every number involved. *)
Definition within (c : option num) (z : Z) : Prop :=
  match c with None => True | Some x => exists k, is_nat x k /\ z <= k end.

Record Authorizes (g : CapabilityGrant) (i : ActionIntent) (x : EvalContext) : Prop := {
  au_action : type_ i ∈ actions g;
  au_now : isSafeInteger (now x) = true;
  au_window : isSafeInteger (notBefore g) = true /\ isSafeInteger (notAfter g) = true;
  au_in : num_Z (notBefore g) <= num_Z (now x) <= num_Z (notAfter g);
  au_tier : exists t m, is_nat (tier x) t /\ is_nat (maxTier g) m /\ t <= m;
  au_cp : match counterparties g with
          | None => True
          | Some l => exists c, counterparty i = Some c /\ c ∈ l
          end;
  au_amount : match amount i with None => True | Some a => is_nat a (num_Z a) end;
  au_agg : is_nat (observedAggregate x) (num_Z (observedAggregate x));
  au_ceiling : within (perActionCeiling g) (num_Z (default (Int 0) (amount i)));
  au_cap : within (aggregateCap g)
             (num_Z (observedAggregate x) + num_Z (default (Int 0) (amount i))) }.

Lemma amount_nat i : match amount i with None => True | Some a => is_nat a (num_Z a) end ->
  is_nat (default (Int 0) (amount i)) (num_Z (default (Int 0) (amount i))).
Proof. destruct (amount i); [done|]. intros _. by apply safe_nonneg_spec. Qed.

Lemma within_ltb c a : is_nat a (num_Z a) ->
  match c with None => true | Some x => safe_nonneg x end = true ->
  match c with None => false | Some x => num_ltb x a end = false <-> within c (num_Z a).
Proof.
  intros (Ha & _ & _) Hc. destruct c as [x|]; [|done]. cbn.
  apply safe_nonneg_spec in Hc as Hx. rewrite num_ltb_Z by (apply safe_isInteger; apply Hx || done).
  rewrite Z.ltb_ge. split; [eauto|]. intros (k & (_ & -> & _) & ?). lia.
Qed.

Lemma within_add_ltb c a b : is_nat a (num_Z a) -> is_nat b (num_Z b) ->
  match c with None => true | Some x => safe_nonneg x end = true ->
  match c with None => false | Some x => num_ltb x (num_add a b) end = false <->
  within c (num_Z a + num_Z b).
Proof.
  intros (Ha & _ & ?) (Hb & _ & ?) Hc. destruct c as [x|]; [|done]. cbn.
  apply safe_nonneg_spec in Hc as Hx. rewrite num_add_gt_Z by (apply Hx || done).
  rewrite Z.ltb_ge. split; [eauto|]. intros (k & (_ & -> & _) & ?). lia.
Qed.

(** The boolean guards decide the declarative reading. *)
Lemma authorizesIntent_iff g i x : authorizesIntent g i x = true <-> Authorizes g i x.
Proof.
  split.
  - unfold authorizesIntent. intros H.
    repeat match type of H with (if ?b then false else _) = true =>
      destruct b eqn:?; [discriminate H|] end.
    apply negb_false_iff in Heqb, Heqb0, Heqb3, Heqb4, Heqb8.
    apply orb_false_iff in Heqb1 as [W1%negb_false_iff W2%negb_false_iff].
    apply orb_false_iff in Heqb2 as [V1 V2].
    rewrite num_ltb_Z in V1, V2 by auto.
    apply safe_nonneg_spec in Heqb3 as T, Heqb4 as M, Heqb8 as G.
    rewrite num_ltb_Z in Heqb5 by (apply safe_isInteger; apply T || apply M).
    assert (A : match amount i with None => True | Some a => is_nat a (num_Z a) end).
    { destruct (amount i); [|done]. apply safe_nonneg_spec. by apply negb_false_iff. }
    pose proof (amount_nat i A) as N.
    constructor; auto.
    + by apply includes_spec.
    + lia.
    + exists (num_Z (tier x)), (num_Z (maxTier g)). split_and!; auto; lia.
    + destruct (counterparties g) as [l|]; [|done]. destruct (counterparty i) as [c|]; [|done].
      exists c. split; [done|]. by apply includes_spec, negb_false_iff.
    + apply within_ltb; auto. destruct (perActionCeiling g); [by apply negb_false_iff | done].
    + apply within_add_ltb; auto. destruct (aggregateCap g); [by apply negb_false_iff | done].
  - intros [Ha Hn [W1 W2] Hin (t & m & T & M & Htm) Hcp Ham Hag Hc Hk].
    pose proof (amount_nat i Ham) as N. unfold authorizesIntent.
    assert (B : forall c z, within c z -> match c with None => true | Some c => safe_nonneg c end = true).
    { intros [c|] z; cbn; [|done]. intros (k & Hkk & _). destruct Hkk as (? & <- & ?).
      apply safe_nonneg_spec. done. }
    rewrite (proj2 (includes_spec _ _) Ha), Hn, W1, W2. cbn [negb orb].
    rewrite !num_ltb_Z by auto.
    destruct T as (T1 & <- & T2), M as (M1 & <- & M2).
    rewrite (proj2 (safe_nonneg_spec (tier x))), (proj2 (safe_nonneg_spec (maxTier g))) by done.
    rewrite (proj2 (safe_nonneg_spec _) Hag). cbn [negb].
    rewrite num_ltb_Z by auto.
    rewrite !(proj2 (Z.ltb_ge _ _)) by lia. cbn [orb].
    replace (match counterparties g with None => false | Some cps => _ end) with false.
    2: { destruct (counterparties g) as [l|]; [|done]. destruct Hcp as (c & -> & Hc').
         by rewrite (proj2 (includes_spec _ _) Hc'). }
    replace (match amount i with None => false | Some a => negb (safe_nonneg a) end) with false.
    2: { destruct (amount i); [|done]. by rewrite (proj2 (safe_nonneg_spec _) Ham). }
    cbv zeta.
    rewrite (proj2 (within_ltb _ _ N (B _ _ Hc)) Hc).
    rewrite (proj2 (within_add_ltb _ _ _ Hag N (B _ _ Hk)) Hk).
    apply B in Hc, Hk.
    destruct (perActionCeiling g), (aggregateCap g); cbn in *; rewrite ?Hc, ?Hk; done.
Qed.

(** ** Attenuation: the order on grants *)
(** Every number of the grant is well formed. *)
Record WF (g : CapabilityGrant) : Prop := {
  wf_tier : is_nat (maxTier g) (num_Z (maxTier g));
  wf_nb : isSafeInteger (notBefore g) = true;
  wf_na : isSafeInteger (notAfter g) = true;
  wf_ceil : match perActionCeiling g with None => True | Some c => is_nat c (num_Z c) end;
  wf_cap : match aggregateCap g with None => True | Some c => is_nat c (num_Z c) end }.

Lemma opt_nat_spec (c : option num) :
  match c with None => true | Some c => safe_nonneg c end = true <->
  match c with None => True | Some c => is_nat c (num_Z c) end.
Proof. destruct c; [apply safe_nonneg_spec | done]. Qed.

Lemma isWellFormed_spec g : isWellFormedGrantNumerics g = true <-> WF g.
Proof.
  unfold isWellFormedGrantNumerics.
  change (isSafeInteger (maxTier g) && num_leb (Int 0) (maxTier g)) with (safe_nonneg (maxTier g)).
  rewrite !andb_true_iff, !opt_nat_spec, safe_nonneg_spec. split.
  - intros [[[[]]]]. by constructor.
  - intros []. tauto.
Qed.

(** [c] is at most [p], where [None] is unrestricted. *)
Definition ceil_le (c p : option num) : Prop :=
  match p with
  | None => True
  | Some y => exists x, c = Some x /\ num_Z x <= num_Z y
  end.
Definition set_le (c p : option (list string)) : Prop :=
  match p with
  | None => True
  | Some y => exists x, c = Some x /\ x ⊆ y
  end.

(** The dimensions of authority: [c] broadens [p] on none of them. *)
Record Narrows (c p : CapabilityGrant) : Prop := {
  nw_actions : actions c ⊆ actions p;
  nw_ceil : ceil_le (perActionCeiling c) (perActionCeiling p);
  nw_cap : ceil_le (aggregateCap c) (aggregateCap p);
  nw_cps : set_le (counterparties c) (counterparties p);
  nw_tier : num_Z (maxTier c) <= num_Z (maxTier p);
  nw_nb : num_Z (notBefore p) <= num_Z (notBefore c);
  nw_na : num_Z (notAfter c) <= num_Z (notAfter p);
  nw_del : delegable c = true -> delegable p = true }.

Lemma ceilingNarrows_spec c p :
  match c with None => True | Some c => is_nat c (num_Z c) end ->
  match p with None => True | Some c => is_nat c (num_Z c) end ->
  ceilingNarrows c p = true <-> ceil_le c p.
Proof.
  intros Hc Hp. destruct p as [p|]; [|done]. destruct c as [c|]; cbn.
  - rewrite num_leb_Z, Z.leb_le by (apply safe_isInteger; apply Hc || apply Hp).
    split; [eauto | by intros (? & [= ->] & ?)].
  - split; [done | by intros (? & ? & _)].
Qed.
Lemma setNarrows_spec c p : setNarrows c p = true <-> set_le c p.
Proof.
  destruct p as [p|]; [|done]. destruct c as [c|]; cbn.
  - rewrite forallb_includes. split; [eauto | by intros (? & [= ->] & ?)].
  - split; [done | by intros (? & ? & _)].
Qed.

Lemma isAttenuationOf_iff c p : isAttenuationOf c p = true <->
  WF c /\ WF p /\ issuer c = subject p /\ Narrows c p.
Proof.
  unfold isAttenuationOf. rewrite <- !isWellFormed_spec.
  destruct (isWellFormedGrantNumerics c) eqn:Wc; cbn [negb orb]; [|naive_solver].
  destruct (isWellFormedGrantNumerics p) eqn:Wp; cbn [negb orb]; [|naive_solver].
  apply isWellFormed_spec in Wc as C, Wp as P. destruct C, P.
  rewrite !andb_true_iff, !ceilingNarrows_spec, setNarrows_spec, forallb_includes,
    bool_decide_eq_true, !num_leb_Z, !Z.leb_le by (auto; apply safe_isInteger;
      match goal with H : is_nat ?x _ |- isSafeInteger ?x = true => apply H end).
  rewrite orb_true_iff, negb_true_iff, <- not_true_iff_false. split.
  - intros [[[[[[[[]]]]]]]]. split_and!; auto. constructor; tauto.
  - intros (_ & _ & ? & [? ? ? ? ? ? ? D]). split_and!; auto.
    destruct (delegable c); [right; auto | by left].
Qed.

#[export] Instance Narrows_preorder : PreOrder Narrows.
Proof.
  split.
  - intros g. split; try reflexivity; try done.
    all: first [ destruct (perActionCeiling g) | destruct (aggregateCap g)
               | destruct (counterparties g) ]; cbn; eauto using Z.le_refl.
    all: destruct (aggregateCap g); cbn; eauto using Z.le_refl.
    all: destruct (counterparties g); cbn; eauto using Z.le_refl.
  - intros a b c [] []. split; try (etrans; eassumption); try lia; auto.
    + destruct (perActionCeiling c); cbn in *; [|done]. destruct nw_ceil1 as (x & E & ?).
      rewrite E in nw_ceil0. destruct nw_ceil0 as (y & -> & ?). eexists; split; [done|lia].
    + destruct (aggregateCap c); cbn in *; [|done]. destruct nw_cap1 as (x & E & ?).
      rewrite E in nw_cap0. destruct nw_cap0 as (y & -> & ?). eexists; split; [done|lia].
    + destruct (counterparties c); cbn in *; [|done]. destruct nw_cps1 as (x & E & ?).
      rewrite E in nw_cps0. destruct nw_cps0 as (y & -> & ?). eexists; split; [done|set_solver].
Qed.

Lemma within_mono c p z :
  match p with None => True | Some c => is_nat c (num_Z c) end ->
  ceil_le c p -> within c z -> within p z.
Proof.
  intros W H Hz. destruct p as [p|]; [|done]. destruct H as (x & -> & ?).
  destruct Hz as (k & (_ & <- & _) & ?). exists (num_Z p). split; [done | lia].
Qed.

(** A narrower grant authorizes less. *)
Lemma Narrows_authorizes c p i x : WF p -> Narrows c p ->
  Authorizes c i x -> Authorizes p i x.
Proof.
  intros W N A. destruct A, N, W. constructor; auto.
  - lia.
  - destruct au_tier0 as (t & m & T & M & ?). destruct M as (_ & <- & _).
    exists t, (num_Z (maxTier p)). split_and!; auto; lia.
  - destruct (counterparties p) as [l|]; [|done]. destruct nw_cps0 as (y & E & ?).
    rewrite E in au_cp0. destruct au_cp0 as (cp & ? & ?). exists cp. set_solver.
  - eapply within_mono; eauto.
  - eapply within_mono; eauto.
Qed.

(** *** [narrow] *)
Lemma list_filter_includes (l m : list string) : List.filter (includes l) m ⊆ l.
Proof.
  intros x. rewrite list_elem_of_In, filter_In. intros [_ ?]. by apply includes_spec.
Qed.

(** What a delegator may ask for: numbers of the kinds the fields hold. *)
Record WFRestriction (r : Attenuation) : Prop := {
  wr_tier : forall x, r_maxTier r = Some x -> safe_nonneg x = true;
  wr_nb : forall x, r_notBefore r = Some x -> isSafeInteger x = true;
  wr_na : forall x, r_notAfter r = Some x -> isSafeInteger x = true;
  wr_ceil : forall x, r_perActionCeiling r = Some x -> safe_nonneg x = true;
  wr_cap : forall x, r_aggregateCap r = Some x -> safe_nonneg x = true }.

Lemma num_min_nat a b : is_nat a (num_Z a) -> is_nat b (num_Z b) ->
  is_nat (num_min a b) (num_Z (num_min a b)) /\ num_Z (num_min a b) <= num_Z b.
Proof.
  intros Ha Hb. destruct (num_min_cases a b) as (_ & E & [F|F]).
  - apply safe_isInteger, Ha.
  - apply safe_isInteger, Hb.
  - rewrite F in *. split; [done | clear -E; lia].
  - rewrite F in *. split; [done | clear -E; lia].
Qed.

Lemma minNullable_nat a b :
  (forall x, a = Some x -> safe_nonneg x = true) ->
  match b with None => True | Some c => is_nat c (num_Z c) end ->
  match minNullable a b with None => True | Some c => is_nat c (num_Z c) end /\
  ceil_le (minNullable a b) b.
Proof.
  intros Ha Hb. destruct a as [a|], b as [b|]; cbn in *.
  - pose proof (num_min_nat a b) as [? ?]; [by apply safe_nonneg_spec; auto | done|].
    split; [done | eauto].
  - split; [|done]. apply safe_nonneg_spec; auto.
  - split; [done|]. eexists; split; [done | lia].
  - done.
Qed.

Lemma narrow_Narrows p r b : WF p -> WFRestriction r ->
  WF (narrow p r b) /\ Narrows (narrow p r b) p.
Proof.
  intros [] [].
  assert (T : is_nat (default (maxTier p) (r_maxTier r)) (num_Z (default (maxTier p) (r_maxTier r)))).
  { destruct (r_maxTier r); [apply safe_nonneg_spec; auto | done]. }
  assert (B : isSafeInteger (default (notBefore p) (r_notBefore r)) = true).
  { destruct (r_notBefore r); [by auto | done]. }
  assert (A : isSafeInteger (default (notAfter p) (r_notAfter r)) = true).
  { destruct (r_notAfter r); [by auto | done]. }
  destruct (num_min_nat _ _ T wf_tier0) as [T1 T2].
  destruct (num_max_cases _ _ (safe_isInteger _ B) (safe_isInteger _ wf_nb0)) as (_ & B1 & B2).
  destruct (num_min_cases _ _ (safe_isInteger _ A) (safe_isInteger _ wf_na0)) as (_ & A1 & A2).
  destruct (minNullable_nat _ _ wr_ceil0 wf_ceil0) as [C1 C2].
  destruct (minNullable_nat _ _ wr_cap0 wf_cap0) as [D1 D2].
  split.
  - constructor; cbn; auto.
    + by destruct B2 as [-> | ->].
    + by destruct A2 as [-> | ->].
  - constructor; cbn; auto; try lia.
    + apply list_filter_includes.
    + destruct (counterparties p) as [l|]; [|done]. destruct (r_counterparties r); cbn.
      * eexists; split; [done|]. apply list_filter_includes.
      * eexists; split; [done|]. reflexivity.
    + by destruct (delegable p); rewrite ?andb_false_r.
Qed.

(** ** Sample data for the witnesses *)
Definition sample_grant : CapabilityGrant := {|
  grant_id := "g0"; issuer := "aa"; subject := "bb"; actions := ["payment.transfer"; "data.read"];
  perActionCeiling := Some (Int 1000); aggregateCap := Some (Int 5000); counterparties := None;
  maxTier := Int 2; notBefore := Int 0; notAfter := Int 100; delegable := true |}.
Definition sample_restriction : Attenuation := {|
  r_actions := Some ["payment.transfer"; "infra.deploy"]; r_perActionCeiling := Some (Int 2000);
  r_aggregateCap := None; r_counterparties := Some ["acme"]; r_maxTier := None;
  r_notBefore := Some (Int 5); r_notAfter := Some (Int 500); r_delegable := None |}.
Definition sample_binding : Binding := {| b_id := "g1"; b_issuer := "bb"; b_subject := "cc" |}.
Definition sample_intent : ActionIntent := {|
  type_ := "payment.transfer"; resource := "acct"; counterparty := Some "acme"%string;
  amount := Some (Int 400); params := None |}.
Definition sample_ctx : EvalContext := {|
  now := Int 50; tier := Int 1; observedAggregate := Int 10; holder := None |}.

(** ** Properties *)
(** [authorizesIntent] returns true exactly for the grants that authorize the
    intent in the declarative sense: the action is listed, the clock is in the
    window, the tier, the amount and the running aggregate are within the
    bounds, the counterparty is allowed, and every number involved is a safe
    integer of the right sign, so no [NaN], infinity or fraction can switch a
    comparison off. *)
Theorem authorizesIntent_spec g i x : authorizesIntent g i x = true <-> Authorizes g i x.
Proof. apply authorizesIntent_iff. Qed.

(** Attenuation never amplifies authority: whatever a grant authorizes that
    [isAttenuationOf] accepts below [p], [p] authorizes too. *)
Theorem attenuation_monotone c p i x :
  isAttenuationOf c p = true -> authorizesIntent c i x = true -> authorizesIntent p i x = true.
Proof.
  rewrite isAttenuationOf_iff, !authorizesIntent_iff. intros (_ & ? & _ & ?).
  by apply Narrows_authorizes.
Qed.

Lemma attenuation_monotone_witness :
  authorizesIntent sample_grant sample_intent sample_ctx = true.
Proof.
  apply (attenuation_monotone (narrow sample_grant sample_restriction sample_binding));
    by vm_compute.
Defined.

(** [narrow] delivers what its comment promises: below a well-formed parent,
    for any restriction made of numbers of the fields' kinds (even one that asks
    for more than the parent has), the child is an attenuation. *)
Theorem narrow_attenuates p r b :
  isWellFormedGrantNumerics p = true -> WFRestriction r -> b_issuer b = subject p ->
  isAttenuationOf (narrow p r b) p = true.
Proof.
  rewrite isWellFormed_spec, isAttenuationOf_iff. intros Hp Hr Hb.
  destruct (narrow_Narrows p r b Hp Hr). done.
Qed.

Lemma narrow_attenuates_witness :
  isAttenuationOf (narrow sample_grant sample_restriction sample_binding) sample_grant = true.
Proof.
  apply narrow_attenuates; [by vm_compute | | done].
  split; intros x [= <-]; by vm_compute.
Defined.
