(* ===== verification/Capability.v ===== *)
(** * capabilities/: issuance, delegation, chain verification, resolution

    src/capabilities/src/capability.ts and resolver.ts over the grants of
    [Grant.v] and the signatures of [Crypto.v]. *)
From S2P Require Import Prelude JsNum JsVal Crypto Concrete Grant.
Open Scope Z_scope.

Record CapabilityLink := {
  grant : CapabilityGrant;
  link_suite : string;
  signerPublicKey : bytes;
  link_sig : bytes }.

Record Capability := { chain : list CapabilityLink }.

Record RootGrantSpec := {
  rs_subject : string;
  rs_actions : list string;
  rs_perActionCeiling : option num;
  rs_aggregateCap : option num;
  rs_counterparties : option (list string);
  rs_maxTier : num;
  rs_notBefore : num;
  rs_notAfter : num;
  rs_delegable : bool }.

(** The CBOR value of a grant body ([Omit<CapabilityGrant, 'id'>]) and of a grant. *)
Definition body_fields (g : CapabilityGrant) : list (string * jsval) := [
  ("issuer"%string, VStr (issuer g));
  ("subject"%string, VStr (subject g));
  ("actions"%string, VStrs (actions g));
  ("perActionCeiling"%string, or_null VNum (perActionCeiling g));
  ("aggregateCap"%string, or_null VNum (aggregateCap g));
  ("counterparties"%string, or_null VStrs (counterparties g));
  ("maxTier"%string, VNum (maxTier g));
  ("notBefore"%string, VNum (notBefore g));
  ("notAfter"%string, VNum (notAfter g));
  ("delegable"%string, VBool (delegable g))].
Definition body_val (g : CapabilityGrant) : jsval := VObj (body_fields g).
Definition grant_val (g : CapabilityGrant) : jsval :=
  VObj (("id"%string, VStr (grant_id g)) :: body_fields g).

(** [{ id, ...body }] *)
Definition with_id (g : CapabilityGrant) (id : string) : CapabilityGrant := {|
  grant_id := id; issuer := issuer g; subject := subject g; actions := actions g;
  perActionCeiling := perActionCeiling g; aggregateCap := aggregateCap g;
  counterparties := counterparties g; maxTier := maxTier g; notBefore := notBefore g;
  notAfter := notAfter g; delegable := delegable g |}.

Definition MAX_CHAIN_LINKS : nat := 32.
Definition MAX_CANDIDATES : nat := 64.

Record ResolveResult := {
  authorized : bool;
  res_capability : option Capability;
  res_reason : string }.

Definition DENY (reason : string) : ResolveResult :=
  {| authorized := false; res_capability := None; res_reason := reason |}.

Section capability.
Context {L : Lib}.

(** [deriveId(body)], applied to a grant whose id is dropped. *)
Definition deriveId (g : CapabilityGrant) : res string :=
  b ← encodeCanonical (body_val g); Ok (str_take 24 (bytesToHex (sha3_256 b))).

Definition grantSigningMessage (suite : string) (g : CapabilityGrant) : res bytes :=
  encodeCanonical (VArr [VStr (tag "CAPABILITY_GRANT"); VStr suite; grant_val g]).

Definition issueRoot (spec : RootGrantSpec) (suite : string) (authority : KeyPair)
  : res Capability :=
  let body := {| grant_id := EmptyString; issuer := bytesToHex (publicKey authority);
    subject := rs_subject spec; actions := rs_actions spec;
    perActionCeiling := rs_perActionCeiling spec; aggregateCap := rs_aggregateCap spec;
    counterparties := rs_counterparties spec; maxTier := rs_maxTier spec;
    notBefore := rs_notBefore spec; notAfter := rs_notAfter spec;
    delegable := rs_delegable spec |} in
  id ← deriveId body;
  let g := with_id body id in
  signer ← signerFor suite;
  msg ← grantSigningMessage suite g;
  sg ← scheme_sign signer msg (secretKey authority) None;
  Ok {| chain := [{| grant := g; link_suite := suite;
                     signerPublicKey := publicKey authority; link_sig := sg |}] |}.

Definition tail (cap : Capability) : res CapabilityLink :=
  match last (chain cap) with
  | None => Throw "empty capability chain"
  | Some l => Ok l
  end.

Definition attenuate (parent : Capability) (restriction : Attenuation)
    (newSubject : string) (delegator : KeyPair) : res Capability :=
  parentTail ← tail parent;
  if negb (delegable (grant parentTail)) then Throw "parent grant is not delegable" else
  if negb (bool_decide (bytesToHex (publicKey delegator) = subject (grant parentTail)))
  then Throw "delegator does not hold the parent subject key" else
  let provisional := narrow (grant parentTail) restriction
    {| b_id := EmptyString; b_issuer := subject (grant parentTail);
       b_subject := newSubject |} in
  id ← deriveId provisional;
  let g := with_id provisional id in
  if negb (isAttenuationOf g (grant parentTail))
  then Throw "refusing to issue: child grant would broaden authority" else
  let suite := link_suite parentTail in
  signer ← signerFor suite;
  msg ← grantSigningMessage suite g;
  sg ← scheme_sign signer msg (secretKey delegator) None;
  Ok {| chain := chain parent ++ [{| grant := g; link_suite := suite;
          signerPublicKey := publicKey delegator; link_sig := sg |}] |}.

(** The loop of [verifyChain]; [prev] is [cap.chain[i - 1]]. *)
Fixpoint verify_links (trusted : list string) (chainSuite : string)
    (prev : option CapabilityLink) (links : list CapabilityLink) : res bool :=
  match links with
  | [] => Ok true
  | link :: rest =>
      let signerHex := bytesToHex (signerPublicKey link) in
      if negb (includes activeSuiteIds (link_suite link)) then Ok false else
      if negb (bool_decide (link_suite link = chainSuite)) then Ok false else
      if negb (bool_decide (issuer (grant link) = signerHex)) then Ok false else
      id ← deriveId (grant link);
      if negb (bool_decide (grant_id (grant link) = id)) then Ok false else
      signer ← signerFor (link_suite link);
      msg ← grantSigningMessage (link_suite link) (grant link);
      ok ← scheme_verify signer (link_sig link) msg (signerPublicKey link) None;
      if negb ok then Ok false else
      match prev with
      | None =>
          if negb (includes trusted signerHex) then Ok false
          else verify_links trusted chainSuite (Some link) rest
      | Some p =>
          if negb (delegable (grant p)) then Ok false else
          if negb (bool_decide (signerHex = subject (grant p))) then Ok false else
          if negb (isAttenuationOf (grant link) (grant p)) then Ok false else
          verify_links trusted chainSuite (Some link) rest
      end
  end.

Definition verifyChain (cap : Capability) (trustedRoots : list bytes) : res bool :=
  if (length (chain cap) =? 0)%nat || (MAX_CHAIN_LINKS <? length (chain cap))%nat
  then Ok false else
  match chain cap with
  | [] => Ok true
  | l0 :: _ =>
      verify_links (map bytesToHex trustedRoots) (link_suite l0) None (chain cap)
  end.

Definition effectiveGrant (cap : Capability) : res CapabilityGrant :=
  l ← tail cap; Ok (grant l).

(** The body of the resolver's loop: [Ok true] returns, [Ok false] continues. *)
Definition candidate_ok (intent : ActionIntent) (trustedRoots : list bytes)
    (ctx : EvalContext) (holder : string) (revoked : gset string) (cap : Capability)
  : res bool :=
  ok ← verifyChain cap trustedRoots;
  if negb ok then Ok false else
  if existsb (fun l => bool_decide (grant_id (grant l) ∈ revoked)) (chain cap)
  then Ok false else
  g ← effectiveGrant cap;
  if negb (bool_decide (subject g = holder)) then Ok false else
  Ok (forallb (fun l => authorizesIntent (grant l) intent ctx) (chain cap)).

Definition resolve (intent : ActionIntent) (candidates : list Capability)
    (trustedRoots : list bytes) (ctx : EvalContext) (revoked : gset string)
  : ResolveResult :=
  match holder ctx with
  | None => DENY "requester holder identity is required"
  | Some h =>
      if (MAX_CANDIDATES <? length candidates)%nat
      then DENY "too many candidate capabilities (> 64)" else
      match find (fun cap => try_catch (candidate_ok intent trustedRoots ctx h revoked cap)
                                       (fun _ => false)) candidates with
      | Some cap => {| authorized := true; res_capability := Some cap;
                       res_reason := "authorized by capability" |}
      | None => DENY "no capability authorizes this action (default-deny)"
      end
  end.

(** ** What a verified chain is *)
Record LinkOK (trusted : list string) (suite : string) (prev : option CapabilityLink)
    (l : CapabilityLink) : Prop := {
  lk_active : link_suite l ∈ activeSuiteIds;
  lk_suite : link_suite l = suite;
  lk_issuer : issuer (grant l) = bytesToHex (signerPublicKey l);
  lk_id : deriveId (grant l) = Ok (grant_id (grant l));
  lk_sig : exists msg, grantSigningMessage suite (grant l) = Ok msg /\
    suite_verify suite (link_sig l) msg (signerPublicKey l) = Ok true;
  lk_prev : match prev with
    | None => bytesToHex (signerPublicKey l) ∈ trusted
    | Some p => delegable (grant p) = true /\
        bytesToHex (signerPublicKey l) = subject (grant p) /\
        isAttenuationOf (grant l) (grant p) = true
    end }.

Inductive Links (trusted : list string) (suite : string) :
    option CapabilityLink -> list CapabilityLink -> Prop :=
| Links_nil prev : Links trusted suite prev []
| Links_cons prev l ls : LinkOK trusted suite prev l ->
    Links trusted suite (Some l) ls -> Links trusted suite prev (l :: ls).

Lemma verify_link_step trusted suite prev l ls :
  verify_links trusted suite prev (l :: ls) = Ok true <->
  LinkOK trusted suite prev l /\ verify_links trusted suite (Some l) ls = Ok true.
Proof.
  cbn [verify_links]. split.
  - intros H.
    destruct (negb (includes activeSuiteIds _)) eqn:A in H; [discriminate|].
    destruct (negb (bool_decide (link_suite l = suite))) eqn:S in H; [discriminate|].
    destruct (negb (bool_decide (issuer _ = _))) eqn:I in H; [discriminate|].
    apply bind_ok in H as (id & D & H).
    destruct (negb (bool_decide (grant_id _ = _))) eqn:Id in H; [discriminate|].
    apply bind_ok in H as (sg & Sg & H). apply bind_ok in H as (msg & M & H).
    apply bind_ok in H as (ok & V & H). destruct ok; [cbn [negb] in H|discriminate].
    bool_to_prop. subst suite.
    assert (T : exists msg, grantSigningMessage (link_suite l) (grant l) = Ok msg /\
      suite_verify (link_suite l) (link_sig l) msg (signerPublicKey l) = Ok true).
    { exists msg. split; [done|]. unfold suite_verify. by rewrite Sg. }
    destruct prev as [p|].
    + destruct (delegable _) eqn:Dl in H; [cbn [negb] in H|discriminate].
      destruct (bool_decide (_ = subject _)) eqn:Su in H; [cbn [negb] in H|discriminate].
      destruct (isAttenuationOf _ _) eqn:At in H; [cbn [negb] in H|discriminate].
      bool_to_prop. split; [|done]. constructor; auto; congruence.
    + destruct (includes trusted _) eqn:Tr in H; [cbn [negb] in H|discriminate].
      bool_to_prop. split; [|done]. constructor; auto; congruence.
  - intros [[A <- I D (msg & M & V) P] H].
    rewrite (proj2 (includes_spec _ _) A), bool_decide_true by done. cbn [negb].
    rewrite bool_decide_true by done. cbn [negb]. rewrite D. cbn [mbind res_bind].
    rewrite bool_decide_true by done. cbn [negb]. unfold suite_verify in V.
    apply bind_ok in V as (sg & -> & V). cbn [mbind res_bind]. rewrite M.
    cbn [mbind res_bind]. rewrite V. cbn [mbind res_bind negb]. destruct prev as [p|].
    + destruct P as (-> & E & ->). cbn [negb]. by rewrite bool_decide_true.
    + by rewrite (proj2 (includes_spec _ _) P).
Qed.

Lemma verify_links_iff trusted suite ls : forall prev,
  verify_links trusted suite prev ls = Ok true <-> Links trusted suite prev ls.
Proof.
  induction ls as [|l ls IH]; intros prev.
  - split; [constructor | done].
  - rewrite verify_link_step, IH. split.
    + intros []. by constructor.
    + by inversion_clear 1.
Qed.

Lemma verifyChain_iff cap roots : verifyChain cap roots = Ok true <->
  exists l0 ls, chain cap = l0 :: ls /\ (length (l0 :: ls) <= MAX_CHAIN_LINKS)%nat /\
    Links (map bytesToHex roots) (link_suite l0) None (l0 :: ls).
Proof.
  unfold verifyChain. destruct (chain cap) as [|l0 ls].
  - cbn. split; [done | by intros (? & ? & ? & _)].
  - destruct ((length (l0 :: ls) =? 0)%nat || _) eqn:E.
    + split; [done|]. intros (? & ? & [= <- <-] & H & _). apply orb_true_iff in E as [E|E].
      * by apply Nat.eqb_eq in E.
      * apply Nat.ltb_lt in E. lia.
    + rewrite verify_links_iff. apply orb_false_iff in E as [_ E%Nat.ltb_ge]. split.
      * intros. eauto.
      * by intros (? & ? & [= <- <-] & _ & ?).
Qed.

(** Down a chain, authority only narrows. *)
Lemma Links_narrow trusted suite p ls : Links trusted suite (Some p) ls ->
  forall l, l ∈ ls -> Narrows (grant l) (grant p) /\ WF (grant p).
Proof.
  intros H. remember (Some p) as prev eqn:E. revert p E.
  induction H as [|prev l ls [_ _ _ _ _ P] _ IH]; intros p ->.
  - intros l []%elem_of_nil.
  - destruct P as (_ & _ & (_ & W & _ & N)%isAttenuationOf_iff).
    intros l' [->|Hl]%elem_of_cons; [done|].
    destruct (IH l eq_refl l' Hl) as [N' _]. split; [by etrans | done].
Qed.

Lemma Links_LinkOK trusted suite prev ls : Links trusted suite prev ls ->
  forall l, l ∈ ls -> exists prev', LinkOK trusted suite prev' l.
Proof.
  induction 1 as [|prev l ls P _ IH]; [intros l []%elem_of_nil|].
  intros l' [->|Hl]%elem_of_cons; eauto.
Qed.

Lemma Links_snoc trusted suite prev ls l k :
  Links trusted suite prev (ls ++ [l]) -> LinkOK trusted suite (Some l) k ->
  Links trusted suite prev ((ls ++ [l]) ++ [k]).
Proof.
  intros H Hk. remember (ls ++ [l]) as m eqn:E. revert ls E.
  induction H as [|prev a m Ha Hm IH]; intros ls E.
  - by destruct ls.
  - cbn. constructor; [done|]. destruct ls as [|b ls]; cbn in E.
    + injection E as -> ->. cbn. constructor; [done | constructor].
    + injection E as -> ->. by apply (IH ls).
Qed.

Lemma tail_ok cap l : tail cap = Ok l ->
  exists ls, chain cap = ls ++ [l].
Proof.
  unfold tail. destruct (last (chain cap)) eqn:E; [|done]. intros [= ->].
  by apply last_Some in E.
Qed.

(** The link a key pair's holder signs is a well-formed link. *)
Lemma signed_link_ok `{!SigLaws L kpr} trusted suite prev key g id sg signer msg :
  kpr (publicKey key) (secretKey key) -> suite ∈ activeSuiteIds ->
  issuer g = bytesToHex (publicKey key) -> deriveId g = Ok id ->
  signerFor suite = Ok signer -> grantSigningMessage suite (with_id g id) = Ok msg ->
  scheme_sign signer msg (secretKey key) None = Ok sg ->
  match prev with
  | None => bytesToHex (publicKey key) ∈ trusted
  | Some p => delegable (grant p) = true /\
      bytesToHex (publicKey key) = subject (grant p) /\
      isAttenuationOf (with_id g id) (grant p) = true
  end ->
  LinkOK trusted suite prev {| grant := with_id g id; link_suite := suite;
    signerPublicKey := publicKey key; link_sig := sg |}.
Proof.
  intros Hk Hs Hi Hd Hsg Hm Hsi Hp. constructor; cbn; auto.
  exists msg. split; [done|]. eapply suite_sign_verify; [done | done |].
  unfold suite_sign. by rewrite Hsg.
Qed.
End capability.

(** ** Resolution *)
Section resolution.
Context {L : Lib}.

(** A capability that authorizes [intent] for [h]. *)
Record CandidateOK (intent : ActionIntent) (roots : list bytes) (ctx : EvalContext)
    (h : string) (revoked : gset string) (cap : Capability) : Prop := {
  co_chain : verifyChain cap roots = Ok true;
  co_unrevoked : forall l, l ∈ chain cap -> grant_id (grant l) ∉ revoked;
  co_holder : exists g, effectiveGrant cap = Ok g /\ subject g = h;
  co_authorizes : forall l, l ∈ chain cap -> authorizesIntent (grant l) intent ctx = true }.

Lemma existsb_false_iff {A} (f : A -> bool) l :
  existsb f l = false <-> forall x, x ∈ l -> f x = false.
Proof.
  rewrite <- not_true_iff_false, existsb_exists. split.
  - intros H x Hx. apply not_true_iff_false. intros E. apply H. exists x.
    by rewrite <- list_elem_of_In.
  - intros H (x & Hx%list_elem_of_In & E). rewrite H in E; done.
Qed.

Lemma candidate_ok_iff intent roots ctx h revoked cap :
  candidate_ok intent roots ctx h revoked cap = Ok true <->
  CandidateOK intent roots ctx h revoked cap.
Proof.
  unfold candidate_ok. split.
  - intros H. apply bind_ok in H as (ok & V & H). destruct ok; [cbn [negb] in H|discriminate].
    destruct (existsb _ _) eqn:R in H; [discriminate|].
    apply bind_ok in H as (g & G & H).
    destruct (bool_decide _) eqn:S in H; [cbn [negb] in H|discriminate].
    injection H as H. rewrite existsb_false_iff in R. bool_to_prop. constructor; eauto.
    + intros l Hl. by apply (bool_decide_eq_false_1 _), R.
    + intros l Hl. by apply H, list_elem_of_In.
  - intros [V R (g & G & S) A]. rewrite V. cbn [mbind res_bind negb].
    rewrite (proj2 (existsb_false_iff _ _)).
    + rewrite G. cbn [mbind res_bind]. rewrite bool_decide_true by done. cbn [negb].
      f_equal. apply forallb_forall. intros l Hl%list_elem_of_In. auto.
    + intros l Hl. apply bool_decide_eq_false_2. auto.
Qed.

Lemma find_is_some {A} (p : A -> bool) l :
  is_Some (find p l) <-> exists x, x ∈ l /\ p x = true.
Proof.
  split.
  - intros [x E]. apply find_some in E. eauto.
  - intros (x & Hx & P). destruct (find p l) eqn:E; [eauto|].
    rewrite find_none in E. by rewrite E in P.
Qed.

(** What [resolve] returns, in either case. *)
Lemma resolve_cases intent candidates roots ctx revoked :
  let r := resolve intent candidates roots ctx revoked in
  (exists h cap, holder ctx = Some h /\ (length candidates <= MAX_CANDIDATES)%nat /\
     cap ∈ candidates /\ CandidateOK intent roots ctx h revoked cap /\
     authorized r = true /\ res_capability r = Some cap) \/
  (authorized r = false /\ res_capability r = None /\
   ~ exists h cap, holder ctx = Some h /\ (length candidates <= MAX_CANDIDATES)%nat /\
     cap ∈ candidates /\ CandidateOK intent roots ctx h revoked cap).
Proof.
  unfold resolve. destruct (holder ctx) as [h|].
  2: { right. split_and!; [done | done |]. by intros (? & ? & ? & _). }
  destruct (Nat.ltb_spec MAX_CANDIDATES (length candidates)) as [E|E].
  { right. split_and!; [done | done |]. intros (? & ? & _ & ? & _). lia. }
  destruct (find _ candidates) as [cap|] eqn:F; cbn zeta.
  - left. apply find_some in F as [Hc F%try_catch_true%candidate_ok_iff]. eauto 10.
  - right. split_and!; [done | done |]. intros (h' & cap & [= <-] & _ & Hc & C).
    apply find_none with (x := cap) in F; [|done].
    apply candidate_ok_iff in C. rewrite C in F. done.
Qed.

(** A revoked link anywhere in every candidate's chain leaves nothing. *)
Lemma CandidateOK_holds intent roots ctx h revoked cap :
  CandidateOK intent roots ctx h revoked cap ->
  exists l, last (chain cap) = Some l /\ subject (grant l) = h /\
    Authorizes (grant l) intent ctx.
Proof.
  intros [_ _ (g & G & S) A]. unfold effectiveGrant, tail in G.
  destruct (last (chain cap)) as [l|] eqn:E; [|done]. cbn in G. injection G as <-.
  exists l. split_and!; [done | done |]. apply authorizesIntent_iff, A.
  apply last_Some in E as [ls ->]. set_solver.
Qed.
End resolution.

(** ** Properties *)
Section properties.
Context {L : Lib}.

(** [verifyChain] accepts exactly the chains of at most 32 links in which
    every link is of the root's one active suite, is issued by the key that
    signed it, carries the content hash of its body as id and a signature that
    verifies; whose first link is signed by a trusted root; and whose every
    further link is signed by the subject of a delegable parent and attenuates
    it. *)
Theorem verifyChain_spec cap roots : verifyChain cap roots = Ok true <->
  exists l0 ls, chain cap = l0 :: ls /\ (length (l0 :: ls) <= MAX_CHAIN_LINKS)%nat /\
    Links (map bytesToHex roots) (link_suite l0) None (l0 :: ls).
Proof. apply verifyChain_iff. Qed.

(** A link whose signer issued its grant: the grant names that key as issuer, and
    the key's ML-DSA-87 signature over the tagged suite and grant, every field of
    it, verifies. *)
Definition SignedLink (l : CapabilityLink) : Prop :=
  let g := grant l in
  issuer g = bytesToHex (signerPublicKey l) /\
  exists msg, cbor_encode (VArr [VStr "polarseek/capability/grant/v2"; VStr (link_suite l); VObj [
      ("id", VStr (grant_id g)); ("issuer", VStr (issuer g)); ("subject", VStr (subject g));
      ("actions", VArr (map VStr (actions g)));
      ("perActionCeiling", match perActionCeiling g with Some n => VNum n | None => VNull end);
      ("aggregateCap", match aggregateCap g with Some n => VNum n | None => VNull end);
      ("counterparties", match counterparties g with Some l => VArr (map VStr l) | None => VNull end);
      ("maxTier", VNum (maxTier g)); ("notBefore", VNum (notBefore g));
      ("notAfter", VNum (notAfter g)); ("delegable", VBool (delegable g))]%string]) = Ok msg /\
    ml_dsa87_verify (link_sig l) msg (signerPublicKey l) None = Ok true.

Lemma LinkOK_signed trusted suite prev l : LinkOK trusted suite prev l -> SignedLink l.
Proof.
  intros [A E I _ (msg & M & V) _]. split; [done|]. exists msg. split.
  - rewrite <- M, <- E. unfold grantSigningMessage, grant_val, body_fields, encodeCanonical, or_null.
    by destruct (perActionCeiling _), (aggregateCap _), (counterparties _).
  - unfold suite_verify in V. subst suite. by rewrite (signerFor_active _ A) in V.
Qed.

Lemma Links_adjacent trusted suite prev ls : Links trusted suite prev ls ->
  forall j p l, ls !! j = Some p -> ls !! S j = Some l ->
  delegable (grant p) = true /\ bytesToHex (signerPublicKey l) = subject (grant p).
Proof.
  induction 1 as [|prev a ls _ H IH]; intros j p l Hp Hl; [done|].
  destruct j as [|j]; [|by eapply IH]. injection Hp as ->. cbn in Hl.
  inversion H as [|? b ls' [_ _ _ _ _ P] _]; subst; [done|]. injection Hl as ->.
  by destruct P as (D & S & _).
Qed.

(** C10: Confinement: the first link of an accepted chain is signed by a trusted
    root key, every link is signed by the key its grant names as issuer (an
    ML-DSA-87 signature over all the fields of the grant), and every further
    link's signer is the subject of the link before it, which is delegable.  And
    no link of the chain, so not the grant that takes effect, authorizes anything
    the root's own grant does not authorize. *)
Theorem verifyChain_confined cap roots l0 ls :
  verifyChain cap roots = Ok true -> chain cap = l0 :: ls ->
  bytesToHex (signerPublicKey l0) ∈ map bytesToHex roots /\
  (forall l, l ∈ chain cap -> SignedLink l) /\
  (forall j p l, chain cap !! j = Some p -> chain cap !! S j = Some l ->
     delegable (grant p) = true /\ bytesToHex (signerPublicKey l) = subject (grant p)) /\
  forall l i x, l ∈ chain cap ->
    (authorizesIntent (grant l) i x = true <-> Authorizes (grant l) i x) /\
    (Authorizes (grant l) i x -> Authorizes (grant l0) i x).
Proof.
  intros (m0 & ms & E & _ & H)%verifyChain_iff E'. rewrite E' in E. injection E as <- <-.
  rewrite E'. split_and!.
  - by inversion_clear H as [|? ? ? [_ _ _ _ _ P] _].
  - intros l Hl. destruct (Links_LinkOK _ _ _ _ H l Hl) as [q K]. by eapply LinkOK_signed.
  - by apply (Links_adjacent _ _ _ _ H).
  - intros l i x Hl. split; [apply authorizesIntent_iff|].
    inversion_clear H as [|? ? ? _ H']. apply elem_of_cons in Hl as [->|Hl]; [done|].
    destruct (Links_narrow _ _ _ _ H' l Hl) as [N W]. by apply Narrows_authorizes.
Qed.

(** What [issueRoot] issues under an active suite with a trusted
    authority's key pair, [verifyChain] accepts. *)
Theorem issueRoot_verifies `{!SigLaws L kpr} spec suite authority roots cap :
  kpr (publicKey authority) (secretKey authority) -> suite ∈ activeSuiteIds ->
  publicKey authority ∈ roots ->
  issueRoot spec suite authority = Ok cap -> verifyChain cap roots = Ok true.
Proof.
  intros Hk Hs Hr H. unfold issueRoot in H. apply bind_ok in H as (id & D & H).
  apply bind_ok in H as (signer & S & H). apply bind_ok in H as (msg & M & H).
  apply bind_ok in H as (sg & G & [= <-]). apply verifyChain_iff.
  eexists _, []. split; [done|]. split; [vm_compute; lia|]. cbn [link_suite].
  constructor; [|constructor]. eapply signed_link_ok; eauto.
  by apply (list_elem_of_fmap_2 bytesToHex).
Qed.

(** Delegation preserves acceptance: from an accepted chain of fewer than 32
    links, [attenuate] either refuses or yields a chain that is accepted under
    the same roots. *)
Theorem attenuate_verifies `{!SigLaws L kpr} parent r newSubject delegator roots cap :
  kpr (publicKey delegator) (secretKey delegator) ->
  verifyChain parent roots = Ok true -> (length (chain parent) < MAX_CHAIN_LINKS)%nat ->
  attenuate parent r newSubject delegator = Ok cap -> verifyChain cap roots = Ok true.
Proof.
  intros Hk (l0 & ls & E & _ & HL)%verifyChain_iff Hlen H. unfold attenuate in H.
  apply bind_ok in H as (t & T & H). apply tail_ok in T as (ms & T).
  destruct (delegable _) eqn:D in H; [cbn [negb] in H|discriminate].
  destruct (bool_decide _) eqn:S in H; [cbn [negb] in H|discriminate].
  apply bool_decide_eq_true in S. apply bind_ok in H as (id & Di & H).
  destruct (isAttenuationOf _ _) eqn:A in H; [cbn [negb] in H|discriminate].
  apply bind_ok in H as (signer & Sg & H). apply bind_ok in H as (msg & M & H).
  apply bind_ok in H as (sg & G & [= <-]). rewrite E in T, Hlen.
  assert (Ht : link_suite t ∈ activeSuiteIds /\ link_suite t = link_suite l0).
  { assert (t ∈ l0 :: ls) as Hin by (rewrite T; set_solver).
    destruct (Links_LinkOK _ _ _ _ HL t Hin) as (? & []). done. }
  destruct Ht as [Ht Hs]. rewrite <- Hs, T in HL. apply verifyChain_iff. cbn [chain].
  set (k := {| grant := _; link_suite := _; signerPublicKey := _; link_sig := _ |}).
  assert (HL' : Links (map bytesToHex roots) (link_suite t) None ((ms ++ [t]) ++ [k])).
  { apply Links_snoc; [done|]. eapply signed_link_ok; eauto. }
  rewrite E, T. rewrite <- T in HL' |- *. exists l0, (ls ++ [k]). split; [done|].
  rewrite <- Hs. split; [cbn in *; rewrite length_app; cbn; lia | done].
Qed.

(** The resolver authorizes exactly when there is a requester, at most 64
    candidates, and one of them is a verified chain with no revoked link, held
    by the requester, every grant of which authorizes the intent.  Candidates
    that fail or throw change nothing, whatever their number and position. *)
Theorem resolve_spec intent candidates roots ctx revoked :
  authorized (resolve intent candidates roots ctx revoked) = true <->
  exists h cap, holder ctx = Some h /\ (length candidates <= MAX_CANDIDATES)%nat /\
    cap ∈ candidates /\ CandidateOK intent roots ctx h revoked cap.
Proof.
  destruct (resolve_cases intent candidates roots ctx revoked)
    as [(h & cap & ? & ? & ? & ? & -> & _) | (-> & _ & H)]; [naive_solver|].
  split; [done | by intros ?%H].
Qed.
End properties.

(** ** Witnesses *)
Definition sample_spec : RootGrantSpec := {|
  rs_subject := kp_hex "agent"; rs_actions := ["payment.transfer"; "data.read"]%string;
  rs_perActionCeiling := Some (Int 1000); rs_aggregateCap := None;
  rs_counterparties := None; rs_maxTier := Int 3; rs_notBefore := Int 0;
  rs_notAfter := Int 100; rs_delegable := true |}.
Definition sample_cap : Capability :=
  try_catch (issueRoot sample_spec PS_5 (kp "root")) (fun _ => {| chain := [] |}).
Definition sample_child : Capability :=
  try_catch (attenuate sample_cap sample_restriction (kp_hex "helper") (kp "agent"))
    (fun _ => {| chain := [] |}).
Definition sample_root_link : CapabilityLink :=
  {| grant := {| grant_id := EmptyString; issuer := EmptyString; subject := EmptyString;
       actions := []; perActionCeiling := None; aggregateCap := None; counterparties := None;
       maxTier := NaN; notBefore := NaN; notAfter := NaN; delegable := false |};
     link_suite := EmptyString; signerPublicKey := []; link_sig := [] |}.
Definition sample_link : CapabilityLink := default sample_root_link (head (chain sample_child)).
Definition sample_tail_link : CapabilityLink := default sample_root_link (last (chain sample_child)).

Lemma verifyChain_confined_witness :
  SignedLink sample_tail_link /\ Authorizes (grant sample_link) sample_intent sample_ctx.
Proof.
  assert (I : sample_tail_link ∈ chain sample_child).
  { apply list_elem_of_lookup_2 with 1%nat. by vm_compute. }
  destruct (verifyChain_confined sample_child [publicKey (kp "root")] sample_link
    (List.tl (chain sample_child))) as (_ & S & _ & A).
  - by vm_compute.
  - by vm_compute.
  - split; [exact (S _ I)|]. destruct (A _ sample_intent sample_ctx I) as [E C].
    apply C, E. by vm_compute.
Defined.

Lemma issueRoot_verifies_witness : verifyChain sample_cap [publicKey (kp "root")] = Ok true.
Proof.
  apply (issueRoot_verifies (kpr := eq) sample_spec PS_5 (kp "root")); [done | | set_solver |].
  - rewrite activeSuiteIds_eq. set_solver.
  - by vm_compute.
Defined.

Lemma attenuate_verifies_witness : verifyChain sample_child [publicKey (kp "root")] = Ok true.
Proof.
  apply (attenuate_verifies (kpr := eq) sample_cap sample_restriction (kp_hex "helper") (kp "agent"));
    [done | by vm_compute | vm_compute; lia | by vm_compute].
Defined.
