(* ===== verification/Kernel.v ===== *)
(** * kernel/: the admission kernel

    src/kernel/src: types.ts, blindness.ts, policy.ts, kernel.ts and replay.ts.
    [decide] is a function of its explicit input; the [try]/[catch] blocks of the
    source are the matches on [res]. *)
From S2P Require Import Prelude JsNum JsVal Crypto Concrete Grant Capability.
Open Scope Z_scope.

(** ** types.ts *)
Inductive Effect := allow | deny | transform.
Inductive RiskTier := T0 | T1 | T2 | T3.

#[export] Instance Effect_eq_dec : EqDecision Effect.
Proof. solve_decision. Defined.
#[export] Instance RiskTier_eq_dec : EqDecision RiskTier.
Proof. solve_decision. Defined.

Definition tier_Z (t : RiskTier) : Z :=
  match t with T0 => 0 | T1 => 1 | T2 => 2 | T3 => 3 end.

Record TierRule := { prefix : string; rule_tier : RiskTier }.

Record Policy := {
  version : string;
  tierRules : list TierRule;
  denyActions : list string;
  transformActions : list string;
  defaultTier : RiskTier }.

Record KernelInput := {
  intent : ActionIntent;
  capabilities : list Capability;
  policy : Policy;
  trustedRoots : list bytes;
  in_now : num;
  in_observedAggregate : num;
  in_holder : option string;
  in_revoked : option (list string) }.

Record Decision := {
  effect : Effect;
  dec_tier : RiskTier;
  reasons : list string;
  obligations : list string;
  dec_evaluatorVersion : string }.

#[export] Instance Decision_eq_dec : EqDecision Decision.
Proof. solve_decision. Defined.

(** *** Their CBOR values *)
Open Scope string_scope.
Definition tier_val (t : RiskTier) : jsval := VNum (Int (tier_Z t)).
Definition effect_str (e : Effect) : string :=
  match e with allow => "allow" | deny => "deny" | transform => "transform" end.
Definition intent_val (i : ActionIntent) : jsval := VObj (
  [("type", VStr (type_ i)); ("resource", VStr (resource i))] ++
  field_if "counterparty" VStr (counterparty i) ++ field_if "amount" VNum (amount i) ++
  field_if "params" (fun v => v) (params i)).
Definition link_val (l : CapabilityLink) : jsval := VObj [
  ("grant", grant_val (grant l)); ("suite", VStr (link_suite l));
  ("signerPublicKey", VBytes (signerPublicKey l)); ("sig", VBytes (link_sig l))].
Definition capability_val (c : Capability) : jsval :=
  VObj [("chain", VArr (map link_val (chain c)))].
Definition policy_val (p : Policy) : jsval := VObj [
  ("version", VStr (version p));
  ("tierRules", VArr (map (fun r => VObj [("prefix", VStr (prefix r));
                                          ("tier", tier_val (rule_tier r))]) (tierRules p)));
  ("denyActions", VStrs (denyActions p)); ("transformActions", VStrs (transformActions p));
  ("defaultTier", tier_val (defaultTier p))].
Definition input_val (i : KernelInput) : jsval := VObj (
  [("intent", intent_val (intent i));
   ("capabilities", VArr (map capability_val (capabilities i)));
   ("policy", policy_val (policy i));
   ("trustedRoots", VArr (map VBytes (trustedRoots i)));
   ("now", VNum (in_now i)); ("observedAggregate", VNum (in_observedAggregate i))] ++
  field_if "holder" VStr (in_holder i) ++ field_if "revoked" VStrs (in_revoked i)).
Definition decision_val (d : Decision) : jsval := VObj [
  ("effect", VStr (effect_str (effect d))); ("tier", tier_val (dec_tier d));
  ("reasons", VStrs (reasons d)); ("obligations", VStrs (obligations d));
  ("evaluatorVersion", VStr (dec_evaluatorVersion d))].

(** ** policy.ts *)
Definition KERNEL_VERSION := "polarseek-kernel/0.1.0".

Definition actionMatches (type entry : string) : bool :=
  let boundary := if ends_with_char entry "." then entry else entry +:+ "." in
  bool_decide (type = entry) || starts_with boundary type.

Definition actionInList (type : string) (l : list string) : bool :=
  existsb (actionMatches type) l.

(** [[A-Za-z0-9_-]] *)
Definition action_char (c : ascii) : bool :=
  let n := nat_of_ascii c in
  ((65 <=? n) && (n <=? 90) || (97 <=? n) && (n <=? 122) || (48 <=? n) && (n <=? 57))%nat
  || bool_decide (c = "_"%char) || bool_decide (c = "-"%char).

(** [ACTION_TYPE_RE]: inside a segment ([started]) or at its first character. *)
Fixpoint action_re (started : bool) (s : string) : bool :=
  match s with
  | EmptyString => started
  | String c s' =>
      if action_char c then action_re true s'
      else if bool_decide (c = "."%char) then started && action_re false s'
      else false
  end.

Definition isCanonicalActionType (type : string) : bool :=
  (String.length type <=? 256)%nat && action_re false type.

Definition tierOf (i : ActionIntent) (p : Policy) : RiskTier :=
  match find (fun rule => actionMatches (type_ i) (prefix rule)) (tierRules p) with
  | Some rule => rule_tier rule
  | None => defaultTier p
  end.

Definition DEFAULT_POLICY : Policy := {|
  version := "0.1.0";
  tierRules := [
    {| prefix := "data.read"; rule_tier := T0 |}; {| prefix := "draft."; rule_tier := T0 |};
    {| prefix := "message.send"; rule_tier := T1 |}; {| prefix := "data.create"; rule_tier := T1 |};
    {| prefix := "payment."; rule_tier := T2 |}; {| prefix := "key."; rule_tier := T2 |};
    {| prefix := "data.delete"; rule_tier := T2 |}; {| prefix := "infra.deploy"; rule_tier := T2 |};
    {| prefix := "actuation.physical"; rule_tier := T3 |};
    {| prefix := "export.mass"; rule_tier := T3 |};
    {| prefix := "model.weights"; rule_tier := T3 |}];
  denyActions := []; transformActions := []; defaultTier := T3 |}.

(** ** blindness.ts *)
(** An intent without its [params]. *)
Record GovernedIntent := {
  gov_type : string;
  gov_resource : string;
  gov_counterparty : option string;
  gov_amount : option num }.

Definition governedView (i : ActionIntent) : GovernedIntent := {|
  gov_type := type_ i; gov_resource := resource i;
  gov_counterparty := counterparty i; gov_amount := amount i |}.

(** A governed intent where an [ActionIntent] is expected. *)
Definition as_intent (g : GovernedIntent) : ActionIntent := {|
  type_ := gov_type g; resource := gov_resource g; counterparty := gov_counterparty g;
  amount := gov_amount g; params := None |}.

(** [{ ...input, intent: governed }] *)
Record GovernedInput := {
  gi_intent : GovernedIntent;
  gi_capabilities : list Capability;
  gi_policy : Policy;
  gi_trustedRoots : list bytes;
  gi_now : num;
  gi_observedAggregate : num;
  gi_holder : option string;
  gi_revoked : option (list string) }.

Definition governed_input (i : KernelInput) (g : GovernedIntent) : GovernedInput := {|
  gi_intent := g; gi_capabilities := capabilities i; gi_policy := policy i;
  gi_trustedRoots := trustedRoots i; gi_now := in_now i;
  gi_observedAggregate := in_observedAggregate i; gi_holder := in_holder i;
  gi_revoked := in_revoked i |}.

(** ** kernel.ts *)
Definition obligationsForTier (t : RiskTier) : list string :=
  match t with
  | T0 => []
  | T1 => ["session-attestation"]
  | T2 => ["nearline-receipt"; "step-up-approval"]
  | T3 => ["nearline-receipt"; "n-of-m-attestation"; "dual-control"; "all-planes"]
  end.

(** [`risk tier ${tier}`] *)
Definition risk_tier_str (t : RiskTier) : string :=
  "risk tier " +:+ match t with T0 => "0" | T1 => "1" | T2 => "2" | T3 => "3" end.

Record DecisionWithAuthorizer := {
  decision : Decision;
  authorizingCapability : option Capability }.

Definition denied (t : RiskTier) (reason ev : string) : DecisionWithAuthorizer := {|
  decision := {| effect := deny; dec_tier := t; reasons := [reason]; obligations := [];
                 dec_evaluatorVersion := ev |};
  authorizingCapability := None |}.

Definition safeFallbackDeny (message ev : string) : DecisionWithAuthorizer :=
  denied T3 ("safe-fallback deny: " +:+ message) ev.

Section kernel.
Context {L : Lib}.

(** policy.ts: the pinned evaluator identity *)
Definition evaluatorVersion (p : Policy) : res string :=
  b ← encodeCanonical (VArr [VStr KERNEL_VERSION; policy_val p]);
  Ok (KERNEL_VERSION +:+ "+" +:+ str_take 16 (bytesToHex (sha3_256 b))).

(** The body of [decideCore] after the evaluator version is computed. *)
Definition decide_body (ev : string) (input : GovernedInput) : DecisionWithAuthorizer :=
  let i := as_intent (gi_intent input) in
  if negb (isCanonicalActionType (type_ i))
  then denied T3 "intent.type is not a canonical action identifier" ev else
  let t := tierOf i (gi_policy input) in
  if actionInList (type_ i) (denyActions (gi_policy input))
  then denied t "action is on the policy denylist" ev else
  let ctx := {| now := gi_now input; tier := Int (tier_Z t);
                observedAggregate := gi_observedAggregate input;
                holder := gi_holder input |} in
  let r := resolve i (gi_capabilities input) (gi_trustedRoots input) ctx
             (list_to_set (default [] (gi_revoked input))) in
  if negb (authorized r) then denied t (res_reason r) ev else
  let eff := if actionInList (type_ i) (transformActions (gi_policy input))
             then transform else allow in
  {| decision := {| effect := eff; dec_tier := t;
       reasons := ["authorized by capability"; risk_tier_str t];
       obligations := obligationsForTier t; dec_evaluatorVersion := ev |};
     authorizingCapability := res_capability r |}.

Definition decideCore (input : GovernedInput) : DecisionWithAuthorizer :=
  try_catch (ev ← evaluatorVersion (gi_policy input); Ok (decide_body ev input))
    (fun e => safeFallbackDeny e (KERNEL_VERSION +:+ "+uncomputed")).

Definition decideWithAuthorizer (input : KernelInput) : DecisionWithAuthorizer :=
  decideCore (governed_input input (governedView (intent input))).

Definition decide (input : KernelInput) : Decision := decision (decideWithAuthorizer input).
End kernel.

(** ** replay.ts

    [decodeCanonical(bytes) as KernelInput] views a decoded value at the type;
    [as_KernelInput] reads the fields.  A value that is not of the type reads as
    [None], and what the untyped code would do with it is not modelled. *)
Definition as_str (v : jsval) : option string := match v with VStr s => Some s | _ => None end.
Definition as_num (v : jsval) : option num := match v with VNum n => Some n | _ => None end.
Definition as_bool (v : jsval) : option bool := match v with VBool b => Some b | _ => None end.
Definition as_bytes (v : jsval) : option bytes := match v with VBytes b => Some b | _ => None end.
Definition as_list {A} (f : jsval -> option A) (v : jsval) : option (list A) :=
  match v with VArr l => mapM f l | _ => None end.
Definition as_nullable {A} (f : jsval -> option A) (v : jsval) : option (option A) :=
  match v with VNull => Some None | _ => Some <$> f v end.
(** An optional field: absent reads as [Some None]. *)
Definition get_opt {A} (f : jsval -> option A) (v : jsval) (k : string) : option (option A) :=
  match get v k with None => Some None | Some w => Some <$> f w end.

Definition as_tier (v : jsval) : option RiskTier :=
  n ← as_num v;
  if num_eqb n (Int 0) then Some T0 else if num_eqb n (Int 1) then Some T1 else
  if num_eqb n (Int 2) then Some T2 else if num_eqb n (Int 3) then Some T3 else None.

Definition as_intent_val (v : jsval) : option ActionIntent :=
  t ← get v "type" ≫= as_str; r ← get v "resource" ≫= as_str;
  c ← get_opt as_str v "counterparty"; a ← get_opt as_num v "amount";
  p ← get_opt Some v "params";
  Some {| type_ := t; resource := r; counterparty := c; amount := a; params := p |}.

Definition as_grant (v : jsval) : option CapabilityGrant :=
  id ← get v "id" ≫= as_str; i ← get v "issuer" ≫= as_str; s ← get v "subject" ≫= as_str;
  a ← get v "actions" ≫= as_list as_str;
  pc ← get v "perActionCeiling" ≫= as_nullable as_num;
  ac ← get v "aggregateCap" ≫= as_nullable as_num;
  cp ← get v "counterparties" ≫= as_nullable (as_list as_str);
  mt ← get v "maxTier" ≫= as_num; nb ← get v "notBefore" ≫= as_num;
  na ← get v "notAfter" ≫= as_num; d ← get v "delegable" ≫= as_bool;
  Some {| grant_id := id; issuer := i; subject := s; actions := a; perActionCeiling := pc;
    aggregateCap := ac; counterparties := cp; maxTier := mt; notBefore := nb; notAfter := na;
    delegable := d |}.

Definition as_link (v : jsval) : option CapabilityLink :=
  g ← get v "grant" ≫= as_grant; s ← get v "suite" ≫= as_str;
  pk ← get v "signerPublicKey" ≫= as_bytes; sg ← get v "sig" ≫= as_bytes;
  Some {| grant := g; link_suite := s; signerPublicKey := pk; link_sig := sg |}.
Definition as_capability (v : jsval) : option Capability :=
  c ← get v "chain" ≫= as_list as_link; Some {| chain := c |}.
Definition as_rule (v : jsval) : option TierRule :=
  p ← get v "prefix" ≫= as_str; t ← get v "tier" ≫= as_tier;
  Some {| prefix := p; rule_tier := t |}.
Definition as_policy (v : jsval) : option Policy :=
  ve ← get v "version" ≫= as_str; tr ← get v "tierRules" ≫= as_list as_rule;
  d ← get v "denyActions" ≫= as_list as_str; t ← get v "transformActions" ≫= as_list as_str;
  dt ← get v "defaultTier" ≫= as_tier;
  Some {| version := ve; tierRules := tr; denyActions := d; transformActions := t;
          defaultTier := dt |}.
Definition as_KernelInput (v : jsval) : option KernelInput :=
  i ← get v "intent" ≫= as_intent_val; c ← get v "capabilities" ≫= as_list as_capability;
  p ← get v "policy" ≫= as_policy; r ← get v "trustedRoots" ≫= as_list as_bytes;
  n ← get v "now" ≫= as_num; o ← get v "observedAggregate" ≫= as_num;
  h ← get_opt as_str v "holder"; rv ← get_opt (as_list as_str) v "revoked";
  Some {| intent := i; capabilities := c; policy := p; trustedRoots := r; in_now := n;
    in_observedAggregate := o; in_holder := h; in_revoked := rv |}.

Record ReplayBundle := { inputBytes : bytes; rb_evaluatorVersion : string }.

Record ReplayResult := {
  rr_decision : Decision;
  inputHash : string;
  receiptHash : string }.

Section replay.
Context {L : Lib}.

Definition buildReplayBundle (input : KernelInput) : res ReplayBundle :=
  b ← encodeCanonical (input_val input);
  ev ← evaluatorVersion (policy input);
  Ok {| inputBytes := b; rb_evaluatorVersion := ev |}.

(** The decision of [replay]; [None] when the bytes decode to no KernelInput. *)
Definition replay_decision (bundle : ReplayBundle) : option Decision :=
  match decodeCanonical (inputBytes bundle) with
  | Throw _ => Some {| effect := deny; dec_tier := T3;
      reasons := ["replay bundle inputBytes are not canonical CBOR (REPLAY-CANON-001)"];
      obligations := []; dec_evaluatorVersion := "" |}
  | Ok v =>
      input ← as_KernelInput v;
      let d := decide input in
      if negb (bool_decide (dec_evaluatorVersion d = rb_evaluatorVersion bundle))
      then Some {| effect := deny; dec_tier := T3;
        reasons := ["replay evaluator-version mismatch (bundle tampered or policy drift)"];
        obligations := []; dec_evaluatorVersion := dec_evaluatorVersion d |}
      else Some d
  end.

Definition receipt_core (d : Decision) (hash : string) : res string :=
  b ← encodeCanonical (VArr [VStr (dec_evaluatorVersion d); VStr hash; decision_val d]);
  Ok (bytesToHex (sha3_256 b)).

Definition replay (bundle : ReplayBundle) : option (res ReplayResult) :=
  let hash := bytesToHex (sha3_256 (inputBytes bundle)) in
  d ← replay_decision bundle;
  Some (rh ← receipt_core d hash;
        Ok {| rr_decision := d; inputHash := hash; receiptHash := rh |}).
End replay.

(** *** Reading back what was written *)
Lemma mapM_map {A B} (f : B -> option A) (g : A -> B) l :
  (forall x, f (g x) = Some x) -> mapM f (map g l) = Some l.
Proof. intros H. induction l as [|x l IH]; cbn; [done|]. by rewrite H; cbn; rewrite IH. Qed.

Lemma as_list_map {A} (f : jsval -> option A) (g : A -> jsval) l :
  (forall x, f (g x) = Some x) -> as_list f (VArr (map g l)) = Some l.
Proof. apply mapM_map. Qed.

Lemma as_strs l : as_list as_str (VStrs l) = Some l.
Proof. by apply mapM_map. Qed.
Lemma as_tier_val t : as_tier (tier_val t) = Some t.
Proof. by destruct t. Qed.
Lemma as_nums o : as_nullable as_num (or_null VNum o) = Some o.
Proof. by destruct o. Qed.
Lemma as_opt_strs o : as_nullable (as_list as_str) (or_null VStrs o) = Some o.
Proof.
  destruct o as [l|]; [|done]. change (Some <$> as_list as_str (VStrs l) = Some (Some l)).
  by rewrite as_strs.
Qed.

Lemma as_intent_intent_val i : as_intent_val (intent_val i) = Some i.
Proof. by destruct i as [t r [c|] [a|] [p|]]. Qed.

Lemma as_grant_val g : as_grant (grant_val g) = Some g.
Proof.
  destruct g as [id iss su ac pc ag cp mt nb na de]. unfold as_grant, grant_val, body_fields.
  cbn -[as_nullable as_list VStrs or_null]. by rewrite as_strs, !as_nums, as_opt_strs.
Qed.

Lemma as_link_val l : as_link (link_val l) = Some l.
Proof.
  destruct l. unfold as_link, link_val. cbn -[as_grant grant_val]. by rewrite as_grant_val.
Qed.
Lemma as_capability_val c : as_capability (capability_val c) = Some c.
Proof.
  destruct c as [l]. unfold as_capability. cbn -[as_link link_val as_list].
  by rewrite as_list_map by apply as_link_val.
Qed.
Lemma as_rule_val r : as_rule (VObj [("prefix", VStr (prefix r)); ("tier", tier_val (rule_tier r))])
  = Some r.
Proof. by destruct r as [p []]. Qed.
Lemma as_policy_val p : as_policy (policy_val p) = Some p.
Proof.
  destruct p as [v tr d t dt]. unfold as_policy, policy_val.
  cbn -[as_rule VStrs as_list tier_val as_tier].
  rewrite as_list_map by apply as_rule_val. cbn -[VStrs as_list tier_val as_tier].
  by rewrite !as_strs, as_tier_val.
Qed.

Lemma as_KernelInput_val i : as_KernelInput (input_val i) = Some i.
Proof.
  destruct i as [it cs p tr n o h rv]. unfold as_KernelInput, input_val.
  destruct h as [h|], rv as [rv|];
    cbn -[as_intent_val intent_val as_capability capability_val as_policy policy_val
          as_list VStrs];
    rewrite as_intent_intent_val, as_policy_val, (as_list_map _ _ cs) by apply as_capability_val;
    cbn -[as_list VStrs]; rewrite as_list_map by done;
    unfold get_opt; cbn -[as_list VStrs]; rewrite ?as_strs; done.
Qed.

(** ** Action identifiers *)
(** The dotted prefix an entry of a list stands for. *)
Definition boundary (entry : string) : string :=
  if ends_with_char entry "." then entry else entry +:+ ".".

Lemma actionMatches_iff type entry :
  actionMatches type entry = true <-> type = entry \/ exists r, type = boundary entry +:+ r.
Proof. unfold actionMatches. by rewrite orb_true_iff, bool_decide_eq_true, starts_with_iff. Qed.

Lemma actionInList_iff type l : actionInList type l = true <->
  exists entry, entry ∈ l /\ (type = entry \/ exists r, type = boundary entry +:+ r).
Proof.
  unfold actionInList. rewrite existsb_exists. split.
  - intros (e & He%list_elem_of_In & H%actionMatches_iff). eauto.
  - intros (e & He & H). exists e. by rewrite actionMatches_iff, <- list_elem_of_In.
Qed.

(** What an entry of a policy's list covers: itself, its dotted children and,
    when it ends in a dot, its continuations. *)
Definition Covers (entry type : string) : Prop :=
  type = entry \/ (exists r, type = entry +:+ "." +:+ r) \/
  (exists p r, entry = p +:+ "." /\ type = entry +:+ r).

Lemma actionMatches_Covers type entry : actionMatches type entry = true <-> Covers entry type.
Proof.
  rewrite actionMatches_iff. unfold Covers, boundary. destruct (ends_with_char entry ".") eqn:D.
  - apply ends_with_char_iff in D as [p D]. split.
    + intros [->|[r ->]]; [by left|]. right. right. by exists p, r.
    + intros [->|[[r ->]|(q & r & _ & ->)]]; [by left | right; eauto | right; eauto].
  - split.
    + intros [->|[r ->]]; [by left|]. right. left. exists r. by rewrite app_str_assoc.
    + intros [->|[[r ->]|(q & r & E & ->)]]; [by left | right; exists r; by rewrite app_str_assoc |].
      assert (ends_with_char entry "." = true) by (apply ends_with_char_iff; by exists q). congruence.
Qed.

Lemma actionInList_Covers type l : actionInList type l = true <-> exists entry, entry ∈ l /\ Covers entry type.
Proof.
  unfold actionInList. rewrite existsb_exists. split.
  - intros (e & He%list_elem_of_In & H%actionMatches_Covers). eauto.
  - intros (e & He & H). exists e. by rewrite actionMatches_Covers, <- list_elem_of_In.
Qed.

(** The tier of the first rule that covers the action, or the default. *)
Definition TierBy (rules : list TierRule) (dflt : RiskTier) (type : string) (t : RiskTier) : Prop :=
  (exists pre r post, rules = (pre ++ r :: post)%list /\ Forall (fun q => ~ Covers (prefix q) type) pre /\
     Covers (prefix r) type /\ t = rule_tier r) \/
  (Forall (fun q => ~ Covers (prefix q) type) rules /\ t = dflt).

Lemma tierOf_TierBy i p : TierBy (tierRules p) (defaultTier p) (type_ i) (tierOf i p).
Proof.
  unfold tierOf, TierBy. induction (tierRules p) as [|r rs IH]; cbn [find]; [by right|].
  destruct (actionMatches (type_ i) (prefix r)) eqn:M.
  - left. exists [], r, rs. apply actionMatches_Covers in M.
    split; [done|]. split; [by apply Forall_nil_2 | done].
  - assert (N : ~ Covers (prefix r) (type_ i)) by (intros C%actionMatches_Covers; congruence).
    destruct IH as [(pre & q & post & -> & F & C & ->)|[F ->]]; [left | right].
    + exists (r :: pre), q, post. split; [done|]. split; [by apply Forall_cons_2 | done].
    + split; [by apply Forall_cons_2 | done].
Qed.

(** A restriction flows down the name space. *)
Lemma boundary_child entry r : exists r', (entry +:+ "." +:+ r) = boundary entry +:+ r'.
Proof.
  unfold boundary. case_match; [eauto|]. exists r. by rewrite app_str_assoc.
Qed.
Lemma actionInList_child type child l :
  actionInList type l = true -> actionInList (type +:+ "." +:+ child) l = true.
Proof.
  rewrite !actionInList_iff. intros (e & He & [->|[r ->]]); exists e; (split; [done|]); right.
  - apply boundary_child.
  - exists (r +:+ "." +:+ child). by rewrite app_str_assoc.
Qed.

Definition segment (s : string) : Prop :=
  s <> "" /\ Forall (fun c => action_char c = true) (list_ascii_of_string s).

Lemma action_char_dot c : action_char c = true -> c <> "."%char.
Proof. intros H ->. done. Qed.

Lemma concat_char c x xs : String.concat "." (String c x :: xs) = String c (String.concat "." (x :: xs)).
Proof. by destruct xs. Qed.

Lemma concat_inv c s x xs : String c s = String.concat "." (x :: xs) ->
  (exists x', x = String c x' /\ s = String.concat "." (x' :: xs)) \/
  (x = "" /\ c = "."%char /\ exists y ys, xs = y :: ys /\ s = String.concat "." (y :: ys)).
Proof.
  destruct x as [|d x].
  - destruct xs as [|y ys]; [done|]. intros [= -> ->]. eauto 10.
  - rewrite concat_char. intros [= -> ->]. eauto.
Qed.

(** A list whose first segment is possibly unfinished. *)
Definition open_segments (x : string) (xs : list string) : Prop :=
  Forall (fun c => action_char c = true) (list_ascii_of_string x) /\ Forall segment xs.

Lemma segment_cons c x : segment (String c x) <->
  action_char c = true /\ Forall (fun c => action_char c = true) (list_ascii_of_string x).
Proof. unfold segment. cbn. rewrite Forall_cons. naive_solver. Qed.

(** [action_re] accepts the non-empty dot-separated lists of segments; after a
    started segment, its possibly empty rest and then further segments. *)
Lemma action_re_iff s :
  (action_re false s = true <-> exists x xs, Forall segment (x :: xs) /\
     s = String.concat "." (x :: xs)) /\
  (action_re true s = true <-> exists x xs, open_segments x xs /\
     s = String.concat "." (x :: xs)).
Proof.
  induction s as [|c s [IHf IHt]]; cbn [action_re].
  { split; split.
    - done.
    - intros (x & xs & H & E). inversion_clear H as [|? ? [Hx _] _].
      destruct x; [done|]. by destruct xs.
    - intros _. exists "", []. by repeat constructor.
    - done. }
  assert (Hc : forall P : Prop, (P -> exists x xs, open_segments x xs /\
      s = String.concat "." (x :: xs)) -> P -> action_char c = true ->
      exists x xs, Forall segment (x :: xs) /\ String c s = String.concat "." (x :: xs)).
  { intros P HP p Ec. destruct (HP p) as (x & xs & [Hx Hxs] & ->). exists (String c x), xs.
    rewrite concat_char. split; [|done]. constructor; [by apply segment_cons | done]. }
  destruct (action_char c) eqn:Ec.
  - rewrite IHt. split; split.
    + intros H. by apply (Hc _ (fun p => p) H).
    + intros (x & xs & H & E). inversion_clear H as [|? ? Hx Hxs].
      destruct (concat_inv _ _ _ _ E) as [(x' & -> & ->)|(-> & -> & _)]; [|done].
      apply segment_cons in Hx as [_ Hx]. by exists x', xs.
    + intros (x & xs & [Hx Hxs] & ->). exists (String c x), xs. rewrite concat_char.
      split; [|done]. split; [by constructor | done].
    + intros (x & xs & [Hx Hxs] & E).
      destruct (concat_inv _ _ _ _ E) as [(x' & -> & ->)|(-> & -> & _)]; [|done].
      inversion_clear Hx. by exists x', xs.
  - clear Hc. assert (Hno : forall x' xs, ~ Forall segment (String c x' :: xs)).
    { intros x' xs H. inversion_clear H as [|? ? Hx _]. apply segment_cons in Hx as [Hx _].
      congruence. }
    assert (Hno' : forall x' xs, ~ open_segments (String c x') xs).
    { intros x' xs [Hx _]. inversion_clear Hx. congruence. }
    split; split.
    + by case_bool_decide.
    + intros (x & xs & H & E).
      destruct (concat_inv _ _ _ _ E) as [(x' & -> & ->)|(-> & _)]; [by apply Hno in H|].
      inversion_clear H as [|? ? [? _] _]. done.
    + case_bool_decide as Ed; [|done]. cbn. rewrite IHf. intros (x & xs & H & ->). subst c.
      by exists "", (x :: xs).
    + intros (x & xs & H & E).
      destruct (concat_inv _ _ _ _ E) as [(x' & -> & ->)|(-> & -> & y & ys & -> & ->)];
        [by apply Hno' in H|].
      rewrite bool_decide_true by done. apply IHf. destruct H as [_ H]. eauto.
Qed.

(** ** What a decision means *)
Section spec.
Context {L : Lib}.

Definition kernel_ctx (input : KernelInput) : EvalContext := {|
  now := in_now input; tier := Int (tier_Z (tierOf (intent input) (policy input)));
  observedAggregate := in_observedAggregate input; holder := in_holder input |}.
Definition revoked_set (input : KernelInput) : gset string :=
  list_to_set (default [] (in_revoked input)).

(** The condition for a decision other than deny. *)
Record Admissible (input : KernelInput) : Prop := {
  ad_ev : is_ok (evaluatorVersion (policy input)) = true;
  ad_type : isCanonicalActionType (type_ (intent input)) = true;
  ad_deny : actionInList (type_ (intent input)) (denyActions (policy input)) = false;
  ad_bound : (length (capabilities input) <= MAX_CANDIDATES)%nat;
  ad_cap : exists h cap, in_holder input = Some h /\ cap ∈ capabilities input /\
    CandidateOK (intent input) (trustedRoots input) (kernel_ctx input) h
      (revoked_set input) cap }.

Lemma CandidateOK_view i roots ctx h rv cap :
  CandidateOK (as_intent (governedView i)) roots ctx h rv cap <->
  CandidateOK i roots ctx h rv cap.
Proof. split; intros []; split; auto. Qed.

(** The three outcomes of [decideWithAuthorizer]. *)
Lemma decide_cases input :
  let d := decideWithAuthorizer input in
  (Admissible input /\ exists h cap, in_holder input = Some h /\ cap ∈ capabilities input /\
     CandidateOK (intent input) (trustedRoots input) (kernel_ctx input) h (revoked_set input) cap /\
     authorizingCapability d = Some cap /\
     evaluatorVersion (policy input) = Ok (dec_evaluatorVersion (decision d)) /\
     dec_tier (decision d) = tierOf (intent input) (policy input) /\
     obligations (decision d) = obligationsForTier (dec_tier (decision d)) /\
     effect (decision d) =
       if actionInList (type_ (intent input)) (transformActions (policy input))
       then transform else allow) \/
  (~ Admissible input /\ effect (decision d) = deny /\ obligations (decision d) = [] /\
   authorizingCapability d = None).
Proof.
  unfold decideWithAuthorizer, decideCore. cbn zeta.
  change (gi_policy (governed_input input _)) with (policy input).
  destruct (evaluatorVersion (policy input)) as [ev|e] eqn:Ev; cbn [mbind res_bind try_catch].
  2: { right. split_and!; try done. intros [H _ _ _ _]. by rewrite Ev in H. }
  unfold decide_body. cbn -[isCanonicalActionType tierOf actionInList resolve obligationsForTier].
  destruct (isCanonicalActionType (type_ (intent input))) eqn:C; cbn [negb].
  2: { right. split_and!; try done. intros [_ H _ _ _]. congruence. }
  destruct (actionInList (type_ (intent input)) (denyActions (policy input))) eqn:D.
  { right. split_and!; try done. intros [_ _ H _ _]. congruence. }
  change (tierOf (as_intent _) (policy input)) with (tierOf (intent input) (policy input)).
  change {| now := in_now input; tier := _; observedAggregate := _; holder := _ |}
    with (kernel_ctx input).
  change (list_to_set _) with (revoked_set input).
  destruct (resolve_cases (as_intent (governedView (intent input))) (capabilities input)
    (trustedRoots input) (kernel_ctx input) (revoked_set input))
    as [(h & cap & Hh & Hb & Hc & OK & -> & ->)|(-> & _ & H)]; cbn [negb].
  - apply (proj1 (CandidateOK_view _ _ _ _ _ _)) in OK. left. split; [split; try done; [by rewrite Ev | eauto 10]|].
    exists h, cap. split_and!; done.
  - right. split_and!; try done. intros [_ _ _ Hb (h & cap & Hh & Hc & OK)].
    apply H. exists h, cap. by rewrite CandidateOK_view.
Qed.
End spec.

(** ** Properties *)
Section properties.
Context {L : Lib}.

(** C8: Default deny: the kernel's decision is other than deny exactly when the
    evaluator version can be computed, the action type is canonical and not
    covered by the deny list, and one of at most 64 capabilities is a verified,
    unrevoked chain held by the requester every grant of which authorizes the
    intent at its tier; and the capability the decision reports is then such a
    one. *)
Theorem decide_admits_iff input :
  (effect (decide input) <> deny <-> Admissible input) /\
  forall cap, authorizingCapability (decideWithAuthorizer input) = Some cap ->
    cap ∈ capabilities input /\ exists h, in_holder input = Some h /\
    CandidateOK (intent input) (trustedRoots input) (kernel_ctx input) h
      (revoked_set input) cap.
Proof.
  unfold decide. destruct (decide_cases input)
    as [(A & h & cap & ? & ? & ? & E & _ & _ & _ & ->)|(A & -> & _ & E)]; rewrite E.
  - split; [|by intros ? [= <-]; eauto]. split; [done|]. intros _. by case_match.
  - split; [|done]. split; [done | by intros ?%A].
Qed.

(** C32: The outcome of a decision.  Either it is a denial, with no obligations and
    no capability; or it is an admission whose tier is that of the first rule of
    the policy that covers the action, or the default tier when none does;
    whose obligations are none for tier 0, the session attestation for tier 1,
    the nearline receipt and the step-up approval for tier 2, and the nearline
    receipt, the n-of-m attestation, dual control and all planes for tier 3;
    whose evaluator version is the kernel's version and the first 16 digits of
    the hash of its encoding with the policy; and which is a transform exactly
    when an entry of the transform list covers the action, and an allow
    otherwise.  An entry covers an action that is the entry, a dotted child of
    it, or, when the entry ends in a dot, any continuation of it. *)
Theorem decide_outcome input :
  let d := decide input in
  (effect d = deny /\ obligations d = [] /\
   authorizingCapability (decideWithAuthorizer input) = None) \/
  (TierBy (tierRules (policy input)) (defaultTier (policy input)) (type_ (intent input)) (dec_tier d) /\
   obligations d = match dec_tier d with
     | T0 => []
     | T1 => ["session-attestation"]
     | T2 => ["nearline-receipt"; "step-up-approval"]
     | T3 => ["nearline-receipt"; "n-of-m-attestation"; "dual-control"; "all-planes"]
     end /\
   (exists b, cbor_encode (VArr [VStr "polarseek-kernel/0.1.0"; policy_val (policy input)]) = Ok b /\
      dec_evaluatorVersion d = "polarseek-kernel/0.1.0+" +:+ str_take 16 (bytesToHex (sha3_256 b))) /\
   ((effect d = transform /\
     exists entry, entry ∈ transformActions (policy input) /\ Covers entry (type_ (intent input))) \/
    (effect d = allow /\
     forall entry, entry ∈ transformActions (policy input) -> ~ Covers entry (type_ (intent input))))).
Proof.
  unfold decide. destruct (decide_cases input)
    as [(_ & h & cap & _ & _ & _ & _ & E & T & O & F)|(_ & F & O & E)]; cbn zeta; [right | by left].
  split; [rewrite T; apply tierOf_TierBy|]. split; [rewrite O; by destruct (dec_tier _)|]. split.
  - unfold evaluatorVersion in E. apply bind_ok in E as (b & Eb & E). apply Ok_inj in E. by exists b.
  - rewrite F. destruct (actionInList _ _) eqn:A; [left | right]; (split; [done|]).
    + by apply actionInList_Covers.
    + intros entry He Cv. assert (actionInList (type_ (intent input)) (transformActions (policy input)) = true)
        as A' by (apply actionInList_Covers; eauto). congruence.
Qed.

(** A restriction flows down the name space: whatever capabilities are
    presented, a dotted child of an action the deny list covers is denied. *)
Theorem deny_inherited input parent child :
  actionInList parent (denyActions (policy input)) = true ->
  type_ (intent input) = parent +:+ "." +:+ child -> effect (decide input) = deny.
Proof.
  intros H E. unfold decide. destruct (decide_cases input) as [([_ _ D _ _] & _)|(_ & -> & _)];
    [|done].
  rewrite E in D. by rewrite (actionInList_child _ _ _ H) in D.
Qed.

(** Decisions are monotone in authority: dropping capabilities and
    revoking more ids never turns a denial into an
    admission. *)
Theorem decide_antitone input caps revs :
  caps ⊆ capabilities input ->
  list_to_set (default [] (in_revoked input)) ⊆ (list_to_set revs : gset string) ->
  (length (capabilities input) <= MAX_CANDIDATES)%nat ->
  effect (decide input) = deny ->
  effect (decide {| intent := intent input; capabilities := caps; policy := policy input;
    trustedRoots := trustedRoots input; in_now := in_now input;
    in_observedAggregate := in_observedAggregate input; in_holder := in_holder input;
    in_revoked := Some revs |}) = deny.
Proof.
  intros Hc Hr Hl. unfold decide. intros Hd.
  match goal with |- effect (decision (decideWithAuthorizer ?j)) = deny =>
    destruct (decide_cases j) as [([E C D _ (h & cap & Hh & Hcap & OK)] & _)|(_ & -> & _)] end;
    [|done].
  destruct (decide_cases input) as [(_ & ? & ? & _ & _ & _ & _ & _ & _ & _ & F)|(A & _)].
  { rewrite F in Hd. by case_match. }
  exfalso. apply A. split; try done. exists h, cap. split_and!; [done | set_solver |].
  destruct OK as [? R ? ?]. split; try done. intros l Hin. specialize (R l Hin).
  unfold revoked_set in *. cbn in R. set_solver.
Qed.

(** [ACTION_TYPE_RE] with its length bound accepts exactly the identifiers
    of at most 256 characters that are non-empty dot-separated lists of
    non-empty segments over the letters, digits, underscore and hyphen. *)
Theorem isCanonicalActionType_spec type : isCanonicalActionType type = true <->
  (String.length type <= 256)%nat /\
  exists x xs, Forall segment (x :: xs) /\ type = String.concat "." (x :: xs).
Proof.
  unfold isCanonicalActionType. rewrite andb_true_iff, Nat.leb_le.
  by rewrite (proj1 (action_re_iff type)).
Qed.

(** Replaying a bundle: bytes that are not the canonical encoding of their
    value deny; otherwise the decision is that of the decoded input when the
    recorded evaluator version is the re-derived one, and a denial when not. *)
Theorem replay_outcome bundle r : replay bundle = Some (Ok r) ->
  match decodeCanonical (inputBytes bundle) with
  | Throw _ => effect (rr_decision r) = deny
  | Ok v => exists input, as_KernelInput v = Some input /\
      (rr_decision r = decide input /\
         dec_evaluatorVersion (decide input) = rb_evaluatorVersion bundle \/
       effect (rr_decision r) = deny /\
         dec_evaluatorVersion (decide input) <> rb_evaluatorVersion bundle)
  end.
Proof.
  unfold replay, replay_decision. destruct (decodeCanonical _) as [v|e].
  - destruct (as_KernelInput v) as [input|]; [|done]. cbn [mbind option_bind]. intros H.
    exists input. split; [done|]. case_bool_decide; cbn in H; injection H as H;
      apply bind_ok in H as (rh & _ & [= <-]); cbn; auto.
  - cbn. intros [= H]. by apply bind_ok in H as (rh & _ & [= <-]).
Qed.

(** The codec reads the input [b] captures back. *)
Definition reads_back (input : KernelInput) (b : bytes) : Prop :=
  exists v, decodeCanonical b = Ok v /\ as_KernelInput v = Some input.

(** Replay is byte-identical: when the library reads the captured input back,
    replaying the bundle reproduces the decision
    itself and the receipt hash over evaluator version, input hash and
    decision. *)
Theorem replay_build input bundle :
  buildReplayBundle input = Ok bundle ->
  reads_back input (inputBytes bundle) ->
  let hash := bytesToHex (sha3_256 (inputBytes bundle)) in
  replay bundle = Some (rh ← receipt_core (decide input) hash;
    Ok {| rr_decision := decide input; inputHash := hash; receiptHash := rh |}).
Proof.
  intros H (v & Hd & Hv). unfold buildReplayBundle in H. apply bind_ok in H as (b & E & H).
  apply bind_ok in H as (ev & V & [= <-]). cbn [inputBytes rb_evaluatorVersion] in *.
  unfold replay, replay_decision. cbn [inputBytes rb_evaluatorVersion].
  rewrite Hd, Hv. cbn [mbind option_bind]. rewrite bool_decide_true; [done|].
  unfold decide, decideWithAuthorizer, decideCore. cbn [gi_policy governed_input].
  rewrite V. cbn [mbind res_bind try_catch]. unfold decide_body. by repeat case_match.
Qed.
End properties.

(** ** Witnesses *)
Definition sample_policy : Policy := {|
  version := "1"; tierRules := tierRules DEFAULT_POLICY; denyActions := ["data.delete"];
  transformActions := []; defaultTier := T3 |}.
Definition sample_input : KernelInput := {|
  intent := sample_intent; capabilities := [sample_child; sample_cap]; policy := sample_policy;
  trustedRoots := [publicKey (kp "root")]; in_now := Int 50; in_observedAggregate := Int 0;
  in_holder := Some (kp_hex "agent"); in_revoked := None |}.

Example sample_decision : effect (decide sample_input) = allow.
Proof. by vm_compute. Qed.

Definition sample_delete : KernelInput := {|
  intent := {| type_ := "data.delete.all"; resource := "r"; counterparty := None;
               amount := None; params := None |};
  capabilities := [sample_cap]; policy := sample_policy;
  trustedRoots := [publicKey (kp "root")]; in_now := Int 50; in_observedAggregate := Int 0;
  in_holder := Some (kp_hex "agent"); in_revoked := None |}.

Lemma deny_inherited_witness : effect (decide sample_delete) = deny.
Proof. by apply (deny_inherited sample_delete "data.delete" "all"); vm_compute. Defined.

Lemma decide_antitone_witness :
  effect (decide {| intent := intent sample_delete; capabilities := [];
    policy := policy sample_delete; trustedRoots := trustedRoots sample_delete;
    in_now := in_now sample_delete;
    in_observedAggregate := in_observedAggregate sample_delete;
    in_holder := in_holder sample_delete; in_revoked := Some ["x"] |}) = deny.
Proof.
  apply (decide_antitone sample_delete).
  - apply list_subseteq_nil.
  - apply empty_subseteq.
  - apply Nat.leb_le. by vm_compute.
  - by vm_compute.
Defined.

Definition sample_bundle : ReplayBundle :=
  try_catch (buildReplayBundle sample_input)
    (fun _ => {| inputBytes := []; rb_evaluatorVersion := "" |}).
Definition sample_result : ReplayResult :=
  match replay sample_bundle with
  | Some (Ok r) => r
  | _ => {| rr_decision := decide sample_delete; inputHash := ""; receiptHash := "" |}
  end.

Lemma replay_outcome_witness : effect (rr_decision sample_result) = allow /\
  match decodeCanonical (inputBytes sample_bundle) with
  | Throw _ => effect (rr_decision sample_result) = deny
  | Ok v => exists input, as_KernelInput v = Some input /\
      (rr_decision sample_result = decide input /\
         dec_evaluatorVersion (decide input) = rb_evaluatorVersion sample_bundle \/
       effect (rr_decision sample_result) = deny /\
         dec_evaluatorVersion (decide input) <> rb_evaluatorVersion sample_bundle)
  end.
Proof.
  split; [by vm_compute|]. apply replay_outcome. by vm_compute.
Defined.

Lemma replay_build_witness :
  let hash := bytesToHex (sha3_256 (inputBytes sample_bundle)) in
  replay sample_bundle = Some (rh ← receipt_core (decide sample_input) hash;
    Ok {| rr_decision := decide sample_input; inputHash := hash; receiptHash := rh |}).
Proof.
  apply replay_build; [by vm_compute|]. unfold reads_back.
  eexists. split; [vm_compute; reflexivity | by vm_compute].
Defined.
Close Scope string_scope.
