(* ===== verification/Merkle.v ===== *)
(** * translog/: the Merkle tree

    src/translog/src/merkle.ts.  Proof generation is the recursion of the source
    (fuel: the number of entries, shown sufficient by the unconditional
    equations [merkleRoot_eq], [inclusionProof_eq] and [subproof_eq]); indexes of
    the generators are integers.  The verifiers take arbitrary JavaScript
    numbers and compute with the 32-bit operators of [JsNum.v]. *)
From S2P Require Import Prelude JsNum JsVal Crypto Concrete.
Open Scope Z_scope.

Definition MAX_TREE_SIZE : Z := 2 ^ 31 - 1.

(** *** The bit helpers

    The loops halve a positive integer until it is zero: they follow its binary
    digits. *)
Fixpoint bitLength_pos (x : positive) : Z :=
  match x with xH => 1 | xO x' | xI x' => 1 + bitLength_pos x' end.
Definition bitLength (x : Z) : Z :=
  match x with Zpos p => bitLength_pos p | _ => 0 end.

Fixpoint popcount_pos (x : positive) : Z :=
  match x with xH => 1 | xO x' => popcount_pos x' | xI x' => 1 + popcount_pos x' end.
Definition popcount (x : Z) : Z :=
  match x with Zpos p => popcount_pos p | _ => 0 end.

(** [trailingZeros]; its [x >>= 1] is a 32-bit shift, and its argument is at most
    [MAX_TREE_SIZE] where it is called. *)
Fixpoint trailingZeros_pos (x : positive) : Z :=
  match x with xO x' => 1 + trailingZeros_pos x' | _ => 0 end.
Definition trailingZeros (x : Z) : Z :=
  match x with Zpos p => trailingZeros_pos p | _ => 0 end.

(** Largest power of two strictly below [n] ([n >= 2]). *)
Fixpoint split_loop (fuel k n : nat) : nat :=
  match fuel with
  | O => k
  | S f => if (k * 2 <? n)%nat then split_loop f (k * 2) n else k
  end.
Definition splitPoint (n : nat) : nat := split_loop n 1 n.

(** [a.slice(0, k)], [a.slice(k)] for [k >= 0] *)
Definition slice_to {A} (k : Z) (l : list A) : list A := take (Z.to_nat k) l.
Definition slice_from {A} (k : Z) (l : list A) : list A := drop (Z.to_nat k) l.

Section merkle.
Context {L : Lib}.

Definition H (b : bytes) : bytes := sha3_256 b.
Definition emptyRoot : bytes := H [].
Definition leafHash (data : bytes) : bytes := H (x00 :: data).
Definition nodeHash (l r : bytes) : bytes := H (x01 :: l ++ r).

Definition bytesEqual (a b : bytes) : bool :=
  if negb (length a =? length b)%nat then false
  else forallb (fun p => bool_decide (p.1 = p.2)) (combine a b).

Fixpoint merkle_fuel (fuel : nat) (entries : list bytes) : bytes :=
  match entries with
  | [] => emptyRoot
  | [e] => leafHash e
  | _ =>
      match fuel with
      | O => emptyRoot
      | S f =>
          let k := splitPoint (length entries) in
          nodeHash (merkle_fuel f (take k entries)) (merkle_fuel f (drop k entries))
      end
  end.
Definition merkleRoot (entries : list bytes) : bytes :=
  merkle_fuel (length entries) entries.

Fixpoint inclusion_fuel (fuel : nat) (entries : list bytes) (m : Z) : res (list bytes) :=
  let n := length entries in
  if (m <? 0) || (Z.of_nat n <=? m) then Throw "index out of range" else
  if (n =? 1)%nat then Ok [] else
  match fuel with
  | O => Throw "fuel"
  | S f =>
      let k := splitPoint n in
      if m <? Z.of_nat k
      then p ← inclusion_fuel f (take k entries) m;
           Ok (p ++ [merkleRoot (drop k entries)])
      else p ← inclusion_fuel f (drop k entries) (m - Z.of_nat k);
           Ok (p ++ [merkleRoot (take k entries)])
  end.
Definition inclusionProof (entries : list bytes) (m : Z) : res (list bytes) :=
  inclusion_fuel (length entries) entries m.

(** The loops over a proof; [i] counts from 0. *)
Fixpoint chainInner_from (i : Z) (acc : bytes) (proof : list bytes) (index : Z) : bytes :=
  match proof with
  | [] => acc
  | p :: rest =>
      chainInner_from (i + 1)
        (if and32 (shr32 index i) 1 =? 0 then nodeHash acc p else nodeHash p acc) rest index
  end.
Definition chainInner := chainInner_from 0.

Fixpoint chainInnerRight_from (i : Z) (acc : bytes) (proof : list bytes) (index : Z) : bytes :=
  match proof with
  | [] => acc
  | p :: rest =>
      chainInnerRight_from (i + 1)
        (if and32 (shr32 index i) 1 =? 1 then nodeHash p acc else acc) rest index
  end.
Definition chainInnerRight := chainInnerRight_from 0.

Fixpoint chainBorderRight (acc : bytes) (proof : list bytes) : bytes :=
  match proof with
  | [] => acc
  | h :: rest => chainBorderRight (nodeHash h acc) rest
  end.

(** [!Number.isInteger(m) || !Number.isInteger(n) || m < 0 || n < 0] *)
Definition bad_index (m n : num) : bool :=
  negb (isInteger m) || negb (isInteger n) || num_ltb m (Int 0) || num_ltb n (Int 0).

(** After the guards, on the integers the numbers are. *)
Definition root_from_inclusion (m n : Z) (leaf : bytes) (proof : list bytes) : res bytes :=
  if n <=? m then Throw "index >= size" else
  if MAX_TREE_SIZE <? n then Throw "tree size exceeds 32-bit-safe bound (TLOG-002)" else
  let inner := bitLength (xor32 m (n - 1)) in
  let border := popcount (shr32 m inner) in
  if negb (Z.of_nat (length proof) =? inner + border)
  then Throw "malformed inclusion proof length" else
  let r := chainInner leaf (slice_to inner proof) m in
  Ok (chainBorderRight r (slice_from inner proof)).

Definition rootFromInclusion (m n : num) (leaf : bytes) (proof : list bytes) : res bytes :=
  if bad_index m n then Throw "non-integer or negative index/size" else
  root_from_inclusion (num_Z m) (num_Z n) leaf proof.

Definition verifyInclusion (m n : num) (leaf : bytes) (proof : list bytes) (root : bytes)
  : bool :=
  try_catch (r ← rootFromInclusion m n (leafHash leaf) proof; Ok (bytesEqual r root))
    (fun _ => false).

Fixpoint subproof_fuel (fuel : nat) (entries : list bytes) (m : nat) (b : bool) : list bytes :=
  let n := length entries in
  if (m =? n)%nat then (if b then [] else [merkleRoot entries]) else
  match fuel with
  | O => []
  | S f =>
      let k := splitPoint n in
      if (m <=? k)%nat
      then subproof_fuel f (take k entries) m b ++ [merkleRoot (drop k entries)]
      else subproof_fuel f (drop k entries) (m - k) false ++ [merkleRoot (take k entries)]
  end.
Definition subproof (entries : list bytes) (m : nat) (b : bool) : list bytes :=
  subproof_fuel (length entries) entries m b.

Definition consistencyProof (entries : list bytes) (m n : Z) : res (list bytes) :=
  if (m <? 0) || (n <? m) || (Z.of_nat (length entries) <? n)
  then Throw "bad consistency range" else
  if (m =? 0) || (m =? n) then Ok [] else
  Ok (subproof (slice_to n entries) (Z.to_nat m) true).

(** The part of [verifyConsistency] after its case distinctions: [0 < m < n]. *)
Definition verify_consistency_path (m n : Z) (proof : list bytes) (root1 root2 : bytes)
  : bool :=
  let shift := trailingZeros m in
  let inner := bitLength (xor32 (m - 1) (n - 1)) - shift in
  if inner <? 0 then false else
  let aligned := m =? shl32 1 shift in
  if negb aligned && (length proof =? 0)%nat then false else
  let seed := if aligned then root1 else hd [] proof in
  let p := if aligned then proof else List.tl proof in
  let mask := shr32 (m - 1) shift in
  if 2 * bitLength n + 1 <? Z.of_nat (length proof) then false else
  let innerProof := slice_to inner p in
  let borderProof := slice_from inner p in
  let hash1 := chainBorderRight (chainInnerRight seed innerProof mask) borderProof in
  let hash2 := chainBorderRight (chainInner seed innerProof mask) borderProof in
  bytesEqual hash1 root1 && bytesEqual hash2 root2.

Definition verifyConsistency (m n : num) (proof : list bytes) (root1 root2 : bytes) : bool :=
  if bad_index m n then false else
  if num_ltb n m then false else
  if num_ltb (Int MAX_TREE_SIZE) n then false else
  if num_eqb m n then (length proof =? 0)%nat && bytesEqual root1 root2 else
  if num_eqb m (Int 0) then (length proof =? 0)%nat && bytesEqual root1 emptyRoot else
  verify_consistency_path (num_Z m) (num_Z n) proof root1 root2.
End merkle.

(** ** The split point *)
Lemma split_loop_spec fuel : forall j n, (2 ^ j < n)%nat -> (n <= 2 ^ j + fuel)%nat ->
  exists i, split_loop fuel (2 ^ j) n = (2 ^ i)%nat /\ (2 ^ i < n <= 2 ^ S i)%nat.
Proof.
  induction fuel as [|f IH]; intros j n H1 H2; cbn [split_loop]; [lia|].
  assert (0 < 2 ^ j)%nat by (apply Nat.neq_0_lt_0, Nat.pow_nonzero; lia).
  replace (2 ^ j * 2)%nat with (2 ^ S j)%nat by (cbn; lia).
  destruct (Nat.ltb_spec (2 ^ S j) n).
  - apply IH; [done|]. cbn. lia.
  - eauto.
Qed.

Lemma splitPoint_spec n : (2 <= n)%nat ->
  exists j, splitPoint n = (2 ^ j)%nat /\ (2 ^ j < n <= 2 ^ S j)%nat.
Proof. intros Hn. apply (split_loop_spec n 0 n); cbn; lia. Qed.

Lemma splitPoint_bounds n : (2 <= n)%nat ->
  (0 < splitPoint n < n)%nat /\ (n <= 2 * splitPoint n)%nat.
Proof.
  intros (j & -> & H)%splitPoint_spec. cbn in H.
  assert (0 < 2 ^ j)%nat by (apply Nat.neq_0_lt_0, Nat.pow_nonzero; lia). lia.
Qed.

(** ** Fuel is enough *)
Section equations.
Context {L : Lib}.

Lemma split_lengths (l : list bytes) : (2 <= length l)%nat ->
  let k := splitPoint (length l) in
  length (take k l) = k /\ length (drop k l) = (length l - k)%nat /\
  (length (take k l) < length l)%nat /\ (length (drop k l) < length l)%nat.
Proof.
  intros Hl k. destruct (splitPoint_bounds _ Hl) as [Hk _]. fold k in Hk.
  rewrite length_take, length_drop. lia.
Qed.

Lemma merkle_fuel_enough f : forall g l, (length l <= f)%nat -> (length l <= g)%nat ->
  merkle_fuel f l = merkle_fuel g l.
Proof.
  induction f as [|f IH]; intros g l Hf Hg; destruct l as [|a [|b l]]; try done;
    try (by destruct g); try (cbn in Hf; lia).
  destruct g as [|g]; [cbn in Hg; lia|].
  set (l' := a :: b :: l) in *. change (merkle_fuel (S ?x) l') with
    (let k := splitPoint (length l') in
     nodeHash (merkle_fuel x (take k l')) (merkle_fuel x (drop k l'))). cbv zeta.
  destruct (split_lengths l') as (_ & _ & H1 & H2); [cbn; lia|]. cbv zeta in *.
  f_equal; apply IH; lia.
Qed.

(** The defining equations of [merkleRoot]. *)
Lemma merkleRoot_one e : merkleRoot [e] = leafHash e.
Proof. done. Qed.
Lemma merkleRoot_eq l : (2 <= length l)%nat ->
  merkleRoot l = nodeHash (merkleRoot (take (splitPoint (length l)) l))
                          (merkleRoot (drop (splitPoint (length l)) l)).
Proof.
  intros Hl. destruct (split_lengths l Hl) as (_ & _ & H1 & H2). cbv zeta in *.
  unfold merkleRoot at 1. destruct l as [|a [|b l]]; [cbn in Hl; lia | cbn in Hl; lia |].
  set (l' := a :: b :: l) in *. change (length l') with (S (length (b :: l))) at 1.
  change (merkle_fuel (S ?x) l') with
    (let k := splitPoint (length l') in
     nodeHash (merkle_fuel x (take k l')) (merkle_fuel x (drop k l'))). cbv zeta.
  assert (length l' = S (length (b :: l))) as E by done.
  f_equal; apply merkle_fuel_enough; lia.
Qed.

Lemma inclusion_fuel_step f l m : (2 <= length l)%nat -> 0 <= m < Z.of_nat (length l) ->
  inclusion_fuel (S f) l m =
    let k := splitPoint (length l) in
    if m <? Z.of_nat k
    then p ← inclusion_fuel f (take k l) m; Ok (p ++ [merkleRoot (drop k l)])
    else p ← inclusion_fuel f (drop k l) (m - Z.of_nat k); Ok (p ++ [merkleRoot (take k l)]).
Proof.
  intros Hl Hm. cbn [inclusion_fuel].
  rewrite (proj2 (Z.ltb_ge m 0)), (proj2 (Z.leb_gt _ m)), (proj2 (Nat.eqb_neq _ _)) by lia.
  done.
Qed.

Lemma inclusion_fuel_enough f : forall g l m, (length l <= f)%nat -> (length l <= g)%nat ->
  inclusion_fuel f l m = inclusion_fuel g l m.
Proof.
  induction f as [|f IH]; intros g l m Hf Hg.
  - destruct l; [|cbn in Hf; lia]. unfold inclusion_fuel.
    destruct g; cbn [length]; (destruct ((m <? 0) || (Z.of_nat 0 <=? m)) eqn:E; [done|]);
      apply orb_false_iff in E as [E1%Z.ltb_ge E2%Z.leb_gt]; lia.
  - destruct ((m <? 0) || (Z.of_nat (length l) <=? m)) eqn:E.
    { destruct g; cbn [inclusion_fuel]; by rewrite E. }
    apply orb_false_iff in E as E'. destruct E' as [E1%Z.ltb_ge E2%Z.leb_gt].
    destruct (Nat.eq_dec (length l) 1%nat) as [E3|E3].
    { destruct g; cbn [inclusion_fuel]; by rewrite E, E3. }
    assert (2 <= length l)%nat by lia. destruct g as [|g]; [lia|].
    rewrite !inclusion_fuel_step by lia. cbv zeta.
    destruct (split_lengths l) as (_ & _ & H1 & H2); [done|]. cbv zeta in *.
    by rewrite (IH g (take _ l)), (IH g (drop _ l)) by lia.
Qed.

Lemma inclusionProof_eq l m : (2 <= length l)%nat -> 0 <= m < Z.of_nat (length l) ->
  inclusionProof l m =
    let k := splitPoint (length l) in
    if m <? Z.of_nat k
    then p ← inclusionProof (take k l) m; Ok (p ++ [merkleRoot (drop k l)])
    else p ← inclusionProof (drop k l) (m - Z.of_nat k); Ok (p ++ [merkleRoot (take k l)]).
Proof.
  intros Hl Hm. unfold inclusionProof at 1. destruct (length l) as [|f] eqn:El; [lia|].
  rewrite inclusion_fuel_step by lia. rewrite El.
  cbv zeta. destruct (split_lengths l) as (_ & _ & H1 & H2); [lia|]. cbv zeta in *.
  unfold inclusionProof. rewrite El in H1, H2.
  by rewrite (inclusion_fuel_enough f (length (take (splitPoint (S f)) l))),
    (inclusion_fuel_enough f (length (drop (splitPoint (S f)) l))) by lia.
Qed.

Lemma subproof_fuel_enough f : forall g l m b, (m <= length l)%nat ->
  (length l <= f)%nat -> (length l <= g)%nat -> (0 < m)%nat ->
  subproof_fuel f l m b = subproof_fuel g l m b.
Proof.
  induction f as [|f IH]; intros g l m b Hm Hf Hg Hp; [lia|].
  destruct g as [|g]; [lia|]. cbn [subproof_fuel].
  destruct (Nat.eqb_spec m (length l)) as [E|E]; [done|].
  destruct (split_lengths l) as (H0 & H0' & H1 & H2); [lia|]. cbv zeta in *.
  destruct (Nat.leb_spec m (splitPoint (length l))).
  - by rewrite (IH g) by lia.
  - by rewrite (IH g) by lia.
Qed.

Lemma subproof_eq l m b : (0 < m < length l)%nat ->
  subproof l m b =
    let k := splitPoint (length l) in
    if (m <=? k)%nat
    then subproof (take k l) m b ++ [merkleRoot (drop k l)]
    else subproof (drop k l) (m - k) false ++ [merkleRoot (take k l)].
Proof.
  intros Hm. destruct (split_lengths l) as (H0 & H0' & H1 & H2); [lia|]. cbv zeta in *.
  unfold subproof at 1. destruct (length l) as [|f] eqn:El; [lia|]. cbn [subproof_fuel].
  rewrite El in *. rewrite (proj2 (Nat.eqb_neq _ _)) by lia. cbv zeta. unfold subproof.
  destruct (Nat.leb_spec m (splitPoint (S f))).
  - by rewrite (subproof_fuel_enough f (length (take (splitPoint (S f)) l))) by lia.
  - by rewrite (subproof_fuel_enough f (length (drop (splitPoint (S f)) l))) by lia.
Qed.
Lemma subproof_done l b : subproof l (length l) b = if b then [] else [merkleRoot l].
Proof. unfold subproof. destruct l; cbn [length subproof_fuel]; by rewrite Nat.eqb_refl. Qed.
End equations.

(** ** Index arithmetic

    The verifier reads the directions of a path off the binary digits of the
    index: [tdirs m n], [true] where the sibling is on the left.  They obey the
    recursion of the tree. *)
Lemma bitLength_log2 x : bitLength x = if x <=? 0 then 0 else Z.log2 x + 1.
Proof.
  destruct x as [|p|p]; try done. cbn [bitLength Z.leb Z.compare].
  induction p as [p IH|p IH|]; cbn [bitLength_pos]; [| |done].
  - rewrite IH. destruct p; cbn; lia.
  - rewrite IH. destruct p; cbn; lia.
Qed.

Lemma popcount_double x b : 0 <= x -> popcount (2 * x + Z.b2z b) = popcount x + Z.b2z b.
Proof.
  intros Hx. destruct x as [|p|p]; [by destruct b| |lia]. destruct b.
  - change (1 + popcount (Zpos p) = popcount (Zpos p) + 1). lia.
  - change (popcount (Zpos p) = popcount (Zpos p) + 0). lia.
Qed.

Lemma popcount_high j : forall y, 0 <= y < 2 ^ Z.of_nat j ->
  popcount (2 ^ Z.of_nat j + y) = popcount y + 1.
Proof.
  induction j as [|j IH]; intros y Hy.
  - assert (y = 0) as -> by (cbn in Hy; lia). done.
  - rewrite Nat2Z.inj_succ, Z.pow_succ_r in * by lia.
    pose proof (Z.div2_odd y) as E. set (y' := Z.div2 y) in *.
    assert (0 <= y' < 2 ^ Z.of_nat j) by (destruct (Z.odd y); cbn in E; lia).
    rewrite E. replace (2 * 2 ^ Z.of_nat j + (2 * y' + Z.b2z (Z.odd y)))
      with (2 * (2 ^ Z.of_nat j + y') + Z.b2z (Z.odd y)) by ring.
    rewrite !popcount_double, IH by lia. lia.
Qed.

Lemma land_pow2_low j y : 0 <= j -> 0 <= y < 2 ^ j -> Z.land (2 ^ j) y = 0.
Proof.
  intros Hj Hy. apply Z.bits_inj'. intros i Hi.
  rewrite Z.land_spec, Z.bits_0, Z.pow2_bits_eqb by done.
  destruct (Z.eqb_spec j i) as [<-|]; [|done]. cbn.
  destruct (Z.eq_dec y 0) as [->|]; [apply Z.bits_0|].
  apply Z.bits_above_log2; [lia|]. apply Z.log2_lt_pow2; lia.
Qed.

Lemma lxor_low j x y : 0 <= j -> 0 <= x < 2 ^ j -> 0 <= y < 2 ^ j ->
  0 <= Z.lxor x y < 2 ^ j.
Proof.
  intros Hj Hx Hy. assert (0 <= Z.lxor x y) by (apply Z.lxor_nonneg; lia). split; [done|].
  destruct (Z.eq_dec (Z.lxor x y) 0) as [->|]; [lia|]. apply Z.log2_lt_pow2; [lia|].
  apply Z.le_lt_trans with (1 := Z.log2_lxor x y ltac:(lia) ltac:(lia)).
  destruct (Z.eq_dec j 0) as [->|].
  { change (2 ^ 0) with 1 in *. by replace x with 0 in * by lia; replace y with 0 in * by lia. }
  apply Z.max_lub_lt.
  - destruct (Z.eq_dec x 0) as [->|]; [cbn; lia | apply Z.log2_lt_pow2; lia].
  - destruct (Z.eq_dec y 0) as [->|]; [cbn; lia | apply Z.log2_lt_pow2; lia].
Qed.

Lemma pow2_add_lxor j y : 0 <= j -> 0 <= y < 2 ^ j -> 2 ^ j + y = Z.lxor (2 ^ j) y.
Proof. intros. apply Z.add_nocarry_lxor. by apply land_pow2_low. Qed.

Lemma lxor_high j x y : 0 <= j -> 0 <= x < 2 ^ j -> 0 <= y < 2 ^ j ->
  Z.lxor x (2 ^ j + y) = 2 ^ j + Z.lxor x y.
Proof.
  intros Hj Hx Hy. rewrite (pow2_add_lxor j y), pow2_add_lxor by (try apply lxor_low; lia).
  by rewrite <- !Z.lxor_assoc, (Z.lxor_comm x).
Qed.

Lemma lxor_high2 j x y : 0 <= j -> 0 <= x < 2 ^ j -> 0 <= y < 2 ^ j ->
  Z.lxor (2 ^ j + x) (2 ^ j + y) = Z.lxor x y.
Proof.
  intros Hj Hx Hy. rewrite !pow2_add_lxor by lia.
  rewrite (Z.lxor_comm (2 ^ j) x), Z.lxor_assoc, <- (Z.lxor_assoc (2 ^ j)), Z.lxor_nilpotent.
  by rewrite Z.lxor_0_l.
Qed.

Lemma bitLength_high j y : 0 <= j -> 0 <= y < 2 ^ j -> bitLength (2 ^ j + y) = j + 1.
Proof.
  intros Hj Hy. rewrite bitLength_log2, (proj2 (Z.leb_gt _ _)) by lia.
  f_equal. apply Z.log2_unique; rewrite ?Z.pow_succ_r; lia.
Qed.

Lemma bitLength_low j y : 0 <= j -> 0 <= y < 2 ^ j -> 0 <= bitLength y <= j.
Proof.
  intros Hj Hy. rewrite bitLength_log2. case_match eqn:E; [lia|]. apply Z.leb_gt in E.
  assert (Z.log2 y < j) by (apply Z.log2_lt_pow2; lia). pose proof (Z.log2_nonneg y). lia.
Qed.

(** The bits [i, i + n) of [m]. *)
Definition bits (i : Z) (n : nat) (m : Z) : list bool :=
  map (fun t => Z.testbit m (i + Z.of_nat t)) (seq 0 n).

Lemma length_bits i n m : length (bits i n m) = n.
Proof. unfold bits. by rewrite length_map, length_seq. Qed.
Lemma bits_S i n m : bits i (S n) m = Z.testbit m i :: bits (i + 1) n m.
Proof.
  unfold bits. cbn [seq map]. rewrite Z.add_0_r. f_equal. rewrite <- seq_shift, map_map.
  apply map_ext. intros t. f_equal. lia.
Qed.
Lemma bits_snoc i n m : bits i (S n) m = bits i n m ++ [Z.testbit m (i + Z.of_nat n)].
Proof. unfold bits. by rewrite seq_S, map_app. Qed.
Lemma bits_high j n m : Z.of_nat n <= j -> 0 <= m < 2 ^ j -> bits 0 n (2 ^ j + m) = bits 0 n m.
Proof.
  intros Hn Hm. unfold bits. apply map_ext_in. intros t Ht. apply in_seq in Ht.
  rewrite pow2_add_lxor, Z.lxor_spec, Z.pow2_bits_eqb, (proj2 (Z.eqb_neq _ _)) by lia.
  by destruct (Z.testbit m _).
Qed.

Definition tinner (m n : Z) : Z := bitLength (Z.lxor m (n - 1)).
Definition tdirs (m n : Z) : list bool :=
  bits 0 (Z.to_nat (tinner m n)) m ++
  repeat true (Z.to_nat (popcount (Z.shiftr m (tinner m n)))).

Lemma tdirs_one : tdirs 0 1 = [].
Proof. done. Qed.

Lemma tdirs_left_bits j m n : 0 <= m < 2 ^ Z.of_nat j ->
  2 ^ Z.of_nat j < n <= 2 ^ (Z.of_nat j + 1) -> tdirs m n = bits 0 (S j) m.
Proof.
  intros Hm Hn. rewrite Z.pow_add_r in Hn by lia. unfold tdirs, tinner.
  replace (n - 1) with (2 ^ Z.of_nat j + (n - 1 - 2 ^ Z.of_nat j)) by ring.
  rewrite lxor_high, bitLength_high by (try apply lxor_low; lia).
  rewrite (Z.shiftr_div_pow2 m), (Z.div_small m) by (rewrite ?Z.pow_add_r; lia).
  cbn [popcount Z.to_nat repeat]. rewrite app_nil_r. f_equal. lia.
Qed.

Lemma popcount_nonneg x : 0 <= popcount x.
Proof. destruct x as [|p|p]; cbn; try lia. induction p; cbn; lia. Qed.

Lemma tdirs_right j m n : 2 ^ Z.of_nat j <= m < n -> n <= 2 ^ (Z.of_nat j + 1) ->
  tdirs m n = tdirs (m - 2 ^ Z.of_nat j) (n - 2 ^ Z.of_nat j) ++ [true].
Proof.
  intros Hm Hn. rewrite Z.pow_add_r in Hn by lia. unfold tdirs, tinner.
  set (K := 2 ^ Z.of_nat j) in *.
  replace (Z.lxor m (n - 1)) with (Z.lxor (m - K) (n - K - 1)).
  2: { rewrite <- (lxor_high2 (Z.of_nat j) (m - K) (n - K - 1)) by (fold K; lia). fold K.
       f_equal; ring. }
  set (i := bitLength _). assert (Hi : 0 <= i <= Z.of_nat j).
  { apply bitLength_low; [lia|]. apply lxor_low; fold K; lia. }
  replace m with (2 ^ Z.of_nat j + (m - K)) at 1 2 by (fold K; ring).
  rewrite bits_high by (fold K; lia). rewrite <- app_assoc. f_equal.
  rewrite !Z.shiftr_div_pow2 by lia.
  assert (E : 2 ^ Z.of_nat j = 2 ^ (Z.of_nat (j - Z.to_nat i)) * 2 ^ i)
    by (rewrite <- Z.pow_add_r by lia; f_equal; lia).
  rewrite E at 1. rewrite (Z.add_comm _ (m - K)), Z.div_add by lia. rewrite Z.add_comm.
  assert (0 <= (m - K) / 2 ^ i < 2 ^ Z.of_nat (j - Z.to_nat i)).
  { split; [apply Z.div_pos; lia|]. apply Z.div_lt_upper_bound; [lia|].
    rewrite Z.mul_comm, <- E. fold K. lia. }
  rewrite popcount_high, Z2Nat.inj_add by (try lia; apply popcount_nonneg).
  by rewrite repeat_app.
Qed.

Lemma testbit_small j x : 0 <= j -> 0 <= x < 2 ^ j -> Z.testbit x j = false.
Proof.
  intros Hj Hx. destruct (Z.eq_dec x 0) as [->|]; [apply Z.bits_0|].
  apply Z.bits_above_log2; [lia|]. apply Z.log2_lt_pow2; lia.
Qed.

Lemma tdirs_pow2 j : forall m, 0 <= m < 2 ^ Z.of_nat j -> tdirs m (2 ^ Z.of_nat j) = bits 0 j m.
Proof.
  induction j as [|j IH]; intros m Hm.
  - assert (m = 0) as -> by (cbn in Hm; lia). done.
  - rewrite Nat2Z.inj_succ, <- Z.add_1_r in *. destruct (Z.lt_ge_cases m (2 ^ Z.of_nat j)).
    + apply tdirs_left_bits; [lia|]. rewrite Z.pow_add_r by lia. lia.
    + rewrite (tdirs_right j) by lia. rewrite bits_snoc.
      rewrite Z.pow_add_r in * by lia.
      replace (2 ^ Z.of_nat j * 2 ^ 1 - 2 ^ Z.of_nat j) with (2 ^ Z.of_nat j) by lia.
      rewrite IH by lia. f_equal.
      * rewrite <- (bits_high (Z.of_nat j)) by lia. f_equal. lia.
      * replace m with (2 ^ Z.of_nat j + (m - 2 ^ Z.of_nat j)) by ring.
        rewrite Z.add_0_l, pow2_add_lxor, Z.lxor_spec, Z.pow2_bits_true by lia.
        by rewrite testbit_small by lia.
Qed.

(** The recursion. *)
Lemma tdirs_left j m n : 0 <= m < 2 ^ Z.of_nat j ->
  2 ^ Z.of_nat j < n <= 2 ^ (Z.of_nat j + 1) ->
  tdirs m n = tdirs m (2 ^ Z.of_nat j) ++ [false].
Proof.
  intros Hm Hn. rewrite (tdirs_left_bits j), tdirs_pow2, bits_snoc by lia. do 2 f_equal.
  rewrite Z.add_0_l. apply testbit_small; lia.
Qed.

(** ** Paths: directions with siblings, innermost first *)
Section paths.
Context {L : Lib}.

Definition step (acc : bytes) (dp : bool * bytes) : bytes :=
  if dp.1 then nodeHash dp.2 acc else nodeHash acc dp.2.
Definition fold_path (seed : bytes) (steps : list (bool * bytes)) : bytes :=
  fold_left step steps seed.

Lemma fold_path_snoc seed steps dp : fold_path seed (steps ++ [dp]) = step (fold_path seed steps) dp.
Proof. unfold fold_path. by rewrite fold_left_app. Qed.
Lemma fold_path_app seed s t : fold_path seed (s ++ t) = fold_path (fold_path seed s) t.
Proof. apply fold_left_app. Qed.

(** [(index >> i) & 1] is the bit [i]. *)
Lemma index_bit index i : 0 <= index < 2 ^ 31 -> 0 <= i < 32 ->
  and32 (shr32 index i) 1 = Z.b2z (Z.testbit index i).
Proof.
  intros Hx Hi. unfold and32, shr32. rewrite (to_int32_id index), Z.mod_small by lia.
  rewrite (to_int32_id 1) by lia.
  rewrite to_int32_id by (rewrite Z.shiftr_div_pow2 by lia; split;
    [apply Z.le_trans with 0; [lia|]; apply Z.div_pos; lia
    | apply Z.div_lt_upper_bound; [lia|]; assert (0 < 2 ^ i) by lia; nia]).
  change 1 with (Z.ones 1). rewrite Z.land_ones, Z.testbit_odd by lia.
  change (2 ^ 1) with 2. by rewrite Zmod_odd; destruct (Z.odd _).
Qed.

Lemma chainInner_fold proof : forall i acc index, 0 <= index < 2 ^ 31 ->
  0 <= i -> i + Z.of_nat (length proof) <= 32 ->
  chainInner_from i acc proof index =
    fold_path acc (combine (bits i (length proof) index) proof).
Proof.
  induction proof as [|p proof IH]; intros i acc index Hx Hi Hl; [done|].
  cbn [length] in *. rewrite bits_S. cbn [chainInner_from combine].
  rewrite index_bit, IH by lia. unfold fold_path. cbn [fold_left]. f_equal.
  unfold step. by destruct (Z.testbit index i).
Qed.

Lemma chainInnerRight_fold proof : forall i acc index, 0 <= index < 2 ^ 31 ->
  0 <= i -> i + Z.of_nat (length proof) <= 32 ->
  chainInnerRight_from i acc proof index =
    fold_path acc (List.filter fst (combine (bits i (length proof) index) proof)).
Proof.
  induction proof as [|p proof IH]; intros i acc index Hx Hi Hl; [done|].
  cbn [length] in *. rewrite bits_S. cbn [chainInnerRight_from combine List.filter fst].
  rewrite index_bit, IH by lia. by destruct (Z.testbit index i).
Qed.

Lemma chainBorder_fold proof : forall acc,
  chainBorderRight acc proof = fold_path acc (combine (repeat true (length proof)) proof).
Proof. induction proof as [|p proof IH]; intros acc; [done|]. apply IH. Qed.

Lemma bytesEqual_iff a : forall b, bytesEqual a b = true <-> a = b.
Proof.
  unfold bytesEqual. induction a as [|x a IH]; intros [|y b]; cbn; try done.
  specialize (IH b). destruct (length a =? length b)%nat eqn:E; cbn in *.
  - rewrite andb_true_iff, bool_decide_eq_true, IH. split; [intros [-> ->] | intros [= -> ->]]; done.
  - split; [done|]. intros [= -> ->]. by rewrite Nat.eqb_refl in E.
Qed.

Lemma combine_app {A B} (a b : list A) (c d : list B) : length a = length c ->
  combine (a ++ b) (c ++ d) = combine a c ++ combine b d.
Proof.
  revert c. induction a as [|x a IH]; intros [|y c] E; cbn in *; try done.
  by rewrite IH by congruence.
Qed.

(** The recursive audit path, folded along the directions, is the root. *)
Lemma inclusion_path l m p : (Z.of_nat (length l) < 2 ^ 32) ->
  inclusionProof l m = Ok p ->
  exists e, l !! Z.to_nat m = Some e /\ 0 <= m < Z.of_nat (length l) /\
    length p = length (tdirs m (Z.of_nat (length l))) /\
    fold_path (leafHash e) (combine (tdirs m (Z.of_nat (length l))) p) = merkleRoot l.
Proof.
  remember (length l) as n eqn:En. revert l m p En.
  induction (lt_wf n) as [n _ IH]. intros l m p -> Hn Hp.
  assert (Hm : 0 <= m < Z.of_nat (length l)).
  { unfold inclusionProof in Hp. destruct l; cbn [length inclusion_fuel] in Hp;
      (destruct ((m <? 0) || _) eqn:E in Hp; [done|]);
      apply orb_false_iff in E as [E1%Z.ltb_ge E2%Z.leb_gt]; cbn [length]; lia. }
  destruct (Nat.eq_dec (length l) 1%nat) as [E1|E1].
  - destruct l as [|e [|? ?]]; try done. assert (m = 0) as -> by (cbn in Hm; lia).
    cbn in Hp. injection Hp as <-. exists e. done.
  - assert (Hl : (2 <= length l)%nat) by lia.
    destruct (splitPoint_spec _ Hl) as (j & Ek & Hk). cbn [Nat.pow] in Hk.
    destruct (split_lengths l Hl) as (L1 & L2 & L3 & L4). cbv zeta in *.
    assert (EK : Z.of_nat (splitPoint (length l)) = 2 ^ Z.of_nat j)
      by (by rewrite Ek, Nat2Z.inj_pow).
    assert (2 ^ Z.of_nat j < Z.of_nat (length l) <= 2 ^ (Z.of_nat j + 1))
      by (rewrite Z.pow_add_r by lia; rewrite <- EK; lia).
    rewrite inclusionProof_eq in Hp by lia. cbv zeta in Hp. rewrite EK in Hp.
    rewrite merkleRoot_eq by done. destruct (Z.ltb_spec m (2 ^ Z.of_nat j)).
    + apply bind_ok in Hp as (q & Hq & [= <-]).
      destruct (IH _ L3 _ m q eq_refl) as (e & He & _ & Hlq & Hf); [lia | done |].
      rewrite L1, EK in *. exists e. rewrite (tdirs_left j) by lia. split_and!; try lia.
      * rewrite lookup_take_Some in He. apply He.
      * rewrite !length_app. cbn. lia.
      * rewrite combine_app by done. cbn [combine]. by rewrite fold_path_snoc, Hf.
    + apply bind_ok in Hp as (q & Hq & [= <-]).
      destruct (IH _ L4 _ (m - 2 ^ Z.of_nat j) q eq_refl) as (e & He & _ & Hlq & Hf); [lia|done|].
      rewrite L2, Nat2Z.inj_sub, EK in * by lia. exists e. rewrite (tdirs_right j) by lia.
      split_and!; try lia.
      * rewrite lookup_drop in He. rewrite <- He. f_equal. lia.
      * rewrite !length_app. cbn. lia.
      * rewrite combine_app by done. cbn [combine]. by rewrite fold_path_snoc, Hf.
Qed.

(** The verifier's arithmetic is exact below the size bound. *)
Lemma root_from_inclusion_eq m n leaf proof : 0 <= m < n -> n <= MAX_TREE_SIZE ->
  root_from_inclusion m n leaf proof =
    if (length proof =? length (tdirs m n))%nat
    then Ok (fold_path leaf (combine (tdirs m n) proof))
    else Throw "malformed inclusion proof length".
Proof.
  intros Hm Hn. unfold MAX_TREE_SIZE in Hn. unfold root_from_inclusion.
  rewrite (proj2 (Z.leb_gt _ _)), (proj2 (Z.ltb_ge _ _)) by (unfold MAX_TREE_SIZE; lia).
  assert (Ex : xor32 m (n - 1) = Z.lxor m (n - 1))
    by (unfold xor32; by rewrite !to_int32_id by lia).
  rewrite Ex. fold (tinner m n).
  assert (Hi : 0 <= tinner m n <= 31) by (apply bitLength_low; [lia|]; apply lxor_low; lia).
  assert (Es : shr32 m (tinner m n) = Z.shiftr m (tinner m n))
    by (unfold shr32; by rewrite to_int32_id, Z.mod_small by lia).
  rewrite Es. set (i := tinner m n) in *. set (b := popcount (Z.shiftr m i)).
  pose proof (popcount_nonneg (Z.shiftr m i)) as Hb. fold b in Hb.
  assert (El : length (tdirs m n) = (Z.to_nat i + Z.to_nat b)%nat)
    by (unfold tdirs; fold i b; by rewrite length_app, length_bits, repeat_length).
  rewrite El. destruct (Nat.eqb_spec (length proof) (Z.to_nat i + Z.to_nat b)) as [E|E].
  2: { rewrite (proj2 (Z.eqb_neq _ _)) by lia. done. }
  rewrite (proj2 (Z.eqb_eq _ _)) by lia. cbn [negb]. f_equal. unfold slice_to, slice_from.
  rewrite <- (take_drop (Z.to_nat i) proof) at 3. unfold tdirs. fold i b.
  assert (Et : length (take (Z.to_nat i) proof) = Z.to_nat i) by (rewrite length_take; lia).
  assert (Ed : length (drop (Z.to_nat i) proof) = Z.to_nat b) by (rewrite length_drop; lia).
  rewrite combine_app, fold_path_app by (by rewrite length_bits).
  rewrite chainBorder_fold, Ed. f_equal. unfold chainInner.
  by rewrite chainInner_fold, Et by lia.
Qed.

Lemma verifyInclusion_iff m n leaf proof root :
  verifyInclusion m n leaf proof root = true <->
  isInteger m = true /\ isInteger n = true /\ 0 <= num_Z m < num_Z n /\
  num_Z n <= MAX_TREE_SIZE /\ length proof = length (tdirs (num_Z m) (num_Z n)) /\
  fold_path (leafHash leaf) (combine (tdirs (num_Z m) (num_Z n)) proof) = root.
Proof.
  unfold verifyInclusion, rootFromInclusion, bad_index.
  destruct (isInteger m) eqn:Im; [cbn [negb orb] | by split; [|intros (? & _)]].
  destruct (isInteger n) eqn:In; [cbn [negb orb] | by split; [|intros (_ & ? & _)]].
  rewrite !num_ltb_Z by done. change (num_Z (Int 0)) with 0.
  destruct (Z.ltb_spec (num_Z m) 0); [cbn [negb orb]; split; [done | lia]|].
  destruct (Z.ltb_spec (num_Z n) 0); [cbn [negb orb]; split; [done | lia]|]. cbn [negb orb].
  destruct (Z.lt_ge_cases (num_Z m) (num_Z n)) as [Hlt|Hge].
  2: { unfold root_from_inclusion. rewrite (proj2 (Z.leb_le _ _)) by lia. split; [done | lia]. }
  destruct (Z.le_gt_cases (num_Z n) MAX_TREE_SIZE) as [Hle|Hgt].
  2: { unfold root_from_inclusion. rewrite (proj2 (Z.leb_gt _ _)), (proj2 (Z.ltb_lt _ _)) by lia.
       split; [done | lia]. }
  rewrite root_from_inclusion_eq by lia.
  destruct (Nat.eqb_spec (length proof) (length (tdirs (num_Z m) (num_Z n)))).
  - cbn. rewrite bytesEqual_iff. split; [intros ->; done | tauto].
  - split; [done | tauto].
Qed.
End paths.

(** ** Soundness

    A collision is reported among the inputs that were actually hashed: those of
    the trees and those of the path. *)
Section soundness.
Context {L : Lib} `{!HashLen L}.

Fixpoint tree_fuel (fuel : nat) (l : list bytes) : list bytes :=
  match l with
  | [] => []
  | [e] => [x00 :: e]
  | _ =>
      match fuel with
      | O => []
      | S f =>
          let k := splitPoint (length l) in
          (x01 :: merkleRoot (take k l) ++ merkleRoot (drop k l)) ::
            tree_fuel f (take k l) ++ tree_fuel f (drop k l)
      end
  end.
(** Everything [merkleRoot l] hashes, for non-empty [l]. *)
Definition tree_inputs (l : list bytes) : list bytes := tree_fuel (length l) l.

Definition step_input (acc : bytes) (dp : bool * bytes) : bytes :=
  x01 :: (if dp.1 then dp.2 ++ acc else acc ++ dp.2).
Fixpoint path_inputs (acc : bytes) (steps : list (bool * bytes)) : list bytes :=
  match steps with
  | [] => []
  | dp :: steps' => step_input acc dp :: path_inputs (step acc dp) steps'
  end.

(** Two different members of [l] with the same hash. *)
Definition collision_among (l : list bytes) : Prop :=
  exists x y, x ∈ l /\ y ∈ l /\ x <> y /\ H x = H y.

Definition collision_free (P : list bytes) : Prop :=
  forall x y, x ∈ P -> y ∈ P -> H x = H y -> x = y.

Lemma collision_dec P : collision_among P \/ collision_free P.
Proof.
  destruct (decide (Exists (fun x => Exists (fun y => x <> y /\ H x = H y) P) P)) as [E|E].
  - left. apply Exists_exists in E as (x & Hx & (y & Hy & ? & ?)%Exists_exists). by exists x, y.
  - right. intros x y Hx Hy Hh. destruct (decide (x = y)) as [|Hne]; [done|].
    exfalso. apply E, Exists_exists. exists x. split; [done|]. apply Exists_exists. by exists y.
Qed.

Lemma merkle_length l : length (merkleRoot l) = 32%nat.
Proof.
  destruct l as [|a [|b l]]; [apply hash_length | apply hash_length |].
  rewrite merkleRoot_eq by (cbn; lia). apply hash_length.
Qed.
Lemma step_length acc dp : length (step acc dp) = 32%nat.
Proof. unfold step. case_match; apply hash_length. Qed.
Lemma fold_path_length seed steps : length seed = 32%nat -> length (fold_path seed steps) = 32%nat.
Proof.
  destruct steps as [|dp steps _] using rev_ind; [done|]. intros _. rewrite fold_path_snoc.
  apply step_length.
Qed.

Lemma tree_fuel_enough f : forall g l, (length l <= f)%nat -> (length l <= g)%nat ->
  tree_fuel f l = tree_fuel g l.
Proof.
  induction f as [|f IH]; intros g l Hf Hg; destruct l as [|a [|b l]]; try done;
    try (by destruct g); try (cbn in Hf; lia).
  destruct g as [|g]; [cbn in Hg; lia|].
  set (l' := a :: b :: l) in *. change (tree_fuel (S ?x) l') with
    (let k := splitPoint (length l') in
     (x01 :: merkleRoot (take k l') ++ merkleRoot (drop k l')) ::
     tree_fuel x (take k l') ++ tree_fuel x (drop k l')). cbv zeta.
  destruct (split_lengths l') as (_ & _ & H1 & H2); [cbn; lia|]. cbv zeta in *.
  f_equal. f_equal; apply IH; lia.
Qed.
Lemma tree_inputs_eq l : (2 <= length l)%nat ->
  let k := splitPoint (length l) in
  tree_inputs l = (x01 :: merkleRoot (take k l) ++ merkleRoot (drop k l)) ::
    tree_inputs (take k l) ++ tree_inputs (drop k l).
Proof.
  intros Hl. destruct (split_lengths l Hl) as (_ & _ & H1 & H2). cbv zeta in *.
  unfold tree_inputs at 1. destruct l as [|a [|b l]]; [cbn in Hl; lia | cbn in Hl; lia |].
  set (l' := a :: b :: l) in *. assert (length l' = S (length (b :: l))) as E by done.
  rewrite E at 1. change (tree_fuel (S ?x) l') with
    (let k := splitPoint (length l') in
     (x01 :: merkleRoot (take k l') ++ merkleRoot (drop k l')) ::
     tree_fuel x (take k l') ++ tree_fuel x (drop k l')). cbv zeta.
  f_equal. f_equal; apply tree_fuel_enough; lia.
Qed.
Lemma path_inputs_app acc s t :
  path_inputs acc (s ++ t) = path_inputs acc s ++ path_inputs (fold_path acc s) t.
Proof. revert acc. induction s as [|dp s IH]; intros acc; cbn; [done | by rewrite IH]. Qed.

Section collision_free.
Context (P : list bytes) (CF : collision_free P).

(** Two node hashes among the inputs are equal only if their parts are. *)
Lemma step_inj acc d p l r : length acc = 32%nat -> length l = 32%nat -> length r = 32%nat ->
  step_input acc (d, p) ∈ P -> (x01 :: l ++ r) ∈ P ->
  step acc (d, p) = nodeHash l r ->
  if d then acc = r /\ p = l else acc = l /\ p = r.
Proof.
  intros Ha Hl Hr H1 H2 E.
  assert (E' : step_input acc (d, p) = x01 :: l ++ r).
  { apply CF; [done | done |]. unfold step, step_input in *. by destruct d. }
  unfold step_input in E'. cbn in E'. injection E' as E'. destruct d.
  - apply (f_equal length) in E' as El. rewrite !length_app in El.
    apply app_inj_1 in E' as [-> ->]; [done | lia].
  - apply app_inj_1 in E' as [-> ->]; [done | lia].
Qed.

Lemma tree_split l : (2 <= length l)%nat -> tree_inputs l ⊆ P ->
  let k := splitPoint (length l) in
  (x01 :: merkleRoot (take k l) ++ merkleRoot (drop k l)) ∈ P /\
  tree_inputs (take k l) ⊆ P /\ tree_inputs (drop k l) ⊆ P /\
  take k l <> [] /\ drop k l <> [].
Proof.
  intros Hl Hin. cbv zeta. rewrite tree_inputs_eq in Hin by done. cbv zeta in Hin.
  destruct (splitPoint_bounds _ Hl) as [Hk _].
  split_and!; try set_solver.
  - intros E%(f_equal length). rewrite length_take in E. cbn in E. lia.
  - intros E%(f_equal length). rewrite length_drop in E. cbn in E. lia.
Qed.

Lemma leaf_input e : (x00 :: e) ∈ tree_inputs [e].
Proof. left. Qed.

(** A leaf is not a node. *)
Lemma leaf_no_node e w : (x00 :: e) ∈ P -> (x01 :: w) ∈ P -> H (x00 :: e) <> H (x01 :: w).
Proof. intros H1 H2 E. by specialize (CF _ _ H1 H2 E). Qed.

Lemma single (l : list bytes) : l <> [] -> ~ (2 <= length l)%nat -> exists e, l = [e].
Proof. destruct l as [|e [|? ?]]; cbn; [done | eauto | lia]. Qed.

Lemma merkle_inj xs : forall ys, xs <> [] -> ys <> [] ->
  tree_inputs xs ⊆ P -> tree_inputs ys ⊆ P -> merkleRoot xs = merkleRoot ys -> xs = ys.
Proof.
  induction xs as [xs IH] using (induction_ltof1 _ length). unfold ltof in IH.
  intros ys Nx Ny Hx Hy E.
  destruct (le_dec 2 (length xs)) as [Lx|Lx], (le_dec 2 (length ys)) as [Ly|Ly].
  - destruct (tree_split xs Lx Hx) as (X0 & X1 & X2 & X3 & X4).
    destruct (tree_split ys Ly Hy) as (Y0 & Y1 & Y2 & Y3 & Y4).
    destruct (split_lengths xs Lx) as (_ & _ & X5 & X6). cbv zeta in *.
    rewrite (merkleRoot_eq xs), (merkleRoot_eq ys) in E by done. apply CF in E; [|done|done]. injection E as E.
    apply app_inj_1 in E as [E1 E2]; [|by rewrite !merkle_length].
    rewrite <- (take_drop (splitPoint (length xs)) xs).
    rewrite <- (take_drop (splitPoint (length ys)) ys). f_equal; by apply IH.
  - exfalso. apply single in Ly as [e ->]; [|done].
    destruct (tree_split xs Lx Hx) as (X0 & _). cbv zeta in *. rewrite merkleRoot_eq in E by done.
    eapply leaf_no_node; [|exact X0 | symmetry; exact E]. apply Hy, leaf_input.
  - exfalso. apply single in Lx as [e ->]; [|done].
    destruct (tree_split ys Ly Hy) as (Y0 & _). cbv zeta in *.
    rewrite (merkleRoot_eq ys) in E by done.
    eapply leaf_no_node; [|exact Y0 | exact E]. apply Hx, leaf_input.
  - apply single in Lx as [e ->], Ly as [e' ->]; try done.
    apply CF in E; [congruence | apply Hx, leaf_input | apply Hy, leaf_input].
Qed.

(** Where a path that leads to the root of a tree starts: at a subtree [S]
    with the seed as root, to the right of subtrees whose roots are the left
    siblings of the path. *)
Lemma descend steps : forall seed ys, length seed = 32%nat -> ys <> [] ->
  tree_inputs ys ⊆ P -> path_inputs seed steps ⊆ P ->
  fold_path seed steps = merkleRoot ys ->
  exists Ls S R, ys = concat Ls ++ S ++ R /\ S <> [] /\ merkleRoot S = seed /\
    tree_inputs S ⊆ P /\ map merkleRoot Ls = rev (map snd (List.filter fst steps)) /\
    Forall (fun l => l <> [] /\ tree_inputs l ⊆ P) Ls /\
    (Forall (fun dp => dp.1 = true) steps -> R = []).
Proof.
  induction steps as [|[d p] steps IH] using rev_ind; intros seed ys Hs Ny Hy Hp E.
  { exists [], ys, []. rewrite app_nil_r. split_and!; try done; by constructor. }
  rewrite path_inputs_app in Hp. rewrite fold_path_snoc in E.
  pose proof (fold_path_length seed steps Hs) as Hacc.
  assert (Hin : step_input (fold_path seed steps) (d, p) ∈ P) by set_solver.
  destruct (le_dec 2 (length ys)) as [Ly|Ly].
  2: { exfalso. apply single in Ly as [e ->]; [|done].
       unfold step_input in Hin. cbn in Hin. eapply leaf_no_node; [|exact Hin|].
       - apply Hy, leaf_input.
       - symmetry. unfold step in E. cbn in E. by destruct d. }
  destruct (tree_split ys Ly Hy) as (Y0 & Y1 & Y2 & Y3 & Y4). cbv zeta in *.
  rewrite merkleRoot_eq in E by done.
  apply step_inj in E; rewrite ?merkle_length; try done.
  assert (Hp' : path_inputs seed steps ⊆ P) by set_solver. clear Hp Hin.
  set (k := splitPoint (length ys)) in *.
  rewrite List.filter_app, map_app, rev_app_distr. destruct d; destruct E as [E ->].
  - destruct (IH seed (drop k ys) Hs Y4 Y2 Hp' E) as (Ls & S & R & Ey & ? & ? & ? & Em & ? & HR).
    exists (take k ys :: Ls), S, R. split_and!; try done.
    + cbn. rewrite <- app_assoc, <- Ey. by rewrite take_drop.
    + cbn. by rewrite Em.
    + by constructor.
    + intros F. apply HR. by apply Forall_app in F as [F _].
  - destruct (IH seed (take k ys) Hs Y3 Y1 Hp' E) as (Ls & S & R & Ey & ? & ? & ? & Em & ? & HR).
    exists Ls, S, (R ++ drop k ys). split_and!; try done.
    + rewrite <- (take_drop k ys) at 1. rewrite Ey. by rewrite <- !app_assoc.
    + intros F. apply Forall_app in F as [_ F]. by inversion_clear F.
Qed.

Lemma concat_inj (Ls Ms : list (list bytes)) :
  Forall (fun l => l <> [] /\ tree_inputs l ⊆ P) Ls ->
  Forall (fun l => l <> [] /\ tree_inputs l ⊆ P) Ms ->
  map merkleRoot Ls = map merkleRoot Ms -> Ls = Ms.
Proof.
  intros HL. revert Ms. induction HL as [|l Ls [? ?] _ IH]; intros Ms HM E.
  - by destruct Ms.
  - destruct Ms as [|m Ms]; [done|]. inversion_clear HM as [|? ? [? ?]]. cbn in E.
    injection E as E1 E2. f_equal; [by apply merkle_inj | by apply IH].
Qed.

(** The seed of an accepted pair of paths, the full one to [ys] and the one of
    its left siblings to [xs], is a digest unless both start with the same
    step. *)
Lemma seed_length seed d p steps xs ys : xs <> [] -> ys <> [] ->
  tree_inputs xs ⊆ P -> tree_inputs ys ⊆ P ->
  path_inputs (step seed (false, p)) steps ⊆ P ->
  path_inputs seed (List.filter fst steps) ⊆ P -> d = false ->
  fold_path seed (List.filter fst steps) = merkleRoot xs ->
  fold_path (step seed (d, p)) steps = merkleRoot ys -> length seed = 32%nat.
Proof.
  intros Nx Ny Hx Hy Hp Hf -> Ex Ey.
  destruct (List.filter fst steps) as [|[d' q] fs] eqn:E.
  { cbn in Ex. subst seed. apply merkle_length. }
  destruct (descend steps _ ys (step_length _ _) Ny Hy Hp Ey)
    as (Ls & _ & _ & _ & _ & _ & _ & Em & _ & _). rewrite E in Em.
  assert (Hq : length q = 32%nat).
  { assert (q ∈ map merkleRoot Ls) as Hq
      by (rewrite Em, list_elem_of_In, <- in_rev; by left).
    apply list_elem_of_fmap in Hq as (l & -> & _). apply merkle_length. }
  assert (d' = true) as ->.
  { assert (In (d', q) (List.filter fst steps)) as Hin by (rewrite E; by left).
    by apply filter_In in Hin as [_ ?]. }
  assert (Hf1 : path_inputs (step seed (true, q)) fs ⊆ P)
    by (intros x Hin; apply Hf; by right).
  change (fold_path seed ((true, q) :: fs))
    with (fold_path (step seed (true, q)) fs) in Ex.
  destruct (descend fs _ xs (step_length _ _) Nx Hx Hf1 Ex)
    as (_ & S & _ & _ & NS & ES & HS & _).
  destruct (le_dec 2 (length S)) as [L2|L2].
  - destruct (tree_split S L2 HS) as (S0 & _). cbv zeta in *.
    rewrite merkleRoot_eq in ES by done. apply CF in ES; [|done | apply Hf; left].
    apply (f_equal length) in ES. cbn in ES. rewrite !length_app, !merkle_length in ES. lia.
  - exfalso. apply single in L2 as [e ->]; [|done].
    eapply leaf_no_node; [apply HS, leaf_input | | exact ES].
    apply Hf. left.
Qed.

(** Two such paths with a digest as seed show a prefix. *)
Lemma prefix_paths seed steps xs ys : length seed = 32%nat -> xs <> [] -> ys <> [] ->
  tree_inputs xs ⊆ P -> tree_inputs ys ⊆ P ->
  path_inputs seed steps ⊆ P -> path_inputs seed (List.filter fst steps) ⊆ P ->
  fold_path seed (List.filter fst steps) = merkleRoot xs ->
  fold_path seed steps = merkleRoot ys -> xs `prefix_of` ys.
Proof.
  intros Hs Nx Ny Hx Hy Hp Hf Ex Ey.
  destruct (descend _ _ xs Hs Nx Hx Hf Ex)
    as (Ls & S & R & -> & NS & ES & HS & Em & HL & HR).
  destruct (descend _ _ ys Hs Ny Hy Hp Ey)
    as (Ls' & S' & R' & -> & NS' & ES' & HS' & Em' & HL' & _).
  rewrite HR by (apply Forall_forall; intros dp Hdp%list_elem_of_In;
    by apply filter_In in Hdp as [_ ?]).
  assert (FF : List.filter fst (List.filter fst steps) = List.filter fst steps).
  { clear. induction steps as [|[[] p] steps IH]; cbn; by rewrite ?IH. }
  rewrite FF in Em.
  assert (Ls = Ls') as <- by (apply concat_inj; [done | done | congruence]).
  assert (S = S') as <- by (apply merkle_inj; [done | done | done | done | congruence]).
  exists R'. by rewrite app_nil_r, <- app_assoc.
Qed.

(** Along the directions of index [m] the path starts at the leaf [m]. *)
Lemma inclusion_path_sound n : forall l m leaf p, length l = n ->
  0 <= m < Z.of_nat n -> tree_inputs l ⊆ P -> (x00 :: leaf) ∈ P ->
  path_inputs (leafHash leaf) (combine (tdirs m (Z.of_nat n)) p) ⊆ P ->
  length p = length (tdirs m (Z.of_nat n)) ->
  fold_path (leafHash leaf) (combine (tdirs m (Z.of_nat n)) p) = merkleRoot l ->
  l !! Z.to_nat m = Some leaf.
Proof.
  induction (lt_wf n) as [n _ IH]. intros l m leaf p <- Hm Hl Hleaf Hp Elen E.
  destruct (le_dec 2 (length l)) as [L2|L2].
  2: { apply single in L2 as [e ->]; [|by intros ->; cbn in Hm; lia].
       assert (m = 0) as -> by (cbn in Hm; lia). cbn in Elen. destruct p; [|done].
       cbn in E. apply CF in E; [by injection E as -> | done | apply Hl, leaf_input]. }
  destruct (tree_split l L2 Hl) as (Y0 & Y1 & Y2 & _). cbv zeta in *.
  destruct (splitPoint_spec _ L2) as (j & Ek & Hk). cbn [Nat.pow] in Hk.
  destruct (split_lengths l L2) as (L3 & L4 & L5 & L6). cbv zeta in *.
  assert (EK : Z.of_nat (splitPoint (length l)) = 2 ^ Z.of_nat j)
    by (by rewrite Ek, Nat2Z.inj_pow).
  assert (2 ^ Z.of_nat j < Z.of_nat (length l) <= 2 ^ (Z.of_nat j + 1))
    by (rewrite Z.pow_add_r by lia; rewrite <- EK; lia).
  rewrite merkleRoot_eq in E by done.
  destruct (Z.lt_ge_cases m (2 ^ Z.of_nat j)).
  - rewrite (tdirs_left j) in * by lia. rewrite length_app in Elen. cbn in Elen.
    destruct p as [|x p _] using rev_ind; [cbn in Elen; lia|].
    rewrite length_app in Elen. cbn in Elen. rewrite combine_app in * by lia.
    cbn [combine] in *. rewrite path_inputs_app in Hp. rewrite fold_path_snoc in E.
    apply step_inj in E as [E _]; rewrite ?merkle_length; try done;
      [|apply fold_path_length, hash_length | set_solver].
    replace (2 ^ Z.of_nat j) with (Z.of_nat (length (take (splitPoint (length l)) l))) in * by lia.
    assert (G : take (splitPoint (length l)) l !! Z.to_nat m = Some leaf).
    { apply (IH _ L5 _ m leaf p); [done | lia | done | done | set_solver | lia | done]. }
    rewrite lookup_take_Some in G. apply G.
  - rewrite (tdirs_right j) in * by lia. rewrite length_app in Elen. cbn in Elen.
    destruct p as [|x p _] using rev_ind; [cbn in Elen; lia|].
    rewrite length_app in Elen. cbn in Elen. rewrite combine_app in * by lia.
    cbn [combine] in *. rewrite path_inputs_app in Hp. rewrite fold_path_snoc in E.
    apply step_inj in E as [E _]; rewrite ?merkle_length; try done;
      [|apply fold_path_length, hash_length | set_solver].
    replace (Z.of_nat (length l) - 2 ^ Z.of_nat j)
      with (Z.of_nat (length (drop (splitPoint (length l)) l))) in * by lia.
    assert (G : drop (splitPoint (length l)) l !! Z.to_nat (m - 2 ^ Z.of_nat j) = Some leaf).
    { apply (IH _ L6 _ (m - 2 ^ Z.of_nat j) leaf p);
        [done | lia | done | done | set_solver | lia | done]. }
    rewrite lookup_drop in G. rewrite <- G. f_equal. lia.
Qed.
End collision_free.
End soundness.

(** ** Consistency proofs *)
Lemma trailingZeros_double x : 0 < x -> trailingZeros (2 * x) = 1 + trailingZeros x.
Proof. by destruct x. Qed.
Lemma trailingZeros_odd x : trailingZeros (2 * x + 1) = 0.
Proof. destruct x as [|p|[p|p|]]; done. Qed.
Lemma trailingZeros_pow2 j : trailingZeros (2 ^ Z.of_nat j) = Z.of_nat j.
Proof.
  induction j as [|j IH]; [done|].
  rewrite Nat2Z.inj_succ, Z.pow_succ_r, trailingZeros_double, IH by lia. lia.
Qed.
Lemma trailingZeros_high j : forall y, 0 < y < 2 ^ Z.of_nat j ->
  trailingZeros (2 ^ Z.of_nat j + y) = trailingZeros y.
Proof.
  induction j as [|j IH]; intros y Hy; [cbn in Hy; lia|].
  rewrite Nat2Z.inj_succ, Z.pow_succ_r in * by lia.
  pose proof (Z.div2_odd y) as E. set (y' := Z.div2 y) in *. destruct (Z.odd y); cbn in E.
  - rewrite E. replace (2 * 2 ^ Z.of_nat j + (2 * y' + 1)) with (2 * (2 ^ Z.of_nat j + y') + 1) by ring.
    by rewrite !trailingZeros_odd.
  - rewrite Z.add_0_r in E. rewrite E.
    replace (2 * 2 ^ Z.of_nat j + 2 * y') with (2 * (2 ^ Z.of_nat j + y')) by ring.
    by rewrite !trailingZeros_double, IH by lia.
Qed.
Lemma trailingZeros_nonneg x : 0 <= trailingZeros x.
Proof. destruct x as [|p|p]; cbn; try lia. induction p; cbn; lia. Qed.
Lemma trailingZeros_bound j : forall x, 0 < x < 2 ^ Z.of_nat j -> trailingZeros x < Z.of_nat j.
Proof.
  induction j as [|j IH]; intros x Hx; [cbn in Hx; lia|].
  rewrite Nat2Z.inj_succ, Z.pow_succ_r in * by lia.
  pose proof (Z.div2_odd x) as E. set (x' := Z.div2 x) in *. destruct (Z.odd x); cbn in E; rewrite E.
  - rewrite trailingZeros_odd. lia.
  - rewrite Z.add_0_r, trailingZeros_double by lia. specialize (IH x'). lia.
Qed.

Section consistency.
Context {L : Lib}.

(** The seed and the path that [verifyConsistency] reads off a proof. *)
Definition consistency_seed (m : Z) (proof : list bytes) (root1 : bytes) : bytes :=
  if m =? 2 ^ trailingZeros m then root1 else hd [] proof.
Definition consistency_rest (m : Z) (proof : list bytes) : list bytes :=
  if m =? 2 ^ trailingZeros m then proof else List.tl proof.
Definition consistency_steps (m n : Z) (proof : list bytes) : list (bool * bytes) :=
  let s := Z.to_nat (trailingZeros m) in
  let i := (Z.to_nat (tinner (m - 1) n) - s)%nat in
  let p := consistency_rest m proof in
  combine (bits (Z.of_nat s) (length (take i p)) (m - 1)) (take i p) ++
  combine (repeat true (length (drop i p))) (drop i p).

Lemma bits_shiftr s n m : 0 <= s -> bits 0 n (Z.shiftr m s) = bits s n m.
Proof.
  intros Hs. unfold bits. apply map_ext. intros t. rewrite Z.shiftr_spec by lia. f_equal. lia.
Qed.

(** The verifier's computation on [0 < m < n]. *)
Lemma verify_consistency_path_eq m n proof root1 root2 :
  0 < m < n -> n <= MAX_TREE_SIZE -> trailingZeros m <= tinner (m - 1) n ->
  verify_consistency_path m n proof root1 root2 =
    (negb (negb (m =? 2 ^ trailingZeros m) && (length proof =? 0)%nat) &&
     (Z.of_nat (length proof) <=? 2 * bitLength n + 1) &&
     bytesEqual (fold_path (consistency_seed m proof root1)
                   (List.filter fst (consistency_steps m n proof))) root1 &&
     bytesEqual (fold_path (consistency_seed m proof root1) (consistency_steps m n proof)) root2).
Proof.
  intros Hm Hn Ht. unfold MAX_TREE_SIZE in Hn. unfold verify_consistency_path. cbv zeta.
  assert (Ex : xor32 (m - 1) (n - 1) = Z.lxor (m - 1) (n - 1))
    by (unfold xor32; by rewrite !to_int32_id by lia).
  rewrite Ex. fold (tinner (m - 1) n).
  assert (Hi : 0 <= tinner (m - 1) n <= 31) by (apply bitLength_low; [lia|]; apply lxor_low; lia).
  pose proof (trailingZeros_nonneg m) as Hs. set (s := trailingZeros m) in *.
  assert (Hs31 : s < 31) by (apply (trailingZeros_bound 31); lia).
  rewrite (proj2 (Z.ltb_ge _ _)) by lia.
  assert (E1 : shl32 1 s = 2 ^ s).
  { unfold shl32. rewrite (to_int32_id 1), Z.mod_small, Z.shiftl_1_l by lia. apply to_int32_id.
    assert (2 ^ s < 2 ^ 31) by (apply Z.pow_lt_mono_r; lia). lia. }
  assert (E2 : shr32 (m - 1) s = Z.shiftr (m - 1) s)
    by (unfold shr32; by rewrite to_int32_id, Z.mod_small by lia).
  rewrite E1, E2. unfold consistency_steps, consistency_seed, consistency_rest.
  fold s. set (seed := if m =? 2 ^ s then root1 else hd [] proof).
  set (p := if m =? 2 ^ s then proof else List.tl proof).
  destruct (negb (m =? 2 ^ s) && (length proof =? 0)%nat); [done|]. cbn [negb andb].
  rewrite Z.leb_antisym. destruct (2 * bitLength n + 1 <? Z.of_nat (length proof)); [done|].
  cbn [negb andb]. unfold slice_to, slice_from.
  replace (Z.to_nat (tinner (m - 1) n - s)) with (Z.to_nat (tinner (m - 1) n) - Z.to_nat s)%nat by lia.
  set (i := (Z.to_nat (tinner (m - 1) n) - Z.to_nat s)%nat).
  assert (Hl : (length (take i p) <= 31)%nat) by (rewrite length_take; lia).
  assert (Hb : 0 <= Z.shiftr (m - 1) s < 2 ^ 31).
  { rewrite Z.shiftr_div_pow2 by lia. split; [apply Z.div_pos; lia|].
    apply Z.div_lt_upper_bound; [lia|]. assert (0 < 2 ^ s) by lia. nia. }
  rewrite List.filter_app, !fold_path_app, !chainBorder_fold. unfold chainInner, chainInnerRight.
  rewrite chainInner_fold, chainInnerRight_fold, bits_shiftr, Z2Nat.id by lia.
  assert (Hf : forall q : list bytes, List.filter fst (combine (repeat true (length q)) q) =
    combine (repeat true (length q)) q).
  { induction q as [|x q IH]; cbn; [done | by rewrite IH]. }
  by rewrite Hf.
Qed.
End consistency.

Lemma splitPoint_Z n : (2 <= n)%nat -> exists j,
  splitPoint n = (2 ^ j)%nat /\ Z.of_nat (splitPoint n) = 2 ^ Z.of_nat j /\
  2 ^ Z.of_nat j < Z.of_nat n <= 2 ^ (Z.of_nat j + 1).
Proof.
  intros Hn. destruct (splitPoint_spec _ Hn) as (j & Ek & Hk). cbn [Nat.pow] in Hk. exists j.
  assert (Z.of_nat (splitPoint n) = 2 ^ Z.of_nat j) by (by rewrite Ek, Nat2Z.inj_pow).
  split_and!; [done | done | lia |]. rewrite Z.pow_add_r by lia. lia.
Qed.

(** The split point is the only power of two with those bounds. *)
Lemma splitPoint_unique j n : (2 ^ j < n <= 2 ^ S j)%nat -> splitPoint n = (2 ^ j)%nat.
Proof.
  intros Hj. assert (1 <= 2 ^ j)%nat by (pose proof (Nat.pow_nonzero 2 j); lia).
  destruct (splitPoint_spec n) as (i & -> & Hi); [lia|]. f_equal.
  destruct (Nat.lt_trichotomy i j) as [Hl|[E|Hl]]; [|done|].
  - assert (2 ^ S i <= 2 ^ j)%nat by (apply Nat.pow_le_mono_r; lia). lia.
  - assert (2 ^ S j <= 2 ^ i)%nat by (apply Nat.pow_le_mono_r; lia). lia.
Qed.

Lemma trailingZeros_le j m : 0 < m <= 2 ^ Z.of_nat j -> trailingZeros m <= Z.of_nat j.
Proof.
  intros Hm. destruct (Z.eq_dec m (2 ^ Z.of_nat j)) as [->|].
  - rewrite trailingZeros_pow2. lia.
  - assert (trailingZeros m < Z.of_nat j) by (apply trailingZeros_bound; lia). lia.
Qed.

Lemma tinner_left j m n : 0 <= m < 2 ^ Z.of_nat j ->
  2 ^ Z.of_nat j < n <= 2 ^ (Z.of_nat j + 1) -> tinner m n = Z.of_nat j + 1.
Proof.
  intros Hm Hn. rewrite Z.pow_add_r in Hn by lia. unfold tinner.
  replace (n - 1) with (2 ^ Z.of_nat j + (n - 1 - 2 ^ Z.of_nat j)) by ring.
  rewrite lxor_high by lia. apply bitLength_high; [lia|]. apply lxor_low; lia.
Qed.
Lemma tinner_right j m n : 2 ^ Z.of_nat j <= m < n -> n <= 2 ^ (Z.of_nat j + 1) ->
  tinner m n = tinner (m - 2 ^ Z.of_nat j) (n - 2 ^ Z.of_nat j).
Proof.
  intros Hm Hn. rewrite Z.pow_add_r in Hn by lia. unfold tinner. f_equal.
  rewrite <- (lxor_high2 (Z.of_nat j) (m - _)) by lia. f_equal; ring.
Qed.

Lemma shift_le_inner n : forall m, (0 < m < n)%nat ->
  trailingZeros (Z.of_nat m) <= tinner (Z.of_nat m - 1) (Z.of_nat n).
Proof.
  induction (lt_wf n) as [n _ IH]. intros m Hm.
  destruct (splitPoint_Z n) as (j & Ek & EK & Hn); [lia|].
  destruct (Z.le_gt_cases (Z.of_nat m) (2 ^ Z.of_nat j)) as [Hle|Hgt].
  - rewrite (tinner_left j) by lia. pose proof (trailingZeros_le j (Z.of_nat m)). lia.
  - rewrite (tinner_right j) by lia.
    assert (splitPoint n < n)%nat by (apply splitPoint_bounds; lia).
    assert (0 < splitPoint n)%nat by (apply splitPoint_bounds; lia).
    specialize (IH (n - splitPoint n)%nat ltac:(lia) (m - splitPoint n)%nat ltac:(lia)).
    rewrite !Nat2Z.inj_sub, EK in IH by lia.
    assert (trailingZeros (Z.of_nat m) = trailingZeros (Z.of_nat m - 2 ^ Z.of_nat j)) as ->.
    { rewrite <- (trailingZeros_high j (Z.of_nat m - _)) by (rewrite Z.pow_add_r in Hn by lia; lia). f_equal. ring. }
    replace (Z.of_nat m - 1 - 2 ^ Z.of_nat j) with (Z.of_nat m - 2 ^ Z.of_nat j - 1) by ring. done.
Qed.

Lemma popcount_le_bitLength x : popcount x <= bitLength x.
Proof. destruct x as [|p|p]; cbn; try lia. induction p; cbn [popcount_pos bitLength_pos]; lia. Qed.
Lemma bitLength_bound n : 0 <= n -> n < 2 ^ bitLength n.
Proof.
  intros Hn. rewrite bitLength_log2. case_match eqn:E.
  - apply Z.leb_le in E. cbn. lia.
  - apply Z.leb_gt in E. apply Z.log2_spec in E. rewrite Z.add_1_r. apply E.
Qed.

Lemma length_tdirs m n : 0 <= m < n ->
  Z.of_nat (length (tdirs m n)) <= 2 * bitLength n.
Proof.
  intros Hm. unfold tdirs. rewrite length_app, length_bits, repeat_length.
  pose proof (bitLength_bound n ltac:(lia)) as Hb.
  assert (H0 : 0 <= bitLength n) by (rewrite bitLength_log2; case_match; [lia|];
    pose proof (Z.log2_nonneg n); lia).
  assert (Hi : 0 <= tinner m n <= bitLength n) by (apply bitLength_low; [lia|]; apply lxor_low; lia).
  assert (Hs : 0 <= Z.shiftr m (tinner m n) < 2 ^ bitLength n).
  { rewrite Z.shiftr_div_pow2 by lia. split; [apply Z.div_pos; lia|].
    apply Z.div_lt_upper_bound; [lia|]. assert (0 < 2 ^ tinner m n) by lia. nia. }
  pose proof (bitLength_low _ _ H0 Hs). pose proof (popcount_le_bitLength (Z.shiftr m (tinner m n))).
  pose proof (popcount_nonneg (Z.shiftr m (tinner m n))). lia.
Qed.

Section consistency_complete.
Context {L : Lib}.

Definition aligned (m : nat) : bool := Z.of_nat m =? 2 ^ trailingZeros (Z.of_nat m).
Definition shift_of (m : nat) : nat := Z.to_nat (trailingZeros (Z.of_nat m)).

Lemma take_split m (l : list bytes) : (splitPoint (length l) < m < length l)%nat ->
  merkleRoot (take m l) = nodeHash (merkleRoot (take (splitPoint (length l)) l))
    (merkleRoot (take (m - splitPoint (length l)) (drop (splitPoint (length l)) l))).
Proof.
  intros Hm. destruct (splitPoint_spec (length l)) as (j & Ek & Hj); [lia|].
  assert (Em : splitPoint m = splitPoint (length l)).
  { rewrite Ek. apply splitPoint_unique. lia. }
  assert (Elen : length (take m l) = m) by (rewrite length_take; lia).
  rewrite merkleRoot_eq, Elen, Em by (pose proof (splitPoint_bounds (length l) ltac:(lia)); lia).
  rewrite take_take, Nat.min_l by lia. do 2 f_equal.
  rewrite skipn_firstn_comm. done.
Qed.

(** The path of a consistency proof, without the seed. *)
Definition cdirs (m n : nat) : list bool :=
  drop (shift_of m) (tdirs (Z.of_nat m - 1) (Z.of_nat n)).

Record consistency_path (l : list bytes) (m : nat) (seed : bytes) (q : list bytes) : Prop := {
  cp_length : length q = length (cdirs m (length l));
  cp_new : fold_path seed (combine (cdirs m (length l)) q) = merkleRoot l;
  cp_old : fold_path seed (List.filter fst (combine (cdirs m (length l)) q)) = merkleRoot (take m l);
  cp_aligned : aligned m = true -> seed = merkleRoot (take m l) }.

Lemma cdirs_step m n m' n' d : (0 < m' < n' \/ m' = n')%nat -> (0 < m')%nat ->
  tdirs (Z.of_nat m - 1) (Z.of_nat n) = tdirs (Z.of_nat m' - 1) (Z.of_nat n') ++ [d] ->
  shift_of m = shift_of m' -> (shift_of m' <= length (tdirs (Z.of_nat m' - 1) (Z.of_nat n')))%nat ->
  cdirs m n = cdirs m' n' ++ [d].
Proof.
  intros _ _ E Es Hs. unfold cdirs. rewrite E, Es. by rewrite drop_app_le.
Qed.

Lemma shift_le_length m n : (0 < m < n)%nat ->
  (shift_of m <= length (tdirs (Z.of_nat m - 1) (Z.of_nat n)))%nat.
Proof.
  intros Hm. pose proof (shift_le_inner n m Hm). unfold tdirs.
  rewrite length_app, length_bits. unfold shift_of. lia.
Qed.

Lemma consistency_path_snoc l l' m m' seed q d x :
  consistency_path l' m' seed q -> cdirs m (length l) = cdirs m' (length l') ++ [d] ->
  merkleRoot l = step (merkleRoot l') (d, x) ->
  merkleRoot (take m l) = (if d then step (merkleRoot (take m' l')) (d, x)
                           else merkleRoot (take m' l')) ->
  (aligned m = true -> aligned m' = true /\ d = false) ->
  consistency_path l m seed (q ++ [x]).
Proof.
  intros [C1 C2 C3 C4] Ed El Em Ea. split.
  - rewrite Ed, !length_app, C1. done.
  - rewrite Ed, combine_app by done. cbn [combine]. by rewrite fold_path_snoc, C2.
  - rewrite Ed, combine_app, List.filter_app by done. cbn [combine List.filter fst].
    rewrite fold_path_app, C3, Em. by destruct d.
  - intros A. destruct (Ea A) as [A' ->]. rewrite Em. auto.
Qed.

Lemma subproof_path n : forall l m b, length l = n -> (0 < m < n)%nat ->
  exists seed q, subproof l m b = (if b && aligned m then [] else [seed]) ++ q /\
    consistency_path l m seed q.
Proof.
  induction (lt_wf n) as [n _ IH]. intros l m b <- Hm.
  destruct (splitPoint_Z (length l)) as (j & Ek & EK & Hn); [lia|].
  destruct (split_lengths l) as (L1 & L2 & L3 & L4); [lia|]. cbv zeta in *.
  pose proof (splitPoint_bounds (length l) ltac:(lia)) as [Hk _].
  rewrite subproof_eq by done. cbv zeta. set (k := splitPoint (length l)) in *.
  assert (Er : merkleRoot l = nodeHash (merkleRoot (take k l)) (merkleRoot (drop k l)))
    by (apply merkleRoot_eq; lia).
  destruct (Nat.leb_spec m k) as [Hmk|Hmk].
  - destruct (Nat.eq_dec m k) as [E|E].
    + exists (merkleRoot (take k l)), [merkleRoot (drop k l)].
      assert (A : aligned m = true)
        by (unfold aligned; rewrite E, EK, trailingZeros_pow2; apply Z.eqb_refl).
      assert (Es : subproof (take k l) m b = if b then [] else [merkleRoot (take k l)]).
      { pose proof (subproof_done (take k l) b) as X. rewrite L1 in X. by rewrite E. }
      rewrite Es, A, andb_true_r. split; [done|].
      assert (Ed : cdirs m (length l) = [false]).
      { unfold cdirs, shift_of. rewrite E, EK, trailingZeros_pow2, Nat2Z.id.
        rewrite (tdirs_left j), tdirs_pow2 by lia.
        by rewrite drop_app_length' by (by rewrite length_bits). }
      split; rewrite ?Ed; [done | by rewrite Er | by rewrite E | by rewrite E].
    + destruct (IH (length (take k l)) L3 (take k l) m b eq_refl) as (seed & q & Es & C); [lia|].
      exists seed, (q ++ [merkleRoot (drop k l)]). rewrite Es. split; [by rewrite app_assoc|].
      apply consistency_path_snoc with (1 := C) (d := false); [| done | | done].
      * rewrite L1. unfold cdirs. rewrite EK, (tdirs_left j) by lia.
        apply drop_app_le. rewrite <- EK. apply shift_le_length. lia.
      * by rewrite take_take, Nat.min_l by lia.
  - destruct (IH (length (drop k l)) L4 (drop k l) (m - k)%nat false eq_refl) as (seed & q & Es & C); [lia|].
    exists seed, (q ++ [merkleRoot (take k l)]).
    assert (Et : trailingZeros (Z.of_nat m) = trailingZeros (Z.of_nat (m - k))).
    { rewrite Nat2Z.inj_sub, EK by lia. rewrite <- (trailingZeros_high j (Z.of_nat m - _)).
      - f_equal. ring.
      - rewrite Z.pow_add_r in Hn by lia. lia. }
    assert (A : aligned m = false).
    { unfold aligned. apply Z.eqb_neq. intros Em.
      pose proof (trailingZeros_nonneg (Z.of_nat m)) as T0.
      assert (T1 : trailingZeros (Z.of_nat m) < Z.of_nat j).
      { rewrite Et. apply (trailingZeros_bound j). rewrite Nat2Z.inj_sub, EK by lia.
        rewrite Z.pow_add_r in Hn by lia. lia. }
      assert (2 ^ trailingZeros (Z.of_nat m) < 2 ^ Z.of_nat j) by (apply Z.pow_lt_mono_r; lia).
      lia. }
    rewrite Es, A, andb_false_r. split; [done|].
    apply consistency_path_snoc with (1 := C) (d := true); [| done | | by rewrite A].
    * rewrite L2. unfold cdirs. unfold shift_of. rewrite Et. fold (shift_of (m - k)).
      rewrite (tdirs_right j) by lia.
      rewrite !Nat2Z.inj_sub, EK by lia.
      replace (Z.of_nat m - 1 - 2 ^ Z.of_nat j) with (Z.of_nat m - 2 ^ Z.of_nat j - 1) by ring.
      apply drop_app_le. rewrite <- EK, <- !Nat2Z.inj_sub by lia. apply shift_le_length. lia.
    * apply take_split. fold k. lia.
Qed.

(** A proof with the right number of siblings is read along [cdirs]. *)
Lemma consistency_steps_eq m n proof : (0 < m < n)%nat ->
  length (consistency_rest (Z.of_nat m) proof) = length (cdirs m n) ->
  consistency_steps (Z.of_nat m) (Z.of_nat n) proof =
    combine (cdirs m n) (consistency_rest (Z.of_nat m) proof).
Proof.
  intros Hm Hl. pose proof (shift_le_inner n m Hm) as Hs. unfold consistency_steps.
  fold (shift_of m). set (p := consistency_rest (Z.of_nat m) proof) in *.
  pose proof (trailingZeros_nonneg (Z.of_nat m)) as T0.
  set (x := Z.of_nat m - 1) in *. set (I := Z.to_nat (tinner x (Z.of_nat n))).
  assert (Hi : (shift_of m <= I)%nat) by (unfold shift_of, I; lia).
  unfold cdirs, tdirs in *. fold x I in Hl |- *. set (B := Z.to_nat (popcount _)) in *.
  rewrite drop_app_le in Hl |- * by (by rewrite length_bits).
  assert (Ed : drop (shift_of m) (bits 0 I x) = bits (Z.of_nat (shift_of m)) (I - shift_of m) x).
  { unfold bits. rewrite skipn_map, skipn_seq. cbn [Nat.add].
    replace (seq (shift_of m) (I - shift_of m))
      with (map (Nat.add (shift_of m)) (seq 0 (I - shift_of m)))
      by (etransitivity; [apply fmap_add_seq | by rewrite Nat.add_0_r]).
    rewrite map_map.
    apply map_ext. intros t. f_equal. lia. }
  rewrite Ed in *. rewrite length_app, length_bits, repeat_length in Hl.
  rewrite <- (take_drop (I - shift_of m) p) at 5.
  assert (E1 : length (take (I - shift_of m) p) = (I - shift_of m)%nat) by (rewrite length_take; lia).
  assert (E2 : length (drop (I - shift_of m) p) = B) by (rewrite length_drop; lia).
  rewrite E1, E2, combine_app; [done|]. by rewrite length_bits.
Qed.
End consistency_complete.

(** ** Properties *)
Section properties.
Context {L : Lib}.

Lemma inclusion_total n : forall l m, length l = n -> 0 <= m < Z.of_nat n ->
  exists p, inclusionProof l m = Ok p.
Proof.
  induction (lt_wf n) as [n _ IH]. intros l m <- Hm.
  destruct (le_dec 2 (length l)) as [L2|L2].
  - destruct (split_lengths l L2) as (L3 & L4 & L5 & L6). cbv zeta in *.
    rewrite inclusionProof_eq by lia. cbv zeta.
    destruct (Z.ltb_spec m (Z.of_nat (splitPoint (length l)))).
    + destruct (IH _ L5 _ m eq_refl) as [q ->]; [lia|]. eauto.
    + destruct (IH _ L6 _ (m - Z.of_nat (splitPoint (length l))) eq_refl) as [q ->]; [lia|]. eauto.
  - destruct l as [|e [|? ?]]; cbn in Hm, L2; try lia. assert (m = 0) as -> by lia. by exists [].
Qed.

Lemma inclusion_verifies l m : 0 <= m < Z.of_nat (length l) ->
  Z.of_nat (length l) <= MAX_TREE_SIZE ->
  exists p e, inclusionProof l m = Ok p /\ l !! Z.to_nat m = Some e /\
    verifyInclusion (Int m) (Int (Z.of_nat (length l))) e p (merkleRoot l) = true.
Proof.
  intros Hm Hn. destruct (inclusion_total _ l m eq_refl Hm) as [p Hp].
  destruct (inclusion_path l m p) as (e & He & _ & Hlen & Hf);
    [unfold MAX_TREE_SIZE in Hn; lia | done |].
  exists p, e. split_and!; [done | done |]. apply verifyInclusion_iff.
  rewrite !isInteger_Int, !num_Z_Int. done.
Qed.

(** Completeness of inclusion: for every index of a log of at most 2^31 - 1
    entries the recursive generator returns an audit path, and the verifier's
    bit arithmetic accepts it for that entry against the tree's root. *)
Theorem inclusion_complete l m : 0 <= m < Z.of_nat (length l) ->
  Z.of_nat (length l) <= MAX_TREE_SIZE ->
  exists p e, inclusionProof l m = Ok p /\ l !! Z.to_nat m = Some e /\
    verifyInclusion (Int m) (Int (Z.of_nat (length l))) e p (merkleRoot l) = true.
Proof. apply inclusion_verifies. Qed.

(** Everything hashed when a root is computed from an inclusion proof. *)
Definition inclusion_inputs (m n : num) (leaf : bytes) (proof : list bytes) : list bytes :=
  (x00 :: leaf) ::
  path_inputs (leafHash leaf) (combine (tdirs (num_Z m) (num_Z n)) proof).

Lemma inclusion_shows `{!HashLen L} l m n leaf proof :
  verifyInclusion m n leaf proof (merkleRoot l) = true ->
  num_Z n = Z.of_nat (length l) ->
  0 <= num_Z m < num_Z n /\
  (l !! Z.to_nat (num_Z m) = Some leaf \/
   collision_among (tree_inputs l ++ inclusion_inputs m n leaf proof)).
Proof.
  intros (Im & In & Hm & Hn & Hlen & Hf)%verifyInclusion_iff Hl. split; [done|].
  destruct (collision_dec (tree_inputs l ++ inclusion_inputs m n leaf proof)) as [C|CF];
    [by right | left].
  unfold inclusion_inputs in CF. rewrite Hl in *.
  eapply (inclusion_path_sound _ CF (length l)); try done; set_solver.
Qed.

(** C11: Soundness of inclusion.  Whatever the root, a proof verifies only for an
    index and a size that are integers, the index below the size and the size at
    most 2^31 - 1 (the numbers may be any JavaScript numbers, so [NaN],
    fractions, infinities and out-of-range values never verify).  And a proof
    that verifies against the root of a log of that size shows the entry at that
    index, unless two different inputs among those hashed for the tree and for
    the proof have the same digest. *)
Theorem inclusion_sound `{!HashLen L} m n leaf proof root :
  verifyInclusion m n leaf proof root = true ->
  exists i k, m ≡ Int i /\ n ≡ Int k /\ 0 <= i < k /\ k <= 2 ^ 31 - 1 /\
    forall l, root = merkleRoot l -> Z.of_nat (length l) = k ->
      l !! Z.to_nat i = Some leaf \/
      collision_among (tree_inputs l ++ inclusion_inputs m n leaf proof).
Proof.
  intros V. pose proof V as (Im & In & Hm & Hn & _)%verifyInclusion_iff.
  exists (num_Z m), (num_Z n). split_and!; try by apply isInteger_equiv. 1-3: done || lia.
  intros l -> Hl. by apply inclusion_shows.
Qed.

Lemma verifyConsistency_Int m n proof root1 root2 : 0 <= m <= n -> n <= MAX_TREE_SIZE ->
  verifyConsistency (Int m) (Int n) proof root1 root2 =
    (if m =? n then (length proof =? 0)%nat && bytesEqual root1 root2 else
     if m =? 0 then (length proof =? 0)%nat && bytesEqual root1 emptyRoot else
     verify_consistency_path m n proof root1 root2).
Proof.
  intros Hm Hn. unfold verifyConsistency, bad_index.
  rewrite !isInteger_Int, !num_ltb_Int, !num_eqb_Int, !num_Z_Int. cbn [negb orb].
  by rewrite !(proj2 (Z.ltb_ge _ _)) by lia.
Qed.

Lemma consistency_verifies l m n : 0 <= m <= n -> n <= Z.of_nat (length l) ->
  n <= MAX_TREE_SIZE ->
  exists p, consistencyProof l m n = Ok p /\
    verifyConsistency (Int m) (Int n) p (merkleRoot (take (Z.to_nat m) l))
      (merkleRoot (take (Z.to_nat n) l)) = true.
Proof.
  intros Hm Hn Hmax. unfold consistencyProof.
  rewrite (proj2 (Z.ltb_ge m 0)), (proj2 (Z.ltb_ge n m)), (proj2 (Z.ltb_ge _ n)) by lia.
  cbn [orb]. setoid_rewrite verifyConsistency_Int; [|done|done].
  destruct (Z.eqb_spec m 0) as [->|M0]; cbn [orb].
  { exists []. split; [done|]. destruct (Z.eqb_spec 0 n) as [<-|]; cbn; by apply bytesEqual_iff. }
  destruct (Z.eqb_spec m n) as [<-|Mn].
  { exists []. split; [done|]. by apply bytesEqual_iff. }
  unfold slice_to. set (l' := take (Z.to_nat n) l). set (m' := Z.to_nat m).
  assert (Hl' : length l' = Z.to_nat n) by (unfold l'; rewrite length_take; lia).
  assert (El : merkleRoot (take m' l) = merkleRoot (take m' l'))
    by (unfold l'; rewrite take_take, Nat.min_l by lia; done).
  destruct (subproof_path (length l') l' m' true eq_refl ltac:(lia)) as (seed & q & Es & C).
  destruct C as [C1 C2 C3 C4]. cbn [andb] in Es. eexists. split; [done|]. rewrite Es.
  assert (Em : m = Z.of_nat m') by lia. assert (En : n = Z.of_nat (length l')) by lia.
  rewrite Em, En in *. set (n' := length l') in *.
  rewrite verify_consistency_path_eq; [| lia | done | apply shift_le_inner; lia].
  set (proof := (if aligned m' then [] else [seed]) ++ q).
  assert (Er : consistency_rest (Z.of_nat m') proof = q)
    by (unfold consistency_rest, proof, aligned; by destruct (_ =? _)).
  assert (Ed : consistency_seed (Z.of_nat m') proof (merkleRoot (take m' l')) = seed).
  { unfold consistency_seed, proof. unfold aligned in *. destruct (_ =? _); [|done].
    by rewrite C4. }
  rewrite El, Ed, consistency_steps_eq, Er by (lia || by rewrite Er). rewrite C2, C3.
  rewrite !(proj2 (bytesEqual_iff _ _)) by done. rewrite !andb_true_r. apply andb_true_iff. split.
  - unfold proof, aligned. by destruct (_ =? _).
  - apply Z.leb_le. unfold proof. rewrite length_app, C1. unfold cdirs. rewrite length_drop.
    pose proof (length_tdirs (Z.of_nat m' - 1) (Z.of_nat n') ltac:(lia)).
    destruct (aligned m'); cbn [length]; lia.
Qed.

(** Completeness of consistency: for every two sizes [m <= n] of a growing
    log the generator returns a proof, and the verifier accepts it between the
    roots of the two prefixes. *)
Theorem consistency_complete l m n : 0 <= m <= n -> n <= Z.of_nat (length l) ->
  n <= MAX_TREE_SIZE ->
  exists p, consistencyProof l m n = Ok p /\
    verifyConsistency (Int m) (Int n) p (merkleRoot (take (Z.to_nat m) l))
      (merkleRoot (take (Z.to_nat n) l)) = true.
Proof. apply consistency_verifies. Qed.

(** Everything hashed when a consistency proof is checked. *)
Definition consistency_inputs (m n : num) (proof : list bytes) (root1 : bytes) : list bytes :=
  let seed := consistency_seed (num_Z m) proof root1 in
  let steps := consistency_steps (num_Z m) (num_Z n) proof in
  path_inputs seed steps ++ path_inputs seed (List.filter fst steps).

(** Two accepted paths from one seed, whatever the seed's length. *)
Lemma prefix_paths_any `{!HashLen L} P seed steps xs ys : collision_free P ->
  xs <> [] -> ys <> [] -> tree_inputs xs ⊆ P -> tree_inputs ys ⊆ P ->
  path_inputs seed steps ⊆ P -> path_inputs seed (List.filter fst steps) ⊆ P ->
  fold_path seed (List.filter fst steps) = merkleRoot xs ->
  fold_path seed steps = merkleRoot ys -> xs `prefix_of` ys.
Proof.
  intros CF Nx Ny Hx Hy Hp Hf Ex Ey. destruct steps as [|[d p] steps].
  - cbn in Ex, Ey. exists []. rewrite app_nil_r. eapply merkle_inj; try done. congruence.
  - destruct d.
    + apply (prefix_paths P CF (step seed (true, p)) steps); try done; [apply step_length | |].
      * intros x Hin. apply Hp. by right.
      * intros x Hin. apply Hf. by right.
    + assert (Hs : length seed = 32%nat).
      { eapply (seed_length P CF seed false p steps xs ys); try done.
        intros x Hin. apply Hp. by right. }
      by apply (prefix_paths P CF seed ((false, p) :: steps)).
Qed.

Lemma consistency_shows `{!HashLen L} m n proof xs ys :
  verifyConsistency m n proof (merkleRoot xs) (merkleRoot ys) = true ->
  num_Z m = Z.of_nat (length xs) -> num_Z n = Z.of_nat (length ys) ->
  xs `prefix_of` ys \/
  collision_among (tree_inputs xs ++ tree_inputs ys ++
                   consistency_inputs m n proof (merkleRoot xs)).
Proof.
  intros V Hm Hn. destruct (collision_dec (tree_inputs xs ++ tree_inputs ys ++
    consistency_inputs m n proof (merkleRoot xs))) as [C|CF]; [by right | left].
  unfold verifyConsistency, bad_index in V.
  destruct (isInteger m) eqn:Im; [cbn [negb orb] in V | done].
  destruct (isInteger n) eqn:In; [cbn [negb orb] in V | done].
  rewrite !num_ltb_Z, !num_eqb_Z in V by (done || apply isInteger_Int).
  rewrite !num_Z_Int, Hm, Hn in V.
  rewrite !(proj2 (Z.ltb_ge _ 0)) in V by lia. cbn [orb] in V.
  destruct (Z.ltb_spec (Z.of_nat (length ys)) (Z.of_nat (length xs))); [done|].
  destruct (Z.ltb_spec MAX_TREE_SIZE (Z.of_nat (length ys))); [done|].
  destruct (Z.eqb_spec (Z.of_nat (length xs)) 0) as [E0|E0].
  { destruct xs; [apply prefix_nil | done]. }
  assert (Nx : xs <> []) by (by destruct xs).
  assert (Ny : ys <> []) by (destruct ys; cbn in *; [destruct xs; cbn in *; [done|lia] | done]).
  destruct (Z.eqb_spec (Z.of_nat (length xs)) (Z.of_nat (length ys))) as [E|E].
  { apply andb_true_iff in V as [_ V%bytesEqual_iff]. exists []. rewrite app_nil_r. symmetry.
    eapply (merkle_inj _ CF); try done; set_solver. }
  rewrite verify_consistency_path_eq in V by (try apply shift_le_inner; lia).
  apply andb_true_iff in V as [V V2%bytesEqual_iff].
  apply andb_true_iff in V as [_ V1%bytesEqual_iff].
  unfold consistency_inputs in CF. rewrite Hm, Hn in CF.
  eapply (prefix_paths_any _ _ _ _ _ CF); try done; set_solver.
Qed.

(** C12: Soundness of consistency: when the verifier links the root of a log [xs]
    to the root of a log [ys], [xs] is a prefix of [ys], or two different
    inputs among those hashed have the same digest.  This holds for proofs of
    any accepted length and siblings of any length. *)
Theorem consistency_sound `{!HashLen L} m n proof xs ys :
  verifyConsistency m n proof (merkleRoot xs) (merkleRoot ys) = true ->
  num_Z m = Z.of_nat (length xs) -> num_Z n = Z.of_nat (length ys) ->
  xs `prefix_of` ys \/
  collision_among (tree_inputs xs ++ tree_inputs ys ++
                   consistency_inputs m n proof (merkleRoot xs)).
Proof. apply consistency_shows. Qed.
End properties.

(** ** Witnesses *)
Definition sample_log : list bytes := [[x61]; [x62]; [x63]; [x64]; [x65]].

Lemma inclusion_complete_witness : exists p e,
  inclusionProof sample_log 3 = Ok p /\ sample_log !! 3%nat = Some e /\
  verifyInclusion (Int 3) (Int 5) e p (merkleRoot sample_log) = true.
Proof. by apply (inclusion_complete sample_log 3). Defined.

Definition sample_inclusion : list bytes :=
  try_catch (inclusionProof sample_log 3) (fun _ => []).

Lemma inclusion_sound_witness : exists i k, Int 3 ≡ Int i /\ Int 5 ≡ Int k /\ 0 <= i < k /\
  (Z.of_nat (length sample_log) = k -> sample_log !! Z.to_nat i = Some [x64] \/
   collision_among (tree_inputs sample_log ++
     inclusion_inputs (Int 3) (Int 5) [x64] sample_inclusion)).
Proof.
  destruct (inclusion_sound (Int 3) (Int 5) [x64] sample_inclusion (merkleRoot sample_log))
    as (i & k & Hi & Hk & R & _ & H); [by vm_compute|].
  exists i, k. exact (conj Hi (conj Hk (conj R (H sample_log eq_refl)))).
Defined.

Lemma consistency_complete_witness : exists p, consistencyProof sample_log 3 5 = Ok p /\
  verifyConsistency (Int 3) (Int 5) p (merkleRoot (take 3 sample_log))
    (merkleRoot (take 5 sample_log)) = true.
Proof. apply (consistency_complete sample_log 3 5); [lia | cbn; lia | by vm_compute]. Defined.

Definition sample_consistency : list bytes :=
  try_catch (consistencyProof sample_log 3 5) (fun _ => []).

Lemma consistency_sound_witness : take 3 sample_log `prefix_of` sample_log \/
  collision_among (tree_inputs (take 3 sample_log) ++ tree_inputs sample_log ++
    consistency_inputs (Int 3) (Int 5) sample_consistency (merkleRoot (take 3 sample_log))).
Proof. apply (consistency_sound (Int 3) (Int 5) sample_consistency); by vm_compute. Defined.
