(* ===== verification/TransLog.v ===== *)
(** * translog/: logs and signed tree heads

    src/translog/src: log.ts (the in-memory log), persistent.ts (the file-backed
    log; the file is a string, [None] when it does not exist) and sth.ts (signed
    tree heads, split-view detection). *)
From S2P Require Import Prelude JsNum JsVal Crypto Concrete Merkle.
Open Scope Z_scope.

(** ** log.ts *)
Record InclusionWitness := {
  iw_index : num; iw_size : num; iw_leaf : bytes; iw_proof : list bytes; iw_root : bytes }.
Record ConsistencyWitness := {
  cw_from : num; cw_to : num; cw_proof : list bytes; oldRoot : bytes; newRoot : bytes }.
Record AppendResult := { ar_index : num; ar_size : num; ar_root : bytes }.

Record TransparencyLog := { entries : list bytes }.

Section log.
Context {L : Lib}.

Definition log_size (l : TransparencyLog) : num := Int (Z.of_nat (length (entries l))).
Definition log_root (l : TransparencyLog) : bytes := merkleRoot (entries l).

Definition append (l : TransparencyLog) (data : bytes) : TransparencyLog * AppendResult :=
  let index := length (entries l) in
  let l' := {| entries := entries l ++ [data] |} in
  (l', {| ar_index := Int (Z.of_nat index); ar_size := log_size l'; ar_root := log_root l' |}).

Definition proveInclusion (l : TransparencyLog) (index : Z) : res InclusionWitness :=
  match (if index <? 0 then None else entries l !! Z.to_nat index) with
  | None => Throw "no such log entry"
  | Some entry =>
      p ← inclusionProof (entries l) index;
      Ok {| iw_index := Int index; iw_size := log_size l; iw_leaf := entry;
            iw_proof := p; iw_root := log_root l |}
  end.

Definition proveConsistency (l : TransparencyLog) (fromSize : Z) : res ConsistencyWitness :=
  let to := Z.of_nat (length (entries l)) in
  p ← consistencyProof (entries l) fromSize to;
  Ok {| cw_from := Int fromSize; cw_to := Int to; cw_proof := p;
        oldRoot := merkleRoot (slice_to fromSize (entries l)); newRoot := log_root l |}.

Definition checkInclusion (w : InclusionWitness) (gossipedRoot : bytes) : bool :=
  verifyInclusion (iw_index w) (iw_size w) (iw_leaf w) (iw_proof w) gossipedRoot.
Definition checkConsistency (w : ConsistencyWitness) : bool :=
  verifyConsistency (cw_from w) (cw_to w) (cw_proof w) (oldRoot w) (newRoot w).
End log.

(** ** persistent.ts *)
Definition newline : ascii := "010"%char.

(** [s.split(/\r?\n/)]; [cur] is the reversed current line. *)
Fixpoint split_lines (s : list ascii) (cur : list ascii) : list (list ascii) :=
  match s with
  | [] => [rev cur]
  | c :: s' =>
      if bool_decide (c = newline)
      then rev (match cur with
                | d :: cur' => if bool_decide (d = "013"%char) then cur' else cur
                | [] => cur
                end) :: split_lines s' []
      else split_lines s' (c :: cur)
  end.

Fixpoint trim_start (s : list ascii) : list ascii :=
  match s with
  | c :: s' => if is_js_space c then trim_start s' else s
  | [] => []
  end.
(** [line.trim()] *)
Definition trim (s : list ascii) : list ascii := rev (trim_start (rev (trim_start s))).

Record PersistentLog := { p_entries : TransparencyLog; p_file : option string }.

Section persistent.
Context {L : Lib}.

Fixpoint load_lines (lines : list (list ascii)) : res (list bytes) :=
  match lines with
  | [] => Ok []
  | line :: rest =>
      let t := trim line in
      if (0 <? length t)%nat
      then b ← hexToBytes (string_of_list_ascii t); bs ← load_lines rest; Ok (b :: bs)
      else load_lines rest
  end.

(** The constructor. *)
Definition openPersistent (file : option string) : res PersistentLog :=
  match file with
  | None => Ok {| p_entries := {| entries := [] |}; p_file := None |}
  | Some s =>
      bs ← load_lines (split_lines (list_ascii_of_string s) []);
      Ok {| p_entries := {| entries := bs |}; p_file := Some s |}
  end.

(** [append], with the file write as part of the state. *)
Definition p_append (l : PersistentLog) (data : bytes) : PersistentLog * AppendResult :=
  let '(e, r) := append (p_entries l) data in
  ({| p_entries := e;
      p_file := Some (default EmptyString (p_file l) +:+ bytesToHex data +:+
                      String newline EmptyString)%string |}, r).

Definition p_size (l : PersistentLog) : num := log_size (p_entries l).
Definition p_root (l : PersistentLog) : bytes := log_root (p_entries l).
Definition p_proveInclusion (l : PersistentLog) := proveInclusion (p_entries l).
Definition p_proveConsistency (l : PersistentLog) := proveConsistency (p_entries l).
End persistent.

(** ** sth.ts *)
Record SignedTreeHead := {
  operator : string;
  sth_size : num;
  rootHex : string;
  sth_suite : string;
  sth_sig : bytes }.

Record Equivocation := {
  eq_operator : string; eq_size : num; rootA : string; rootB : string }.

(** Equal as [Map] keys built from the decimal text of a number. *)
Definition same_text (a b : num) : bool :=
  match a, b with NaN, NaN => true | _, _ => num_eqb a b end.

Section sth.
Context {L : Lib}.

Definition sthMessage (op suite : string) (size : num) (rootHex : string) : res bytes :=
  encodeCanonical (VArr [VStr (tag "STH"); VStr op; VStr suite; VNum size; VStr rootHex]).

Definition signTreeHead (size : num) (root : bytes) (suite : string) (op : KeyPair)
  : res SignedTreeHead :=
  let operatorHex := bytesToHex (publicKey op) in
  let rh := bytesToHex root in
  signer ← signerFor suite;
  msg ← sthMessage operatorHex suite size rh;
  sg ← scheme_sign signer msg (secretKey op) None;
  Ok {| operator := operatorHex; sth_size := size; rootHex := rh; sth_suite := suite;
        sth_sig := sg |}.

Definition verifyTreeHead (sth : SignedTreeHead) (operatorPublicKey : bytes) : bool :=
  if negb (bool_decide (bytesToHex operatorPublicKey = operator sth)) then false else
  if negb (includes activeSuiteIds (sth_suite sth)) then false else
  try_catch
    (signer ← signerFor (sth_suite sth);
     msg ← sthMessage (operator sth) (sth_suite sth) (sth_size sth) (rootHex sth);
     scheme_verify signer (sth_sig sth) msg operatorPublicKey None)
    (fun _ => false).

Definition verifyTreeHeadSelf (sth : SignedTreeHead) : bool :=
  verifyTreeHead sth (hexToBytesLocal (operator sth)).

(** The loop of [detectEquivocation]: [seen] maps operator and size, as the
    text [operator@size], to the first root seen. *)
Fixpoint detect_loop (seen : list (string * num * string)) (sths : list SignedTreeHead)
  : list Equivocation :=
  match sths with
  | [] => []
  | sth :: rest =>
      if negb (verifyTreeHeadSelf sth) then detect_loop seen rest else
      match find (fun e => bool_decide (e.1.1 = operator sth) && same_text e.1.2 (sth_size sth))
              seen with
      | None => detect_loop ((operator sth, sth_size sth, rootHex sth) :: seen) rest
      | Some e =>
          if negb (bool_decide (e.2 = rootHex sth))
          then {| eq_operator := operator sth; eq_size := sth_size sth;
                  rootA := e.2; rootB := rootHex sth |} :: detect_loop seen rest
          else detect_loop seen rest
      end
  end.
Definition detectEquivocation (sths : list SignedTreeHead) : list Equivocation :=
  detect_loop [] sths.

Definition checkAppendOnly (older newer : SignedTreeHead) (proof : list bytes) : bool :=
  if negb (verifyTreeHeadSelf older) || negb (verifyTreeHeadSelf newer) then false else
  if negb (bool_decide (operator older = operator newer)) then false else
  if num_ltb (sth_size newer) (sth_size older) then false else
  verifyConsistency (sth_size older) (sth_size newer) proof
    (hexToBytesLocal (rootHex older)) (hexToBytesLocal (rootHex newer)).
End sth.

(** ** Logs *)
Section log_facts.
Context {L : Lib}.

Definition appends (l : TransparencyLog) (ds : list bytes) : TransparencyLog :=
  fold_left (fun l d => fst (append l d)) ds l.

Lemma appends_entries ds : forall l, entries (appends l ds) = entries l ++ ds.
Proof.
  induction ds as [|d ds IH]; intros l; cbn; [by rewrite app_nil_r|].
  unfold appends in IH. rewrite IH. cbn. by rewrite <- app_assoc.
Qed.
End log_facts.

(** *** The file and the memory *)
Section persistent_facts.
Context {L : Lib} `{!HexLaws L}.

Definition p_appends (l : PersistentLog) (ds : list bytes) : PersistentLog :=
  fold_left (fun l d => fst (p_append l d)) ds l.

Definition line_of (d : bytes) : list ascii := list_ascii_of_string (bytesToHex d).

Lemma list_ascii_app s t :
  list_ascii_of_string (s +:+ t)%string = list_ascii_of_string s ++ list_ascii_of_string t.
Proof. induction s as [|c s IH]; cbn; [done | by rewrite <- IH]. Qed.

Lemma p_appends_file ds : forall l,
  list_ascii_of_string (default EmptyString (p_file (p_appends l ds))) =
  list_ascii_of_string (default EmptyString (p_file l)) ++
    concat (map (fun d => line_of d ++ [newline]) ds).
Proof.
  induction ds as [|d ds IH]; intros l; cbn [p_appends fold_left map concat];
    [by rewrite app_nil_r|].
  unfold p_appends in IH. rewrite IH.
  change (default EmptyString (p_file (fst (p_append l d)))) with
    (default EmptyString (p_file l) +:+ (bytesToHex d +:+ String newline EmptyString))%string.
  rewrite !list_ascii_app. unfold line_of. by rewrite <- !app_assoc.
Qed.

Lemma p_appends_entries ds : forall l,
  entries (p_entries (p_appends l ds)) = entries (p_entries l) ++ ds.
Proof.
  induction ds as [|d ds IH]; intros l; cbn; [by rewrite app_nil_r|].
  unfold p_appends in IH. rewrite IH. cbn. by rewrite <- app_assoc.
Qed.

Lemma line_digits d : Forall (fun c => is_Some (hex_digit c)) (line_of d).
Proof. unfold line_of. rewrite hex_text. apply to_hex_digits. Qed.

Lemma split_line l : forall rest cur, Forall (fun c => is_Some (hex_digit c)) l ->
  Forall (fun c => is_Some (hex_digit c)) cur ->
  split_lines (l ++ newline :: rest) cur = (rev cur ++ l) :: split_lines rest [].
Proof.
  induction l as [|c l IH]; intros rest cur Hl Hc; cbn [split_lines app].
  - rewrite bool_decide_true, app_nil_r by done. destruct cur as [|d cur]; [done|].
    rewrite bool_decide_false; [done|]. intros ->. inversion_clear Hc as [|? ? [z Hz] _]. done.
  - inversion_clear Hl as [|? ? Hd Hl']. rewrite bool_decide_false.
    + rewrite IH by (try constructor; done). cbn. by rewrite <- app_assoc.
    + intros ->. by destruct Hd as [z Hz].
Qed.

Lemma split_file ds :
  split_lines (concat (map (fun d => line_of d ++ [newline]) ds)) [] = map line_of ds ++ [[]].
Proof.
  induction ds as [|d ds IH]; [done|]. cbn [map concat]. rewrite <- app_assoc. cbn [app].
  rewrite split_line, IH by (apply line_digits || constructor). done.
Qed.

Lemma trim_start_digits l : Forall (fun c => is_Some (hex_digit c)) l -> trim_start l = l.
Proof. destruct 1 as [|c l Hc _]; [done|]. cbn. by rewrite hex_digit_not_space. Qed.
Lemma trim_digits l : Forall (fun c => is_Some (hex_digit c)) l -> trim l = l.
Proof.
  intros Hl. unfold trim. rewrite trim_start_digits, trim_start_digits, rev_involutive; auto.
  rewrite trim_start_digits by done. by apply Forall_rev.
Qed.

Lemma length_line d : length (line_of d) = (2 * length d)%nat.
Proof.
  unfold line_of. rewrite <- to_hex_length, <- hex_text.
  generalize (bytesToHex d). induction s as [|c s IH]; cbn; [done | by rewrite IH].
Qed.

(** What a restart reads back: the non-empty leaves. *)
Lemma load_file ds :
  load_lines (map line_of ds ++ [[]]) = Ok (List.filter (fun d => (0 <? length d)%nat) ds).
Proof.
  induction ds as [|d ds IH]; [done|]. cbn [map app load_lines List.filter].
  rewrite trim_digits, length_line by apply line_digits.
  destruct d as [|x d]; [done|]. rewrite IH. unfold line_of at 1.
  rewrite string_of_list_ascii_of_string, hex_roundtrip. done.
Qed.

Lemma reopen ds : ds <> [] ->
  exists f, p_file (p_appends {| p_entries := {| entries := [] |}; p_file := None |} ds) = Some f /\
  openPersistent (Some f) = Ok {| p_entries := {| entries := List.filter
    (fun d => (0 <? length d)%nat) ds |}; p_file := Some f |}.
Proof.
  intros Hn. set (l0 := {| p_entries := _; p_file := None |}).
  pose proof (p_appends_file ds l0) as Hf.
  destruct (p_file (p_appends l0 ds)) as [f|] eqn:E.
  - exists f. split; [done|].
    assert (Ef : list_ascii_of_string f = concat (map (fun d => line_of d ++ [newline]) ds))
      by exact Hf.
    unfold openPersistent. by rewrite Ef, split_file, load_file.
  - destruct ds as [|d ds _] using rev_ind; [done|]. unfold p_appends in E.
    by rewrite fold_left_app in E.
Qed.
End persistent_facts.

(** ** Signed tree heads *)
Section sth_facts.
Context {L : Lib}.

Lemma verifyTreeHead_iff sth pk : verifyTreeHead sth pk = true <->
  bytesToHex pk = operator sth /\ sth_suite sth ∈ activeSuiteIds /\
  exists msg, sthMessage (operator sth) (sth_suite sth) (sth_size sth) (rootHex sth) = Ok msg /\
    suite_verify (sth_suite sth) (sth_sig sth) msg pk = Ok true.
Proof.
  unfold verifyTreeHead, suite_verify. case_bool_decide as E; cbn [negb]; [|by split; [|intros (? & _)]].
  destruct (includes activeSuiteIds (sth_suite sth)) eqn:I; cbn [negb].
  - apply includes_spec in I. rewrite try_catch_true. split.
    + intros V. apply bind_ok in V as (s & Hs & V). apply bind_ok in V as (msg & M & V).
      split_and!; [done | done |]. exists msg. split; [done|]. by rewrite Hs.
    + intros (_ & _ & msg & M & V). apply bind_ok in V as (s & Hs & V).
      by rewrite Hs; cbn; rewrite M.
  - split; [done|]. intros (_ & H & _). apply includes_spec in H. congruence.
Qed.

(** Two heads of one operator and size. *)
Definition same_head (a b : SignedTreeHead) : bool :=
  bool_decide (operator a = operator b) && same_text (sth_size a) (sth_size b).

(** What the loop knows: the entries of [seen] are verified heads. *)
Lemma detect_sound (sths : list SignedTreeHead) all : forall seen e,
  (forall x, x ∈ seen -> exists a, a ∈ all /\ verifyTreeHeadSelf a = true /\
     x = (operator a, sth_size a, rootHex a)) ->
  sths ⊆ all -> e ∈ detect_loop seen sths ->
  exists a b, a ∈ all /\ b ∈ all /\ verifyTreeHeadSelf a = true /\
    verifyTreeHeadSelf b = true /\ operator a = operator b /\ operator a = eq_operator e /\
    same_text (sth_size a) (sth_size b) = true /\ rootHex a = rootA e /\ rootHex b = rootB e /\
    rootHex a <> rootHex b.
Proof.
  induction sths as [|s sths IH]; intros seen e Hseen Hsub He; cbn [detect_loop] in He;
    [by apply elem_of_nil in He|].
  assert (Hs : s ∈ all /\ sths ⊆ all) by set_solver. destruct Hs as [Hs Hsub'].
  destruct (verifyTreeHeadSelf s) eqn:V; cbn [negb] in He; [|by apply (IH seen)].
  destruct (find _ seen) as [x|] eqn:F.
  - apply find_some in F as [Hx F]. apply andb_true_iff in F as [F1%bool_decide_eq_true F2].
    case_bool_decide as R; cbn [negb] in He; [by apply (IH seen)|].
    apply elem_of_cons in He as [->|He]; [|by apply (IH seen)].
    destruct (Hseen x Hx) as (a & Ha & Va & ->). cbn in *. exists a, s. done.
  - eapply IH; [|done|exact He]. intros x [->|Hx]%elem_of_cons; [by exists s | by apply Hseen].
Qed.

Lemma same_text_iff a b : same_text a b = true <-> a ≡ b.
Proof.
  destruct a as [|s|m k], b as [|t|n l]; cbn; try done; [apply Bool.eqb_true_iff | apply Z.eqb_eq].
Qed.

(** The entry of [seen] for the key of [s]. *)
Definition lookup_head (seen : list (string * num * string)) (s : SignedTreeHead) :=
  find (fun e => bool_decide (e.1.1 = operator s) && same_text e.1.2 (sth_size s)) seen.

Lemma same_head_iff a b : same_head a b = true <->
  operator a = operator b /\ sth_size a ≡ sth_size b.
Proof. unfold same_head. by rewrite andb_true_iff, bool_decide_eq_true, same_text_iff. Qed.

Lemma find_ext {A} (p q : A -> bool) l : (forall x, p x = q x) -> find p l = find q l.
Proof. intros H. induction l as [|x l IH]; cbn; [done | by rewrite H, IH]. Qed.

Lemma lookup_same a b seen : same_head a b = true -> lookup_head seen a = lookup_head seen b.
Proof.
  intros [Eo Es]%same_head_iff. apply find_ext. intros x. rewrite Eo. f_equal.
  apply Bool.eq_iff_eq_true. by rewrite !same_text_iff, Es.
Qed.

Lemma lookup_cons seen s a : lookup_head ((operator s, sth_size s, rootHex s) :: seen) a =
  if same_head s a then Some (operator s, sth_size s, rootHex s) else lookup_head seen a.
Proof. done. Qed.

Lemma detect_seen sths : forall seen x b, lookup_head seen b = Some x -> b ∈ sths ->
  verifyTreeHeadSelf b = true -> rootHex b <> x.2 ->
  exists e, e ∈ detect_loop seen sths /\ eq_operator e = operator b.
Proof.
  induction sths as [|s sths IH]; intros seen x b Hx Hb V R; [by apply elem_of_nil in Hb|].
  cbn [detect_loop]. fold (lookup_head seen s). apply elem_of_cons in Hb as [<-|Hb].
  - rewrite V, Hx. cbn [negb]. rewrite bool_decide_false by congruence. cbn [negb].
    eexists. split; [by left | done].
  - destruct (verifyTreeHeadSelf s); cbn [negb]; [|by eapply IH].
    destruct (lookup_head seen s) as [y|] eqn:Ey.
    + destruct (IH _ _ _ Hx Hb V R) as (e & He & ?). case_bool_decide; cbn [negb]; [eauto|].
      exists e. split; [by right | done].
    + eapply (IH _ x); try done. rewrite lookup_cons. destruct (same_head s b) eqn:E; [|done].
      rewrite (lookup_same _ _ seen E) in Ey. congruence.
Qed.

Lemma detect_complete sths : forall seen a b, a ∈ sths -> b ∈ sths ->
  verifyTreeHeadSelf a = true -> verifyTreeHeadSelf b = true ->
  same_head a b = true -> rootHex a <> rootHex b ->
  exists e, e ∈ detect_loop seen sths /\ eq_operator e = operator a.
Proof.
  induction sths as [|s sths IH]; intros seen a b Ha Hb Va Vb K R; [by apply elem_of_nil in Ha|].
  apply same_head_iff in K as K'. destruct K' as [Eo Es].
  destruct (lookup_head seen a) as [x|] eqn:Ex.
  { destruct (decide (rootHex a = x.2)) as [E|E].
    - rewrite Eo. eapply (detect_seen _ _ x); try done; [by rewrite <- (lookup_same a b)|congruence].
    - by eapply (detect_seen _ _ x). }
  cbn [detect_loop]. fold (lookup_head seen s).
  destruct (verifyTreeHeadSelf s) eqn:Vs; cbn [negb].
  2: { eapply IH; try done.
       - apply elem_of_cons in Ha as [->|]; [congruence | done].
       - apply elem_of_cons in Hb as [->|]; [congruence | done]. }
  destruct (same_head s a) eqn:Ks.
  - rewrite (lookup_same _ _ _ Ks), Ex.
    set (seen' := (operator s, sth_size s, rootHex s) :: seen).
    assert (La : lookup_head seen' a = Some (operator s, sth_size s, rootHex s))
      by (unfold seen'; by rewrite lookup_cons, Ks).
    destruct (decide (rootHex a = rootHex s)) as [E|E].
    + rewrite Eo. eapply detect_seen; [by rewrite <- (lookup_same a b) | | done | cbn; congruence].
      apply elem_of_cons in Hb as [->|]; [congruence | done].
    + eapply detect_seen; [done | | done | done].
      apply elem_of_cons in Ha as [->|]; [congruence | done].
  - assert (Ha' : a ∈ sths).
    { apply elem_of_cons in Ha as [->|]; [|done]. exfalso. revert Ks.
      apply not_false_iff_true. by apply same_head_iff. }
    assert (Hb' : b ∈ sths).
    { apply elem_of_cons in Hb as [->|]; [|done]. exfalso. revert Ks.
      apply not_false_iff_true. by apply same_head_iff. }
    destruct (lookup_head seen s) as [y|].
    + destruct (IH seen _ _ Ha' Hb' Va Vb K R) as (e & He & ?).
      case_bool_decide; cbn [negb]; [eauto|]. exists e. split; [by right | done].
    + by eapply IH.
Qed.
End sth_facts.

(** ** Properties *)
Section properties.
Context {L : Lib}.

(** The log is append-only for its verifiers: after any sequence of appends
    the log produces a consistency witness from its earlier size that checks
    and names the earlier root and the present one, and an inclusion witness
    for every entry that checks against the present root. *)
Theorem log_proofs_verify l ds : let l' := appends l ds in
  Z.of_nat (length (entries l')) <= MAX_TREE_SIZE ->
  (exists w, proveConsistency l' (Z.of_nat (length (entries l))) = Ok w /\
     oldRoot w = log_root l /\ newRoot w = log_root l' /\ checkConsistency w = true) /\
  (forall i e, entries l' !! i = Some e ->
     exists w, proveInclusion l' (Z.of_nat i) = Ok w /\ iw_leaf w = e /\
       checkInclusion w (log_root l') = true).
Proof.
  cbv zeta. intros Hmax. rewrite appends_entries in Hmax. split.
  - set (es := entries l ++ ds).
    assert (El : es = entries (appends l ds)) by (by rewrite appends_entries).
    destruct (consistency_verifies es (Z.of_nat (length (entries l))) (Z.of_nat (length es)))
      as (p & Hp & V); [unfold es; rewrite length_app; lia | done | done |].
    unfold proveConsistency, log_root. rewrite <- El, Hp. cbn [mbind res_bind].
    eexists. split; [done|]. unfold checkConsistency. cbn [oldRoot newRoot cw_from cw_to cw_proof].
    assert (Et : take (length (entries l)) es = entries l) by (unfold es; apply take_app_length).
    rewrite !Nat2Z.id, Et, firstn_all in V. unfold slice_to. rewrite Nat2Z.id, Et. done.
  - intros i e He. set (es := entries (appends l ds)) in *.
    assert (Hi : 0 <= Z.of_nat i < Z.of_nat (length es)) by (apply lookup_lt_Some in He; lia).
    destruct (inclusion_verifies es (Z.of_nat i) Hi) as (p & e' & Hp & He' & V);
      [unfold es; by rewrite appends_entries|].
    rewrite Nat2Z.id in He'. assert (e' = e) as -> by congruence.
    unfold proveInclusion. fold es. rewrite (proj2 (Z.ltb_ge _ _)), Nat2Z.id, He by lia.
    rewrite Hp. cbn [mbind res_bind]. eexists. done.
Qed.

Lemma filter_true_all (ds : list bytes) : Forall (fun d => d <> []) ds ->
  List.filter (fun d => (0 <? length d)%nat) ds = ds.
Proof. 
  induction 1 as [|d ds Hd _ IH]; [done|]. destruct d as [|x d]; [done|].
  exact (f_equal (cons (x :: d)) IH).
Qed.

(** The file-backed log survives a restart: reopening the file written by
    any non-empty sequence of appends of non-empty leaves to a fresh log gives
    back the same entries, so the same root and proofs. *)
Theorem persistent_reload `{!HexLaws L} ds : ds <> [] -> Forall (fun d => d <> []) ds ->
  let l := p_appends {| p_entries := {| entries := [] |}; p_file := None |} ds in
  openPersistent (p_file l) = Ok l.
Proof.
  intros Hn Hd. cbv zeta. destruct (reopen ds Hn) as (f & Ef & E). rewrite Ef, E. f_equal.
  rewrite (filter_true_all ds Hd). pose proof (p_appends_entries ds
    {| p_entries := {| entries := [] |}; p_file := None |}) as El.
  destruct (p_appends _ ds) as [[es] fl]. cbn in *. by subst.
Qed.

(** An empty leaf does not survive a restart: its line in the file is empty
    and the constructor skips empty lines, so the reopened log has fewer
    entries than the log that wrote the file. *)
Theorem persistent_empty_leaf_lost `{!HexLaws L} ds :
  let l := p_appends {| p_entries := {| entries := [] |}; p_file := None |} ([] :: ds) in
  exists l', openPersistent (p_file l) = Ok l' /\
    (length (entries (p_entries l')) < length (entries (p_entries l)))%nat.
Proof.
  cbv zeta. destruct (reopen ([] :: ds)) as (f & Ef & E); [done|]. rewrite Ef, E.
  eexists. split; [done|]. rewrite p_appends_entries. cbn [p_entries entries app].
  assert (length (List.filter (fun d : bytes => (0 <? length d)%nat) ds) <= length ds)%nat
    by apply filter_length_le.
  change (List.filter (fun d : bytes => (0 <? length d)%nat) ([] :: ds))
    with (List.filter (fun d : bytes => (0 <? length d)%nat) ds).
  cbn [length]. lia.
Qed.

(** A head an operator signs under an active suite verifies under the key
    its own operator field names. *)
Theorem signed_head_verifies `{!HexLaws L} `{!SigLaws L kpr} size root suite op sth :
  kpr (publicKey op) (secretKey op) -> suite ∈ activeSuiteIds ->
  signTreeHead size root suite op = Ok sth -> verifyTreeHeadSelf sth = true.
Proof.
  intros Hk Hs H. unfold signTreeHead in H. apply bind_ok in H as (s & S & H).
  apply bind_ok in H as (msg & M & H). apply bind_ok in H as (sg & G & [= <-]).
  unfold verifyTreeHeadSelf. cbn [operator]. rewrite hex_text, hexToBytesLocal_to_hex.
  apply verifyTreeHead_iff. cbn. rewrite hex_text. split_and!; [done | done |].
  exists msg. rewrite <- hex_text. split; [done|]. eapply suite_sign_verify; [done | done |].
  unfold suite_sign. by rewrite S.
Qed.

(** Split views are caught, and only split views: an operator is reported
    exactly when two of the heads verify under its key at one size with
    different roots; heads that do not verify frame nobody and hide nothing. *)
Theorem detectEquivocation_spec sths op :
  (exists e, e ∈ detectEquivocation sths /\ eq_operator e = op) <->
  exists a b, a ∈ sths /\ b ∈ sths /\ verifyTreeHeadSelf a = true /\
    verifyTreeHeadSelf b = true /\ operator a = op /\ operator b = op /\
    sth_size a ≡ sth_size b /\ rootHex a <> rootHex b.
Proof.
  split.
  - intros (e & He & <-).
    destruct (detect_sound sths sths [] e) as (a & b & ? & ? & ? & ? & E & Eo & ES & ? & ? & R);
      [by intros x ?%elem_of_nil | done | done |].
    exists a, b. apply same_text_iff in ES. rewrite <- Eo. split_and!; done.
  - intros (a & b & ? & ? & ? & ? & <- & Eb & ES & R).
    apply (detect_complete sths [] a b); try done. by apply same_head_iff.
Qed.

(** [checkAppendOnly] accepts two heads only if both verify, one operator
    signed them, and, when they name the roots of two logs of their sizes, the
    older log is a prefix of the newer or the hash collides on the inputs. *)
Theorem checkAppendOnly_sound `{!HashLen L} older newer proof xs ys :
  checkAppendOnly older newer proof = true ->
  rootHex older = to_hex (merkleRoot xs) -> rootHex newer = to_hex (merkleRoot ys) ->
  num_Z (sth_size older) = Z.of_nat (length xs) ->
  num_Z (sth_size newer) = Z.of_nat (length ys) ->
  verifyTreeHeadSelf older = true /\ verifyTreeHeadSelf newer = true /\
  operator older = operator newer /\
  (xs `prefix_of` ys \/ collision_among (tree_inputs xs ++ tree_inputs ys ++
     consistency_inputs (sth_size older) (sth_size newer) proof (merkleRoot xs))).
Proof.
  unfold checkAppendOnly. intros C Rx Ry Sx Sy.
  destruct (verifyTreeHeadSelf older); [cbn [negb orb] in C | done].
  destruct (verifyTreeHeadSelf newer); [cbn [negb orb] in C | done].
  case_bool_decide as E; [cbn [negb] in C | done]. case_match; [done|].
  rewrite Rx, Ry, !hexToBytesLocal_to_hex in C. split_and!; try done.
  by apply consistency_shows.
Qed.
End properties.

(** ** Witnesses *)
Definition sample_tlog : TransparencyLog := {| entries := [[x61]; [x62]; [x63]] |}.

Lemma log_proofs_verify_witness :
  exists w, proveConsistency (appends sample_tlog [[x64]; [x65]]) 3 = Ok w /\
    oldRoot w = log_root sample_tlog /\
    newRoot w = log_root (appends sample_tlog [[x64]; [x65]]) /\ checkConsistency w = true.
Proof. apply (log_proofs_verify sample_tlog [[x64]; [x65]]). by vm_compute. Defined.

Lemma persistent_reload_witness :
  let l := p_appends {| p_entries := {| entries := [] |}; p_file := None |} [[x61]; [x62; xff]] in
  openPersistent (p_file l) = Ok l.
Proof. apply (persistent_reload [[x61]; [x62; xff]]); [done | by repeat constructor]. Defined.

Lemma persistent_empty_leaf_lost_witness :
  let l := p_appends {| p_entries := {| entries := [] |}; p_file := None |} [[]; [x61]] in
  exists l', openPersistent (p_file l) = Ok l' /\
    (length (entries (p_entries l')) < length (entries (p_entries l)))%nat.
Proof. apply (persistent_empty_leaf_lost [[x61]]). Defined.

Definition no_head : SignedTreeHead := {|
  operator := EmptyString; sth_size := NaN; rootHex := EmptyString; sth_suite := EmptyString;
  sth_sig := [] |}.
Definition sample_head (l : list bytes) : SignedTreeHead :=
  try_catch (signTreeHead (Int (Z.of_nat (length l))) (merkleRoot l) PS_5 (kp "log"))
    (fun _ => no_head).

Lemma signed_head_verifies_witness : verifyTreeHeadSelf (sample_head sample_log) = true.
Proof.
  apply (signed_head_verifies (kpr := eq) (Int 5) (merkleRoot sample_log) PS_5 (kp "log"));
    [done | rewrite activeSuiteIds_eq; left | by vm_compute].
Defined.

Lemma checkAppendOnly_sound_witness :
  operator (sample_head (take 3 sample_log)) = operator (sample_head sample_log).
Proof.
  refine (proj1 (proj2 (proj2 (checkAppendOnly_sound (sample_head (take 3 sample_log))
    (sample_head sample_log) sample_consistency (take 3 sample_log) sample_log _ _ _ _ _))));
    by vm_compute.
Defined.
