(* ===== verification/Sortition.v ===== *)
(** * ledger/: validator sets and stake-weighted leader selection

    The data of src/ledger/src/types.ts and the functions of sortition.ts.  A
    stake is any JavaScript value: the code accepts only a non-negative bigint
    ([VBig]). *)
From S2P Require Import Prelude JsNum JsVal Crypto Concrete.
Open Scope Z_scope.

(** ** types.ts *)
Record Validator := { pubkey : string; stake : jsval; vrfPubkey : option string }.
Record ValidatorSet := { validators : list Validator; epoch : option num }.

Record BlockHeader := {
  height : num;
  prevHash : string;
  round : num;
  proposer : string;
  payloadRoot : string;
  timestamp : num;
  vrfOutput : option string }.

Record TimeoutVote := {
  tv_height : num; tv_prevHash : string; tv_round : num; tv_validator : string;
  tv_suite : string; tv_sig : bytes }.
Record ViewChangeCert := { vc_round : num; votes : list TimeoutVote }.

Record Block := {
  header : BlockHeader;
  proposerSig : bytes;
  block_suite : string;
  vrfProof : option bytes;
  viewChangeCert : option ViewChangeCert }.

Record Attestation := {
  att_blockHash : string;
  att_height : num;
  att_validator : string;
  att_suite : string;
  att_sig : bytes }.

(** ** sortition.ts *)
Definition canonicalRound (h : num) : num := Int 0.

Definition safeStake (s : jsval) : Z :=
  match s with VBig z => if 0 <=? z then z else 0 | _ => 0 end.

Definition is_stake (s : jsval) : bool :=
  match s with VBig z => 0 <=? z | _ => false end.

Definition isWellFormedStakeSet (set : ValidatorSet) : bool :=
  if negb (forallb (fun v => is_stake (stake v)) (validators set)) then false else
  (size (list_to_set (map pubkey (validators set)) : gset string) =? length (validators set))%nat.

Definition sum_stake (vs : list Validator) : Z :=
  fold_left (fun a v => a + safeStake (stake v)) vs 0.
Definition totalStake (set : ValidatorSet) : Z := sum_stake (validators set).
Definition totalStakeBig (set : ValidatorSet) : Z := totalStake set.

Definition stakeOf (set : ValidatorSet) (pk : string) : Z :=
  match find (fun v => bool_decide (pubkey v = pk)) (validators set) with
  | Some v => safeStake (stake v)
  | None => 0
  end.

Definition stakeIndex (set : ValidatorSet) : gmap string Z :=
  fold_left (fun m v => match m !! pubkey v with
                        | None => <[pubkey v := safeStake (stake v)]> m
                        | Some _ => m
                        end) (validators set) ∅.

Definition by_pubkey (a b : Validator) : bool := str_ltb (pubkey a) (pubkey b).

(** [BigInt('0x' + s)] *)
Fixpoint hex_value (s : list ascii) (acc : Z) : res Z :=
  match s with
  | [] => Ok acc
  | c :: s' => match hex_digit c with
               | Some d => hex_value s' (16 * acc + d)
               | None => Throw "Cannot convert to a BigInt"
               end
  end.
Definition BigInt_hex (s : string) : res Z :=
  match s with
  | EmptyString => Throw "Cannot convert 0x to a BigInt"
  | _ => hex_value (list_ascii_of_string s) 0
  end.

(** The cumulative walk over the sorted validators: the first one at which the
    running sum exceeds [x]. *)
Fixpoint walk (vs : list Validator) (acc x : Z) : option string :=
  match vs with
  | [] => None
  | v :: vs' =>
      let acc' := acc + safeStake (stake v) in
      if x <? acc' then Some (pubkey v) else walk vs' acc' x
  end.

Section sortition.
Context {L : Lib}.

Definition member_val (v : Validator) : jsval :=
  VArr [VStr (pubkey v); stake v; or_null VStr (vrfPubkey v)].

Definition consensusSetId (set : ValidatorSet) : res string :=
  let sorted := js_sort by_pubkey (validators set) in
  b ← encodeCanonical (VArr [VStr (tag "NATIVE_CONSENSUS_SET"); VArr (map member_val sorted);
    VNum (default (Int 0) (epoch set))]);
  Ok (bytesToHex (sha3_256 b)).

Definition selectLeader (set : ValidatorSet) (prev : string) (rnd : num) : res string :=
  let total := totalStake set in
  if total <=? 0 then Throw "validator set has no stake" else
  b ← encodeCanonical (VArr [VStr (tag "SORTITION"); VStr prev; VNum rnd]);
  let seed := sha3_256 b in
  z ← BigInt_hex (bytesToHex seed);
  let x := z mod total in
  let sorted := js_sort by_pubkey (validators set) in
  match walk sorted 0 x with
  | Some p => Ok p
  | None => match last sorted with
            | Some v => Ok (pubkey v)
            | None => Throw "Cannot read properties of undefined"
            end
  end.
End sortition.

(** ** Lemmas *)
Lemma safeStake_nonneg s : 0 <= safeStake s.
Proof. destruct s; cbn; try lia. case_match eqn:E; [by apply Z.leb_le|lia]. Qed.

Lemma sum_stake_acc vs : forall a,
  fold_left (fun a v => a + safeStake (stake v)) vs a = a + sum_stake vs.
Proof.
  unfold sum_stake. induction vs as [|v vs IH]; intros a; cbn [fold_left]; [lia|].
  rewrite (IH (a + _)), (IH (0 + _)). lia.
Qed.
Lemma sum_stake_cons v vs : sum_stake (v :: vs) = safeStake (stake v) + sum_stake vs.
Proof. unfold sum_stake at 1. cbn. by rewrite sum_stake_acc. Qed.
Lemma sum_stake_nonneg vs : 0 <= sum_stake vs.
Proof.
  induction vs as [|v vs IH]; [done|]. rewrite sum_stake_cons.
  pose proof (safeStake_nonneg (stake v)). lia.
Qed.
#[export] Instance sum_stake_perm : Proper ((≡ₚ) ==> (=)) sum_stake.
Proof.
  induction 1; rewrite ?sum_stake_cons; try lia; done.
Qed.

Lemma size_NoDup (l : list string) :
  size (list_to_set l : gset string) = length l <-> NoDup l.
Proof.
  split.
  - induction l as [|x l IH]; cbn; [constructor|]. intros E.
    assert (Hle : (size (list_to_set l : gset string) <= length l)%nat).
    { clear. induction l as [|y l IH]; cbn; [by rewrite size_empty|].
      rewrite size_union_alt, size_singleton.
      assert (size ((list_to_set l : gset string) ∖ {[y]}) <= size (list_to_set l : gset string))%nat
        by (apply subseteq_size; set_solver). lia. }
    destruct (decide (x ∈ l)) as [Hx|Hx].
    + rewrite subseteq_union_1_L in E by set_solver. lia.
    + constructor; [done|]. apply IH. rewrite size_union, size_singleton in E by set_solver. lia.
  - induction 1 as [|x l Hx _ IH]; cbn; [by rewrite size_empty|].
    by rewrite size_union, size_singleton, IH by set_solver.
Qed.

Lemma isWellFormedStakeSet_iff set : isWellFormedStakeSet set = true <->
  (forall v, v ∈ validators set -> exists z, stake v = VBig z /\ 0 <= z) /\
  NoDup (map pubkey (validators set)).
Proof.
  unfold isWellFormedStakeSet. rewrite <- size_NoDup, length_map.
  destruct (forallb _ _) eqn:F; cbn [negb].
  - rewrite Nat.eqb_eq. split; [|tauto]. intros E. split; [|done].
    intros v Hv%list_elem_of_In. rewrite forallb_forall in F. specialize (F v Hv).
    unfold is_stake in F. destruct (stake v); try done. exists z. split; [done|]. by apply Z.leb_le.
  - split; [done|]. intros [H _]. exfalso. apply not_true_iff_false in F. apply F.
    apply forallb_forall. intros v Hv%list_elem_of_In. destruct (H v Hv) as (z & -> & ?).
    by apply Z.leb_le.
Qed.

(** The index agrees with the linear scan. *)
Lemma stakeIndex_lookup set pk : default 0 (stakeIndex set !! pk) = stakeOf set pk.
Proof.
  unfold stakeIndex, stakeOf. generalize (validators set) as vs. intros vs.
  assert (G : forall (m : gmap string Z), m !! pk = None \/ (exists z, m !! pk = Some z) ->
    default 0 (fold_left (fun (m : gmap string Z) v => match m !! pubkey v with
                        | None => <[pubkey v := safeStake (stake v)]> m
                        | Some _ => m
                        end) vs m !! pk) =
    match m !! pk with
    | Some z => z
    | None => match find (fun v => bool_decide (pubkey v = pk)) vs with
              | Some v => safeStake (stake v)
              | None => 0
              end
    end).
  { induction vs as [|v vs IH]; intros m _; cbn [fold_left find]; [by destruct (m !! pk)|].
    rewrite IH by (destruct (_ !! pk); eauto). case_bool_decide as E.
    - subst pk. destruct (m !! pubkey v) eqn:F; [by rewrite F | by rewrite lookup_insert_eq].
    - destruct (m !! pubkey v) eqn:F; [done | by rewrite lookup_insert_ne]. }
  rewrite G by (left; apply lookup_empty). by rewrite lookup_empty.
Qed.

(** *** Sorting by public key *)
(** Sorting a set with distinct keys does not depend on the order it came in. *)
Lemma sort_by_pubkey_perm vs ws : NoDup (map pubkey vs) -> vs ≡ₚ ws ->
  js_sort by_pubkey vs = js_sort by_pubkey ws.
Proof. apply (sort_by_perm pubkey). Qed.

(** *** The walk *)
Lemma walk_total vs : forall acc x, acc <= x < acc + sum_stake vs -> is_Some (walk vs acc x).
Proof.
  induction vs as [|v vs IH]; intros acc x Hx; cbn; [cbn in Hx; lia|].
  rewrite sum_stake_cons in Hx. destruct (Z.ltb_spec x (acc + safeStake (stake v))); [eauto|].
  apply IH. lia.
Qed.
Lemma walk_none vs : forall acc x, acc + sum_stake vs <= x -> walk vs acc x = None.
Proof.
  induction vs as [|v vs IH]; intros acc x Hx; cbn; [done|]. rewrite sum_stake_cons in Hx.
  pose proof (sum_stake_nonneg vs). rewrite (proj2 (Z.ltb_ge _ _)) by lia. apply IH. lia.
Qed.
Lemma walk_in vs : forall acc x p, walk vs acc x = Some p ->
  exists v, v ∈ vs /\ pubkey v = p /\ (acc <= x -> 0 < safeStake (stake v)).
Proof.
  induction vs as [|v vs IH]; intros acc x p; cbn; [done|].
  destruct (Z.ltb_spec x (acc + safeStake (stake v))).
  - intros [= <-]. exists v. split_and!; [left | done | lia].
  - intros Hw. destruct (IH _ _ _ Hw) as (w & Hw1 & Hw2 & Hw3). exists w. split_and!; [by right | done |].
    intros _. apply Hw3. lia.
Qed.

(** The draws in [acc, acc + n) that select [p]. *)
Definition draws (vs : list Validator) (acc n : Z) (p : string) : nat :=
  length (List.filter (fun x => bool_decide (walk vs acc x = Some p)) (seqZ acc n)).

Lemma filter_all {A} (f : A -> bool) l : (forall x, x ∈ l -> f x = true) -> List.filter f l = l.
Proof.
  induction l as [|x l IH]; cbn; intros Hf; [done|]. rewrite Hf, IH; [done | set_solver | left].
Qed.
Lemma filter_nil {A} (f : A -> bool) l : (forall x, x ∈ l -> f x = false) -> List.filter f l = [].
Proof.
  induction l as [|x l IH]; cbn; intros Hf; [done|]. rewrite Hf, IH; [done | set_solver | left].
Qed.
Lemma filter_ext_elem {A} (f g : A -> bool) l :
  (forall x, x ∈ l -> f x = g x) -> List.filter f l = List.filter g l.
Proof.
  induction l as [|x l IH]; cbn; intros Hf; [done|]. rewrite (Hf x), IH; [done | set_solver | left].
Qed.

Lemma walk_shift vs : forall acc x d, walk vs (acc + d) (x + d) = walk vs acc x.
Proof.
  induction vs as [|v vs IH]; intros acc x d; cbn; [done|].
  replace (acc + d + safeStake (stake v)) with (acc + safeStake (stake v) + d) by ring.
  rewrite IH. by replace (x + d <? acc + safeStake (stake v) + d) with (x <? acc + safeStake (stake v)) by lia.
Qed.

Lemma draws_spec vs p : NoDup (map pubkey vs) -> forall acc,
  Z.of_nat (draws vs acc (sum_stake vs) p) =
    match find (fun v => bool_decide (pubkey v = p)) vs with
    | Some v => safeStake (stake v)
    | None => 0
    end.
Proof.
  unfold draws. induction vs as [|v vs IH]; cbn [map]; intros Hn acc.
  { by rewrite filter_nil. }
  inversion_clear Hn as [|? ? Hv Hn']. rewrite sum_stake_cons.
  pose proof (safeStake_nonneg (stake v)). pose proof (sum_stake_nonneg vs).
  rewrite seqZ_app, List.filter_app, length_app, Nat2Z.inj_add by lia.
  assert (E1 : List.filter (fun x => bool_decide (walk (v :: vs) acc x = Some p))
      (seqZ acc (safeStake (stake v))) =
      if bool_decide (pubkey v = p) then seqZ acc (safeStake (stake v)) else []).
  { case_bool_decide as E.
    - apply filter_all. intros x Hx%elem_of_seqZ. cbn. rewrite (proj2 (Z.ltb_lt _ _)) by lia.
      apply bool_decide_eq_true. by rewrite E.
    - apply filter_nil. intros x Hx%elem_of_seqZ. cbn. rewrite (proj2 (Z.ltb_lt _ _)) by lia.
      apply bool_decide_eq_false. congruence. }
  assert (E2 : List.filter (fun x => bool_decide (walk (v :: vs) acc x = Some p))
      (seqZ (acc + safeStake (stake v)) (sum_stake vs)) =
      List.filter (fun x => bool_decide (walk vs (acc + safeStake (stake v)) x = Some p))
      (seqZ (acc + safeStake (stake v)) (sum_stake vs))).
  { apply filter_ext_elem. intros x Hx%elem_of_seqZ. cbn. by rewrite (proj2 (Z.ltb_ge _ _)) by lia. }
  rewrite E1, E2, IH by done. cbn [find]. case_bool_decide as E.
  - rewrite length_seqZ, Z2Nat.id by lia.
    assert (find (fun w => bool_decide (pubkey w = p)) vs = None) as ->; [|lia].
    apply find_none. intros w Hw. apply bool_decide_eq_false. intros <-. apply Hv. rewrite E.
    by apply (list_elem_of_fmap_2 pubkey).
  - cbn [length]. lia.
Qed.

Lemma stakeOf_perm set vs p : NoDup (map pubkey (validators set)) -> vs ≡ₚ validators set ->
  match find (fun v => bool_decide (pubkey v = p)) vs with
  | Some v => safeStake (stake v)
  | None => 0
  end = stakeOf set p.
Proof.
  intros Hn Hp. rewrite <- (draws_spec vs p) with (acc := 0) by (by rewrite Hp).
  unfold stakeOf. rewrite <- (draws_spec (validators set) p) with (acc := 0) by done.
  rewrite !draws_spec by (by rewrite ?Hp).
  destruct (find _ vs) as [v|] eqn:E, (find _ (validators set)) as [w|] eqn:F; try done.
  - apply find_some in E as [E1 E2%bool_decide_eq_true], F as [F1 F2%bool_decide_eq_true].
    rewrite Hp in E1. apply list_elem_of_lookup in E1 as [i Hi], F1 as [j Hj].
    assert (i = j) as -> by (eapply (NoDup_lookup _ i j p Hn);
      by rewrite list_lookup_fmap, ?Hi, ?Hj; cbn; congruence).
    congruence.
  - apply find_some in E as [E1 E2]. rewrite Hp in E1. rewrite find_none in F.
    by rewrite F in E2.
  - apply find_some in F as [F1 F2]. rewrite <- Hp in F1. rewrite find_none in E.
    by rewrite E in F2.
Qed.

(** ** Stake of a set of validators *)
Definition stake_in (set : ValidatorSet) (X : gset string) : Z :=
  sum_stake (List.filter (fun v => bool_decide (pubkey v ∈ X)) (validators set)).

Lemma sum_filter_cons (p : Validator -> bool) v vs :
  sum_stake (List.filter p (v :: vs)) =
    (if p v then safeStake (stake v) else 0) + sum_stake (List.filter p vs).
Proof. cbn [List.filter]. destruct (p v); [by rewrite sum_stake_cons | lia]. Qed.

Lemma stake_in_union_inter set X Y :
  stake_in set X + stake_in set Y = stake_in set (X ∪ Y) + stake_in set (X ∩ Y).
Proof.
  unfold stake_in. induction (validators set) as [|v vs IH]; [done|]. rewrite !sum_filter_cons.
  destruct (decide (pubkey v ∈ X)) as [HX|HX], (decide (pubkey v ∈ Y)) as [HY|HY];
    rewrite ?(bool_decide_true (pubkey v ∈ X)), ?(bool_decide_false (pubkey v ∈ X)),
      ?(bool_decide_true (pubkey v ∈ Y)), ?(bool_decide_false (pubkey v ∈ Y)) by done;
    rewrite ?(bool_decide_true (pubkey v ∈ X ∪ Y)), ?(bool_decide_false (pubkey v ∈ X ∪ Y)) by set_solver;
    rewrite ?(bool_decide_true (pubkey v ∈ X ∩ Y)), ?(bool_decide_false (pubkey v ∈ X ∩ Y)) by set_solver;
    lia.
Qed.

Lemma stake_in_le set X : stake_in set X <= totalStake set.
Proof.
  unfold stake_in, totalStake. induction (validators set) as [|v vs IH]; [done|].
  rewrite sum_filter_cons, sum_stake_cons. pose proof (safeStake_nonneg (stake v)).
  destruct (bool_decide _); lia.
Qed.

Lemma stake_in_empty set : stake_in set ∅ = 0.
Proof.
  unfold stake_in. induction (validators set) as [|v vs IH]; [done|]. rewrite sum_filter_cons, IH.
  by rewrite bool_decide_false by set_solver.
Qed.

Lemma stake_in_insert set v X : NoDup (map pubkey (validators set)) -> v ∉ X ->
  stake_in set ({[v]} ∪ X) = stakeOf set v + stake_in set X.
Proof.
  unfold stake_in, stakeOf. intros Hn Hv. induction (validators set) as [|w vs IH]; [done|].
  cbn [map] in Hn. inversion_clear Hn as [|? ? Hw Hn']. rewrite !sum_filter_cons. cbn [find].
  specialize (IH Hn'). destruct (decide (pubkey w = v)) as [E|E].
  - rewrite (bool_decide_true (pubkey w = v)) by done.
    rewrite (bool_decide_true (pubkey w ∈ {[v]} ∪ X)) by set_solver.
    rewrite (bool_decide_false (pubkey w ∈ X)) by congruence.
    assert (find (fun u => bool_decide (pubkey u = v)) vs = None) as F.
    { apply find_none. intros u Hu. apply bool_decide_eq_false. intros <-. apply Hw. rewrite E.
      by apply (list_elem_of_fmap_2 pubkey). }
    rewrite F in IH. lia.
  - rewrite (bool_decide_false (pubkey w = v)) by done. destruct (decide (pubkey w ∈ X)) as [HX|HX].
    + rewrite (bool_decide_true (pubkey w ∈ X)), (bool_decide_true (pubkey w ∈ {[v]} ∪ X)) by set_solver.
      lia.
    + rewrite (bool_decide_false (pubkey w ∈ X)), (bool_decide_false (pubkey w ∈ {[v]} ∪ X)) by set_solver.
      lia.
Qed.

Lemma stake_in_mono set X Y : NoDup (map pubkey (validators set)) ->
  (forall k, k ∈ X -> 0 < stakeOf set k -> k ∈ Y) -> stake_in set X <= stake_in set Y.
Proof.
  intros Hn H. unfold stake_in.
  assert (G : forall v, v ∈ validators set -> pubkey v ∈ X -> 0 < safeStake (stake v) -> pubkey v ∈ Y).
  { intros v Hv HX Hs. apply H; [done|]. unfold stakeOf.
    destruct (find _ _) as [w|] eqn:E.
    - apply find_some in E as [E1 E2%bool_decide_eq_true].
      apply list_elem_of_lookup in Hv as [i Hi], E1 as [j Hj].
      assert (i = j) as -> by (eapply (NoDup_lookup _ i j (pubkey v) Hn);
        by rewrite list_lookup_fmap, ?Hi, ?Hj; cbn; congruence).
      congruence.
    - rewrite find_none in E. specialize (E v Hv). by rewrite bool_decide_true in E. }
  clear Hn H. induction (validators set) as [|v vs IH]; [done|]. rewrite !sum_filter_cons.
  assert (IH' : sum_stake (List.filter (fun v => bool_decide (pubkey v ∈ X)) vs) <=
    sum_stake (List.filter (fun v => bool_decide (pubkey v ∈ Y)) vs))
    by (apply IH; intros w Hw; apply G; by right).
  pose proof (safeStake_nonneg (stake v)). specialize (G v (list_elem_of_here _ _)).
  do 2 case_bool_decide; try lia. destruct (Z.eq_dec (safeStake (stake v)) 0); [lia|].
  exfalso. apply H1, G; [done | lia].
Qed.

Section leader.
Context {L : Lib}.

Lemma selectLeader_walk set prev rnd p : selectLeader set prev rnd = Ok p ->
  exists x, 0 <= x < totalStake set /\ walk (js_sort by_pubkey (validators set)) 0 x = Some p.
Proof.
  unfold selectLeader. destruct (Z.leb_spec (totalStake set) 0); [done|]. intros E.
  apply bind_ok in E as (b & _ & E). apply bind_ok in E as (z & _ & E).
  exists (z mod totalStake set).
  assert (Hx : 0 <= z mod totalStake set < totalStake set) by (apply Z.mod_pos_bound; lia).
  split; [done|].
  destruct (walk_total (js_sort by_pubkey (validators set)) 0 (z mod totalStake set)) as [q Hq].
  { by rewrite js_sort_perm. }
  rewrite Hq in *. congruence.
Qed.
End leader.

(** ** Properties *)
Section properties.
Context {L : Lib}.

(** The deterministic leader is stake-weighted: whoever [selectLeader] names
    is a validator of the set with positive stake, read off a draw below the
    total; and over all draws each key is selected by exactly as many as its
    stake, so the code's last-resort return is never reached. *)
Theorem sortition_stake_weighted set prev rnd p : isWellFormedStakeSet set = true ->
  selectLeader set prev rnd = Ok p ->
  0 < stakeOf set p /\
  (exists x, 0 <= x < totalStake set /\
     walk (js_sort by_pubkey (validators set)) 0 x = Some p) /\
  forall q, Z.of_nat (draws (js_sort by_pubkey (validators set)) 0 (totalStake set) q) =
            stakeOf set q.
Proof.
  intros [_ Hn]%isWellFormedStakeSet_iff Hl. apply selectLeader_walk in Hl as (x & Hx & Hw).
  pose proof (js_sort_perm by_pubkey (validators set)) as Hp. split_and!.
  - destruct (walk_in _ _ _ _ Hw) as (v & Hv & <- & Hs).
    rewrite <- (stakeOf_perm set _ (pubkey v) Hn Hp).
    destruct (find _ _) as [w|] eqn:E.
    + apply find_some in E as [E1 E2%bool_decide_eq_true].
      assert (w = v) as ->; [|apply Hs; lia].
      rewrite Hp in Hv, E1. apply list_elem_of_lookup in Hv as [i Hi], E1 as [j Hj].
      assert (i = j) as -> by (eapply (NoDup_lookup _ i j (pubkey v) Hn);
        by rewrite list_lookup_fmap, ?Hi, ?Hj; cbn; congruence).
      congruence.
    + rewrite find_none in E. specialize (E v Hv). by rewrite bool_decide_true in E.
  - eauto.
  - intros q. rewrite <- (stakeOf_perm set _ q Hn Hp).
    unfold totalStake. rewrite <- Hp at 2. apply draws_spec. by rewrite Hp.
Qed.
End properties.

Definition sample_set : ValidatorSet := {|
  validators := [
    {| pubkey := kp_hex "v3"; stake := VBig 30; vrfPubkey := None |};
    {| pubkey := kp_hex "v1"; stake := VBig 40; vrfPubkey := None |};
    {| pubkey := kp_hex "v2"; stake := VBig 30; vrfPubkey := None |}];
  epoch := None |}.

Lemma sortition_stake_weighted_witness :
  0 < stakeOf sample_set (try_catch (selectLeader sample_set "00" (Int 0)) (fun _ => EmptyString)).
Proof.
  refine (proj1 (sortition_stake_weighted sample_set "00" (Int 0) _ _ _)); by vm_compute.
Defined.
