(* ===== verification/Vrf.v ===== *)
(** * ledger/: the verifiable random function

    src/ledger/src/vrf.ts: ECVRF-EDWARDS25519-SHA512-TAI over the curve
    operations and SHA-512 of @noble, which are the class [Ed25519]. *)
From S2P Require Import Prelude JsNum JsVal Crypto.
Open Scope Z_scope.

(** ** Third-party code: @noble/curves, SHA-512 *)
Class Ed25519 := {
  point : Type;
  BASE : point;
  ORDER : Z;
  fromBytes : bytes -> res point;
  toBytes : point -> bytes;
  (** scalar multiplication; throws on a scalar outside [1, ORDER) *)
  multiply : point -> Z -> res point;
  multiplyUnsafe : point -> Z -> res point;
  add : point -> point -> point;
  clearCofactor : point -> point;
  is0 : point -> bool;
  isTorsionFree : point -> bool;
  sha512 : bytes -> bytes }.

(** The group: points of the prime-order subgroup are multiples [z · B], read
    modulo the order, and what the library computes on them. *)
Class Ed25519Laws (C : Ed25519) := {
  mul : point -> Z -> point;
  order_range : 8 < ORDER <= 2 ^ 256;
  mul_mul : forall p a b, mul (mul p a) b = mul p (a * b);
  mul_add : forall p a b, add (mul p a) (mul p b) = mul p (a + b);
  mul_one : forall p, mul p 1 = p;
  mul_mod : forall p a, isTorsionFree p = true -> mul p (a mod ORDER) = mul p a;
  mul_free : forall p a, isTorsionFree p = true -> isTorsionFree (mul p a) = true;
  mul_zero : forall p a, isTorsionFree p = true -> is0 p = false ->
    (is0 (mul p a) = true <-> a mod ORDER = 0);
  base_free : isTorsionFree BASE = true /\ is0 BASE = false;
  clear_free : forall p, isTorsionFree (clearCofactor p) = true;
  multiply_ok : forall p a, 1 <= a < ORDER -> multiply p a = Ok (mul p a);
  multiply_bad : forall p a, ~ 1 <= a < ORDER -> is_ok (multiply p a) = false;
  multiplyUnsafe_ok : forall p a, 0 <= a < ORDER -> multiplyUnsafe p a = Ok (mul p a);
  point_roundtrip : forall p, fromBytes (toBytes p) = Ok p;
  point_length : forall p, length (toBytes p) = 32%nat;
  sha512_length : forall b, length (sha512 b) = 64%nat }.

Section vrf.
Context {C : Ed25519}.

Definition COF : Z := 8.
Definition SUITE : byte := x03.
Definition PROOF_LEN : nat := 80.

(** [((n % L) + L) % L] on bigints: the non-negative residue *)
Definition vmod (n : Z) : Z := n mod ORDER.

Fixpoint os2ipLE (b : bytes) : Z :=
  match b with [] => 0 | x :: b' => Z.lor (Z.shiftl (os2ipLE b') 8) (Z_of_byte x) end.

Fixpoint i2ospLE (value : Z) (len : nat) : bytes :=
  match len with
  | O => []
  | S n => byte_of_Z (Z.land value 255) :: i2ospLE (Z.shiftr value 8) n
  end.

Record Secret := { sc_x : Z; sc_trunc : bytes; sc_Ystr : bytes; sc_Y : point }.

(** [a[0] &= 248; a[31] = (a[31] & 127) | 64] *)
Definition clamp (a : bytes) : bytes :=
  let a1 := alter (fun b => byte_of_Z (Z.land (Z_of_byte b) 248)) 0%nat a in
  alter (fun b => byte_of_Z (Z.lor (Z.land (Z_of_byte b) 127) 64)) 31%nat a1.

Definition deriveSecret (seed : bytes) : res Secret :=
  if negb (length seed =? 32)%nat then Throw "VRF seed must be 32 bytes" else
  let h := sha512 seed in
  let x := vmod (os2ipLE (clamp (take 32 h))) in
  Y ← multiply BASE x;
  Ok {| sc_x := x; sc_trunc := drop 32 (take 64 h); sc_Ystr := toBytes Y; sc_Y := Y |}.

Definition vrfPublicKey (seed : bytes) : res bytes :=
  s ← deriveSecret seed; Ok (sc_Ystr s).

(** The loop over [ctr]; [n] tries are left. *)
Fixpoint tai_loop (n : nat) (ctr : Z) (Ystr alpha : bytes) : res point :=
  match n with
  | O => Throw "encode_to_curve: no valid point in 256 tries"
  | S n' =>
      let candidate := take 32 (sha512 (SUITE :: x01 :: Ystr ++ alpha ++ [byte_of_Z ctr; x00])) in
      match fromBytes candidate with
      | Ok p => Ok (clearCofactor p)
      | Throw _ => tai_loop n' (ctr + 1) Ystr alpha
      end
  end.
Definition encodeToCurveTai (Ystr alpha : bytes) : res point := tai_loop 256 0 Ystr alpha.

Definition challenge (points : list bytes) : Z :=
  os2ipLE (take 16 (sha512 (SUITE :: x02 :: concat points ++ [x00]))).

Record VrfOutput := { vo_proof : bytes; vo_beta : bytes }.

Definition proofToHash (Gamma : point) : res bytes :=
  G8 ← multiply Gamma COF; Ok (sha512 (SUITE :: x03 :: toBytes G8 ++ [x00])).

Definition prove (seed alpha : bytes) : res VrfOutput :=
  s ← deriveSecret seed;
  Hp ← encodeToCurveTai (sc_Ystr s) alpha;
  let Hstr := toBytes Hp in
  Gamma ← multiply Hp (sc_x s);
  let k := vmod (os2ipLE (sha512 (sc_trunc s ++ Hstr))) in
  kB ← multiply BASE k;
  kH ← multiply Hp k;
  let c := challenge [sc_Ystr s; Hstr; toBytes Gamma; toBytes kB; toBytes kH] in
  let sv := vmod (k + c * sc_x s) in
  beta ← proofToHash Gamma;
  Ok {| vo_proof := toBytes Gamma ++ i2ospLE c 16 ++ i2ospLE sv 32; vo_beta := beta |}.

Definition isValidVrfPoint (pt : point) : bool := negb (is0 pt) && isTorsionFree pt.

(** The body of [verify]; [Ok None] is [return null]. *)
Definition verify_body (publicKey alpha proof : bytes) : res (option bytes) :=
  if negb (length proof =? PROOF_LEN)%nat then Ok None else
  Y ← fromBytes publicKey;
  if negb (isValidVrfPoint Y) then Ok None else
  Gamma ← fromBytes (take 32 proof);
  if negb (isValidVrfPoint Gamma) then Ok None else
  let c := os2ipLE (take 16 (drop 32 proof)) in
  let s := os2ipLE (take 32 (drop 48 proof)) in
  if ORDER <=? s then Ok None else
  Hp ← encodeToCurveTai publicKey alpha;
  let negC := vmod (ORDER - c) in
  sB ← multiplyUnsafe BASE s;
  cY ← multiplyUnsafe Y negC;
  sH ← multiplyUnsafe Hp s;
  cG ← multiplyUnsafe Gamma negC;
  let U := add sB cY in
  let V := add sH cG in
  let c' := challenge [publicKey; toBytes Hp; toBytes Gamma; toBytes U; toBytes V] in
  if negb (c' =? c) then Ok None else
  beta ← proofToHash Gamma; Ok (Some beta).

Definition verify (publicKey alpha proof : bytes) : option bytes :=
  try_catch (verify_body publicKey alpha proof) (fun _ => None).
End vrf.

(** ** Lemmas *)
Lemma os2ip_i2osp n : forall v, 0 <= v -> v < 2 ^ (8 * Z.of_nat n) -> os2ipLE (i2ospLE v n) = v.
Proof.
  induction n as [|n IH]; intros v Hv Hb; cbn [i2ospLE os2ipLE].
  - change (2 ^ (8 * Z.of_nat 0)) with 1 in Hb. lia.
  - assert (Hd : 0 <= Z.shiftr v 8 < 2 ^ (8 * Z.of_nat n)).
    { rewrite Z.shiftr_div_pow2 by lia. split; [apply Z.div_pos; lia|].
      apply Z.div_lt_upper_bound; [lia|]. rewrite <- Z.pow_add_r by lia.
      replace (8 + 8 * Z.of_nat n) with (8 * Z.of_nat (S n)) by lia. done. }
    rewrite IH by lia. rewrite Z_of_byte_of_Z. change 255 with (Z.ones 8).
    rewrite Z.land_ones, Z.mod_mod by lia. change 256 with (2 ^ 8).
    rewrite <- Z.land_ones by lia. apply Z.bits_inj'. intros i Hi.
    rewrite Z.lor_spec, Z.shiftl_spec, Z.land_spec, Z.testbit_ones_nonneg by lia.
    destruct (Z.ltb_spec i 8).
    + rewrite Z.testbit_neg_r by lia. by rewrite andb_true_r.
    + rewrite Z.shiftr_spec, andb_false_r, orb_false_r by lia. f_equal. lia.
Qed.

Lemma length_i2osp n : forall v, length (i2ospLE v n) = n.
Proof. induction n as [|n IH]; intros v; cbn; [done | by rewrite IH]. Qed.

Lemma os2ip_bound b : 0 <= os2ipLE b < 2 ^ (8 * Z.of_nat (length b)).
Proof.
  induction b as [|x b IH]; cbn [os2ipLE length]; [done|].
  replace (8 * Z.of_nat (S (length b))) with (8 + 8 * Z.of_nat (length b)) by lia.
  pose proof (Z_of_byte_range x) as Hx.
  assert (E : Z.lor (Z.shiftl (os2ipLE b) 8) (Z_of_byte x) = os2ipLE b * 2 ^ 8 + Z_of_byte x).
  { rewrite <- Z.shiftl_mul_pow2 by lia. symmetry.
    rewrite <- Z.add_lor_land.
    assert (Z.land (Z.shiftl (os2ipLE b) 8) (Z_of_byte x) = 0) as ->; [|lia].
    apply Z.bits_inj'. intros i Hi. rewrite Z.land_spec, Z.shiftl_spec, Z.bits_0 by lia.
    destruct (Z.lt_ge_cases i 8); [by rewrite Z.testbit_neg_r by lia|].
    destruct (Z.eq_dec (Z_of_byte x) 0) as [->|]; [by rewrite Z.bits_0, andb_false_r|].
    rewrite (Z.bits_above_log2 (Z_of_byte x)), andb_false_r; [done | lia |].
    assert (Z.log2 (Z_of_byte x) < 8) by (apply Z.log2_lt_pow2; lia). lia. }
  rewrite E, Z.pow_add_r by lia. nia.
Qed.

Section facts.
Context {C : Ed25519} `{!Ed25519Laws C}.

Lemma mul_cong p a b : isTorsionFree p = true -> a mod ORDER = b mod ORDER -> mul p a = mul p b.
Proof. intros Hp E. rewrite <- (mul_mod p a), <- (mul_mod p b) by done. by rewrite E. Qed.

Lemma multiply_inv p a q : multiply p a = Ok q -> 1 <= a < ORDER /\ q = mul p a.
Proof.
  intros E. destruct (decide (1 <= a < ORDER)) as [Ha|Ha].
  - rewrite multiply_ok in E by done. by injection E as <-.
  - pose proof (multiply_bad p a Ha) as F. by rewrite E in F.
Qed.

(** [s·P − c·(x·P) = k·P] for [s = k + c·x]. *)
Lemma response_eq p x k c : isTorsionFree p = true ->
  add (mul p (vmod (k + c * x))) (mul (mul p x) (vmod (ORDER - c))) = mul p k.
Proof.
  intros Hp. pose proof order_range. rewrite mul_mul, mul_add. apply mul_cong; [done|]. unfold vmod.
  rewrite Z.add_mod, Z.mod_mod, Z.mul_mod, Z.mod_mod, <- Z.mul_mod, <- Z.add_mod by lia.
  replace (k + c * x + x * (ORDER - c)) with (k + x * ORDER) by ring.
  by rewrite Z.mod_add by lia.
Qed.

Lemma challenge_bound pts : 0 <= challenge pts < 2 ^ 128.
Proof.
  unfold challenge. set (b := take 16 _). pose proof (os2ip_bound b) as Hb.
  assert (E : length b = 16%nat) by (unfold b; rewrite length_take, sha512_length; done).
  by rewrite E in Hb.
Qed.

Lemma tai_loop_free n : forall ctr y a p, tai_loop n ctr y a = Ok p -> isTorsionFree p = true.
Proof.
  induction n as [|n IH]; intros ctr y a p; cbn [tai_loop]; [done|].
  destruct (fromBytes _); [intros [= <-]; apply clear_free | apply IH].
Qed.

Lemma valid_multiple p a : isTorsionFree p = true -> is0 p = false -> 1 <= a < ORDER ->
  isValidVrfPoint (mul p a) = true.
Proof.
  intros Hp H0 Ha. unfold isValidVrfPoint. rewrite mul_free, andb_true_r, negb_true_iff by done.
  apply not_true_iff_false. rewrite mul_zero by done. rewrite Z.mod_small by lia. lia.
Qed.
End facts.

(** ** Properties *)
Section properties.
Context {C : Ed25519} `{!Ed25519Laws C}.

Lemma prove_verify seed alpha pk o : vrfPublicKey seed = Ok pk ->
  prove seed alpha = Ok o ->
  (forall p, encodeToCurveTai pk alpha = Ok p -> is0 p = false) ->
  length (vo_proof o) = 80%nat /\ verify pk alpha (vo_proof o) = Some (vo_beta o).
Proof.
  unfold vrfPublicKey, prove. intros K P N.
  apply bind_ok in K as (s & S & [= <-]). rewrite S in P. cbn [mbind res_bind] in P.
  apply bind_ok in P as (Hp & EH & P). apply bind_ok in P as (G & EG & P).
  apply bind_ok in P as (kB & EB & P). apply bind_ok in P as (kH & EK & P).
  apply bind_ok in P as (beta & Eb & P). apply Ok_inj in P as <-. cbn [vo_proof vo_beta].
  apply multiply_inv in EG as [Hx ->], EB as [Hk ->], EK as [_ ->].
  specialize (N Hp EH). pose proof (tai_loop_free _ _ _ _ _ EH) as FH.
  destruct base_free as [BF B0].
  unfold deriveSecret in S. destruct (negb _) in S; [done|]. apply bind_ok in S as (Y & EY & [= <-]).
  cbn [sc_x sc_trunc sc_Ystr] in *. apply multiply_inv in EY as [_ ->].
  set (x := vmod (os2ipLE (clamp _))) in *. set (k := vmod (os2ipLE (sha512 _))) in *.
  set (c := challenge _) in *. set (sv := vmod (k + c * x)).
  assert (Hc : 0 <= c < 2 ^ 128) by apply challenge_bound.
  pose proof order_range as HO.
  assert (Hs : 0 <= sv < ORDER) by (apply Z.mod_pos_bound; lia).
  assert (L1 : length (toBytes (mul Hp x)) = 32%nat) by apply point_length.
  split; [by rewrite !length_app, L1, !length_i2osp|].
  unfold verify, verify_body. rewrite !length_app, L1, !length_i2osp. cbn [Nat.add Nat.eqb PROOF_LEN negb].
  rewrite point_roundtrip. cbn [mbind res_bind]. rewrite valid_multiple by done. cbn [negb].
  rewrite take_app_length' by done. rewrite point_roundtrip. cbn [mbind res_bind].
  rewrite valid_multiple by done. cbn [negb].
  assert (D1 : drop 32 (toBytes (mul Hp x) ++ i2ospLE c 16 ++ i2ospLE sv 32) =
    i2ospLE c 16 ++ i2ospLE sv 32) by (by apply drop_app_length').
  assert (D2 : drop 48 (toBytes (mul Hp x) ++ i2ospLE c 16 ++ i2ospLE sv 32) = i2ospLE sv 32).
  { change 48%nat with (32 + 16)%nat. rewrite <- drop_drop, D1. apply drop_app_length'.
    by rewrite length_i2osp. }
  rewrite D1, D2, take_app_length' by (by rewrite length_i2osp).
  rewrite firstn_all2 by (by rewrite length_i2osp).
  rewrite !os2ip_i2osp by (try apply Hc; lia).
  rewrite (proj2 (Z.leb_gt _ _)) by lia. rewrite EH. cbn [mbind res_bind].
  rewrite !multiplyUnsafe_ok by (try apply Z.mod_pos_bound; lia). cbn [mbind res_bind].
  unfold sv. rewrite !response_eq by done. fold c. rewrite Z.eqb_refl. cbn [negb].
  rewrite Eb. done.
Qed.

(** Completeness of the VRF: when the input does not hash to the identity,
    what [prove] returns is an 80-byte proof that [verify] accepts under the
    seed's public key, recovering the same output. *)
Theorem vrf_prove_verify seed alpha pk o : vrfPublicKey seed = Ok pk ->
  prove seed alpha = Ok o ->
  (forall p, encodeToCurveTai pk alpha = Ok p -> is0 p = false) ->
  length (vo_proof o) = 80%nat /\ verify pk alpha (vo_proof o) = Some (vo_beta o).
Proof. apply prove_verify. Qed.
End properties.

(** ** A concrete instance: the integers modulo 17 *)
Definition toy_order : Z := 17.
Definition toy_point : Type := { z : Z | (0 <=? z) && (z <? toy_order) = true }.
Program Definition toy (z : Z) : toy_point := z mod toy_order.
Next Obligation.
  intros z. assert (0 <= z mod toy_order < toy_order) as [H1 H2] by (by apply Z.mod_pos_bound).
  apply andb_true_iff. split; [by apply Z.leb_le | by apply Z.ltb_lt].
Defined.

Lemma toy_eq (p q : toy_point) : `p = `q -> p = q.
Proof.
  destruct p as [z Hz], q as [w Hw]. cbn. intros ->. f_equal. apply (Eqdep_dec.UIP_dec Bool.bool_dec).
Qed.
Lemma toy_range (p : toy_point) : 0 <= `p < 17.
Proof.
  destruct p as [z Hz]. cbn. unfold toy_order in Hz. apply andb_true_iff in Hz as [H1 H2].
  apply Z.leb_le in H1. apply Z.ltb_lt in H2. lia.
Qed.

#[export] Instance toy_curve : Ed25519 := {|
  point := toy_point; BASE := toy 1; ORDER := toy_order;
  fromBytes := fun b => match b with
    | x :: rest => if (Z_of_byte x <? toy_order) && (length rest =? 31)%nat
                   then Ok (toy (Z_of_byte x)) else Throw "bad point"
    | [] => Throw "bad point" end;
  toBytes := fun p => byte_of_Z (`p) :: repeat x00 31;
  multiply := fun p a => if (1 <=? a) && (a <? toy_order) then Ok (toy (`p * a)) else Throw "range";
  multiplyUnsafe := fun p a => if (0 <=? a) && (a <? toy_order) then Ok (toy (`p * a)) else Throw "range";
  add := fun p q => toy (`p + `q);
  clearCofactor := fun p => toy (`p * 8);
  is0 := fun p => `p =? 0;
  isTorsionFree := fun _ => true;
  sha512 := fun b => let s := fold_left (fun a x => (a * 31 + Z_of_byte x + 7) mod 65521) b 1 in
    byte_of_Z (s mod 17) :: map (fun i => byte_of_Z (s * Z.of_nat i)) (seq 1 63) |}.

#[export] Instance toy_laws : Ed25519Laws toy_curve.
Proof.
  refine {| mul := (fun (p : @point toy_curve) a => toy (`p * a)) : @point toy_curve -> Z -> _ |}.
  - done.
  - intros p a b. apply toy_eq. cbn. rewrite Z.mul_mod_idemp_l by done. f_equal. ring.
  - intros p a b. apply toy_eq. cbn. rewrite <- Z.add_mod by done. f_equal. ring.
  - intros p. apply toy_eq. cbn. rewrite Z.mul_1_r. apply Z.mod_small, toy_range.
  - intros p a _. apply toy_eq. cbn. by rewrite Z.mul_mod_idemp_r.
  - done.
  - intros p a _ Hp. cbn in Hp |- *. rewrite Z.eqb_eq. apply Z.eqb_neq in Hp.
    pose proof (toy_range p) as Hr. rewrite <- Z.mul_mod_idemp_r by done.
    assert (0 <= a mod toy_order < 17) as Ha by (by apply Z.mod_pos_bound).
    set (b := a mod toy_order) in *. clearbody b. split; [|intros ->; by rewrite Z.mul_0_r].
    intros E. destruct (Z.eq_dec b 0) as [|Hb]; [done|]. exfalso.
    assert (G : forall x y, (1 <= x < 17)%nat -> (1 <= y < 17)%nat ->
      negb (Z.of_nat x * Z.of_nat y mod 17 =? 0) = true).
    { intros x y Hx Hy.
      assert (T : forallb (fun x => forallb (fun y => negb (Z.of_nat x * Z.of_nat y mod 17 =? 0))
        (seq 1 16)) (seq 1 16) = true) by (by vm_compute).
      rewrite forallb_forall in T. specialize (T x ltac:(apply in_seq; lia)).
      rewrite forallb_forall in T. apply T. apply in_seq; lia. }
    specialize (G (Z.to_nat (`p)) (Z.to_nat b) ltac:(lia) ltac:(lia)).
    rewrite !Z2Nat.id in G by lia. apply negb_true_iff, Z.eqb_neq in G. by apply G.
  - done.
  - done.
  - intros p a Ha. cbn in *. assert ((1 <=? a) && (a <? toy_order) = true) as ->; [|done].
    destruct Ha. apply andb_true_iff. split; [by apply Z.leb_le | by apply Z.ltb_lt].
  - intros p a Ha. cbn in *. destruct ((1 <=? a) && (a <? toy_order)) eqn:E; [|done].
    apply andb_true_iff in E as [E1%Z.leb_le E2%Z.ltb_lt]. exfalso. apply Ha. by split.
  - intros p a Ha. cbn in *. assert ((0 <=? a) && (a <? toy_order) = true) as ->; [|done].
    destruct Ha. apply andb_true_iff. split; [by apply Z.leb_le | by apply Z.ltb_lt].
  - intros p. pose proof (toy_range p) as Hr. cbn [fromBytes toBytes toy_curve].
    rewrite Z_of_byte_of_Z, (Z.mod_small (`p)) by lia.
    assert (E : (`p <? toy_order) = true) by (apply Z.ltb_lt; exact (proj2 Hr)).
    rewrite E. cbn [andb repeat length Nat.eqb].
    f_equal. apply toy_eq. cbn. by apply Z.mod_small.
  - done.
  - done.
Defined.

Definition toy_seed : bytes := repeat x05 32.
Definition toy_pk : bytes := try_catch (vrfPublicKey toy_seed) (fun _ => []).
Definition toy_out : VrfOutput :=
  try_catch (prove toy_seed [x61]) (fun _ => {| vo_proof := []; vo_beta := [] |}).

Lemma vrf_prove_verify_witness : length (vo_proof toy_out) = 80%nat /\
  verify toy_pk [x61] (vo_proof toy_out) = Some (vo_beta toy_out).
Proof.
  apply (vrf_prove_verify toy_seed); [by vm_compute | by vm_compute |].
  assert (E : is_ok (encodeToCurveTai toy_pk [x61]) &&
    try_catch (p ← encodeToCurveTai toy_pk [x61]; Ok (negb (is0 p))) (fun _ => false) = true)
    by (by vm_compute).
  intros p Hp. rewrite Hp in E. by apply negb_true_iff in E.
Defined.
