(* ===== verification/Leader.v ===== *)
(** * ledger/: VRF leader eligibility and view changes

    src/ledger/src/leader.ts. *)
From S2P Require Import Prelude JsNum JsVal Crypto Concrete Sortition.
Open Scope Z_scope.

(** [1 <= finalityNum <= finalityDen], both integers *)
Definition valid_threshold (fnum fden : num) : bool :=
  isInteger fnum && isInteger fden && negb (num_ltb fnum (Int 1)) && negb (num_ltb fden (Int 1)) &&
  negb (num_ltb fden fnum).

(** [a.length > Math.max(set.validators.length * 4, 256)] *)
Definition max_items (set : ValidatorSet) : nat := Nat.max (length (validators set) * 4) 256.

(** What the counting loops keep: the validators counted, those whose
    signature was tried, and the stake counted. *)
Record tally := { counted : gset string; attempted : gset string; tallied : Z }.
Definition tally0 : tally := {| counted := ∅; attempted := ∅; tallied := 0 |}.

Section leader.
Context {L : Lib}.

Definition vrfAlpha (prev : string) (rnd : num) : res bytes :=
  encodeCanonical (VArr [VStr (tag "VRF"); VStr prev; VNum rnd]).

Definition vrfLeaderEligible (set : ValidatorSet) (prop : string) (beta : bytes) : res bool :=
  let total := totalStake set in
  if total <=? 0 then Ok false else
  z ← BigInt_hex (bytesToHex beta);
  let x := z mod total in
  match walk (js_sort by_pubkey (validators set)) 0 x with
  | Some p => Ok (bool_decide (p = prop))
  | None => Ok false
  end.

Definition vrfPriority (beta : bytes) : res Z := BigInt_hex (bytesToHex beta).

Definition viewChangeMessage (suite : string) (h : num) (prev : string) (rnd : num)
    (setId : string) : res bytes :=
  encodeCanonical (VArr [VStr (tag "TIMEOUT"); VStr suite; VNum h; VStr prev; VNum rnd; VStr setId]).

Definition safeVerifyTimeout (suite : string) (sg msg pub : bytes) : bool :=
  try_catch (suite_verify suite sg msg pub) (fun _ => false).

(** One vote of the loop. *)
Definition vote_step (set : ValidatorSet) (suite : string) (h : num) (prev : string)
    (certRound : num) (t : tally) (v : TimeoutVote) : res tally :=
  if negb (bool_decide (tv_suite v = suite)) then Ok t else
  if negb (num_eqb (tv_height v) h) || negb (bool_decide (tv_prevHash v = prev))
     || negb (num_eqb (tv_round v) certRound) then Ok t else
  if bool_decide (tv_validator v ∈ counted t) then Ok t else
  let s := default 0 (stakeIndex set !! tv_validator v) in
  if s <=? 0 then Ok t else
  if bool_decide (tv_validator v ∈ attempted t) then Ok t else
  let t1 := {| counted := counted t; attempted := {[tv_validator v]} ∪ attempted t;
               tallied := tallied t |} in
  setId ← consensusSetId set;
  msg ← viewChangeMessage (tv_suite v) h prev certRound setId;
  pub ← hexToBytes (tv_validator v);
  if negb (safeVerifyTimeout (tv_suite v) (tv_sig v) msg pub) then Ok t1 else
  Ok {| counted := {[tv_validator v]} ∪ counted t1; attempted := attempted t1;
        tallied := tallied t1 + s |}.

Fixpoint vote_loop (set : ValidatorSet) (suite : string) (h : num) (prev : string)
    (certRound : num) (t : tally) (vs : list TimeoutVote) : res tally :=
  match vs with
  | [] => Ok t
  | v :: vs' => t' ← vote_step set suite h prev certRound t v;
                vote_loop set suite h prev certRound t' vs'
  end.

Definition verifyViewChangeCert (set : ValidatorSet) (suite : string) (h : num) (prev : string)
    (certRound : num) (cert : option ViewChangeCert) (fnum fden : num) : res bool :=
  if negb (isSafeInteger certRound) || num_ltb certRound (Int 0) then Ok false else
  if negb (valid_threshold fnum fden) then Ok false else
  match cert with
  | None => Ok false
  | Some c =>
      if negb (num_eqb (vc_round c) certRound) then Ok false else
      if totalStake set <=? 0 then Ok false else
      if (max_items set <? length (votes c))%nat then Ok false else
      t ← vote_loop set suite h prev certRound tally0 (votes c);
      Ok (isWellFormedStakeSet set && (0 <? totalStakeBig set) &&
          (num_Z fnum * totalStakeBig set <=? tallied t * num_Z fden))
  end.
End leader.

(** ** View-change certificates *)
Section viewchange.
Context {L : Lib}.

(** A vote for the abandoned round, signed by a staked member of the set. *)
Record vote_valid (set : ValidatorSet) (suite : string) (h : num) (prev : string)
    (certRound : num) (v : TimeoutVote) : Prop := {
  vv_suite : tv_suite v = suite;
  vv_round : num_eqb (tv_round v) certRound = true;
  vv_position : num_eqb (tv_height v) h = true /\ tv_prevHash v = prev;
  vv_stake : 0 < stakeOf set (tv_validator v);
  vv_sig : exists setId msg pub, consensusSetId set = Ok setId /\
    viewChangeMessage suite h prev certRound setId = Ok msg /\
    hexToBytes (tv_validator v) = Ok pub /\ suite_verify suite (tv_sig v) msg pub = Ok true }.

Record votes_ok (set : ValidatorSet) (suite : string) (h : num) (prev : string)
    (certRound : num) (vs : list TimeoutVote) (t : tally) : Prop := {
  vo_stake : tallied t = stake_in set (counted t);
  vo_votes : forall k, k ∈ counted t -> exists v, v ∈ vs /\ tv_validator v = k /\
    vote_valid set suite h prev certRound v }.

Lemma vote_step_ok set suite h prev r all t v t' :
  NoDup (map pubkey (validators set)) -> v ∈ all -> votes_ok set suite h prev r all t ->
  vote_step set suite h prev r t v = Ok t' -> votes_ok set suite h prev r all t'.
Proof.
  intros Hn Hv [T1 T2] E. unfold vote_step in E.
  assert (T : votes_ok set suite h prev r all t) by done.
  destruct (bool_decide (tv_suite v = suite)) eqn:E1 in E; cbn [negb] in E; [|by apply Ok_inj in E as <-].
  destruct (_ || _) eqn:E2 in E; [by apply Ok_inj in E as <-|].
  destruct (bool_decide (tv_validator v ∈ counted t)) eqn:E4 in E; [by apply Ok_inj in E as <-|].
  rewrite stakeIndex_lookup in E. cbv zeta in E.
  destruct (Z.leb_spec (stakeOf set (tv_validator v)) 0); [by apply Ok_inj in E as <-|].
  destruct (bool_decide (tv_validator v ∈ attempted t)) in E; [by apply Ok_inj in E as <-|].
  apply bind_ok in E as (setId & S & E). apply bind_ok in E as (msg & M & E).
  apply bind_ok in E as (pub & P & E).
  destruct (safeVerifyTimeout _ _ _ _) eqn:V in E; cbn [negb] in E; apply Ok_inj in E as <-; [|by split].
  apply try_catch_true in V. apply bool_decide_eq_true in E1. apply bool_decide_eq_false in E4.
  rewrite !orb_false_iff, !negb_false_iff, bool_decide_eq_true in E2. destruct E2 as [[A B] D].
  split; cbn.
  - rewrite stake_in_insert, T1 by done. lia.
  - intros k [->%elem_of_singleton|Hk]%elem_of_union; [|by apply T2].
    exists v. split_and!; [done | done |]. rewrite E1 in M, V.
    by constructor; [done | done | done | done | exists setId, msg, pub].
Qed.

Lemma vote_loop_ok set suite h prev r all vs : forall t t',
  NoDup (map pubkey (validators set)) -> vs ⊆ all -> votes_ok set suite h prev r all t ->
  vote_loop set suite h prev r t vs = Ok t' -> votes_ok set suite h prev r all t'.
Proof.
  induction vs as [|v vs IH]; intros t t' Hn Hs T E; cbn [vote_loop] in E.
  - by apply Ok_inj in E as <-.
  - apply bind_ok in E as (t1 & S & E). eapply (IH t1); [done | set_solver | | done].
    eapply vote_step_ok; [done | | done | done]. set_solver.
Qed.

(** A view-change certificate that verifies carries a quorum: the set is
    well-formed, the certificate is for the abandoned round, and validators
    of the set holding at least the finality fraction of the total stake
    each signed a timeout for exactly this height, head and round, under the
    identity of this set. *)
Theorem viewchange_quorum set suite h prev r cert fnum fden :
  verifyViewChangeCert set suite h prev r cert fnum fden = Ok true ->
  isWellFormedStakeSet set = true /\ 0 < totalStake set /\
  exists c X, cert = Some c /\ num_eqb (vc_round c) r = true /\
    num_Z fnum * totalStake set <= stake_in set X * num_Z fden /\
    forall k, k ∈ X -> exists v, v ∈ votes c /\ tv_validator v = k /\
      vote_valid set suite h prev r v.
Proof.
  unfold verifyViewChangeCert. intros E. destruct (_ || _) in E; [done|].
  destruct (negb (valid_threshold fnum fden)) in E; [done|]. destruct cert as [c|]; [|done].
  destruct (num_eqb (vc_round c) r) eqn:R; cbn [negb] in E; [|done].
  destruct (Z.leb_spec (totalStake set) 0); [done|].
  destruct (max_items set <? length (votes c))%nat in E; [done|].
  apply bind_ok in E as (t & T & E). apply Ok_inj in E.
  rewrite !andb_true_iff, Z.leb_le in E. destruct E as [[W _] Q]. split; [done|]. split; [done|].
  apply isWellFormedStakeSet_iff in W as [_ Hn].
  assert (votes_ok set suite h prev r (votes c) t) as [T1 T2].
  { eapply vote_loop_ok; [done | done | | exact T]. split; cbn; [by rewrite stake_in_empty | set_solver]. }
  exists c, (counted t). unfold totalStakeBig in Q. rewrite T1 in Q. done.
Qed.
End viewchange.

(** ** Order independence *)
Section order.
Context {L : Lib}.

Definition reorder (set : ValidatorSet) (vs : list Validator) : ValidatorSet :=
  {| validators := vs; epoch := epoch set |}.

(** Nothing about a well-formed validator set depends on the order its
    members are listed in: its signed identity, the leader of every draw, VRF
    eligibility and the total stake are those of any permutation of it. *)
Theorem set_order_independent set vs : isWellFormedStakeSet set = true ->
  vs ≡ₚ validators set ->
  consensusSetId (reorder set vs) = consensusSetId set /\
  (forall prev rnd, selectLeader (reorder set vs) prev rnd = selectLeader set prev rnd) /\
  (forall p beta, vrfLeaderEligible (reorder set vs) p beta = vrfLeaderEligible set p beta) /\
  totalStake (reorder set vs) = totalStake set.
Proof.
  intros [_ Hn]%isWellFormedStakeSet_iff Hp.
  assert (Es : js_sort by_pubkey vs = js_sort by_pubkey (validators set))
    by (symmetry; by apply sort_by_pubkey_perm).
  assert (Et : totalStake (reorder set vs) = totalStake set) by (by apply sum_stake_perm).
  split_and!.
  - unfold consensusSetId. cbn [reorder validators epoch]. by rewrite Es.
  - intros prev rnd. unfold selectLeader. rewrite Et. cbn [reorder validators]. by rewrite Es.
  - intros p beta. unfold vrfLeaderEligible. rewrite Et. cbn [reorder validators]. by rewrite Es.
  - done.
Qed.

(** At most one validator is eligible for a given VRF output, and with
    positive stake and a non-empty output exactly one is. *)
Theorem vrf_eligible_unique set beta z : isWellFormedStakeSet set = true ->
  0 < totalStake set -> vrfPriority beta = Ok z ->
  exists p, p ∈ map pubkey (validators set) /\
    forall q, vrfLeaderEligible set q beta = Ok (bool_decide (p = q)).
Proof.
  intros _ Ht Hz. unfold vrfPriority in Hz. unfold vrfLeaderEligible.
  rewrite (proj2 (Z.leb_gt _ _)) by done. rewrite Hz. cbn [mbind res_bind].
  assert (Hx : 0 <= z mod totalStake set < totalStake set) by (apply Z.mod_pos_bound; lia).
  destruct (walk_total (js_sort by_pubkey (validators set)) 0 (z mod totalStake set)) as [p Hp].
  { by rewrite js_sort_perm. }
  rewrite Hp. exists p. split; [|done].
  destruct (walk_in _ _ _ _ Hp) as (v & Hv & <- & _). rewrite js_sort_perm in Hv.
  by apply (list_elem_of_fmap_2 pubkey).
Qed.
End order.

Definition shuffled_set : ValidatorSet := reorder sample_set (rev (validators sample_set)).

Lemma set_order_independent_witness :
  consensusSetId shuffled_set = consensusSetId sample_set /\
  is_ok (consensusSetId sample_set) = true.
Proof.
  split; [|by vm_compute].
  apply (set_order_independent sample_set (rev (validators sample_set))); [by vm_compute|].
  symmetry. apply Permutation_rev.
Defined.

Lemma vrf_eligible_unique_witness : exists p, p ∈ map pubkey (validators sample_set) /\
  forall q, vrfLeaderEligible sample_set q (repeat x05 64) = Ok (bool_decide (p = q)).
Proof.
  eapply vrf_eligible_unique; [by vm_compute | by vm_compute | vm_compute; reflexivity].
Defined.

(** A timeout vote of a sample validator for height 0, head "00", round 0. *)
Definition sample_vote (name : string) : TimeoutVote := {|
  tv_height := Int 0; tv_prevHash := "00"; tv_round := Int 0; tv_validator := kp_hex name;
  tv_suite := "PS-5";
  tv_sig := try_catch (setId ← consensusSetId sample_set;
                       msg ← viewChangeMessage "PS-5" (Int 0) "00" (Int 0) setId;
                       suite_sign "PS-5" msg (secretKey (kp name))) (fun _ => []) |}.
Definition sample_cert : ViewChangeCert := {|
  vc_round := Int 0; votes := [sample_vote "v1"; sample_vote "v2"; sample_vote "v1"] |}.

Lemma viewchange_quorum_witness :
  verifyViewChangeCert sample_set "PS-5" (Int 0) "00" (Int 0)
    (Some {| vc_round := Int 0; votes := [sample_vote "v2"; sample_vote "v2"] |})
    (Int 2) (Int 3) = Ok false /\
  isWellFormedStakeSet sample_set = true.
Proof.
  split; [by vm_compute|].
  refine (proj1 (viewchange_quorum sample_set "PS-5" (Int 0) "00" (Int 0) (Some sample_cert)
    (Int 2) (Int 3) _)). by vm_compute.
Defined.
