(* ===== verification/Chain.v ===== *)
(** * ledger/: blocks, finality, the light client

    src/ledger/src/chain.ts.  [verifyFinalized] is the composition of the parts
    below in the order of the source; it may throw only where an encoder or a
    hex decoder outside its [try] blocks throws.  The texts of the reasons print
    integers in decimal. *)
From stdpp Require Import pretty.
From S2P Require Import Prelude JsNum JsVal Crypto Concrete Sortition Vrf Leader.
Open Scope string_scope.
Open Scope Z_scope.
Open Scope list_scope.

(** [GENESIS_PREV = '00'.repeat(32)] *)
Definition GENESIS_PREV : string := to_hex (repeat x00 32).

Record FinalizedBlock := {
  fb_block : Block;
  fb_hash : string;
  fb_attestations : list Attestation;
  fb_attestingStake : Z;
  fb_finalized : bool }.

Record LightClientVerdict := {
  lv_ok : bool;
  finalized : bool;
  attestingStake : Z;
  lv_totalStake : Z;
  lv_reasons : list string }.

Record VerifyOpts := { expectedHeight : option num; expectedSuite : option string }.

(** [if (b) reasons.push(r)] *)
Definition when (b : bool) (r : string) : list string := if b then [r] else [].

Section chain.
Context {L : Lib} {C : Ed25519}.

Definition headerBytes (h : BlockHeader) : res bytes :=
  encodeCanonical (VArr [VStr (tag "BLOCK_HASH"); VNum (height h); VStr (prevHash h);
    VNum (round h); VStr (proposer h); VStr (payloadRoot h); VNum (timestamp h);
    VStr (default "" (vrfOutput h))]).

Definition blockHash (h : BlockHeader) : res string :=
  b ← headerBytes h; Ok (bytesToHex (sha3_256 b)).

Definition blockSignMessage (suite hash : string) : res bytes :=
  encodeCanonical (VArr [VStr (tag "BLOCK_SIG"); VStr suite; VStr hash]).

Definition attestMessage (suite : string) (h : num) (hash setId : string) : res bytes :=
  encodeCanonical (VArr [VStr (tag "ATTESTATION"); VStr suite; VNum h; VStr hash; VStr setId]).

Definition safeVerify (suite : string) (sg msg pub : bytes) : bool :=
  try_catch (suite_verify suite sg msg pub) (fun _ => false).

Definition verifyAttestationSig (att : Attestation) (set : ValidatorSet) : res bool :=
  setId ← consensusSetId set;
  msg ← attestMessage (att_suite att) (att_height att) (att_blockHash att) setId;
  Ok (safeVerify (att_suite att) (att_sig att) msg (hexToBytesLocal (att_validator att))).

(** *** The parts of [verifyFinalized] *)
(** Position, suite and round. *)
Definition position_reasons (b : Block) (expectedPrev : string) (opts : VerifyOpts)
  : list string :=
  when (match expectedSuite opts with
        | Some s => negb (bool_decide (block_suite b = s)) | None => false end)
    "block suite is not the ledger suite" ++
  when (match expectedHeight opts with
        | Some h => negb (num_eqb (height (header b)) h) | None => false end)
    "block height does not match the chain position" ++
  when (negb (bool_decide (prevHash (header b) = expectedPrev)))
    "prevHash does not extend the expected head" ++
  when (negb (isSafeInteger (round (header b))) || num_ltb (round (header b)) (Int 0))
    "block round must be a non-negative integer".

Definition is_vrf_set (set : ValidatorSet) : bool :=
  (0 <? length (validators set))%nat &&
  forallb (fun v => match vrfPubkey v with Some _ => true | None => false end) (validators set).

(** The VRF branch, for a block that carries a proof. *)
Definition vrf_reasons (b : Block) (proof : bytes) (set : ValidatorSet) (expectedPrev : string)
    (fnum fden : num) : res (list string) :=
  r1 ← (if num_ltb (Int 0) (round (header b)) then
          ok ← verifyViewChangeCert set (block_suite b) (height (header b)) expectedPrev
                 (num_sub (round (header b)) (Int 1)) (viewChangeCert b) fnum fden;
          Ok (when (negb ok) "round > 0 without a valid 2/3 view-change certificate")
        else Ok []);
  let proposerV := find (fun v => bool_decide (pubkey v = proposer (header b))) (validators set) in
  r2 ← match proposerV ≫= vrfPubkey return res (list string) with
       | Some vk =>
           alpha ← vrfAlpha expectedPrev (round (header b));
           match verify (hexToBytesLocal vk) alpha proof return res (list string) with
           | None => Ok ["VRF proof is invalid"]
           | Some beta =>
               if negb (bool_decide (bytesToHex beta = to_lower (default "" (vrfOutput (header b)))))
               then Ok ["vrfOutput does not match the VRF proof"]
               else e ← vrfLeaderEligible set (proposer (header b)) beta;
                    Ok (when (negb e) "proposer is not VRF-eligible for this round")
           end
       | None => Ok ["proposer is not a validator with a VRF key"]
       end;
  Ok (r1 ++ r2).

Definition leader_reasons (b : Block) (set : ValidatorSet) (expectedPrev : string)
    (fnum fden : num) : res (list string) :=
  if totalStake set <=? 0 then Ok ["validator set has no stake"] else
  if is_vrf_set set then
    match vrfProof b with
    | None => Ok ["legacy block rejected: this validator set is VRF-mode (no downgrade)"]
    | Some proof => vrf_reasons b proof set expectedPrev fnum fden
    end
  else
    match vrfProof b with
    | Some _ => Ok ["VRF block rejected: this validator set has no VRF keys"]
    | None =>
        leader ← selectLeader set expectedPrev (round (header b));
        Ok (when (negb (num_eqb (round (header b)) (canonicalRound (height (header b)))))
              "non-canonical round (grind-resistance, LEDGER-002)" ++
            when (negb (bool_decide (leader = proposer (header b))))
              "proposer is not the sortition leader")
    end.

(** One attestation of the loop. *)
Definition att_step (b : Block) (h setId : string) (set : ValidatorSet) (opts : VerifyOpts)
    (t : tally) (a : Attestation) : res tally :=
  if negb (bool_decide (att_blockHash a = h)) then Ok t else
  if negb (num_eqb (att_height a) (height (header b))) then Ok t else
  if negb (bool_decide (att_suite a = block_suite b)) then Ok t else
  if bool_decide (att_validator a ∈ counted t) then Ok t else
  if match expectedSuite opts with
     | Some s => negb (bool_decide (att_suite a = s)) | None => false end then Ok t else
  let s := default 0 (stakeIndex set !! att_validator a) in
  if s <=? 0 then Ok t else
  if bool_decide (att_validator a ∈ attempted t) then Ok t else
  let t1 := {| counted := counted t; attempted := {[att_validator a]} ∪ attempted t;
               tallied := tallied t |} in
  msg ← attestMessage (att_suite a) (height (header b)) h setId;
  if negb (safeVerify (att_suite a) (att_sig a) msg (hexToBytesLocal (att_validator a)))
  then Ok t1 else
  Ok {| counted := {[att_validator a]} ∪ counted t1; attempted := attempted t1;
        tallied := tallied t1 + s |}.

Fixpoint att_loop (b : Block) (h setId : string) (set : ValidatorSet) (opts : VerifyOpts)
    (t : tally) (atts : list Attestation) : res tally :=
  match atts with
  | [] => Ok t
  | a :: atts' => t' ← att_step b h setId set opts t a; att_loop b h setId set opts t' atts'
  end.

(** The threshold and the verdict. *)
Definition verdict (set : ValidatorSet) (fnum fden : num) (stake total : Z)
    (reasons0 : list string) : LightClientVerdict :=
  let stakeMet := valid_threshold fnum fden && isWellFormedStakeSet set &&
    (0 <? totalStakeBig set) && (num_Z fnum * totalStakeBig set <=? stake * num_Z fden) in
  let reasons := reasons0 ++
    (if negb (valid_threshold fnum fden)
     then ["finality threshold is degenerate (require 1 <= finalityNum <= finalityDen)"]
     else if negb (isWellFormedStakeSet set)
     then ["validator set is malformed (negative stake or duplicate pubkeys)"]
     else when (negb stakeMet)
       ("attesting stake " +:+ pretty stake +:+ "/" +:+ pretty total +:+ " below finality " +:+
        pretty (num_Z fnum) +:+ "/" +:+ pretty (num_Z fden))) in
  let ok := (length reasons =? 0)%nat in
  {| lv_ok := ok; finalized := stakeMet && ok; attestingStake := stake; lv_totalStake := total;
     lv_reasons := reasons |}.

Definition verifyFinalized (b : Block) (atts : list Attestation) (set : ValidatorSet)
    (expectedPrev : string) (fnum fden : num) (opts : VerifyOpts) : res LightClientVerdict :=
  let total := totalStake set in
  h ← blockHash (header b);
  if (max_items set <? length atts)%nat then
    Ok {| lv_ok := false; finalized := false; attestingStake := 0; lv_totalStake := total;
          lv_reasons := ["attestation count " +:+ pretty (length atts) +:+ " exceeds bound " +:+
                         pretty (max_items set)] |} else
  setId ← consensusSetId set;
  let r1 := position_reasons b expectedPrev opts in
  r2 ← leader_reasons b set expectedPrev fnum fden;
  pmsg ← blockSignMessage (block_suite b) h;
  let r3 := when (negb (safeVerify (block_suite b) (proposerSig b) pmsg
                          (hexToBytesLocal (proposer (header b)))))
              "proposer signature is invalid" in
  t ← att_loop b h setId set opts tally0 atts;
  Ok (verdict set fnum fden (tallied t) total (r1 ++ r2 ++ r3)).

(** *** The ledger *)
Record Ledger := {
  chain : list FinalizedBlock;
  l_set : ValidatorSet;
  l_suite : string;
  finalityNum : num;
  finalityDen : num }.

Definition new_ledger (set : ValidatorSet) (suite : string) (fnum fden : num) : Ledger :=
  {| chain := []; l_set := set; l_suite := suite; finalityNum := fnum; finalityDen := fden |}.

Definition ledger_height (l : Ledger) : num := Int (Z.of_nat (length (chain l))).
Definition headHash (l : Ledger) : string :=
  match last (chain l) with Some fb => fb_hash fb | None => GENESIS_PREV end.

(** Signing a header under the ledger's suite. *)
Definition sign_header (l : Ledger) (hd : BlockHeader) (sk : bytes) : res bytes :=
  signer ← signerFor (l_suite l);
  h ← blockHash hd;
  msg ← blockSignMessage (l_suite l) h;
  scheme_sign signer msg sk None.

Definition propose (l : Ledger) (payload : string) (rnd ts : num) (prop : KeyPair) : res Block :=
  let proposerHex := bytesToHex (publicKey prop) in
  leader ← selectLeader (l_set l) (headHash l) rnd;
  if negb (bool_decide (leader = proposerHex))
  then Throw "proposer is not the sortition leader for this round" else
  let hd := {| height := ledger_height l; prevHash := headHash l; round := rnd;
    proposer := proposerHex; payloadRoot := payload; timestamp := ts; vrfOutput := None |} in
  sg ← sign_header l hd (secretKey prop);
  Ok {| header := hd; proposerSig := sg; block_suite := l_suite l; vrfProof := None;
        viewChangeCert := None |}.

Definition proposeVrf (l : Ledger) (payload : string) (rnd ts : num) (prop : KeyPair)
    (vrfSecret : bytes) (cert : option ViewChangeCert) : res Block :=
  let proposerHex := bytesToHex (publicKey prop) in
  let prev := headHash l in
  if negb (isSafeInteger rnd) || num_ltb rnd (Int 0)
  then Throw "round must be a non-negative integer" else
  alpha ← vrfAlpha prev rnd;
  o ← prove vrfSecret alpha;
  e ← vrfLeaderEligible (l_set l) proposerHex (vo_beta o);
  if negb e then Throw "proposer is not VRF-eligible for this round" else
  ok ← (if num_ltb (Int 0) rnd
        then verifyViewChangeCert (l_set l) (l_suite l) (ledger_height l) prev
               (num_sub rnd (Int 1)) cert (finalityNum l) (finalityDen l)
        else Ok true);
  if negb ok then Throw "round > 0 requires a valid 2/3 view-change certificate" else
  let hd := {| height := ledger_height l; prevHash := prev; round := rnd;
    proposer := proposerHex; payloadRoot := payload; timestamp := ts;
    vrfOutput := Some (bytesToHex (vo_beta o)) |} in
  sg ← sign_header l hd (secretKey prop);
  Ok {| header := hd; proposerSig := sg; block_suite := l_suite l;
        vrfProof := Some (vo_proof o); viewChangeCert := cert |}.

Definition attest (l : Ledger) (b : Block) (val : KeyPair) : res Attestation :=
  h ← blockHash (header b);
  signer ← signerFor (l_suite l);
  setId ← consensusSetId (l_set l);
  msg ← attestMessage (l_suite l) (height (header b)) h setId;
  sg ← scheme_sign signer msg (secretKey val) None;
  Ok {| att_blockHash := h; att_height := height (header b);
        att_validator := bytesToHex (publicKey val); att_suite := l_suite l; att_sig := sg |}.

Definition appraise (l : Ledger) (b : Block) (atts : list Attestation) (expectedPrev : string)
  : res LightClientVerdict :=
  verifyFinalized b atts (l_set l) expectedPrev (finalityNum l) (finalityDen l)
    {| expectedHeight := Some (ledger_height l); expectedSuite := Some (l_suite l) |}.

Definition submit (l : Ledger) (b : Block) (atts : list Attestation)
  : res (Ledger * FinalizedBlock) :=
  v ← appraise l b atts (headHash l);
  if negb (lv_ok v) then Throw (String.concat "; " (lv_reasons v)) else
  h ← blockHash (header b);
  let fb := {| fb_block := b; fb_hash := h; fb_attestations := atts;
               fb_attestingStake := attestingStake v; fb_finalized := finalized v |} in
  if negb (fb_finalized fb) then Throw "block did not reach stake finality" else
  Ok ({| chain := chain l ++ [fb]; l_set := l_set l; l_suite := l_suite l;
         finalityNum := finalityNum l; finalityDen := finalityDen l |}, fb).
End chain.

(** ** What the counting loop counts *)
Section counting.
Context {L : Lib}.

Record att_valid (b : Block) (h setId : string) (set : ValidatorSet) (a : Attestation) : Prop := {
  av_hash : att_blockHash a = h;
  av_height : num_eqb (att_height a) (height (header b)) = true;
  av_suite : att_suite a = block_suite b;
  av_stake : 0 < stakeOf set (att_validator a);
  av_sig : exists msg, attestMessage (att_suite a) (height (header b)) h setId = Ok msg /\
    safeVerify (att_suite a) (att_sig a) msg (hexToBytesLocal (att_validator a)) = true }.

Record tally_ok (b : Block) (h setId : string) (set : ValidatorSet) (atts : list Attestation)
    (t : tally) : Prop := {
  to_stake : tallied t = stake_in set (counted t);
  to_atts : forall v, v ∈ counted t -> exists a, a ∈ atts /\ att_validator a = v /\
    att_valid b h setId set a }.

Lemma att_step_ok b h setId set opts all t a t' :
  NoDup (map pubkey (validators set)) -> a ∈ all -> tally_ok b h setId set all t ->
  att_step b h setId set opts t a = Ok t' -> tally_ok b h setId set all t'.
Proof.
  intros Hn Ha [T1 T2] E. unfold att_step in E.
  assert (T : tally_ok b h setId set all t) by done.
  destruct (bool_decide (att_blockHash a = h)) eqn:E1 in E; cbn [negb] in E; [|by apply Ok_inj in E as <-].
  destruct (num_eqb _ _) eqn:E2 in E; cbn [negb] in E; [|by apply Ok_inj in E as <-].
  destruct (bool_decide (att_suite a = block_suite b)) eqn:E3 in E; cbn [negb] in E;
    [|by apply Ok_inj in E as <-].
  destruct (bool_decide (att_validator a ∈ counted t)) eqn:E4 in E; [by apply Ok_inj in E as <-|].
  destruct (match expectedSuite opts with Some _ => _ | None => _ end) in E; [by apply Ok_inj in E as <-|].
  rewrite stakeIndex_lookup in E. cbv zeta in E.
  destruct (Z.leb_spec (stakeOf set (att_validator a)) 0); [by apply Ok_inj in E as <-|].
  destruct (bool_decide (att_validator a ∈ attempted t)) in E; [by apply Ok_inj in E as <-|].
  apply bind_ok in E as (msg & M & E).
  destruct (safeVerify _ _ _ _) eqn:V in E; cbn [negb] in E; apply Ok_inj in E as <-; [|by split].
  apply bool_decide_eq_true in E1, E3. apply bool_decide_eq_false in E4. split; cbn.
  - rewrite stake_in_insert, T1 by done. lia.
  - intros v [->%elem_of_singleton|Hv]%elem_of_union; [|by apply T2].
    exists a. split_and!; [done | done |]. constructor; eauto.
Qed.

Lemma att_loop_ok b h setId set opts all atts : forall t t',
  NoDup (map pubkey (validators set)) -> atts ⊆ all -> tally_ok b h setId set all t ->
  att_loop b h setId set opts t atts = Ok t' -> tally_ok b h setId set all t'.
Proof.
  induction atts as [|a atts IH]; intros t t' Hn Hs T E; cbn [att_loop] in E.
  - by apply Ok_inj in E as <-.
  - apply bind_ok in E as (t1 & S & E). eapply (IH t1); [done | set_solver | | done].
    eapply att_step_ok; [done | | done | done]. set_solver.
Qed.
End counting.

(** ** Finality *)
Section finality.
Context {L : Lib} {C : Ed25519}.

(** What [finalized] promises: the quorum and every authority check. *)
Record Finalized (b : Block) (atts : list Attestation) (set : ValidatorSet)
    (expectedPrev : string) (fnum fden : num) (opts : VerifyOpts) (h : string) (setId : string)
    (X : gset string) : Prop := {
  fi_hash : blockHash (header b) = Ok h;
  fi_setId : consensusSetId set = Ok setId;
  fi_set : isWellFormedStakeSet set = true;
  fi_threshold : valid_threshold fnum fden = true;
  fi_total : 0 < totalStake set;
  fi_quorum : num_Z fnum * totalStake set <= stake_in set X * num_Z fden;
  fi_atts : forall v, v ∈ X -> exists a, a ∈ atts /\ att_validator a = v /\
    att_valid b h setId set a;
  fi_position : position_reasons b expectedPrev opts = [];
  fi_leader : leader_reasons b set expectedPrev fnum fden = Ok [];
  fi_proposer : exists msg, blockSignMessage (block_suite b) h = Ok msg /\
    safeVerify (block_suite b) (proposerSig b) msg (hexToBytesLocal (proposer (header b))) = true }.

Lemma verifyFinalized_finalized b atts set prev fnum fden opts v :
  verifyFinalized b atts set prev fnum fden opts = Ok v -> finalized v = true ->
  lv_ok v = true /\ exists h setId X, Finalized b atts set prev fnum fden opts h setId X /\
    attestingStake v = stake_in set X.
Proof.
  unfold verifyFinalized. intros E F. apply bind_ok in E as (h & Eh & E).
  destruct (max_items set <? length atts)%nat; [by apply Ok_inj in E as <-|].
  apply bind_ok in E as (setId & Es & E). apply bind_ok in E as (r2 & El & E).
  apply bind_ok in E as (pm & Ep & E). apply bind_ok in E as (t & Et & E).
  apply Ok_inj in E as <-. unfold verdict in F |- *. cbn [finalized lv_ok attestingStake] in *.
  apply andb_true_iff in F as [Hm F]. rewrite F. split; [done|].
  rewrite !andb_true_iff, Z.ltb_lt, Z.leb_le in Hm. destruct Hm as [[[V W] T0] Q].
  rewrite V, W in F. cbn [negb] in F. apply Nat.eqb_eq in F. rewrite !length_app in F.
  apply isWellFormedStakeSet_iff in W as W'. destruct W' as [_ Hn].
  assert (tally_ok b h setId set atts t) as [T1 T2].
  { eapply att_loop_ok; [done | done | | exact Et]. split; cbn; [by rewrite stake_in_empty | set_solver]. }
  exists h, setId, (counted t). split; [|done].
  assert (N1 : position_reasons b prev opts = []) by (apply length_zero_iff_nil; lia).
  assert (N2 : r2 = []) by (apply length_zero_iff_nil; lia). subst r2.
  constructor; try done; unfold totalStakeBig in *.
  - by rewrite <- T1.
  - exists pm. split; [done|]. destruct (safeVerify _ _ _ _); [done|]. cbn in F. lia.
Qed.
End finality.
