(* ===== verification/Finality.v ===== *)
(** * ledger/: what finality means

    The theorems of src/ledger/src/chain.ts (the definitions are in Chain.v):
    soundness of the light client, the honest run that finalizes, the chain
    the ledger builds. *)
From S2P Require Import Prelude JsNum JsVal Crypto Concrete Sortition Vrf Leader Chain.
Open Scope string_scope.
Open Scope Z_scope.
Open Scope list_scope.

Lemma when_nil b r : when b r = [] <-> b = false.
Proof. by destruct b. Qed.

Lemma valid_threshold_Z fnum fden : valid_threshold fnum fden = true ->
  1 <= num_Z fnum <= num_Z fden.
Proof.
  unfold valid_threshold. rewrite !andb_true_iff, !negb_true_iff. intros [[[[I1 I2] A] B] D].
  rewrite num_ltb_Z, Z.ltb_ge in A, B, D by done. cbn in A, B. unfold pow2 in *. cbn in *.
  rewrite Z.div_1_r in *. lia.
Qed.

Section authority.
Context {L : Lib} {C : Ed25519}.

(** The right to propose, in a set whose validators all have VRF keys. *)
Record VrfAuthority (b : Block) (set : ValidatorSet) (prev : string) (fnum fden : num) : Prop := {
  va_proof : exists proof w vk alpha beta, vrfProof b = Some proof /\
    w ∈ validators set /\ pubkey w = proposer (header b) /\ vrfPubkey w = Some vk /\
    vrfAlpha prev (round (header b)) = Ok alpha /\
    verify (hexToBytesLocal vk) alpha proof = Some beta /\
    vrfLeaderEligible set (proposer (header b)) beta = Ok true;
  va_cert : num_ltb (Int 0) (round (header b)) = true ->
    verifyViewChangeCert set (block_suite b) (height (header b)) prev
      (num_sub (round (header b)) (Int 1)) (viewChangeCert b) fnum fden = Ok true }.

(** The right to propose in a set without. *)
Record LegacyAuthority (b : Block) (set : ValidatorSet) (prev : string) : Prop := {
  la_no_vrf : vrfProof b = None;
  la_round : num_eqb (round (header b)) (canonicalRound (height (header b))) = true;
  la_leader : selectLeader set prev (round (header b)) = Ok (proposer (header b)) }.

Lemma leader_reasons_nil b set prev fnum fden :
  leader_reasons b set prev fnum fden = Ok [] ->
  if is_vrf_set set then VrfAuthority b set prev fnum fden else LegacyAuthority b set prev.
Proof.
  unfold leader_reasons. destruct (_ <=? _); [done|]. destruct (is_vrf_set set).
  - destruct (vrfProof b) as [proof|] eqn:EP; [|done]. unfold vrf_reasons. intros E.
    apply bind_ok in E as (r1 & E1 & E). apply bind_ok in E as (r2 & E2 & E).
    apply Ok_inj, app_eq_nil in E as [-> ->].
    destruct (find _ (validators set)) as [w|] eqn:F; [|done]. cbn [mbind option_bind] in E2.
    apply find_some in F as [F1 F2%bool_decide_eq_true].
    destruct (vrfPubkey w) as [vk|] eqn:K; [|done].
    apply bind_ok in E2 as (alpha & A & E2).
    destruct (verify _ _ _) as [beta|] eqn:V; [|done].
    destruct (negb _) in E2; [done|]. apply bind_ok in E2 as (e & El & E2).
    apply Ok_inj in E2. apply when_nil, negb_false_iff in E2 as ->. split.
    + by exists proof, w, vk, alpha, beta.
    + intros R. rewrite R in E1. apply bind_ok in E1 as (ok & Ev & E1).
      apply Ok_inj, when_nil, negb_false_iff in E1 as ->. done.
  - destruct (vrfProof b) eqn:EP; [done|]. intros E. apply bind_ok in E as (l & El & E).
    apply Ok_inj, app_eq_nil in E as [E1 E2].
    apply when_nil, negb_false_iff in E1, E2. apply bool_decide_eq_true in E2 as ->. done.
Qed.

Lemma position_reasons_nil b prev opts : position_reasons b prev opts = [] ->
  (forall s, expectedSuite opts = Some s -> block_suite b = s) /\
  (forall n, expectedHeight opts = Some n -> num_eqb (height (header b)) n = true) /\
  prevHash (header b) = prev /\
  isSafeInteger (round (header b)) = true /\ num_ltb (round (header b)) (Int 0) = false.
Proof.
  unfold position_reasons. intros [E1 [E2 [E3 E4]%app_eq_nil]%app_eq_nil]%app_eq_nil.
  apply when_nil in E1, E2, E3, E4. apply orb_false_iff in E4 as [E4 E5].
  apply negb_false_iff in E3, E4. apply bool_decide_eq_true in E3. split_and!; try done.
  - intros s Hs. rewrite Hs in E1. by apply negb_false_iff, bool_decide_eq_true in E1.
  - intros n Hn. rewrite Hn in E2. by apply negb_false_iff in E2.
Qed.

Lemma verdict_finalized set fnum fden stake total rs :
  finalized (verdict set fnum fden stake total rs) = lv_ok (verdict set fnum fden stake total rs).
Proof.
  unfold verdict. cbn [finalized lv_ok].
  destruct (valid_threshold fnum fden), (isWellFormedStakeSet set); cbn [negb andb];
    rewrite length_app; try (destruct (length rs); done).
  destruct ((0 <? _) && _); [done|]. cbn. by rewrite Nat.add_comm.
Qed.

(** C2: What the light client's verdict means.  It reports [ok] exactly when it
    reports [finalized]; and then the set is well-formed, the threshold is a
    fraction in (0, 1], the block stands at the expected position, validators
    of the set holding at least the finality fraction of all stake each
    signed an attestation of this very block under the identity of this set,
    the proposer signed it, and the proposer had the right to: by a VRF proof
    (and a view-change certificate after round 0) in a VRF set, as the
    sortition leader otherwise. *)
Theorem finality_sound b atts set prev fnum fden opts v :
  verifyFinalized b atts set prev fnum fden opts = Ok v ->
  finalized v = lv_ok v /\
  (lv_ok v = true ->
   isWellFormedStakeSet set = true /\ 1 <= num_Z fnum <= num_Z fden /\
   (forall s, expectedSuite opts = Some s -> block_suite b = s) /\
   (forall n, expectedHeight opts = Some n -> num_eqb (height (header b)) n = true) /\
   prevHash (header b) = prev /\
   (if is_vrf_set set then VrfAuthority b set prev fnum fden else LegacyAuthority b set prev) /\
   exists h setId X, blockHash (header b) = Ok h /\ consensusSetId set = Ok setId /\
     attestingStake v = stake_in set X /\
     num_Z fnum * totalStake set <= stake_in set X * num_Z fden /\
     (forall k, k ∈ X -> exists a, a ∈ atts /\ att_validator a = k /\
        att_valid b h setId set a) /\
     exists msg, blockSignMessage (block_suite b) h = Ok msg /\
       safeVerify (block_suite b) (proposerSig b) msg
         (hexToBytesLocal (proposer (header b))) = true).
Proof.
  intros E. assert (F : finalized v = lv_ok v).
  { unfold verifyFinalized in E. apply bind_ok in E as (h & _ & E).
    destruct (_ <? _)%nat in E; [by apply Ok_inj in E as <-|].
    do 4 (apply bind_ok in E as (? & _ & E)). apply Ok_inj in E as <-. apply verdict_finalized. }
  split; [done|]. rewrite <- F. intros G.
  destruct (verifyFinalized_finalized _ _ _ _ _ _ _ _ E G) as (_ & h & setId & X & [] & S).
  destruct (position_reasons_nil _ _ _ fi_position) as (P1 & P2 & P3 & _).
  split; [done|]. split; [by apply valid_threshold_Z|]. do 3 (split; [done|]).
  split; [by apply leader_reasons_nil | by exists h, setId, X].
Qed.
End authority.

(** ** The honest run *)
Section honest.
Context {L : Lib} {C : Ed25519} `{!HexLaws L} `{!SigLaws L kpr}.

(** An attestation that passes every test of the loop, whoever made it. *)
Record good_att (b : Block) (h setId : string) (opts : VerifyOpts) (a : Attestation) : Prop := {
  ga_hash : att_blockHash a = h;
  ga_height : num_eqb (att_height a) (height (header b)) = true;
  ga_suite : att_suite a = block_suite b;
  ga_opts : forall s, expectedSuite opts = Some s -> att_suite a = s;
  ga_sig : exists msg, attestMessage (att_suite a) (height (header b)) h setId = Ok msg /\
    safeVerify (att_suite a) (att_sig a) msg (hexToBytesLocal (att_validator a)) = true }.

Lemma att_step_good b h setId set opts t a : good_att b h setId opts a ->
  attempted t ⊆ counted t ->
  exists t', att_step b h setId set opts t a = Ok t' /\ attempted t' ⊆ counted t' /\
    counted t ⊆ counted t' /\ (0 < stakeOf set (att_validator a) -> att_validator a ∈ counted t').
Proof.
  intros [H1 H2 H3 H4 (msg & M & V)] Ht. unfold att_step.
  rewrite bool_decide_true by done. rewrite H2. cbn [negb].
  rewrite (bool_decide_true (att_suite a = _)) by done. cbn [negb].
  destruct (bool_decide (att_validator a ∈ counted t)) eqn:E.
  { apply bool_decide_eq_true in E. by exists t. }
  apply bool_decide_eq_false in E.
  assert ((match expectedSuite opts with
     | Some s => negb (bool_decide (att_suite a = s)) | None => false end) = false) as ->.
  { destruct (expectedSuite opts) as [s|]; [|done]. by rewrite bool_decide_true by (by apply H4). }
  rewrite stakeIndex_lookup. cbv zeta. destruct (Z.leb_spec (stakeOf set (att_validator a)) 0).
  { exists t. split_and!; [done | done | done | lia]. }
  rewrite bool_decide_false by set_solver. rewrite M. cbn [mbind res_bind]. rewrite V. cbn [negb].
  eexists. split; [done|]. cbn. set_solver.
Qed.

Lemma att_loop_good b h setId set opts atts : forall t,
  Forall (good_att b h setId opts) atts -> attempted t ⊆ counted t ->
  exists t', att_loop b h setId set opts t atts = Ok t' /\ counted t ⊆ counted t' /\
    forall a, a ∈ atts -> 0 < stakeOf set (att_validator a) -> att_validator a ∈ counted t'.
Proof.
  induction atts as [|a atts IH]; intros t Hf Ht; cbn [att_loop].
  - exists t. split_and!; [done | done |]. by intros a ?%elem_of_nil.
  - inversion_clear Hf as [|? ? Ha Hf']. destruct (att_step_good b h setId set opts t a) as
      (t1 & -> & T1 & T2 & T3); [done | done |]. cbn [mbind res_bind].
    destruct (IH t1) as (t' & -> & S1 & S2); [done | done |]. exists t'.
    split_and!; [done | set_solver |]. intros c [->|Hc]%elem_of_cons ?; [|by apply S2].
    by apply S1, T3.
Qed.

Lemma safeVerify_signed suite msg sk pk sg : suite ∈ activeSuiteIds -> kpr pk sk ->
  suite_sign suite msg sk = Ok sg -> safeVerify suite sg msg (hexToBytesLocal (bytesToHex pk)) = true.
Proof.
  intros Hs Hk E. unfold safeVerify. apply try_catch_true.
  rewrite hex_text, hexToBytesLocal_to_hex. by eapply suite_sign_verify.
Qed.

Lemma attest_good l b k a : l_suite l ∈ activeSuiteIds -> kpr (publicKey k) (secretKey k) ->
  block_suite b = l_suite l -> isInteger (height (header b)) = true ->
  attest l b k = Ok a ->
  att_validator a = bytesToHex (publicKey k) /\
  exists h setId, blockHash (header b) = Ok h /\ consensusSetId (l_set l) = Ok setId /\
    forall n, good_att b h setId
      {| expectedHeight := n; expectedSuite := Some (l_suite l) |} a.
Proof.
  intros Hs Hk Hb Hi E. unfold attest in E. apply bind_ok in E as (h & Eh & E).
  apply bind_ok in E as (sg & Eg & E). apply bind_ok in E as (setId & Es & E).
  apply bind_ok in E as (msg & Em & E). apply bind_ok in E as (s & Esg & E).
  apply Ok_inj in E as <-. cbn [att_validator]. split; [done|]. exists h, setId.
  split; [done|]. split; [done|]. intros n. constructor; cbn; try done.
  - rewrite num_eqb_Z by done. apply Z.eqb_refl.
  - by intros s' [= <-].
  - exists msg. split; [done|]. eapply safeVerify_signed; [done | exact Hk |].
    unfold suite_sign. rewrite Eg. exact Esg.
Qed.

(** A block whose proposer is in order, attested by a quorum, is appended. *)
Lemma submit_quorum l b atts h setId :
  isWellFormedStakeSet (l_set l) = true -> valid_threshold (finalityNum l) (finalityDen l) = true ->
  0 < totalStake (l_set l) ->
  blockHash (header b) = Ok h -> consensusSetId (l_set l) = Ok setId ->
  block_suite b = l_suite l -> height (header b) = ledger_height l ->
  prevHash (header b) = headHash l -> isSafeInteger (round (header b)) = true ->
  num_ltb (round (header b)) (Int 0) = false ->
  leader_reasons b (l_set l) (headHash l) (finalityNum l) (finalityDen l) = Ok [] ->
  (exists pm, blockSignMessage (block_suite b) h = Ok pm /\
    safeVerify (block_suite b) (proposerSig b) pm (hexToBytesLocal (proposer (header b))) = true) ->
  (length atts <= max_items (l_set l))%nat ->
  (forall n, Forall (good_att b h setId {| expectedHeight := n; expectedSuite := Some (l_suite l) |}) atts) ->
  num_Z (finalityNum l) * totalStake (l_set l) <=
    stake_in (l_set l) (list_to_set (map att_validator atts)) * num_Z (finalityDen l) ->
  exists l' fb, submit l b atts = Ok (l', fb) /\ chain l' = chain l ++ [fb] /\
    fb_block fb = b /\ fb_hash fb = h /\ fb_finalized fb = true.
Proof.
  intros W V T Eh Es Hb Hh Hp R1 R2 Hl (pm & Em & Ep) Hn Ha Q.
  apply isWellFormedStakeSet_iff in W as W'. destruct W' as [_ Hnd].
  unfold submit, appraise, verifyFinalized. rewrite Eh. cbn [mbind res_bind].
  rewrite (proj2 (Nat.ltb_ge _ _)) by done. rewrite Es. cbn [mbind res_bind].
  rewrite Hl. cbn [mbind res_bind]. rewrite Em. cbn [mbind res_bind]. rewrite Ep.
  destruct (att_loop_good b h setId (l_set l) {| expectedHeight := Some (ledger_height l);
    expectedSuite := Some (l_suite l) |} atts tally0) as (t & Et & _ & Ht); [done | done |].
  rewrite Et. cbn [mbind res_bind].
  assert (tally_ok b h setId (l_set l) atts t) as [T1 _].
  { eapply att_loop_ok; [done | done | | exact Et]. split; cbn; [by rewrite stake_in_empty | set_solver]. }
  assert (PR : position_reasons b (headHash l) {| expectedHeight := Some (ledger_height l);
    expectedSuite := Some (l_suite l) |} = []).
  { unfold position_reasons. cbn [expectedHeight expectedSuite]. rewrite Hb, Hh, Hp, R1, R2.
    rewrite !bool_decide_true by done. unfold ledger_height. rewrite num_eqb_Int, Z.eqb_refl. done. }
  rewrite PR. unfold verdict. rewrite V, W. cbn [negb andb app when].
  assert (M : (0 <? totalStakeBig (l_set l)) && (num_Z (finalityNum l) * totalStakeBig (l_set l)
    <=? tallied t * num_Z (finalityDen l)) = true).
  { unfold totalStakeBig. rewrite andb_true_iff, Z.ltb_lt, Z.leb_le. split; [done|].
    etransitivity; [exact Q|]. rewrite T1. apply Z.mul_le_mono_nonneg_r.
    - pose proof (valid_threshold_Z _ _ V). lia.
    - apply stake_in_mono; [done|]. intros k (a & -> & Hk)%elem_of_list_to_set%list_elem_of_fmap ?.
      by apply Ht. }
  rewrite M. cbn. eauto 10.
Qed.

Lemma attests_good l b keys atts : l_suite l ∈ activeSuiteIds ->
  Forall (fun k => kpr (publicKey k) (secretKey k)) keys ->
  block_suite b = l_suite l -> isInteger (height (header b)) = true ->
  Forall2 (fun k a => attest l b k = Ok a) keys atts ->
  map att_validator atts = map (fun k => bytesToHex (publicKey k)) keys /\
  forall h setId, blockHash (header b) = Ok h -> consensusSetId (l_set l) = Ok setId ->
    forall n, Forall (good_att b h setId {| expectedHeight := n; expectedSuite := Some (l_suite l) |}) atts.
Proof.
  intros Hs Hk Hb Hi. induction 1 as [|k a keys atts E _ IH]; [done|].
  inversion_clear Hk as [|? ? Hk1 Hk2]. destruct (IH Hk2) as [I1 I2].
  destruct (attest_good l b k a Hs Hk1 Hb Hi E) as (Ev & h' & s' & E1 & E2 & G).
  split; [cbn [map]; by rewrite Ev, I1|]. intros h setId Eh Es n.
  assert (h' = h) as -> by congruence. assert (s' = setId) as -> by congruence.
  constructor; [by apply G | by apply I2].
Qed.

Lemma stake_in_nonempty set : stake_in set (list_to_set []) = 0.
Proof. apply stake_in_empty. Qed.

(** [submit] accepts [b] with [atts] and appends it, finalized. *)
Definition becomes_head (l : Ledger) (b : Block) (atts : list Attestation) : Prop :=
  exists l' fb, submit l b atts = Ok (l', fb) /\ chain l' = chain l ++ [fb] /\
    fb_block fb = b /\ fb_finalized fb = true.

(** The block a proposer signed, up to its right to propose. *)
Lemma submit_honest l b keys atts prop :
  isWellFormedStakeSet (l_set l) = true -> valid_threshold (finalityNum l) (finalityDen l) = true ->
  0 < totalStake (l_set l) -> l_suite l ∈ activeSuiteIds ->
  kpr (publicKey prop) (secretKey prop) ->
  Forall (fun k => kpr (publicKey k) (secretKey k)) keys ->
  block_suite b = l_suite l -> height (header b) = ledger_height l ->
  prevHash (header b) = headHash l -> isSafeInteger (round (header b)) = true ->
  num_ltb (round (header b)) (Int 0) = false ->
  proposer (header b) = bytesToHex (publicKey prop) ->
  sign_header l (header b) (secretKey prop) = Ok (proposerSig b) ->
  leader_reasons b (l_set l) (headHash l) (finalityNum l) (finalityDen l) = Ok [] ->
  Forall2 (fun k a => attest l b k = Ok a) keys atts ->
  (length keys <= max_items (l_set l))%nat ->
  num_Z (finalityNum l) * totalStake (l_set l) <=
    stake_in (l_set l) (list_to_set (map (fun k => bytesToHex (publicKey k)) keys)) *
    num_Z (finalityDen l) ->
  becomes_head l b atts.
Proof.
  intros W V T Hs Hk Hks Hb Hh Hp R1 R2 Ho Sg Hl F2 Hn Q.
  assert (Hi : isInteger (height (header b)) = true).
  { rewrite Hh. unfold ledger_height. cbn. unfold pow2. by rewrite Z.mod_1_r. }
  destruct (attests_good l b keys atts Hs Hks Hb Hi F2) as [A1 A2].
  unfold sign_header in Sg. apply bind_ok in Sg as (sg & Eg & Sg).
  apply bind_ok in Sg as (h & Eh & Sg). apply bind_ok in Sg as (pm & Em & Sg).
  assert (exists setId, consensusSetId (l_set l) = Ok setId) as [setId Es].
  { destruct F2 as [|k a keys' atts' E _].
    - cbn [map] in Q. rewrite stake_in_nonempty in Q. pose proof (valid_threshold_Z _ _ V). nia.
    - inversion_clear Hks as [|? ? Hk1 _].
      destruct (attest_good l b k a Hs Hk1 Hb Hi E) as (_ & _ & s' & _ & E2 & _). eauto. }
  destruct (submit_quorum l b atts h setId) as (l' & fb & S1 & S2 & S3 & S4 & S5); try done.
  - exists pm. rewrite Hb. split; [done|]. rewrite Ho. eapply safeVerify_signed; [done | exact Hk |].
    unfold suite_sign. by rewrite Eg.
  - by rewrite <- (Forall2_length _ _ _ F2).
  - intros n. by apply A2.
  - by rewrite A1.
  - unfold becomes_head. eauto 8.
Qed.

(** C21: The honest run in a set without VRF keys finalizes: the block the
    sortition leader proposes in round 0, attested by validators that hold
    at least the finality fraction of the stake (and by anyone else, within
    the size bound), is accepted by [submit] and becomes the new head. *)
Theorem honest_run_finalizes l payload ts prop b keys atts :
  isWellFormedStakeSet (l_set l) = true -> is_vrf_set (l_set l) = false ->
  valid_threshold (finalityNum l) (finalityDen l) = true -> l_suite l ∈ activeSuiteIds ->
  kpr (publicKey prop) (secretKey prop) ->
  Forall (fun k => kpr (publicKey k) (secretKey k)) keys ->
  propose l payload (Int 0) ts prop = Ok b ->
  Forall2 (fun k a => attest l b k = Ok a) keys atts ->
  (length keys <= max_items (l_set l))%nat ->
  num_Z (finalityNum l) * totalStake (l_set l) <=
    stake_in (l_set l) (list_to_set (map (fun k => bytesToHex (publicKey k)) keys)) *
    num_Z (finalityDen l) ->
  becomes_head l b atts.
Proof.
  intros W NV V Hs Hk Hks P F2 Hn Q. unfold propose in P.
  apply bind_ok in P as (leader & El & P). destruct (negb _) eqn:N in P; [done|].
  apply negb_false_iff, bool_decide_eq_true in N as ->.
  apply bind_ok in P as (sg & Sg & P). apply Ok_inj in P as <-.
  assert (T : 0 < totalStake (l_set l)).
  { unfold selectLeader in El. destruct (Z.leb_spec (totalStake (l_set l)) 0); [done | lia]. }
  eapply (submit_honest l _ keys atts prop); try done.
  unfold leader_reasons. rewrite (proj2 (Z.leb_gt _ _)) by done. rewrite NV. cbn [vrfProof header round].
  rewrite El. cbn [mbind res_bind proposer height]. by rewrite bool_decide_true.
Qed.

Context `{!Ed25519Laws C}.

Lemma to_lower_hex b : to_lower (to_hex b) = to_hex b.
Proof.
  induction b as [|x b IH]; [done|]. cbn [to_hex to_lower]. rewrite IH.
  f_equal; [|f_equal]; by destruct x; vm_compute.
Qed.

(** The honest run in a VRF set finalizes: a validator that [proposeVrf]
    lets propose (in round 0, or later with a view-change certificate) under
    the VRF key the set lists for it, whose VRF input does not hash to the
    identity, gets its block appended once a quorum attests it. *)
Theorem honest_vrf_run_finalizes l payload rnd ts prop seed vk cert b keys atts v :
  isWellFormedStakeSet (l_set l) = true -> is_vrf_set (l_set l) = true ->
  valid_threshold (finalityNum l) (finalityDen l) = true -> l_suite l ∈ activeSuiteIds ->
  kpr (publicKey prop) (secretKey prop) ->
  Forall (fun k => kpr (publicKey k) (secretKey k)) keys ->
  v ∈ validators (l_set l) -> pubkey v = bytesToHex (publicKey prop) ->
  vrfPubkey v = Some (bytesToHex vk) -> vrfPublicKey seed = Ok vk ->
  (forall alpha p, vrfAlpha (headHash l) rnd = Ok alpha ->
     encodeToCurveTai vk alpha = Ok p -> is0 p = false) ->
  proposeVrf l payload rnd ts prop seed cert = Ok b ->
  Forall2 (fun k a => attest l b k = Ok a) keys atts ->
  (length keys <= max_items (l_set l))%nat ->
  num_Z (finalityNum l) * totalStake (l_set l) <=
    stake_in (l_set l) (list_to_set (map (fun k => bytesToHex (publicKey k)) keys)) *
    num_Z (finalityDen l) ->
  becomes_head l b atts.
Proof.
  intros W NV V Hs Hk Hks Hv Hpk Hvk Es Hz P F2 Hn Q. unfold proposeVrf in P.
  destruct (negb (isSafeInteger rnd) || num_ltb rnd (Int 0)) eqn:R in P; [done|].
  apply orb_false_iff in R as [R1%negb_false_iff R2].
  apply bind_ok in P as (alpha & Ea & P). apply bind_ok in P as (o & Eo & P).
  apply bind_ok in P as (e & Ee & P). destruct e; cbn [negb] in P; [|done].
  apply bind_ok in P as (ok & Ec & P). destruct ok; cbn [negb] in P; [|done].
  apply bind_ok in P as (sg & Sg & P). apply Ok_inj in P as <-.
  assert (T : 0 < totalStake (l_set l)).
  { unfold vrfLeaderEligible in Ee. destruct (Z.leb_spec (totalStake (l_set l)) 0); [done | lia]. }
  eapply (submit_honest l _ keys atts prop); try done.
  unfold leader_reasons. rewrite (proj2 (Z.leb_gt _ _)) by done. rewrite NV. cbn [vrfProof].
  unfold vrf_reasons. cbn [header round block_suite height viewChangeCert proposer vrfOutput].
  match goal with |- (?r1 ≫= _) = _ => assert (r1 = Ok []) as -> end.
  { destruct (num_ltb (Int 0) rnd); [|done]. by rewrite Ec. }
  cbn [mbind res_bind].
  destruct (find _ (validators (l_set l))) as [w|] eqn:Fd.
  2: { rewrite find_none in Fd. specialize (Fd v Hv). by rewrite bool_decide_true in Fd. }
  apply find_some in Fd as [Fd1 Fd2%bool_decide_eq_true].
  assert (w = v) as ->.
  { apply isWellFormedStakeSet_iff in W as [_ Hnd].
    apply list_elem_of_lookup in Hv as [i Hi], Fd1 as [j Hj].
    assert (i = j) as -> by (eapply (NoDup_lookup _ i j (pubkey v) Hnd);
      by rewrite list_lookup_fmap, ?Hi, ?Hj; cbn; congruence).
    congruence. }
  cbn [mbind option_bind]. rewrite Hvk, Ea. cbn [mbind res_bind].
  rewrite hex_text, hexToBytesLocal_to_hex.
  destruct (prove_verify seed alpha vk o Es Eo) as [_ ->]; [by intros p; apply Hz|].
  cbn [from_option id]. rewrite hex_text, to_lower_hex, bool_decide_true by done. cbn [negb].
  rewrite Ee. done.
Qed.
End honest.

(** ** The chain the ledger builds *)
Section ledger.
Context {L : Lib} {C : Ed25519}.

(** The ledgers a sequence of accepted submissions leads to. *)
Inductive reachable (set : ValidatorSet) (suite : string) (fnum fden : num) : Ledger -> Prop :=
| reach_new : reachable set suite fnum fden (new_ledger set suite fnum fden)
| reach_submit l b atts l' fb :
    reachable set suite fnum fden l -> submit l b atts = Ok (l', fb) ->
    reachable set suite fnum fden l'.

(** The hash the block at position [i] extends. *)
Definition prev_at (c : list FinalizedBlock) (i : nat) : string :=
  match i with
  | O => GENESIS_PREV
  | S j => match c !! j with Some fb => fb_hash fb | None => GENESIS_PREV end
  end.

(** A link of the chain, as a light client re-verifies it. *)
Record link_ok (set : ValidatorSet) (suite : string) (fnum fden : num)
    (c : list FinalizedBlock) (i : nat) (fb : FinalizedBlock) : Prop := {
  lk_hash : blockHash (header (fb_block fb)) = Ok (fb_hash fb);
  lk_height : num_eqb (height (header (fb_block fb))) (Int (Z.of_nat i)) = true;
  lk_prev : prevHash (header (fb_block fb)) = prev_at c i;
  lk_final : fb_finalized fb = true;
  lk_verdict : exists v, verifyFinalized (fb_block fb) (fb_attestations fb) set (prev_at c i)
    fnum fden {| expectedHeight := Some (Int (Z.of_nat i)); expectedSuite := Some suite |} = Ok v /\
    finalized v = true /\ attestingStake v = fb_attestingStake fb }.

Lemma last_prev_at c : match last c with Some fb => fb_hash fb | None => GENESIS_PREV end =
  prev_at c (length c).
Proof.
  destruct c as [|x c] using rev_ind; [done|].
  rewrite last_snoc, length_app, Nat.add_1_r. cbn [prev_at]. by rewrite list_lookup_middle.
Qed.
Lemma prev_at_app c d i : (i <= length c)%nat -> prev_at (c ++ d) i = prev_at c i.
Proof. destruct i as [|i]; intros Hi; cbn; [done|]. by rewrite lookup_app_l by lia. Qed.

Lemma submit_inv l b atts l' fb : submit l b atts = Ok (l', fb) ->
  l_set l' = l_set l /\ l_suite l' = l_suite l /\ finalityNum l' = finalityNum l /\
  finalityDen l' = finalityDen l /\ chain l' = chain l ++ [fb] /\
  link_ok (l_set l) (l_suite l) (finalityNum l) (finalityDen l) (chain l) (length (chain l)) fb.
Proof.
  unfold submit, appraise. intros E. apply bind_ok in E as (v & Ev & E).
  destruct (lv_ok v) eqn:Hok; [|done]. cbn [negb] in E. apply bind_ok in E as (h & Eh & E).
  cbn [fb_finalized] in E. destruct (finalized v) eqn:F; [|done]. cbn [negb] in E.
  apply Ok_inj in E. injection E as <- <-. cbn. split_and!; try done.
  unfold headHash in Ev. rewrite last_prev_at in Ev.
  destruct (verifyFinalized_finalized _ _ _ _ _ _ _ _ Ev F) as (_ & h' & s & X & [] & _).
  destruct (position_reasons_nil _ _ _ fi_position) as (P1 & P2 & P3 & _).
  constructor; cbn; try done.
  - by apply P2.
  - exists v. done.
Qed.

Lemma reachable_links set suite fnum fden l : reachable set suite fnum fden l ->
  (l_set l = set /\ l_suite l = suite /\ finalityNum l = fnum /\ finalityDen l = fden) /\
  forall i fb, chain l !! i = Some fb -> link_ok set suite fnum fden (chain l) i fb.
Proof.
  induction 1 as [|l b atts l' fb _ [(I1 & I2 & I3 & I4) IH] E]; [done|].
  destruct (submit_inv _ _ _ _ _ E) as (-> & -> & -> & -> & Hc & K). split; [done|].
  rewrite I1, I2, I3, I4 in K. intros i fb' Hi. rewrite Hc in *.
  apply lookup_app_Some in Hi as [Hi|[Hl Hi]].
  - pose proof (lookup_lt_Some _ _ _ Hi). destruct (IH _ _ Hi).
    constructor; rewrite ?prev_at_app by lia; done.
  - apply list_lookup_singleton_Some in Hi as [Hi <-].
    assert (i = length (chain l)) as -> by lia.
    destruct K. constructor; rewrite ?prev_at_app by lia; done.
Qed.

(** C23: The ledger keeps a chain: whatever was submitted, the block at position
    [i] has height [i], extends the hash of block [i - 1] (the genesis hash
    for the first), is stored under its own hash, and a light client that is
    given its attestations, the set and the previous hash reports it
    finalized with the stored stake. *)
Theorem ledger_chain set suite fnum fden l i fb : reachable set suite fnum fden l ->
  chain l !! i = Some fb ->
  blockHash (header (fb_block fb)) = Ok (fb_hash fb) /\
  num_eqb (height (header (fb_block fb))) (Int (Z.of_nat i)) = true /\
  prevHash (header (fb_block fb)) = prev_at (chain l) i /\
  exists v, verifyFinalized (fb_block fb) (fb_attestations fb) set (prev_at (chain l) i)
    fnum fden {| expectedHeight := Some (Int (Z.of_nat i)); expectedSuite := Some suite |} = Ok v /\
    finalized v = true /\ attestingStake v = fb_attestingStake fb.
Proof. intros R Hi. destruct (reachable_links _ _ _ _ _ R) as [_ K]. by destruct (K _ _ Hi). Qed.
End ledger.

(** ** The head hash commits to the chain *)
Section commit.
Context {L : Lib} {C : Ed25519} `{!CborLaws L} `{!HexLaws L}.

(** The encoding pins the strings of a header, and its numbers where both are
    safe integers. *)
Record header_agrees (g h : BlockHeader) : Prop := {
  ha_prev : prevHash g = prevHash h;
  ha_proposer : proposer g = proposer h;
  ha_payload : payloadRoot g = payloadRoot h;
  ha_vrf : default EmptyString (vrfOutput g) = default EmptyString (vrfOutput h);
  ha_height : isSafeInteger (height g) = true -> isSafeInteger (height h) = true ->
    height g ≡ height h;
  ha_round : isSafeInteger (round g) = true -> isSafeInteger (round h) = true ->
    round g ≡ round h;
  ha_timestamp : isSafeInteger (timestamp g) = true -> isSafeInteger (timestamp h) = true ->
    timestamp g ≡ timestamp h }.

(** Two headers with the same seven fields; the header carries no VRF output
    when the field is absent or empty, and a time stamp is pinned where both
    are safe integers. *)
Record same_header (g h : BlockHeader) : Prop := {
  sh_prev : prevHash g = prevHash h;
  sh_proposer : proposer g = proposer h;
  sh_payload : payloadRoot g = payloadRoot h;
  sh_vrf : default EmptyString (vrfOutput g) = default EmptyString (vrfOutput h);
  sh_height : height g ≡ height h;
  sh_round : round g ≡ round h;
  sh_timestamp : isSafeInteger (timestamp g) = true -> isSafeInteger (timestamp h) = true ->
    timestamp g ≡ timestamp h }.

Lemma headerBytes_inj g h b : headerBytes g = Ok b -> headerBytes h = Ok b -> header_agrees g h.
Proof.
  unfold headerBytes, encodeCanonical. intros E F.
  assert (S : same_enc (VArr [VStr (tag "BLOCK_HASH"); VNum (height g); VStr (prevHash g);
    VNum (round g); VStr (proposer g); VStr (payloadRoot g); VNum (timestamp g);
    VStr (default EmptyString (vrfOutput g))]) (VArr [VStr (tag "BLOCK_HASH"); VNum (height h);
    VStr (prevHash h); VNum (round h); VStr (proposer h); VStr (payloadRoot h);
    VNum (timestamp h); VStr (default EmptyString (vrfOutput h))])) by by exists b.
  apply cbor_arr in S. repeat match goal with H : Forall2 _ (_ :: _) (_ :: _) |- _ =>
    apply Forall2_cons_1 in H as [? H] end.
  constructor; try (by apply cbor_str); intros; by apply cbor_num.
Qed.

(** No two of these blocks have different headers with the same digest. *)
Definition no_collision (c d : list FinalizedBlock) : Prop :=
  forall f g x y, f ∈ c -> g ∈ d ->
    headerBytes (header (fb_block f)) = Ok x -> headerBytes (header (fb_block g)) = Ok y ->
    sha3_256 x = sha3_256 y -> x = y.

Lemma same_hash_header_agrees c d f g : no_collision c d -> f ∈ c -> g ∈ d ->
  blockHash (header (fb_block f)) = Ok (fb_hash f) ->
  blockHash (header (fb_block g)) = Ok (fb_hash g) -> fb_hash f = fb_hash g ->
  header_agrees (header (fb_block f)) (header (fb_block g)).
Proof.
  intros N Hf Hg E F H. unfold blockHash in E, F.
  apply bind_ok in E as (x & Ex & E), F as (y & Ey & F). apply Ok_inj in E, F.
  rewrite <- E, <- F in H. apply bytesToHex_inj in H.
  rewrite <- (N f g x y) in Ey by done. by eapply headerBytes_inj.
Qed.

Lemma num_eqb_safe m i : num_eqb m (Int (Z.of_nat i)) = true ->
  Z.of_nat i <= MAX_SAFE -> isSafeInteger m = true /\ m ≡ Int (Z.of_nat i).
Proof.
  intros E Hi. assert (m ≡ Int (Z.of_nat i)) as Hm.
  { destruct m as [|s|k e]; cbn in *; try done. by apply Z.eqb_eq. }
  split; [|done]. apply isSafeInteger_spec. apply num_Z_equiv in Hm as Hz.
  destruct Hz as [-> _]. split; [done|]. unfold MAX_SAFE in *. lia.
Qed.

(** The height and the round of a block of a chain are safe integers. *)
Lemma link_safe set suite n d c i f : link_ok set suite n d c i f -> Z.of_nat i <= MAX_SAFE ->
  isSafeInteger (height (header (fb_block f))) = true /\
  isSafeInteger (round (header (fb_block f))) = true.
Proof.
  intros [_ Hh _ _ (v & E & F & _)] B. split; [by apply num_eqb_safe in Hh as [? _]|].
  destruct (verifyFinalized_finalized _ _ _ _ _ _ _ _ E F) as (_ & h & s & X & [] & _).
  by destruct (position_reasons_nil _ _ _ fi_position) as (_ & _ & _ & ? & _).
Qed.

Lemma links_same_header set set' suite suite' n d n' d' c c' i f g :
  link_ok set suite n d c i f -> link_ok set' suite' n' d' c' i g -> Z.of_nat i <= MAX_SAFE ->
  header_agrees (header (fb_block f)) (header (fb_block g)) ->
  same_header (header (fb_block f)) (header (fb_block g)).
Proof.
  intros K K' B []. destruct (link_safe _ _ _ _ _ _ _ K B), (link_safe _ _ _ _ _ _ _ K' B).
  constructor; auto.
Qed.

Lemma links_from_top set set' suite suite' n d n' d' l l' :
  reachable set suite n d l -> reachable set' suite' n' d' l' ->
  no_collision (chain l) (chain l') ->
  forall i f g, chain l !! i = Some f -> chain l' !! i = Some g -> fb_hash f = fb_hash g ->
  forall j, (j <= i)%nat -> exists f' g', chain l !! j = Some f' /\ chain l' !! j = Some g' /\
    fb_hash f' = fb_hash g' /\ header_agrees (header (fb_block f')) (header (fb_block g')).
Proof.
  intros R R' N. destruct (reachable_links _ _ _ _ _ R) as [_ K].
  destruct (reachable_links _ _ _ _ _ R') as [_ K'].
  induction i as [|i IH]; intros f g Hf Hg E j Hj;
    destruct (K _ _ Hf) as [H1 _ P1 _ _], (K' _ _ Hg) as [H2 _ P2 _ _];
    assert (Sh : header_agrees (header (fb_block f)) (header (fb_block g)))
      by (eapply same_hash_header_agrees; eauto using list_elem_of_lookup_2).
  - assert (j = 0)%nat as -> by lia. eauto 8.
  - destruct (decide (j = S i)) as [->|]; [eauto 8|].
    pose proof (lookup_lt_Some _ _ _ Hf). pose proof (lookup_lt_Some _ _ _ Hg).
    destruct (lookup_lt_is_Some_2 (chain l) i) as [f1 Hf1]; [lia|].
    destruct (lookup_lt_is_Some_2 (chain l') i) as [g1 Hg1]; [lia|].
    apply (IH f1 g1 Hf1 Hg1); [|lia]. destruct Sh as [Sp _ _ _ _ _ _].
    cbn [prev_at] in P1, P2. rewrite Hf1 in P1. rewrite Hg1 in P2. congruence.
Qed.

(** C24: The head hash commits to the whole chain.  Take two ledgers that
    accepted submissions lead to, over any sets, suites and thresholds, each
    with at least one block and at most 2^53 - 1 of them, such that no header
    of the one and different header of the other have the same SHA3-256
    digest.  If their head hashes are equal, the chains have the same length,
    and at every position the same hash and the same header: height, previous
    hash, round, proposer, payload root and VRF output, and the time stamp
    where both time stamps are safe integers. *)
Theorem head_commits_chain set set' suite suite' n d n' d' l l' :
  reachable set suite n d l -> reachable set' suite' n' d' l' ->
  no_collision (chain l) (chain l') ->
  chain l <> [] -> chain l' <> [] ->
  Z.of_nat (length (chain l)) <= MAX_SAFE -> Z.of_nat (length (chain l')) <= MAX_SAFE ->
  headHash l = headHash l' ->
  length (chain l) = length (chain l') /\
  forall i f g, chain l !! i = Some f -> chain l' !! i = Some g ->
    fb_hash f = fb_hash g /\ same_header (header (fb_block f)) (header (fb_block g)).
Proof.
  intros R R' N E1 E2 B1 B2 Hh. unfold headHash in Hh. rewrite !last_lookup in Hh.
  assert (0 < length (chain l))%nat by (destruct (chain l); cbn; [done | lia]).
  assert (0 < length (chain l'))%nat by (destruct (chain l'); cbn; [done | lia]).
  destruct (lookup_lt_is_Some_2 (chain l) (pred (length (chain l)))) as [f Hf]; [lia|].
  destruct (lookup_lt_is_Some_2 (chain l') (pred (length (chain l')))) as [g Hg]; [lia|].
  rewrite Hf, Hg in Hh.
  destruct (reachable_links _ _ _ _ _ R) as [_ K]. destruct (reachable_links _ _ _ _ _ R') as [_ K'].
  destruct (K _ _ Hf) as [H1 T1 _ _ _], (K' _ _ Hg) as [H2 T2 _ _ _].
  assert (S : header_agrees (header (fb_block f)) (header (fb_block g)))
    by (eapply same_hash_header_agrees; eauto using list_elem_of_lookup_2).
  apply num_eqb_safe in T1 as [F1 G1], T2 as [F2 G2]; [|lia..].
  assert (Hlen : length (chain l) = length (chain l')).
  { pose proof (ha_height _ _ S F1 F2) as Q. rewrite G1, G2 in Q. cbn in Q.
    unfold pow2 in Q. cbn in Q. lia. }
  split; [done|]. intros i f0 g0 Hf0 Hg0. rewrite <- Hlen in Hg.
  pose proof (lookup_lt_Some _ _ _ Hf0).
  destruct (links_from_top _ _ _ _ _ _ _ _ _ _ R R' N _ _ _ Hf Hg Hh i) as (? & ? & ? & ? & ? & ?);
    [lia|]. simplify_eq. split; [done|].
  eapply links_same_header; [by apply K | by apply K' | lia | done].
Qed.
End commit.

(** ** Concrete runs *)
Definition ledger0 : Ledger := new_ledger sample_set "PS-5" (Int 2) (Int 3).
Definition get {A} (d : A) (c : res A) : A := try_catch c (fun _ => d).

Definition no_block : Block := {|
  header := {| height := Int 0; prevHash := ""; round := Int 0; proposer := ""; payloadRoot := "";
               timestamp := Int 0; vrfOutput := None |};
  proposerSig := []; block_suite := ""; vrfProof := None; viewChangeCert := None |}.
Definition no_att : Attestation := {|
  att_blockHash := ""; att_height := Int 0; att_validator := ""; att_suite := ""; att_sig := [] |}.

(** v2 is the leader of the first slot. *)
Definition block0 (payload : string) : Block :=
  get no_block (propose ledger0 payload (Int 0) (Int 5) (kp "v2")).
Definition atts0 (payload : string) : list Attestation :=
  map (fun n => get no_att (attest ledger0 (block0 payload) (kp n))) ["v1"; "v2"].
Definition ledger1 : Ledger :=
  get ledger0 (r ← submit ledger0 (block0 "root") (atts0 "root"); Ok r.1).
Definition fb0 : FinalizedBlock := {|
  fb_block := block0 "root"; fb_hash := get "" (blockHash (header (block0 "root")));
  fb_attestations := atts0 "root"; fb_attestingStake := 70; fb_finalized := true |}.

Definition vrf_set : ValidatorSet := {|
  validators := map (fun v => {| pubkey := pubkey v; stake := stake v;
                                 vrfPubkey := Some (bytesToHex toy_pk) |}) (validators sample_set);
  epoch := Some (Int 7) |}.
Definition vrf_ledger0 : Ledger := new_ledger vrf_set "PS-5" (Int 2) (Int 3).
Definition vrf_block0 : Block :=
  get no_block (proposeVrf vrf_ledger0 "root" (Int 0) (Int 5) (kp "v1") toy_seed None).
Definition vrf_atts0 : list Attestation :=
  map (fun n => get no_att (attest vrf_ledger0 vrf_block0 (kp n))) ["v1"; "v2"].

Lemma finality_sound_witness :
  (exists v, verifyFinalized (block0 "root") (atts0 "root") sample_set GENESIS_PREV (Int 2) (Int 3)
    {| expectedHeight := Some (Int 0); expectedSuite := Some "PS-5" |} = Ok v /\ lv_ok v = true) /\
  forall v, verifyFinalized (block0 "root") (atts0 "root") sample_set GENESIS_PREV (Int 2) (Int 3)
    {| expectedHeight := Some (Int 0); expectedSuite := Some "PS-5" |} = Ok v ->
    finalized v = lv_ok v.
Proof.
  split; [eexists; split; [vm_compute; reflexivity | reflexivity]|].
  intros v Hv. exact (proj1 (finality_sound _ _ _ _ _ _ _ _ Hv)).
Defined.

Lemma honest_run_finalizes_witness : exists l' fb,
  submit ledger0 (block0 "root") (atts0 "root") = Ok (l', fb) /\ chain l' = chain ledger0 ++ [fb] /\
  fb_block fb = block0 "root" /\ fb_finalized fb = true.
Proof.
  refine (honest_run_finalizes (kpr := eq) ledger0 "root" (Int 5) (kp "v2") (block0 "root")
    [kp "v1"; kp "v2"] (atts0 "root") _ _ _ _ _ _ _ _ _ _).
  - by vm_compute.
  - by vm_compute.
  - by vm_compute.
  - by rewrite activeSuiteIds_eq; left.
  - done.
  - by repeat constructor.
  - by vm_compute.
  - by repeat constructor; vm_compute.
  - apply Nat.leb_le. by vm_compute.
  - apply Z.leb_le. by vm_compute.
Defined.

Lemma honest_vrf_run_finalizes_witness : exists l' fb,
  submit vrf_ledger0 vrf_block0 vrf_atts0 = Ok (l', fb) /\ chain l' = chain vrf_ledger0 ++ [fb] /\
  fb_block fb = vrf_block0 /\ fb_finalized fb = true.
Proof.
  refine (honest_vrf_run_finalizes (kpr := eq) vrf_ledger0 "root" (Int 0) (Int 5) (kp "v1") toy_seed
    toy_pk None vrf_block0 [kp "v1"; kp "v2"] vrf_atts0
    {| pubkey := kp_hex "v1"; stake := VBig 40; vrfPubkey := Some (bytesToHex toy_pk) |}
    _ _ _ _ _ _ _ _ _ _ _ _ _ _ _).
  - by vm_compute.
  - by vm_compute.
  - by vm_compute.
  - by rewrite activeSuiteIds_eq; left.
  - done.
  - by repeat constructor.
  - right. left.
  - done.
  - done.
  - by vm_compute.
  - assert (E : try_catch (alpha ← vrfAlpha GENESIS_PREV (Int 0);
      p ← encodeToCurveTai toy_pk alpha; Ok (negb (is0 p))) (fun _ => false) = true)
      by (by vm_compute).
    intros alpha p Ha Hp. change (headHash vrf_ledger0) with GENESIS_PREV in Ha.
    rewrite Ha in E. cbn [mbind res_bind] in E. rewrite Hp in E. by apply negb_true_iff in E.
  - by vm_compute.
  - by repeat constructor; vm_compute.
  - apply Nat.leb_le. by vm_compute.
  - apply Z.leb_le. by vm_compute.
Defined.

Lemma ledger1_reachable : reachable sample_set "PS-5" (Int 2) (Int 3) ledger1.
Proof.
  apply (reach_submit _ _ _ _ ledger0 (block0 "root") (atts0 "root") ledger1 fb0).
  - apply reach_new.
  - by vm_compute.
Qed.

Lemma ledger_chain_witness : prevHash (header (fb_block fb0)) = GENESIS_PREV.
Proof.
  refine (proj1 (proj2 (proj2 (ledger_chain sample_set "PS-5" (Int 2) (Int 3) ledger1 0 fb0
    ledger1_reachable _)))). by vm_compute.
Defined.

(** The same block, finalized by three attestations: another ledger. *)
Definition atts0_all : list Attestation :=
  atts0 "root" ++ [get no_att (attest ledger0 (block0 "root") (kp "v3"))].
Definition ledger1_all : Ledger :=
  get ledger0 (r ← submit ledger0 (block0 "root") atts0_all; Ok r.1).
Definition fb0_all : FinalizedBlock := {|
  fb_block := block0 "root"; fb_hash := fb_hash fb0;
  fb_attestations := atts0_all; fb_attestingStake := 100; fb_finalized := true |}.

Lemma ledger1_all_reachable : reachable sample_set "PS-5" (Int 2) (Int 3) ledger1_all.
Proof.
  apply (reach_submit _ _ _ _ ledger0 (block0 "root") atts0_all ledger1_all fb0_all).
  - apply reach_new.
  - by vm_compute.
Qed.

Lemma head_commits_chain_witness : length (chain ledger1) = length (chain ledger1_all).
Proof.
  refine (proj1 (head_commits_chain sample_set sample_set "PS-5" "PS-5" (Int 2) (Int 3) (Int 2) (Int 3)
    ledger1 ledger1_all ledger1_reachable ledger1_all_reachable _ _ _ _ _ _)).
  - assert (E : chain ledger1 = [fb0]) by (by vm_compute).
    assert (F : chain ledger1_all = [fb0_all]) by (by vm_compute). rewrite E, F.
    intros f g x y ->%list_elem_of_singleton ->%list_elem_of_singleton Hx Hy _.
    change (header (fb_block fb0_all)) with (header (fb_block fb0)) in Hy. congruence.
  - by vm_compute.
  - by vm_compute.
  - apply Z.leb_le. by vm_compute.
  - apply Z.leb_le. by vm_compute.
  - by vm_compute.
Defined.
