(* ===== verification/Equivocation.v ===== *)
(** * ledger/: equivocation proofs, slashing, accountable safety

    src/ledger/src/equivocation.ts.  Proofs are values of the declared type, so
    the defensive branch for array elements of another shape does not arise;
    a verification that throws does, and is caught per proof. *)
From S2P Require Import Prelude JsNum JsVal Crypto Concrete Sortition Vrf Leader Chain Finality.
Open Scope string_scope.
Open Scope Z_scope.
Open Scope list_scope.

Record EquivocationProof := {
  ep_validator : string;
  ep_height : num;
  blockHashA : string;
  blockHashB : string;
  attA : Attestation;
  attB : Attestation }.

Definition MAX_ATTESTATIONS_PER_SIDE : nat := Z.to_nat 4096.
Definition MAX_PROOFS_PER_SLASH : nat := Z.to_nat 4096.

Inductive SlashRejectionReason := invalid_proof | duplicate | verification_error.

Record SlashRejection := {
  rej_validator : string; rej_proof : EquivocationProof; rej_reason : SlashRejectionReason }.

Record SlashResult := {
  sl_set : ValidatorSet; slashed : list string; rejected : list SlashRejection }.

(** The state of the loop of [slash]. *)
Record slash_state := {
  ss_accepted : gset string; ss_slashed : list string; ss_rejected : list SlashRejection }.

Section equivocation.
Context {L : Lib} {C : Ed25519}.

Definition safeVerifyAtt (a : Attestation) (setId : string) : bool :=
  try_catch
    (signer ← signerFor (att_suite a);
     msg ← attestMessage (att_suite a) (att_height a) (att_blockHash a) setId;
     pub ← hexToBytes (att_validator a);
     scheme_verify signer (att_sig a) msg pub None)
    (fun _ => false).

(** [byValidatorA]: the last attestation of a validator wins. *)
Definition by_validator (h : string) (atts : list Attestation) : gmap string Attestation :=
  fold_left (fun m a => if bool_decide (att_blockHash a = h)
                        then <[att_validator a := a]> m else m) atts ∅.

Fixpoint detect_loop (hgt : num) (hA hB : string) (byA : gmap string Attestation)
    (seen : gset string) (atts : list Attestation) : list EquivocationProof :=
  match atts with
  | [] => []
  | b :: atts' =>
      if negb (bool_decide (att_blockHash b = hB)) || bool_decide (att_validator b ∈ seen)
      then detect_loop hgt hA hB byA seen atts'
      else match byA !! att_validator b with
           | Some a =>
               {| ep_validator := att_validator b; ep_height := hgt; blockHashA := hA;
                  blockHashB := hB; attA := a; attB := b |} ::
               detect_loop hgt hA hB byA ({[att_validator b]} ∪ seen) atts'
           | None => detect_loop hgt hA hB byA seen atts'
           end
  end.

Definition detectEquivocations (blockA : Block) (attsA : list Attestation) (blockB : Block)
    (attsB : list Attestation) : res (list EquivocationProof) :=
  if (MAX_ATTESTATIONS_PER_SIDE <? length attsA)%nat ||
     (MAX_ATTESTATIONS_PER_SIDE <? length attsB)%nat then Ok [] else
  if negb (num_eqb (height (header blockA)) (height (header blockB))) then Ok [] else
  hA ← blockHash (header blockA);
  hB ← blockHash (header blockB);
  if bool_decide (hA = hB) then Ok [] else
  Ok (detect_loop (height (header blockA)) hA hB (by_validator hA attsA) ∅ attsB).

Definition verifyEquivocationProof (p : EquivocationProof) (set : ValidatorSet) : res bool :=
  if bool_decide (blockHashA p = blockHashB p) then Ok false else
  if negb (bool_decide (att_validator (attA p) = ep_validator p)) ||
     negb (bool_decide (att_validator (attB p) = ep_validator p)) then Ok false else
  if negb (bool_decide (att_blockHash (attA p) = blockHashA p)) ||
     negb (bool_decide (att_blockHash (attB p) = blockHashB p)) then Ok false else
  if negb (num_eqb (att_height (attA p)) (att_height (attB p))) then Ok false else
  if negb (num_eqb (ep_height p) (att_height (attA p))) then Ok false else
  if stakeOf set (ep_validator p) <=? 0 then Ok false else
  setId ← consensusSetId set;
  Ok (safeVerifyAtt (attA p) setId && safeVerifyAtt (attB p) setId).

Definition slash_step (set : ValidatorSet) (st : slash_state) (p : EquivocationProof)
  : slash_state :=
  let reject r := {| ss_accepted := ss_accepted st; ss_slashed := ss_slashed st;
    ss_rejected := ss_rejected st ++
      [{| rej_validator := ep_validator p; rej_proof := p; rej_reason := r |}] |} in
  if bool_decide (ep_validator p ∈ ss_accepted st) then reject duplicate else
  match verifyEquivocationProof p set with
  | Throw _ => reject verification_error
  | Ok false => reject invalid_proof
  | Ok true => {| ss_accepted := {[ep_validator p]} ∪ ss_accepted st;
                  ss_slashed := ss_slashed st ++ [ep_validator p];
                  ss_rejected := ss_rejected st |}
  end.

Definition slash (set : ValidatorSet) (proofs : list EquivocationProof) : SlashResult :=
  if (MAX_PROOFS_PER_SLASH <? length proofs)%nat
  then {| sl_set := set; slashed := []; rejected := [] |} else
  let st := fold_left (slash_step set) proofs
    {| ss_accepted := ∅; ss_slashed := []; ss_rejected := [] |} in
  {| sl_set := {| validators := List.filter
       (fun v => negb (bool_decide (pubkey v ∈ ss_accepted st))) (validators set);
       epoch := epoch set |};
     slashed := ss_slashed st; rejected := ss_rejected st |}.
End equivocation.

(** ** Lemmas *)
Lemma num_eqb_equiv a b : num_eqb a b = true -> a ≡ b.
Proof.
  destruct a as [|s|m k], b as [|t|n l]; cbn; try done; [apply Bool.eqb_true_iff | apply Z.eqb_eq].
Qed.
Lemma num_eqb_sym a b : num_eqb a b = num_eqb b a.
Proof.
  destruct a as [|s|m k], b as [|t|n l]; cbn; try done; [by destruct s, t|].
  apply Z.eqb_sym.
Qed.
Lemma num_eqb_trans a b c : num_eqb a b = true -> num_eqb b c = true -> num_eqb a c = true.
Proof.
  intros H1 H2. assert (E : a ≡ b) by by apply num_eqb_equiv.
  rewrite E. done.
Qed.

Section facts.
Context {L : Lib} {C : Ed25519}.

Lemma attestMessage_num `{!CborLaws L} s m n h i : m ≡ n ->
  attestMessage s m h i = attestMessage s n h i.
Proof.
  intros E. unfold attestMessage, encodeCanonical.
  apply (cbor_num_value [VStr (tag "ATTESTATION"); VStr s] [VStr h; VStr i] m n E).
Qed.

(** An attestation the light client counts stands up as evidence, when the
    validator's key is written in canonical hex. *)
Lemma att_valid_evidence `{!CborLaws L} `{!HexLaws L} b h setId set a k :
  att_validator a = bytesToHex k -> att_valid b h setId set a -> safeVerifyAtt a setId = true.
Proof.
  intros Hk [H1 H2 _ _ (msg & M & V)]. unfold safeVerifyAtt. apply try_catch_true.
  unfold safeVerify in V. apply try_catch_true in V. unfold suite_verify in V.
  apply bind_ok in V as (s & -> & V). cbn [mbind res_bind].
  rewrite H1, (attestMessage_num _ _ (height (header b))) by (by apply num_eqb_equiv).
  rewrite M. cbn [mbind res_bind]. rewrite Hk, hex_roundtrip. cbn [mbind res_bind].
  by rewrite Hk, hex_text, hexToBytesLocal_to_hex in V.
Qed.

(** The conditions under which a proof verifies. *)
Record ProofOK (set : ValidatorSet) (p : EquivocationProof) : Prop := {
  po_differ : blockHashA p <> blockHashB p;
  po_validator : att_validator (attA p) = ep_validator p /\ att_validator (attB p) = ep_validator p;
  po_hashes : att_blockHash (attA p) = blockHashA p /\ att_blockHash (attB p) = blockHashB p;
  po_height : num_eqb (att_height (attA p)) (att_height (attB p)) = true /\
    num_eqb (ep_height p) (att_height (attA p)) = true;
  po_stake : 0 < stakeOf set (ep_validator p);
  po_sigs : exists setId, consensusSetId set = Ok setId /\
    safeVerifyAtt (attA p) setId = true /\ safeVerifyAtt (attB p) setId = true }.

Lemma verifyEquivocationProof_iff p set :
  verifyEquivocationProof p set = Ok true <-> ProofOK set p.
Proof.
  unfold verifyEquivocationProof. split.
  - intros E. destruct (bool_decide _) eqn:E1 in E; [done|].
    destruct (negb _ || negb _) eqn:E2 in E; [done|].
    destruct (negb _ || negb _) eqn:E3 in E; [done|].
    destruct (negb _) eqn:E4 in E; [done|]. destruct (negb _) eqn:E5 in E; [done|].
    destruct (Z.leb_spec (stakeOf set (ep_validator p)) 0); [done|].
    apply bind_ok in E as (setId & S & E). apply Ok_inj, andb_true_iff in E as [V1 V2].
    apply orb_false_iff in E2, E3. rewrite !negb_false_iff, ?bool_decide_eq_true in *.
    apply bool_decide_eq_false in E1. constructor; eauto.
  - intros [D [V1 V2] [H1 H2] [G1 G2] S (setId & I & A & B)].
    rewrite bool_decide_false by done. rewrite !bool_decide_true by done. cbn [negb orb].
    rewrite G1, G2. cbn [negb]. rewrite (proj2 (Z.leb_gt _ _)) by done. rewrite I.
    cbn [mbind res_bind]. by rewrite A, B.
Qed.

(** *** The loop of [slash] *)
Record slash_inv (set : ValidatorSet) (done_ : list EquivocationProof) (st : slash_state) : Prop := {
  si_acc : forall v, v ∈ ss_accepted st <->
    exists p, p ∈ done_ /\ ep_validator p = v /\ verifyEquivocationProof p set = Ok true;
  si_slashed : list_to_set (ss_slashed st) = ss_accepted st /\ NoDup (ss_slashed st);
  si_count : (length (ss_slashed st) + length (ss_rejected st) = length done_)%nat }.

Lemma slash_step_inv set ps st p : slash_inv set ps st ->
  slash_inv set (ps ++ [p]) (slash_step set st p).
Proof.
  intros [I1 [I2 I3] I4]. unfold slash_step.
  assert (R : forall r, (verifyEquivocationProof p set = Ok true -> ep_validator p ∈ ss_accepted st) ->
    slash_inv set (ps ++ [p]) {| ss_accepted := ss_accepted st; ss_slashed := ss_slashed st;
      ss_rejected := ss_rejected st ++
      [{| rej_validator := ep_validator p; rej_proof := p; rej_reason := r |}] |}).
  { intros r Hp. split; cbn; [|done|rewrite !length_app; cbn; lia].
    intros v. rewrite I1. split.
    - intros (q & Hq & ?). exists q. set_solver.
    - intros (q & [Hq| ->%list_elem_of_singleton]%elem_of_app & <- & V); [by exists q|].
      by apply I1, Hp. }
  case_bool_decide as E; [by apply R|].
  destruct (verifyEquivocationProof p set) as [[]|] eqn:V; [| by apply R | by apply R].
  split; cbn.
  - intros v. rewrite elem_of_union, elem_of_singleton, I1. split.
    + intros [->|(q & Hq & ?)]; [exists p; set_solver | exists q; set_solver].
    + intros (q & [Hq| ->%list_elem_of_singleton]%elem_of_app & <- & ?); [right; by exists q | by left].
  - rewrite list_to_set_app_L, I2. split; [set_solver|]. apply NoDup_app. split_and!; [done | |].
    + intros v Hv ->%list_elem_of_singleton. apply E. rewrite <- I2. by apply elem_of_list_to_set.
    + apply NoDup_singleton.
  - rewrite !length_app. cbn. lia.
Qed.

Lemma slash_fold_inv set ps : slash_inv set ps (fold_left (slash_step set) ps
  {| ss_accepted := ∅; ss_slashed := []; ss_rejected := [] |}).
Proof.
  induction ps as [|p ps IH] using rev_ind.
  - split; cbn; [|split; [done | constructor]|done]. intros v. split; [set_solver|].
    by intros (q & ?%elem_of_nil & _).
  - rewrite fold_left_app. cbn. by apply slash_step_inv.
Qed.
End facts.

(** ** Properties *)
Section properties.
Context {L : Lib} {C : Ed25519}.

(** The proof two conflicting attestations make. *)
Definition proof_of (a b : Attestation) : EquivocationProof := {|
  ep_validator := att_validator a; ep_height := att_height a;
  blockHashA := att_blockHash a; blockHashB := att_blockHash b; attA := a; attB := b |}.

Lemma proof_of_ok `{!CborLaws L} `{!HexLaws L} bA bB hA hB setId set k a b :
  att_valid bA hA setId set a -> att_valid bB hB setId set b -> att_validator a = bytesToHex k ->
  att_validator b = att_validator a -> hA <> hB ->
  num_eqb (height (header bA)) (height (header bB)) = true -> consensusSetId set = Ok setId ->
  ProofOK set (proof_of a b).
Proof.
  intros VA VB Hk Hv Hn Hh Es. pose proof VA as [A1 A2 A3 A4 _]. pose proof VB as [B1 B2 B3 B4 _].
  constructor; cbn [proof_of ep_validator ep_height blockHashA blockHashB attA attB]; try done.
  - congruence.
  - split.
    + eapply num_eqb_trans; [exact A2|]. eapply num_eqb_trans; [exact Hh|].
      by rewrite num_eqb_sym.
    + eapply num_eqb_trans; [exact A2|]. by rewrite num_eqb_sym.
  - exists setId. split_and!; [done | by eapply att_valid_evidence |].
    eapply att_valid_evidence; [by rewrite Hv | done].
Qed.

(** Conflicting finalized blocks convict. *)
Lemma conflict_convicts `{!CborLaws L} `{!HexLaws L}
    bA attsA bB attsB set prevA prevB fnum fden optsA optsB vA vB hA hB :
  (forall v, v ∈ validators set -> exists k, pubkey v = bytesToHex k) ->
  verifyFinalized bA attsA set prevA fnum fden optsA = Ok vA -> finalized vA = true ->
  verifyFinalized bB attsB set prevB fnum fden optsB = Ok vB -> finalized vB = true ->
  blockHash (header bA) = Ok hA -> blockHash (header bB) = Ok hB -> hA <> hB ->
  num_eqb (height (header bA)) (height (header bB)) = true ->
  exists X : gset string,
    (2 * num_Z fnum - num_Z fden) * totalStake set <= stake_in set X * num_Z fden /\
    forall v, v ∈ X -> exists a b, a ∈ attsA /\ b ∈ attsB /\
      att_validator a = v /\ att_validator b = v /\
      verifyEquivocationProof (proof_of a b) set = Ok true.
Proof.
  intros Hk EA FA EB FB HA HB Hn Hh.
  destruct (verifyFinalized_finalized _ _ _ _ _ _ _ _ EA FA) as (_ & hA' & setId & XA & PA & _).
  destruct (verifyFinalized_finalized _ _ _ _ _ _ _ _ EB FB) as (_ & hB' & setId' & XB & PB & _).
  destruct PA as [A1 A2 A3 A4 A5 A6 A7 _ _ _], PB as [B1 B2 B3 B4 B5 B6 B7 _ _ _].
  assert (hA' = hA) as -> by congruence. assert (hB' = hB) as -> by congruence.
  assert (setId' = setId) as -> by congruence. exists (XA ∩ XB). split.
  - pose proof (stake_in_union_inter set XA XB). pose proof (stake_in_le set (XA ∪ XB)).
    pose proof (valid_threshold_Z _ _ A4). nia.
  - intros v [HvA HvB]%elem_of_intersection.
    destruct (A7 v HvA) as (a & Ha & Hav & Va), (B7 v HvB) as (b & Hb & Hbv & Vb).
    exists a, b. split_and!; try done. apply verifyEquivocationProof_iff.
    assert (exists k, v = bytesToHex k) as [k Hvk].
    { pose proof (av_stake _ _ _ _ _ Va) as S. rewrite Hav in S. unfold stakeOf in S.
      destruct (find _ _) as [w|] eqn:E; [|lia].
      apply find_some in E as [E1 E2%bool_decide_eq_true]. destruct (Hk w E1) as [k E]. exists k.
      congruence. }
    eapply (proof_of_ok bA bB hA hB setId set k); congruence.
Qed.

(** C1: Accountable safety.  If two different blocks of one height are both
    finalized for one validator set, at the same threshold, then the
    validators that attested both hold at least twice the threshold minus
    one of the stake (a third, at two thirds), and each of them is
    convicted: one of its attestations of the first block together with one
    of its attestations of the second is an equivocation proof that
    [verifyEquivocationProof] accepts.  The validators' keys are hex text. *)
Theorem accountable_safety `{!CborLaws L} `{!HexLaws L}
    bA attsA bB attsB set prevA prevB fnum fden optsA optsB vA vB hA hB :
  (forall v, v ∈ validators set -> exists k, pubkey v = bytesToHex k) ->
  verifyFinalized bA attsA set prevA fnum fden optsA = Ok vA -> finalized vA = true ->
  verifyFinalized bB attsB set prevB fnum fden optsB = Ok vB -> finalized vB = true ->
  blockHash (header bA) = Ok hA -> blockHash (header bB) = Ok hB -> hA <> hB ->
  num_eqb (height (header bA)) (height (header bB)) = true ->
  exists X : gset string,
    (2 * num_Z fnum - num_Z fden) * totalStake set <= stake_in set X * num_Z fden /\
    forall v, v ∈ X -> exists a b, a ∈ attsA /\ b ∈ attsB /\
      att_validator a = v /\ att_validator b = v /\
      verifyEquivocationProof (proof_of a b) set = Ok true.
Proof. apply conflict_convicts. Qed.

(** Slashing.  On a batch within the bound, [slash] removes exactly the
    validators that a proof of the batch convicts, keeps every other
    validator in place and the epoch, names each slashed validator once, and
    puts every other proof on the rejected list; a larger batch changes
    nothing. *)
Theorem slash_spec set ps :
  ((MAX_PROOFS_PER_SLASH < length ps)%nat ->
     slash set ps = {| sl_set := set; slashed := []; rejected := [] |}) /\
  ((length ps <= MAX_PROOFS_PER_SLASH)%nat ->
     (forall v, v ∈ slashed (slash set ps) <->
        exists p, p ∈ ps /\ ep_validator p = v /\ verifyEquivocationProof p set = Ok true) /\
     validators (sl_set (slash set ps)) =
       filter (fun w => pubkey w ∉ slashed (slash set ps)) (validators set) /\
     epoch (sl_set (slash set ps)) = epoch set /\ NoDup (slashed (slash set ps)) /\
     (length (slashed (slash set ps)) + length (rejected (slash set ps)) = length ps)%nat).
Proof.
  unfold slash. split; intros Hl.
  - by rewrite (proj2 (Nat.ltb_lt _ _)).
  - rewrite (proj2 (Nat.ltb_ge _ _)) by done. cbn [sl_set slashed rejected validators epoch].
    destruct (slash_fold_inv set ps) as [I1 [I2 I3] I4].
    set (st := fold_left _ _ _) in *.
    assert (M : forall v, v ∈ ss_slashed st <-> v ∈ ss_accepted st)
      by (intros v; by rewrite <- I2, elem_of_list_to_set).
    split_and!; try done.
    + intros v. rewrite M. apply I1.
    + induction (validators set) as [|w vs IH]; [done|]. cbn [List.filter].
      rewrite filter_cons, IH. destruct (decide (pubkey w ∉ ss_slashed st)) as [D|D].
      * rewrite bool_decide_false by (by rewrite <- M). done.
      * rewrite bool_decide_true by (rewrite <- M; by apply dec_stable). done.
Qed.

(** The attestations of [v] for the block hash [h]. *)
Definition of_validator (v h : string) (a : Attestation) : bool :=
  bool_decide (att_validator a = v) && bool_decide (att_blockHash a = h).

Lemma by_validator_last h v atts :
  by_validator h atts !! v = find (of_validator v h) (rev atts).
Proof.
  unfold by_validator. induction atts as [|a atts IH] using rev_ind; [apply lookup_empty|].
  rewrite fold_left_app, rev_app_distr. cbn [fold_left rev app find]. unfold of_validator at 1.
  case_bool_decide as E; cbn.
  - case_bool_decide as D; [subst v; by rewrite lookup_insert_eq | by rewrite lookup_insert_ne].
  - rewrite andb_false_r. done.
Qed.

(** What a returned proof is made of: the last attestation of the validator
    for the first block, its first for the second. *)
Record proof_made (hgt : num) (hA hB : string) (attsA attsB : list Attestation)
    (p : EquivocationProof) : Prop := {
  pm_A : find (of_validator (ep_validator p) hA) (rev attsA) = Some (attA p);
  pm_B : find (of_validator (ep_validator p) hB) attsB = Some (attB p);
  pm_rest : ep_height p = hgt /\ blockHashA p = hA /\ blockHashB p = hB }.

Lemma detect_loop_spec hgt hA hB attsA atts : forall seen,
  let ps := detect_loop hgt hA hB (by_validator hA attsA) seen atts in
  NoDup (map ep_validator ps) /\
  (forall v, v ∈ map ep_validator ps <->
     (v ∉ seen) /\ is_Some (find (of_validator v hA) (rev attsA)) /\
     is_Some (find (of_validator v hB) atts)) /\
  forall p, p ∈ ps -> proof_made hgt hA hB attsA atts p.
Proof.
  induction atts as [|b atts IH]; intros seen; cbn [detect_loop].
  { split_and!; [constructor | | by intros p ?%elem_of_nil].
    intros v. cbn. split; [by intros ?%elem_of_nil | by intros (_ & _ & [? ?])]. }
  assert (Skip : forall ps, (negb (bool_decide (att_blockHash b = hB)) ||
      bool_decide (att_validator b ∈ seen) = true \/
      find (of_validator (att_validator b) hA) (rev attsA) = None) ->
    NoDup (map ep_validator ps) /\
    (forall v, v ∈ map ep_validator ps <-> (v ∉ seen) /\
      is_Some (find (of_validator v hA) (rev attsA)) /\ is_Some (find (of_validator v hB) atts)) /\
    (forall p, p ∈ ps -> proof_made hgt hA hB attsA atts p) ->
    NoDup (map ep_validator ps) /\
    (forall v, v ∈ map ep_validator ps <-> (v ∉ seen) /\
      is_Some (find (of_validator v hA) (rev attsA)) /\ is_Some (find (of_validator v hB) (b :: atts))) /\
    (forall p, p ∈ ps -> proof_made hgt hA hB attsA (b :: atts) p)).
  { intros ps G (I1 & I2 & I3).
    assert (F : forall v, v ∉ seen -> is_Some (find (of_validator v hA) (rev attsA)) ->
      find (of_validator v hB) (b :: atts) = find (of_validator v hB) atts).
    { intros v Hv Hs. cbn [find]. unfold of_validator at 1.
      destruct (decide (att_validator b = v)) as [E|E]; [|by rewrite bool_decide_false].
      rewrite bool_decide_true by done. destruct G as [G|G].
      - apply orb_true_iff in G as [G%negb_true_iff|G].
        + by rewrite G.
        + apply bool_decide_eq_true in G. congruence.
      - rewrite E in G. rewrite G in Hs. by destruct Hs. }
    split_and!; [done | |].
    - intros v. rewrite I2. split; intros (? & ? & ?); split_and!; try done.
      + by rewrite F.
      + by rewrite F in *.
    - intros p Hp. destruct (I3 p Hp) as [J1 J2 J3].
      assert (Hm : ep_validator p ∈ map ep_validator ps) by (by apply (list_elem_of_fmap_2 ep_validator)).
      apply I2 in Hm as (? & ? & _). constructor; [done | by rewrite F | done]. }
  destruct (negb _ || _) eqn:G; [apply Skip; [by left | apply IH]|].
  rewrite by_validator_last. destruct (find _ (rev attsA)) as [a|] eqn:Fa;
    [|apply Skip; [by right | apply IH]].
  clear Skip. apply orb_false_iff in G as [G1%negb_false_iff%bool_decide_eq_true G2%bool_decide_eq_false].
  destruct (IH ({[att_validator b]} ∪ seen)) as (I1 & I2 & I3). cbn [map ep_validator].
  assert (B : find (of_validator (att_validator b) hB) (b :: atts) = Some b).
  { cbn [find]. unfold of_validator. by rewrite !bool_decide_true. }
  assert (F : forall v, v <> att_validator b ->
    find (of_validator v hB) (b :: atts) = find (of_validator v hB) atts).
  { intros v Hv. cbn [find]. unfold of_validator at 1. by rewrite bool_decide_false. }
  split_and!.
  - constructor; [|done]. rewrite I2. set_solver.
  - intros v. rewrite elem_of_cons, I2. destruct (decide (v = att_validator b)) as [->|Hv].
    + split; [|by left]. intros _. rewrite Fa, B. eauto.
    + rewrite F by done. set_solver.
  - intros p [->|Hp]%elem_of_cons; [by constructor|]. destruct (I3 p Hp) as [J1 J2 J3].
    assert (Hm : ep_validator p ∈ map ep_validator
      (detect_loop hgt hA hB (by_validator hA attsA) ({[att_validator b]} ∪ seen) atts))
      by (by apply (list_elem_of_fmap_2 ep_validator)).
    apply I2 in Hm as (Hm & _ & _). constructor; [done | rewrite F; [done | set_solver] | done].
Qed.

(** Detection, exactly: for two different blocks of one height (and at
    most 4096 attestations a side) [detectEquivocations] returns one proof for
    every validator that has an attestation on either side for its block, and
    for no one else; the proof holds the validator's LAST attestation for the
    first block and its FIRST for the second, whatever their signatures. *)
Theorem detect_spec bA attsA bB attsB hA hB :
  blockHash (header bA) = Ok hA -> blockHash (header bB) = Ok hB -> hA <> hB ->
  num_eqb (height (header bA)) (height (header bB)) = true ->
  (length attsA <= MAX_ATTESTATIONS_PER_SIDE)%nat ->
  (length attsB <= MAX_ATTESTATIONS_PER_SIDE)%nat ->
  exists ps, detectEquivocations bA attsA bB attsB = Ok ps /\ NoDup (map ep_validator ps) /\
    (forall v, v ∈ map ep_validator ps <->
       is_Some (find (of_validator v hA) (rev attsA)) /\
       is_Some (find (of_validator v hB) attsB)) /\
    forall p, p ∈ ps -> proof_made (height (header bA)) hA hB attsA attsB p.
Proof.
  intros HA HB Hn Hh LA LB. unfold detectEquivocations.
  rewrite !(proj2 (Nat.ltb_ge _ _)) by done. rewrite Hh, HA, HB. cbn [orb negb mbind res_bind].
  rewrite bool_decide_false by done. eexists. split; [done|].
  destruct (detect_loop_spec (height (header bA)) hA hB attsA attsB ∅) as (I1 & I2 & I3).
  split_and!; [done | | done]. intros v. rewrite I2. set_solver.
Qed.
End properties.

(** ** Concrete runs: v2 proposes twice, v1 and v2 attest both *)
Definition opts0 : VerifyOpts := {| expectedHeight := Some (Int 0); expectedSuite := Some "PS-5" |}.
Definition verdict0 (payload : string) (atts : list Attestation) : LightClientVerdict :=
  get (verdict sample_set (Int 0) (Int 0) 0 0 [])
    (verifyFinalized (block0 payload) atts sample_set GENESIS_PREV (Int 2) (Int 3) opts0).
Definition hash0 (payload : string) : string := get "" (blockHash (header (block0 payload))).
Definition proofs0 : list EquivocationProof :=
  get [] (detectEquivocations (block0 "root") (atts0 "root") (block0 "evil") (atts0 "evil")).

Lemma sample_keys_hex v : v ∈ validators sample_set -> exists k, pubkey v = bytesToHex k.
Proof.
  intros Hv. cbn in Hv. rewrite !elem_of_cons in Hv.
  destruct Hv as [->|[->|[->|[]%elem_of_nil]]];
    [by exists (publicKey (kp "v3")) | by exists (publicKey (kp "v1")) | by exists (publicKey (kp "v2"))].
Qed.

Lemma accountable_safety_witness : exists X : gset string,
  (2 * 2 - 3) * totalStake sample_set <= stake_in sample_set X * 3 /\
  forall v, v ∈ X -> exists a b, a ∈ atts0 "root" /\ b ∈ atts0 "evil" /\
    att_validator a = v /\ att_validator b = v /\
    verifyEquivocationProof (proof_of a b) sample_set = Ok true.
Proof.
  refine (accountable_safety (block0 "root") (atts0 "root") (block0 "evil") (atts0 "evil") sample_set
    GENESIS_PREV GENESIS_PREV (Int 2) (Int 3) opts0 opts0 (verdict0 "root" (atts0 "root"))
    (verdict0 "evil" (atts0 "evil")) (hash0 "root") (hash0 "evil") sample_keys_hex _ _ _ _ _ _ _ _).
  - by vm_compute.
  - by vm_compute.
  - by vm_compute.
  - by vm_compute.
  - by vm_compute.
  - by vm_compute.
  - by vm_compute.
  - by vm_compute.

Defined.

Lemma slash_spec_witness :
  slashed (slash sample_set (proofs0 ++ proofs0)) = [kp_hex "v1"; kp_hex "v2"] /\
  NoDup (slashed (slash sample_set (proofs0 ++ proofs0))).
Proof.
  split; [by vm_compute|].
  assert (Hl : (length (proofs0 ++ proofs0) <= MAX_PROOFS_PER_SLASH)%nat)
    by (apply Nat.leb_le; by vm_compute).
  exact (proj1 (proj2 (proj2 (proj2 (proj2 (slash_spec sample_set (proofs0 ++ proofs0)) Hl))))).
Defined.

Lemma detect_spec_witness : exists ps,
  detectEquivocations (block0 "root") (atts0 "root") (block0 "evil") (atts0 "evil") = Ok ps /\
  NoDup (map ep_validator ps).
Proof.
  assert (HA : (length (atts0 "root") <= MAX_ATTESTATIONS_PER_SIDE)%nat)
    by (apply Nat.leb_le; by vm_compute).
  assert (HB : (length (atts0 "evil") <= MAX_ATTESTATIONS_PER_SIDE)%nat)
    by (apply Nat.leb_le; by vm_compute).
  assert (Hn : hash0 "root" <> hash0 "evil") by (by vm_compute).
  assert (H1 : blockHash (header (block0 "root")) = Ok (hash0 "root")) by (by vm_compute).
  assert (H2 : blockHash (header (block0 "evil")) = Ok (hash0 "evil")) by (by vm_compute).
  assert (Hh : num_eqb (height (header (block0 "root"))) (height (header (block0 "evil"))) = true)
    by (by vm_compute).
  destruct (detect_spec _ _ _ _ _ _ H1 H2 Hn Hh HA HB) as (ps & E & N & _).
  exact (ex_intro _ ps (conj E N)).
Defined.

(** Two finalized conflicting blocks, where a party that carries the first
    block's attestations has appended unsigned copies of them: the verdict is
    still final (the copies are not counted), but every proof
    [detectEquivocations] builds is rejected and nobody is slashed, although the
    two attestation lists hold proofs that convict v1 and v2. *)
Definition unsigned (a : Attestation) : Attestation := {|
  att_blockHash := att_blockHash a; att_height := att_height a;
  att_validator := att_validator a; att_suite := att_suite a; att_sig := [] |}.
Definition padded : list Attestation := atts0 "root" ++ map unsigned (atts0 "root").

Theorem unsigned_copies_hide_equivocation :
  finalized (verdict0 "root" padded) = true /\ finalized (verdict0 "evil" (atts0 "evil")) = true /\
  (ps ← detectEquivocations (block0 "root") padded (block0 "evil") (atts0 "evil");
   Ok (length ps, slashed (slash sample_set ps))) = Ok (2%nat, []) /\
  slashed (slash sample_set (zip_with proof_of padded (atts0 "evil"))) = [kp_hex "v1"; kp_hex "v2"].
Proof. by vm_compute. Qed.
