(* ===== verification/Gossip.v ===== *)
(** * ledger/: gossip nodes and the bus

    src/ledger/src/gossip.ts.  A handler runs in the monad [M]: it changes the
    node, may throw half-way (the changes stay), and its effects outside the
    node are events in order: a message given to [bus.broadcast], and an
    attestation signed with the node's key.  [Map]s whose iteration order can
    be observed are lists, the others finite maps; keys that are numbers are
    compared as [Map] does. *)
From S2P Require Import Prelude JsNum JsVal Crypto Concrete Sortition Vrf Leader Chain Finality Equivocation.
Open Scope string_scope.
Open Scope Z_scope.
Open Scope list_scope.

Inductive GossipMessage := GBlock (b : Block) | GAttestation (a : Attestation).

Definition MAX_FUTURE_HEIGHTS : Z := 64.
Definition MAX_PENDING_PER_HEIGHT : nat := 64.
Definition MAX_KNOWN_AT_HEIGHT : nat := MAX_PENDING_PER_HEIGHT.
Definition MAX_OBSERVED_CONFLICTS : nat := Z.to_nat 64 * MAX_PENDING_PER_HEIGHT.
Definition MAX_ATTESTED_HASHES : nat := Z.to_nat 64 * MAX_PENDING_PER_HEIGHT.
Definition MAX_HASHES_PER_VALIDATOR : nat := Z.to_nat 64 * 2.

(** Key equality of [Map]: [===], and NaN equals itself. *)
Definition same_key (a b : num) : bool :=
  num_eqb a b || match a, b with NaN, NaN => true | _, _ => false end.
Definition num_get {A} (m : list (num * A)) (k : num) : option A :=
  snd <$> find (fun e => same_key e.1 k) m.
(** [m.set(k, v)]: in place, or at the end *)
Fixpoint num_set {A} (m : list (num * A)) (k : num) (v : A) : list (num * A) :=
  match m with
  | [] => [(k, v)]
  | e :: m' => if same_key e.1 k then (e.1, v) :: m' else e :: num_set m' k v
  end.
Definition num_delete {A} (m : list (num * A)) (k : num) : list (num * A) :=
  List.filter (fun e => negb (same_key e.1 k)) m.
(** [for (const k of [...m.keys()]) if (k < height) m.delete(k)] *)
Definition num_prune {A} (m : list (num * A)) (height : num) : list (num * A) :=
  List.filter (fun e => negb (num_ltb e.1 height)) m.

Record Conflict := { cf_height : num; cf_a : string; cf_b : string }.

Record GossipNode := {
  key : KeyPair;
  id : string;
  ledger : Ledger;
  knownBlocks : gmap string Block;
  (** block hash -> the attestations, keyed by validator, in order of arrival *)
  attestations : gmap string (list (string * Attestation));
  hashesByValidator : gmap string (gset string);
  attestedAt : list (num * string);
  finalizedHashes : gset string;
  pendingBlocks : list (num * list Block);
  observedConflicts : list Conflict }.

Inductive event :=
| Broadcast (m : GossipMessage)
| Signed (height : num) (hash : string).

(** ** The monad of the handlers *)
Definition M (A : Type) : Type := GossipNode -> GossipNode * list event * res A.
#[export] Instance M_ret : MRet M := fun A a n => (n, [], Ok a).
#[export] Instance M_bind : MBind M := fun A B k c n =>
  match c n with
  | (n', es, Ok a) => let '(n'', es', r) := k a n' in (n'', es ++ es', r)
  | (n', es, Throw e) => (n', es, Throw e)
  end.
Definition lift {A} (c : res A) : M A := fun n => (n, [], c).
Definition emit (e : event) : M unit := fun n => (n, [e], Ok tt).
Definition read : M GossipNode := fun n => (n, [], Ok n).
Definition update (f : GossipNode -> GossipNode) : M unit := fun n => (f n, [], Ok tt).
Definition ret_unit : M unit := fun n => (n, [], Ok tt).

(** Field updates. *)
Definition set_ledger (l : Ledger) (n : GossipNode) : GossipNode :=
  {| key := key n; id := id n; ledger := l; knownBlocks := knownBlocks n;
     attestations := attestations n; hashesByValidator := hashesByValidator n;
     attestedAt := attestedAt n; finalizedHashes := finalizedHashes n;
     pendingBlocks := pendingBlocks n; observedConflicts := observedConflicts n |}.
Definition set_known (k : gmap string Block) (n : GossipNode) : GossipNode :=
  {| key := key n; id := id n; ledger := ledger n; knownBlocks := k;
     attestations := attestations n; hashesByValidator := hashesByValidator n;
     attestedAt := attestedAt n; finalizedHashes := finalizedHashes n;
     pendingBlocks := pendingBlocks n; observedConflicts := observedConflicts n |}.
Definition set_pool (p : gmap string (list (string * Attestation))) (h : gmap string (gset string))
    (n : GossipNode) : GossipNode :=
  {| key := key n; id := id n; ledger := ledger n; knownBlocks := knownBlocks n;
     attestations := p; hashesByValidator := h;
     attestedAt := attestedAt n; finalizedHashes := finalizedHashes n;
     pendingBlocks := pendingBlocks n; observedConflicts := observedConflicts n |}.
Definition set_attestedAt (a : list (num * string)) (n : GossipNode) : GossipNode :=
  {| key := key n; id := id n; ledger := ledger n; knownBlocks := knownBlocks n;
     attestations := attestations n; hashesByValidator := hashesByValidator n;
     attestedAt := a; finalizedHashes := finalizedHashes n;
     pendingBlocks := pendingBlocks n; observedConflicts := observedConflicts n |}.
Definition set_finalized (f : gset string) (n : GossipNode) : GossipNode :=
  {| key := key n; id := id n; ledger := ledger n; knownBlocks := knownBlocks n;
     attestations := attestations n; hashesByValidator := hashesByValidator n;
     attestedAt := attestedAt n; finalizedHashes := f;
     pendingBlocks := pendingBlocks n; observedConflicts := observedConflicts n |}.
Definition set_pending (p : list (num * list Block)) (n : GossipNode) : GossipNode :=
  {| key := key n; id := id n; ledger := ledger n; knownBlocks := knownBlocks n;
     attestations := attestations n; hashesByValidator := hashesByValidator n;
     attestedAt := attestedAt n; finalizedHashes := finalizedHashes n;
     pendingBlocks := p; observedConflicts := observedConflicts n |}.
Definition set_conflicts (c : list Conflict) (n : GossipNode) : GossipNode :=
  {| key := key n; id := id n; ledger := ledger n; knownBlocks := knownBlocks n;
     attestations := attestations n; hashesByValidator := hashesByValidator n;
     attestedAt := attestedAt n; finalizedHashes := finalizedHashes n;
     pendingBlocks := pendingBlocks n; observedConflicts := c |}.

(** The index of the pool by validator, rebuilt. *)
Definition add_hashes (h : string) (byV : list (string * Attestation))
    (m : gmap string (gset string)) : gmap string (gset string) :=
  fold_left (fun m kv => <[kv.1 := {[h]} ∪ default ∅ (m !! kv.1)]> m) byV m.
Definition rebuild_index (pool : gmap string (list (string * Attestation)))
  : gmap string (gset string) := map_fold add_hashes ∅ pool.

Definition pool_get (byV : list (string * Attestation)) (v : string) : option Attestation :=
  snd <$> find (fun kv => bool_decide (kv.1 = v)) byV.

Section gossip.
Context {L : Lib} {C : Ed25519}.

Definition new_node (k : KeyPair) (set : ValidatorSet) (suite : string) (fnum fden : num)
  : GossipNode :=
  {| key := k; id := bytesToHex (publicKey k); ledger := new_ledger set suite fnum fden;
     knownBlocks := ∅; attestations := ∅; hashesByValidator := ∅; attestedAt := [];
     finalizedHashes := ∅; pendingBlocks := []; observedConflicts := [] |}.

Definition node_height (n : GossipNode) : num := ledger_height (ledger n).
Definition node_set (n : GossipNode) : ValidatorSet := l_set (ledger n).
Definition hasFinalized (n : GossipNode) (h : string) : bool := bool_decide (h ∈ finalizedHashes n).
Definition attestationsFor (n : GossipNode) (h : string) : list Attestation :=
  map snd (default [] (attestations n !! h)).
Definition pendingBlockCount (n : GossipNode) : nat :=
  foldr (fun e c => length e.2 + c)%nat 0%nat (pendingBlocks n).
Definition knownBlockCount (n : GossipNode) : nat := size (knownBlocks n).

Definition tryFinalize (hash : string) : M unit :=
  n ← read;
  if bool_decide (hash ∈ finalizedHashes n) then ret_unit else
  match knownBlocks n !! hash with
  | None => ret_unit
  | Some block =>
      if negb (num_eqb (height (header block)) (node_height n)) then ret_unit else
      match submit (ledger n) block (attestationsFor n hash) with
      | Ok (l', _) =>
          _ ← update (set_ledger l');
          update (fun n => set_finalized ({[hash]} ∪ finalizedHashes n) n)
      | Throw _ => ret_unit
      end
  end.

Definition onAttestation (att : Attestation) : M unit :=
  n ← read;
  if negb (bool_decide (att_suite att = l_suite (ledger n))) then ret_unit else
  if stakeOf (node_set n) (att_validator att) <=? 0 then ret_unit else
  good ← lift (verifyAttestationSig att (node_set n));
  if negb good then ret_unit else
  if num_ltb (att_height att) (node_height n) ||
     num_ltb (num_add (node_height n) (Int MAX_FUTURE_HEIGHTS)) (att_height att)
  then ret_unit else
  let v := att_validator att in
  let h := att_blockHash att in
  let byValidator := attestations n !! h in
  if match byValidator ≫= fun byV => pool_get byV v with Some _ => true | None => false end
  then ret_unit else
  let vHashes := hashesByValidator n !! v in
  let validatorHasHash := match vHashes with Some hs => bool_decide (h ∈ hs) | None => false end in
  if negb validatorHasHash &&
     (MAX_HASHES_PER_VALIDATOR <=? match vHashes with Some hs => size hs | None => 0 end)%nat
  then ret_unit else
  if match byValidator with
     | None => (MAX_ATTESTED_HASHES <=? size (attestations n))%nat
     | Some _ => false
     end then ret_unit else
  let pool := <[h := default [] byValidator ++ [(v, att)]]> (attestations n) in
  let index := if validatorHasHash then hashesByValidator n
               else <[v := {[h]} ∪ default ∅ vHashes]> (hashesByValidator n) in
  _ ← update (set_pool pool index);
  _ ← emit (Broadcast (GAttestation att));
  tryFinalize h.

(** [list.some((b) => blockHash(b.header) === h)] *)
Fixpoint some_hash (l : list Block) (h : string) : res bool :=
  match l with
  | [] => Ok false
  | b :: l' => h' ← blockHash (header b);
               if bool_decide (h' = h) then Ok true else some_hash l' h
  end.

Definition bufferFuture (block : Block) : M unit :=
  n ← read;
  let bh := height (header block) in
  if num_ltb (num_add (node_height n) (Int MAX_FUTURE_HEIGHTS)) bh then ret_unit else
  let l := default [] (num_get (pendingBlocks n) bh) in
  h ← lift (blockHash (header block));
  dup ← lift (some_hash l h);
  if (dup : bool) then ret_unit else
  if (MAX_PENDING_PER_HEIGHT <=? length l)%nat then ret_unit else
  _ ← update (set_pending (num_set (pendingBlocks n) bh (l ++ [block])));
  emit (Broadcast (GBlock block)).

(** The node's own attestation: sign, record, gossip. *)
Definition attest_own (block : Block) (h : string) : M unit :=
  n ← read;
  _ ← update (set_attestedAt (num_set (attestedAt n) (height (header block)) h));
  a ← lift (attest (ledger n) block (key n));
  _ ← emit (Signed (height (header block)) h);
  onAttestation a.

Definition onBlock (block : Block) (flood : bool) : M unit :=
  n ← read;
  let bh := height (header block) in
  if num_ltb bh (node_height n) then ret_unit else
  if num_ltb (node_height n) bh then bufferFuture block else
  h ← lift (blockHash (header block));
  if match knownBlocks n !! h with Some _ => true | None => false end then ret_unit else
  if (MAX_KNOWN_AT_HEIGHT <=? size (knownBlocks n))%nat then ret_unit else
  _ ← update (set_known (<[h := block]> (knownBlocks n)));
  _ ← (if flood then emit (Broadcast (GBlock block)) else ret_unit);
  _ ← match num_get (attestedAt n) bh with
      | None => if 0 <? stakeOf (node_set n) (id n) then attest_own block h else ret_unit
      | Some already =>
          if negb (bool_decide (already = h)) &&
             (length (observedConflicts n) <? MAX_OBSERVED_CONFLICTS)%nat
          then update (set_conflicts (observedConflicts n ++
                 [{| cf_height := bh; cf_a := already; cf_b := h |}]))
          else ret_unit
      end;
  tryFinalize h.

(** The pruning at the head of the loop of [drainBuffered]. *)
Definition prune (n : GossipNode) : GossipNode :=
  let hgt := node_height n in
  let stale (b : Block) := num_ltb (height (header b)) hgt in
  let known := filter (fun e => negb (stale e.2) = true) (knownBlocks n) in
  let pool1 := filter (fun e => match knownBlocks n !! e.1 with
                                | Some b => negb (stale b) | None => true end = true)
                 (attestations n) in
  let pool2 := filter (fun e => match head e.2 with
                                | Some kv => negb (num_ltb (att_height kv.2) hgt)
                                | None => true end = true) pool1 in
  set_pending (num_prune (pendingBlocks n) hgt)
    (set_pool pool2 (rebuild_index pool2)
      (set_known known
        (set_attestedAt (num_prune (attestedAt n) hgt) n))).

Fixpoint replay_blocks (due : list Block) : M unit :=
  match due with
  | [] => ret_unit
  | b :: due' => _ ← onBlock b false; replay_blocks due'
  end.

(** The loop; [None] is out of fuel. *)
Fixpoint drain_loop (fuel : nat) (n : GossipNode) : option (GossipNode * list event * res unit) :=
  match fuel with
  | O => None
  | S fuel =>
      let n1 := prune n in
      let hgt := node_height n1 in
      match num_get (pendingBlocks n1) hgt with
      | None => Some (n1, [], Ok tt)
      | Some due =>
          match replay_blocks due (set_pending (num_delete (pendingBlocks n1) hgt) n1) with
          | (n2, es, Throw e) => Some (n2, es, Throw e)
          | (n2, es, Ok _) =>
              if num_eqb (node_height n2) hgt then Some (n2, es, Ok tt)
              else '(n3, es', r) ← drain_loop fuel n2; Some (n3, es ++ es', r)
          end
      end
  end.

Definition drainBuffered : M unit := fun n =>
  match drain_loop (S (length (pendingBlocks n))) n with
  | Some r => r
  | None => (n, [], Throw "unreachable")
  end.

Definition onMessage (m : GossipMessage) : M unit :=
  _ ← match m with GBlock b => onBlock b true | GAttestation a => onAttestation a end;
  drainBuffered.

Definition proposeIfLeader (payload : string) (ts : num) : M (option Block) :=
  n ← read;
  let rnd := canonicalRound (node_height n) in
  leader ← lift (selectLeader (node_set n) (headHash (ledger n)) rnd);
  if negb (bool_decide (leader = id n)) then mret None else
  block ← lift (propose (ledger n) payload rnd ts (key n));
  _ ← onBlock block true;
  _ ← drainBuffered;
  mret (Some block).

(** ** GossipBus *)
Record GossipBus := {
  handlers : list (string * GossipNode);
  queue : list (string * GossipMessage);
  reachable_from : string -> string -> bool;
  delivered : nat }.

(** [register]: the node's handler is kept under its id, in place if the id
    is taken. *)
Fixpoint put_node (hs : list (string * GossipNode)) (n : GossipNode) : list (string * GossipNode) :=
  match hs with
  | [] => [(id n, n)]
  | e :: hs' => if bool_decide (e.1 = id n) then (id n, n) :: hs' else e :: put_node hs' n
  end.
Definition register (bus : GossipBus) (n : GossipNode) : GossipBus :=
  {| handlers := put_node (handlers bus) n; queue := queue bus;
     reachable_from := reachable_from bus; delivered := delivered bus |}.
Definition setReachability (bus : GossipBus) (f : string -> string -> bool) : GossipBus :=
  {| handlers := handlers bus; queue := queue bus; reachable_from := f;
     delivered := delivered bus |}.

Definition copies (bus : GossipBus) (from : string) (m : GossipMessage)
  : list (string * GossipMessage) :=
  map (fun to => (to, m))
    (List.filter (fun to => negb (bool_decide (to = from)) && reachable_from bus from to)
      (map fst (handlers bus))).

(** The broadcasts of a handler, queued. *)
Definition enqueue (bus : GossipBus) (from : string) (es : list event) : list (string * GossipMessage) :=
  concat (map (fun e => match e with Broadcast m => copies bus from m | Signed _ _ => [] end) es).

(** One delivery: the queue's head is handed to its node. *)
Definition deliver (bus : GossipBus) : GossipBus * res unit :=
  match queue bus with
  | [] => (bus, Ok tt)
  | (to, m) :: q =>
      match find (fun e => bool_decide (e.1 = to)) (handlers bus) with
      | None => ({| handlers := handlers bus; queue := q; reachable_from := reachable_from bus;
                    delivered := S (delivered bus) |}, Ok tt)
      | Some e =>
          let '(n', es, r) := onMessage m e.2 in
          ({| handlers := put_node (handlers bus) n'; queue := q ++ enqueue bus to es;
              reachable_from := reachable_from bus;
              delivered := match r with Ok _ => S (delivered bus) | Throw _ => delivered bus end |}, r)
      end
  end.

Fixpoint bus_run (maxDeliveries : nat) (bus : GossipBus) : GossipBus * res unit :=
  match queue bus with
  | [] => (bus, Ok tt)
  | _ =>
      match maxDeliveries with
      | O => (bus, Throw "gossip did not converge (delivery cap hit)")
      | S k => match deliver bus with
               | (bus', Ok _) => bus_run k bus'
               | (bus', Throw e) => (bus', Throw e)
               end
      end
  end.
End gossip.
