(* ===== verification/Network.v ===== *)
(** * ledger/: what a gossip node guarantees

    The theorems of src/ledger/src/gossip.ts (the definitions are in Gossip.v). *)
From S2P Require Import Prelude JsNum JsVal Crypto Concrete Sortition Vrf Leader Chain Finality Equivocation Gossip.
Open Scope string_scope.
Open Scope Z_scope.
Open Scope list_scope.

(** ** The handlers as sequences of guarded steps

    Every run of a handler, whether it returns or throws, is a sequence of the
    steps below; the invariants are proved on the steps. *)
Section steps.
Context {L : Lib} {C : Ed25519}.

(** Neither stale nor ahead. *)
Definition at_height (n : GossipNode) (x : num) : Prop :=
  num_ltb x (node_height n) = false /\ num_ltb (node_height n) x = false.

Inductive gstep (n : GossipNode) : list event -> GossipNode -> Prop :=
| g_finalize hash block l' fb :
    knownBlocks n !! hash = Some block ->
    submit (ledger n) block (attestationsFor n hash) = Ok (l', fb) ->
    gstep n [] (set_finalized ({[hash]} ∪ finalizedHashes n) (set_ledger l' n))
| g_pool att h v vh :
    att_blockHash att = h -> att_validator att = v ->
    verifyAttestationSig att (node_set n) = Ok true -> 0 < stakeOf (node_set n) v ->
    vh = default ∅ (hashesByValidator n !! v) ->
    (h ∈ vh \/ (size vh < MAX_HASHES_PER_VALIDATOR)%nat) ->
    (is_Some (attestations n !! h) \/ (size (attestations n) < MAX_ATTESTED_HASHES)%nat) ->
    gstep n [Broadcast (GAttestation att)]
      (set_pool (<[h := default [] (attestations n !! h) ++ [(v, att)]]> (attestations n))
         (if bool_decide (h ∈ vh) then hashesByValidator n
          else <[v := {[h]} ∪ vh]> (hashesByValidator n)) n)
| g_buffer block l :
    num_ltb (node_height n) (height (header block)) = true ->
    num_ltb (num_add (node_height n) (Int MAX_FUTURE_HEIGHTS)) (height (header block)) = false ->
    l = default [] (num_get (pendingBlocks n) (height (header block))) ->
    (length l < MAX_PENDING_PER_HEIGHT)%nat ->
    gstep n [Broadcast (GBlock block)]
      (set_pending (num_set (pendingBlocks n) (height (header block)) (l ++ [block])) n)
| g_known block h es :
    at_height n (height (header block)) -> blockHash (header block) = Ok h ->
    (size (knownBlocks n) < MAX_KNOWN_AT_HEIGHT)%nat ->
    (es = [] \/ es = [Broadcast (GBlock block)]) ->
    gstep n es (set_known (<[h := block]> (knownBlocks n)) n)
| g_attest block h es :
    at_height n (height (header block)) -> blockHash (header block) = Ok h ->
    num_get (attestedAt n) (height (header block)) = None ->
    (es = [] \/ es = [Signed (height (header block)) h]) ->
    gstep n es (set_attestedAt (num_set (attestedAt n) (height (header block)) h) n)
| g_conflict c :
    (length (observedConflicts n) < MAX_OBSERVED_CONFLICTS)%nat ->
    gstep n [] (set_conflicts (observedConflicts n ++ [c]) n)
| g_prune : gstep n [] (prune n)
| g_take hgt : gstep n [] (set_pending (num_delete (pendingBlocks n) hgt) n).

Inductive gsteps : GossipNode -> list event -> GossipNode -> Prop :=
| gsteps_nil n : gsteps n [] n
| gsteps_cons n es n' es' n'' : gstep n es n' -> gsteps n' es' n'' -> gsteps n (es ++ es') n''.

Lemma gsteps_one n es n' : gstep n es n' -> gsteps n es n'.
Proof. intros G. rewrite <- (app_nil_r es). eapply gsteps_cons; [exact G | constructor]. Qed.
Lemma gsteps_app n es n' es' n'' : gsteps n es n' -> gsteps n' es' n'' -> gsteps n (es ++ es') n''.
Proof.
  induction 1 as [|n es n1 es1 n2 G _ IH]; intros H; [done|].
  rewrite <- app_assoc. eapply gsteps_cons; [exact G | by apply IH].
Qed.

(** The run of [c] from [n] is such a sequence. *)
Definition sound {A} (c : M A) (n : GossipNode) : Prop := gsteps n (c n).1.2 (c n).1.1.

Lemma sound_bind {A B} (c : M A) (k : A -> M B) n :
  sound c n -> (forall n1 es a, c n = (n1, es, Ok a) -> sound (k a) n1) -> sound (c ≫= k) n.
Proof.
  unfold sound. unfold mbind, M_bind. intros H K. destruct (c n) as [[n1 es] [a|e]]; [|exact H].
  specialize (K n1 es a eq_refl). destruct (k a n1) as [[n2 es2] r]. cbn in *.
  by eapply gsteps_app.
Qed.
Lemma sound_unit n : sound ret_unit n.
Proof. constructor. Qed.
Lemma sound_read {A} (k : GossipNode -> M A) n : sound (k n) n -> sound (read ≫= k) n.
Proof. intros H. apply sound_bind; [constructor|]. by intros n1 es a [= <- <- <-]. Qed.
Lemma sound_lift {A B} (c : res A) (k : A -> M B) n :
  (forall a, c = Ok a -> sound (k a) n) -> sound (lift c ≫= k) n.
Proof. intros H. apply sound_bind; [constructor|]. intros n1 es a [= <- <- E]. by apply H. Qed.
(** An update followed by an event is one step. *)
Lemma sound_update {A} f (k : unit -> M A) n :
  gstep n [] (f n) -> sound (k tt) (f n) -> sound (update f ≫= k) n.
Proof.
  intros G H. apply sound_bind; [by apply gsteps_one|]. by intros n1 es [] [= <- <-].
Qed.
Lemma sound_update_emit {A} f e (k : unit -> M A) n :
  gstep n [e] (f n) -> sound (k tt) (f n) ->
  sound (update f ≫= fun _ => emit e ≫= k) n.
Proof.
  intros G H. unfold sound in *. unfold mbind, M_bind, update, emit.
  destruct (k tt (f n)) as [[n2 es2] r]. cbn in *. change (e :: es2) with ([e] ++ es2).
  eapply gsteps_cons; [exact G | exact H].
Qed.

Lemma tryFinalize_sound hash n : sound (tryFinalize hash) n.
Proof.
  unfold tryFinalize. apply sound_read. destruct (bool_decide _); [constructor|].
  destruct (knownBlocks n !! hash) as [block|] eqn:K; [|constructor].
  destruct (negb _); [constructor|].
  destruct (submit (ledger n) block (attestationsFor n hash)) as [[l' fb]|] eqn:S; [|constructor].
  exact (gsteps_one _ _ _ (g_finalize n hash block l' fb K S)).
Qed.

Lemma onAttestation_sound att n : sound (onAttestation att) n.
Proof.
  unfold onAttestation. apply sound_read. destruct (negb _); [constructor|].
  destruct (Z.leb_spec (stakeOf (node_set n) (att_validator att)) 0); [constructor|].
  apply sound_lift. intros [] V; cbn [negb]; [|constructor].
  destruct (_ || _); [constructor|]. cbv zeta.
  destruct (match _ ≫= _ with Some _ => true | None => false end); [constructor|].
  destruct (_ && _) eqn:B; [constructor|].
  destruct (match attestations n !! att_blockHash att with None => _ | Some _ => _ end) eqn:P;
    [constructor|].
  assert (Ev : match hashesByValidator n !! att_validator att with
      | Some hs => bool_decide (att_blockHash att ∈ hs) | None => false end =
    bool_decide (att_blockHash att ∈ default ∅ (hashesByValidator n !! att_validator att)))
    by (destruct (hashesByValidator n !! att_validator att) as [hs|]; cbn [default from_option]; [done|];
      symmetry; apply bool_decide_eq_false; set_solver).
  rewrite Ev in *. apply sound_update_emit; [|apply tryFinalize_sound].
  eapply g_pool; [done | done | done | done | done | |].
  - apply andb_false_iff in B as [B|B].
    + left. by apply negb_false_iff, bool_decide_eq_true in B.
    + right. apply Nat.leb_gt in B.
      destruct (hashesByValidator n !! att_validator att); cbn [default from_option]; [exact B|].
      by rewrite size_empty.
  - destruct (attestations n !! att_blockHash att) eqn:E; [left; eauto|].
    right. by apply Nat.leb_gt.
Qed.

Lemma bufferFuture_sound block n : num_ltb (node_height n) (height (header block)) = true ->
  sound (bufferFuture block) n.
Proof.
  intros Ha. unfold bufferFuture. apply sound_read.
  destruct (num_ltb (num_add _ _) _) eqn:F; [constructor|].
  apply sound_lift. intros h Hh. apply sound_lift. intros [] _; [constructor|].
  destruct (Nat.leb_spec MAX_PENDING_PER_HEIGHT
    (length (default [] (num_get (pendingBlocks n) (height (header block)))))) as [|Hl];
    [constructor|].
  exact (gsteps_one _ _ _ (g_buffer n block _ Ha F eq_refl Hl)).
Qed.

Lemma attest_own_sound block h n : at_height n (height (header block)) ->
  blockHash (header block) = Ok h -> num_get (attestedAt n) (height (header block)) = None ->
  sound (attest_own block h) n.
Proof.
  intros Ha Hh Hn. unfold attest_own. apply sound_read.
  destruct (attest (ledger n) block (key n)) as [a|e] eqn:E.
  - assert (G : gstep n [Signed (height (header block)) h]
      (set_attestedAt (num_set (attestedAt n) (height (header block)) h) n))
      by (apply g_attest; auto).
    unfold sound. unfold mbind, M_bind, update, emit, lift.
    pose proof (onAttestation_sound a (set_attestedAt
      (num_set (attestedAt n) (height (header block)) h) n)) as S. unfold sound in S.
    destruct (onAttestation a _) as [[n2 es2] r]. cbn in *.
    change (Signed (height (header block)) h :: es2) with ([Signed (height (header block)) h] ++ es2).
    by eapply gsteps_cons.
  - unfold sound. cbn. apply gsteps_one. apply g_attest; auto.
Qed.

Lemma onBlock_sound block flood n : sound (onBlock block flood) n.
Proof.
  unfold onBlock. apply sound_read.
  destruct (num_ltb (height (header block)) (node_height n)) eqn:L1; [constructor|].
  destruct (num_ltb (node_height n) (height (header block))) eqn:L2; [by apply bufferFuture_sound|].
  apply sound_lift. intros h Hh. destruct (match knownBlocks n !! h with Some _ => _ | None => _ end);
    [constructor|].
  destruct (Nat.leb_spec MAX_KNOWN_AT_HEIGHT (size (knownBlocks n))); [constructor|].
  set (n1 := set_known (<[h:=block]> (knownBlocks n)) n).
  assert (Rest : sound (match num_get (attestedAt n) (height (header block)) with
      | None => if 0 <? stakeOf (node_set n) (id n) then attest_own block h else ret_unit
      | Some already =>
          if negb (bool_decide (already = h)) &&
             (length (observedConflicts n) <? MAX_OBSERVED_CONFLICTS)%nat
          then update (set_conflicts (observedConflicts n ++
                 [{| cf_height := height (header block); cf_a := already; cf_b := h |}]))
          else ret_unit
      end ≫= fun _ => tryFinalize h) n1).
  { apply sound_bind; [|intros n2 es a _; apply tryFinalize_sound].
    destruct (num_get (attestedAt n) (height (header block))) as [already|] eqn:A.
    - destruct (_ && _) eqn:B; [|constructor]. apply andb_true_iff in B as [_ B%Nat.ltb_lt].
      exact (gsteps_one _ _ _ (g_conflict n1 _ B)).
    - destruct (0 <? _); [|constructor]. by apply attest_own_sound. }
  assert (At : at_height n (height (header block))) by done.
  destruct flood.
  - apply sound_update_emit; [|exact Rest]. apply g_known; auto.
  - apply sound_update; [apply g_known; auto|]. apply sound_bind; [constructor|].
    intros n2 es a [= <- <- _]. exact Rest.
Qed.

Lemma replay_blocks_sound due : forall n, sound (replay_blocks due) n.
Proof.
  induction due as [|b due IH]; intros n; cbn [replay_blocks]; [constructor|].
  apply sound_bind; [apply onBlock_sound | auto].
Qed.

Lemma drain_loop_sound fuel : forall n n' es r,
  drain_loop fuel n = Some (n', es, r) -> gsteps n es n'.
Proof.
  induction fuel as [|fuel IH]; intros n n' es r; cbn [drain_loop]; [done|].
  destruct (num_get _ _) as [due|].
  2: { intros [= <- <- <-]. apply gsteps_one, g_prune. }
  set (n1 := set_pending _ _).
  assert (S1 : gsteps n [] n1).
  { change (@nil event) with (@nil event ++ []). eapply gsteps_cons; [apply g_prune|].
    apply gsteps_one, g_take. }
  pose proof (replay_blocks_sound due n1) as S2. unfold sound in S2.
  destruct (replay_blocks due n1) as [[n2 es2] [[]|e]]; cbn [fst snd] in S2.
  - pose proof (gsteps_app _ _ _ _ _ S1 S2) as S3. cbn [app] in S3.
    destruct (num_eqb _ _); [by intros [= <- <- <-]|].
    destruct (drain_loop fuel n2) as [[[n3 es3] r3]|] eqn:D; [|done].
    intros [= <- <- <-]. eapply gsteps_app; [exact S3 | by eapply IH].
  - intros [= <- <- <-]. by eapply (gsteps_app _ [] _ es2).
Qed.

Lemma drainBuffered_sound n : sound drainBuffered n.
Proof.
  unfold sound, drainBuffered. destruct (drain_loop _ n) as [[[n' es] r]|] eqn:D; [|constructor].
  by eapply drain_loop_sound.
Qed.

Lemma onMessage_sound m n : sound (onMessage m) n.
Proof.
  unfold onMessage. apply sound_bind.
  - destruct m; [apply onBlock_sound | apply onAttestation_sound].
  - intros n1 es a _. apply drainBuffered_sound.
Qed.

Lemma proposeIfLeader_sound p ts n : sound (proposeIfLeader p ts) n.
Proof.
  unfold proposeIfLeader. apply sound_read, sound_lift. intros l _.
  destruct (negb _); [constructor|]. apply sound_lift. intros b _.
  apply sound_bind; [apply onBlock_sound|]. intros n1 es1 a1 _.
  apply sound_bind; [apply drainBuffered_sound|]. intros n2 es2 a2 _. constructor.
Qed.
End steps.

(** ** Maps keyed by numbers *)
Lemma same_key_equiv a b : same_key a b = true <-> a ≡ b.
Proof.
  unfold same_key. rewrite orb_true_iff. split.
  - intros [H|H]; [by apply num_eqb_equiv | by destruct a, b].
  - destruct a as [|s|m k], b as [|t|n l]; cbn; try done; intros H.
    + by right.
    + left. subst. apply Bool.eqb_reflx.
    + left. by apply Z.eqb_eq.
Qed.

#[export] Instance same_key_proper : Proper ((≡) ==> (≡) ==> (=)) same_key.
Proof.
  intros a a' Ha b b' Hb. apply Bool.eq_iff_eq_true. by rewrite !same_key_equiv, Ha, Hb.
Qed.

Lemma num_get_proper {A} (m : list (num * A)) k k' : k ≡ k' -> num_get m k = num_get m k'.
Proof.
  intros E. unfold num_get. f_equal. induction m as [|e m IH]; cbn; [done|].
  rewrite E. by rewrite IH.
Qed.

Lemma num_get_set {A} (m : list (num * A)) k v k' :
  num_get (num_set m k v) k' = if same_key k k' then Some v else num_get m k'.
Proof.
  unfold num_get. induction m as [|e m IH]; cbn [num_set find].
  - cbn. by destruct (same_key k k').
  - destruct (same_key e.1 k) eqn:E; cbn [find].
    + apply same_key_equiv in E. cbn [fst]. rewrite E. by destruct (same_key k k').
    + destruct (same_key e.1 k') eqn:F; [|done]. destruct (same_key k k') eqn:G; [|done].
      apply same_key_equiv in F, G. rewrite <- G in F. apply same_key_equiv in F. congruence.
Qed.

Lemma num_get_prune {A} (m : list (num * A)) h k :
  num_get (num_prune m h) k = if num_ltb k h then None else num_get m k.
Proof.
  unfold num_get, num_prune. induction m as [|e m IH]; cbn [List.filter find].
  - by destruct (num_ltb k h).
  - destruct (same_key e.1 k) eqn:E.
    + apply same_key_equiv in E. rewrite E.
      destruct (num_ltb k h) eqn:F; cbn [negb]; [by rewrite IH|]. cbn [find]. apply same_key_equiv in E.
      by rewrite E.
    + destruct (num_ltb e.1 h); cbn [negb find]; rewrite ?E; exact IH.
Qed.

Lemma num_get_elem {A} (m : list (num * A)) k v : num_get m k = Some v ->
  exists k', (k', v) ∈ m /\ k' ≡ k.
Proof.
  unfold num_get. intros (e & F & ->)%fmap_Some. apply find_some in F as [F1 F2%same_key_equiv].
  exists e.1. by destruct e.
Qed.

Lemma num_set_elem {A} (m : list (num * A)) k v e : e ∈ num_set m k v ->
  e ∈ m \/ e.2 = v /\ e.1 ≡ k.
Proof.
  induction m as [|x m IH]; cbn [num_set].
  - intros ->%list_elem_of_singleton. by right.
  - destruct (same_key x.1 k) eqn:E.
    + intros [->|H]%elem_of_cons; [right; by apply same_key_equiv in E | left; by right].
    + intros [->|H]%elem_of_cons; [left; by left|]. destruct (IH H); [left; by right | by right].
Qed.

Lemma filter_incl {A} (f : A -> bool) l x : x ∈ List.filter f l -> x ∈ l.
Proof. rewrite !list_elem_of_In, filter_In. tauto. Qed.

(** ** The index of the pool *)
Lemma add_hashes_spec h byV : forall m v x,
  x ∈ default ∅ (add_hashes h byV m !! v) <->
  x ∈ default ∅ (m !! v) \/ x = h /\ v ∈ map fst byV.
Proof.
  unfold add_hashes. induction byV as [|kv byV IH]; intros m v x; cbn [fold_left map].
  - split; [by left | intros [H|[_ H%elem_of_nil]]; done].
  - rewrite IH, elem_of_cons. destruct (decide (v = kv.1)) as [->|D].
    + rewrite lookup_insert_eq. cbn. rewrite elem_of_union, elem_of_singleton. tauto.
    + rewrite lookup_insert_ne by done. tauto.
Qed.

Lemma rebuild_index_spec pool v h : h ∈ default ∅ (rebuild_index pool !! v) <->
  exists byV, pool !! h = Some byV /\ v ∈ map fst byV.
Proof.
  unfold rebuild_index. revert pool.
  apply (map_fold_weak_ind (fun (idx : gmap string (gset string)) (pool : gmap string (list (string * Attestation))) =>
    h ∈ default ∅ (idx !! v) <-> exists byV, pool !! h = Some byV /\ v ∈ map fst byV)).
  - rewrite lookup_empty. cbn. split; [by intros ?%elem_of_empty | intros (? & E & _); by rewrite lookup_empty in E].
  - intros i x m r Hi IH. rewrite add_hashes_spec, IH. destruct (decide (i = h)) as [->|D].
    + rewrite lookup_insert_eq. split.
      * intros [(byV & E & _)|[_ H]]; [congruence | by exists x].
      * intros (byV & [= <-] & H). by right.
    + rewrite lookup_insert_ne by done. split; [intros [H|[-> _]]; done | by left].
Qed.

(** ** The invariant *)
Section invariant.
Context {L : Lib} {C : Ed25519}.
Context (set : ValidatorSet) (suite : string) (fnum fden : num).

Definition signed_of (es : list event) : list (num * string) :=
  omap (fun e => match e with Signed k h => Some (k, h) | Broadcast _ => None end) es.

Record node_ok (es : list event) (n : GossipNode) : Prop := {
  ok_ledger : reachable set suite fnum fden (ledger n);
  ok_signed : forall k h, (k, h) ∈ signed_of es ->
    num_ltb k (node_height n) = true \/ is_Some (num_get (attestedAt n) k);
  ok_once : forall i j a b, signed_of es !! i = Some a -> signed_of es !! j = Some b ->
    a.1 ≡ b.1 -> i = j;
  ok_known : (size (knownBlocks n) <= MAX_KNOWN_AT_HEIGHT)%nat;
  ok_pool_size : (size (attestations n) <= MAX_ATTESTED_HASHES)%nat;
  ok_conflicts : (length (observedConflicts n) <= MAX_OBSERVED_CONFLICTS)%nat;
  ok_pending : forall k l, (k, l) ∈ pendingBlocks n ->
    (length l <= MAX_PENDING_PER_HEIGHT)%nat /\
    (Z.of_nat (length (chain (ledger n))) + MAX_FUTURE_HEIGHTS <= MAX_SAFE ->
     num_ltb (Int (Z.of_nat (length (chain (ledger n))) + MAX_FUTURE_HEIGHTS)) k = false);
  ok_pool : forall h byV v a, attestations n !! h = Some byV -> (v, a) ∈ byV ->
    att_validator a = v /\ att_blockHash a = h /\ 0 < stakeOf set v /\
    verifyAttestationSig a set = Ok true;
  ok_index : forall h byV v, attestations n !! h = Some byV -> v ∈ map fst byV ->
    h ∈ default ∅ (hashesByValidator n !! v);
  ok_index_size : forall v, (size (default ∅ (hashesByValidator n !! v)) <= MAX_HASHES_PER_VALIDATOR)%nat }.

Lemma new_node_ok k : node_ok [] (new_node k set suite fnum fden).
Proof.
  constructor; cbn [new_node ledger knownBlocks attestations hashesByValidator attestedAt
    pendingBlocks observedConflicts signed_of omap list_omap length].
  - apply reach_new.
  - by intros ? ? ?%elem_of_nil.
  - intros i j a b E. by rewrite lookup_nil in E.
  - rewrite map_size_empty. lia.
  - rewrite map_size_empty. lia.
  - lia.
  - by intros ? ? ?%elem_of_nil.
  - intros h byV v a E. by rewrite lookup_empty in E.
  - intros h byV v E. by rewrite lookup_empty in E.
  - intros v. rewrite lookup_empty. cbn. rewrite size_empty. lia.
Qed.

Lemma ltb_next k (i : nat) : num_ltb k (Int (Z.of_nat i)) = true ->
  num_ltb k (Int (Z.of_nat i + 1)) = true.
Proof.
  destruct k as [|s|m e]; cbn; try done. rewrite !Z.ltb_lt. pose proof (pow2_pos e).
  change (pow2 0) with 1. nia.
Qed.
Lemma not_ltb_next k (i : nat) : num_ltb (Int (Z.of_nat i + MAX_FUTURE_HEIGHTS)) k = false ->
  num_ltb (Int (Z.of_nat i + 1 + MAX_FUTURE_HEIGHTS)) k = false.
Proof.
  destruct k as [|s|m e]; cbn; try done. rewrite !Z.ltb_ge. pose proof (pow2_pos e).
  change (pow2 0) with 1. nia.
Qed.

Lemma finalize_ok es n hash l' fb b atts : node_ok es n -> submit (ledger n) b atts = Ok (l', fb) ->
  node_ok es (set_finalized ({[hash]} ∪ finalizedHashes n) (set_ledger l' n)).
Proof.
  intros [] S. destruct (submit_inv _ _ _ _ _ S) as (_ & _ & _ & _ & Hc & _).
  assert (Hh : Z.of_nat (length (chain l')) = Z.of_nat (length (chain (ledger n))) + 1)
    by (rewrite Hc, length_app; cbn; lia).
  constructor; cbn; try done.
  - by eapply reach_submit.
  - intros k h Hk. destruct (ok_signed0 k h Hk) as [H|H]; [left | by right].
    unfold node_height, ledger_height in *. cbn. rewrite Hh. by apply ltb_next.
  - intros k l Hk. destruct (ok_pending0 k l Hk) as [H1 H2]. split; [done|].
    rewrite Hh. intros Hs. apply not_ltb_next, H2. lia.
Qed.

Lemma pool_ok es n att h v vh e : node_ok es n ->
  att_blockHash att = h -> att_validator att = v ->
  verifyAttestationSig att (node_set n) = Ok true -> 0 < stakeOf (node_set n) v ->
  vh = default ∅ (hashesByValidator n !! v) ->
  (h ∈ vh \/ (size vh < MAX_HASHES_PER_VALIDATOR)%nat) ->
  (is_Some (attestations n !! h) \/ (size (attestations n) < MAX_ATTESTED_HASHES)%nat) ->
  node_ok (es ++ [Broadcast e])
    (set_pool (<[h := default [] (attestations n !! h) ++ [(v, att)]]> (attestations n))
       (if bool_decide (h ∈ vh) then hashesByValidator n
        else <[v := {[h]} ∪ vh]> (hashesByValidator n)) n).
Proof.
  intros [] Eh Ev V S -> Hc Hp.
  assert (Hset : node_set n = set) by (by destruct (reachable_links _ _ _ _ _ ok_ledger0) as [(? & _) _]).
  rewrite Hset in *. assert (Es : signed_of (es ++ [Broadcast e]) = signed_of es)
    by (unfold signed_of; rewrite omap_app; apply app_nil_r).
  assert (Idx : forall w x, x ∈ default ∅ ((if bool_decide (h ∈ default ∅ (hashesByValidator n !! v))
      then hashesByValidator n else <[v := {[h]} ∪ default ∅ (hashesByValidator n !! v)]>
      (hashesByValidator n)) !! w) <-> x ∈ default ∅ (hashesByValidator n !! w) \/ w = v /\ x = h).
  { intros w x. case_bool_decide as D.
    - split; [by left | intros [H|[-> ->]]; done].
    - destruct (decide (w = v)) as [->|W].
      + rewrite lookup_insert_eq. cbn.
        rewrite elem_of_union, elem_of_singleton. tauto.
      + rewrite lookup_insert_ne by done. tauto. }
  constructor; rewrite ?Es; cbn [set_pool ledger knownBlocks attestations hashesByValidator attestedAt
    pendingBlocks observedConflicts]; try done.
  - destruct Hp as [Hp|Hp].
    + by rewrite map_size_insert_Some.
    + rewrite map_size_insert. destruct (attestations n !! h); unfold Datatypes.id; lia.
  - intros h' byV w a E Ha. destruct (decide (h' = h)) as [->|D].
    + rewrite lookup_insert_eq in E. injection E as <-.
      apply elem_of_app in Ha as [Ha|Ha%list_elem_of_singleton].
      * destruct (attestations n !! h) as [byV|] eqn:E; [|by apply elem_of_nil in Ha]. by eapply ok_pool0.
      * injection Ha as -> ->. done.
    + rewrite lookup_insert_ne in E by done. by eapply ok_pool0.
  - intros h' byV w E Hw. apply Idx. destruct (decide (h' = h)) as [->|D].
    + rewrite lookup_insert_eq in E. injection E as <-. rewrite map_app in Hw.
      apply elem_of_app in Hw as [Hw|Hw%list_elem_of_singleton]; [|by right].
      destruct (attestations n !! h) as [byV|] eqn:E; [|by apply elem_of_nil in Hw].
      left. by eapply ok_index0.
    + rewrite lookup_insert_ne in E by done. left. by eapply ok_index0.
  - intros w. case_bool_decide as D; [done|]. destruct (decide (w = v)) as [->|W].
    + rewrite lookup_insert_eq. cbn. destruct Hc as [Hc|Hc]; [done|].
      rewrite size_union, size_singleton by set_solver. lia.
    + by rewrite lookup_insert_ne.
Qed.

Lemma prune_ok es n : node_ok es n -> node_ok es (prune n).
Proof.
  intros []. unfold prune. cbv zeta.
  set (pool1 := filter _ (attestations n)). set (pool2 := filter _ pool1).
  assert (Sub : forall h byV, pool2 !! h = Some byV -> attestations n !! h = Some byV).
  { intros h byV [E _]%map_lookup_filter_Some. by apply map_lookup_filter_Some in E as [E _]. }
  assert (Ssz : (size pool2 <= size (attestations n))%nat)
    by (apply map_subseteq_size, map_subseteq_spec; exact Sub).
  constructor; cbn [set_pending set_pool set_known set_attestedAt ledger knownBlocks attestations
    hashesByValidator attestedAt pendingBlocks observedConflicts]; try done.
  - intros k h Hk. rewrite num_get_prune. unfold node_height in *. cbn [ledger].
    destruct (ok_signed0 k h Hk) as [H|H]; [by left|].
    destruct (num_ltb k (ledger_height (ledger n))) eqn:E; [by left | by right].
  - etransitivity; [|exact ok_known0]. apply map_subseteq_size, map_filter_subseteq.
  - lia.
  - intros k l Hk. apply filter_incl in Hk. by apply ok_pending0.
  - intros h byV v a E Ha. by eapply ok_pool0; [apply Sub|].
  - intros h byV v E Hv. apply rebuild_index_spec. by exists byV.
  - intros v. etransitivity; [|apply (ok_index_size0 v)]. apply subseteq_size.
    intros h (byV & E & Hv)%rebuild_index_spec. by eapply ok_index0; [apply Sub|].
Qed.

Lemma gstep_ok es n e n' : node_ok es n -> gstep n e n' -> node_ok (es ++ e) n'.
Proof.
  intros O G. destruct G as [hash block l' fb K S|att h v vh|block l A B -> Hl|block h e' A Hh Hs He
    |block h e' A Hh Hn He|c Hc| |hgt]; rewrite ?app_nil_r.
  - by eapply finalize_ok.
  - by apply pool_ok.
  - assert (Es : signed_of (es ++ [Broadcast (GBlock block)]) = signed_of es)
      by (unfold signed_of; rewrite omap_app; apply app_nil_r).
    destruct O. constructor; rewrite ?Es; cbn [set_pending ledger knownBlocks attestations
      hashesByValidator attestedAt pendingBlocks observedConflicts]; try done.
    intros k l [H|[H1 H2]]%num_set_elem; [by apply ok_pending0|]. cbn in H1, H2. subst l.
    split; [rewrite length_app; cbn; lia|]. intros Hs. rewrite H2, <- B.
    unfold node_height, ledger_height. rewrite num_add_Int; [done|].
    unfold MAX_SAFE, MAX_FUTURE_HEIGHTS in *. lia.
  - assert (Es : signed_of (es ++ e') = signed_of es).
    { unfold signed_of. rewrite omap_app. destruct He as [->| ->]; apply app_nil_r. }
    destruct O. constructor; rewrite ?Es; cbn [set_known ledger knownBlocks attestations
      hashesByValidator attestedAt pendingBlocks observedConflicts]; try done.
    rewrite map_size_insert. destruct (knownBlocks n !! h); unfold Datatypes.id; lia.
  - destruct O. assert (Get : forall k, is_Some (num_get (attestedAt n) k) ->
      is_Some (num_get (num_set (attestedAt n) (height (header block)) h) k)).
    { intros k Hk. rewrite num_get_set. by destruct (same_key _ _). }
    destruct He as [->| ->].
    + rewrite app_nil_r. constructor; try done. intros k h' Hk.
      destruct (ok_signed0 k h' Hk); [by left | right; by apply Get].
    + assert (Es : signed_of (es ++ [Signed (height (header block)) h]) =
        signed_of es ++ [(height (header block), h)]) by (unfold signed_of; by rewrite omap_app).
      assert (New : forall a, a ∈ signed_of es -> ~ a.1 ≡ height (header block)).
      { intros [k h'] Ha E. cbn in E. destruct A as [A1 A2]. destruct (ok_signed0 k h' Ha) as [H|H].
        - rewrite E in H. congruence.
        - rewrite (num_get_proper _ _ _ E), Hn in H. by destruct H. }
      constructor; rewrite ?Es; cbn [set_attestedAt ledger knownBlocks attestations
        hashesByValidator attestedAt pendingBlocks observedConflicts]; try done.
      * intros k h' [Hk|Hk%list_elem_of_singleton]%elem_of_app.
        -- destruct (ok_signed0 k h' Hk); [by left | right; by apply Get].
        -- injection Hk as -> ->. right. rewrite num_get_set.
           by rewrite (proj2 (same_key_equiv _ _)).
      * intros i j a b Hi Hj E. apply lookup_app_Some in Hi, Hj.
        destruct Hi as [Hi|[Hi1 Hi]], Hj as [Hj|[Hj1 Hj]].
        -- by eapply ok_once0.
        -- apply list_lookup_singleton_Some in Hj as [_ <-]. exfalso.
           apply (New a); [by eapply list_elem_of_lookup_2 | done].
        -- apply list_lookup_singleton_Some in Hi as [_ <-]. exfalso.
           apply (New b); [by eapply list_elem_of_lookup_2 | by symmetry].
        -- apply list_lookup_singleton_Some in Hi as [Hi _], Hj as [Hj _]. lia.
  - destruct O. constructor; cbn [set_conflicts ledger knownBlocks attestations
      hashesByValidator attestedAt pendingBlocks observedConflicts]; try done.
    rewrite length_app. cbn. lia.
  - by apply prune_ok.
  - destruct O. constructor; cbn [set_pending ledger knownBlocks attestations
      hashesByValidator attestedAt pendingBlocks observedConflicts]; try done.
    intros k l Hk. apply filter_incl in Hk. by apply ok_pending0.
Qed.

Lemma gsteps_ok n e n' : gsteps n e n' -> forall es, node_ok es n -> node_ok (es ++ e) n'.
Proof.
  induction 1 as [n|n e n1 e1 n2 G _ IH]; intros es O; [by rewrite app_nil_r|].
  rewrite app_assoc. apply IH. by eapply gstep_ok.
Qed.
End invariant.

(** ** Runs of a node *)
Section runs.
Context {L : Lib} {C : Ed25519}.

Inductive input := Receive (m : GossipMessage) | Propose (payload : string) (ts : num).

(** The node and its events after an input, whether the handler returns or
    throws. *)
Definition handle (i : input) (n : GossipNode) : GossipNode * list event :=
  match i with
  | Receive m => (onMessage m n).1
  | Propose p ts => (proposeIfLeader p ts n).1
  end.

Inductive node_run (k : KeyPair) (set : ValidatorSet) (suite : string) (fnum fden : num)
  : list event -> GossipNode -> Prop :=
| nr_new : node_run k set suite fnum fden [] (new_node k set suite fnum fden)
| nr_step es n i : node_run k set suite fnum fden es n ->
    node_run k set suite fnum fden (es ++ (handle i n).2) (handle i n).1.

(** A list of inputs in order. *)
Definition handle_all (n : GossipNode) (is_ : list input) : GossipNode * list event :=
  fold_left (fun s i => let r := handle i s.1 in (r.1, s.2 ++ r.2)) is_ (n, []).

Lemma handle_all_run k set suite fnum fden is_ :
  node_run k set suite fnum fden (handle_all (new_node k set suite fnum fden) is_).2
    (handle_all (new_node k set suite fnum fden) is_).1.
Proof.
  unfold handle_all. induction is_ as [|i is_ IH] using rev_ind; [constructor|].
  rewrite fold_left_app. cbn. by apply nr_step.
Qed.

Lemma node_run_ok k set suite fnum fden es n : node_run k set suite fnum fden es n ->
  node_ok set suite fnum fden es n.
Proof.
  induction 1 as [|es n i _ IH]; [apply new_node_ok|]. eapply gsteps_ok; [|exact IH].
  destruct i as [m|p ts]; [apply onMessage_sound | apply proposeIfLeader_sound].
Qed.

(** C4: An honest node, whatever messages it is sent and in whatever order:
    its ledger only ever holds blocks that [submit] accepted; it signs at most
    one attestation per height; every attestation in its pool carries a valid
    signature of a validator with stake; and its stores stay within the
    code's caps. *)
Theorem node_safe k set suite fnum fden es n : node_run k set suite fnum fden es n ->
  reachable set suite fnum fden (ledger n) /\
  (forall i j a b, signed_of es !! i = Some a -> signed_of es !! j = Some b ->
     a.1 ≡ b.1 -> i = j) /\
  (forall h byV v a, attestations n !! h = Some byV -> (v, a) ∈ byV ->
     att_validator a = v /\ att_blockHash a = h /\ 0 < stakeOf set v /\
     verifyAttestationSig a set = Ok true) /\
  (size (knownBlocks n) <= MAX_KNOWN_AT_HEIGHT)%nat /\
  (size (attestations n) <= MAX_ATTESTED_HASHES)%nat /\
  (length (observedConflicts n) <= MAX_OBSERVED_CONFLICTS)%nat /\
  (forall x l, (x, l) ∈ pendingBlocks n -> (length l <= MAX_PENDING_PER_HEIGHT)%nat) /\
  (forall v, (size (default ∅ (hashesByValidator n !! v)) <= MAX_HASHES_PER_VALIDATOR)%nat).
Proof.
  intros [] %node_run_ok. split_and!; try done. intros x l Hx. by destruct (ok_pending0 x l Hx).
Qed.

(** Forks are accountable: if the ledgers of two nodes of a network with
    hex validator keys hold different blocks at one position, then validators
    with at least twice the threshold minus one of the stake are convicted:
    for each of them the two nodes' attestation lists hold an equivocation
    proof that verifies. *)
Theorem fork_accountable `{!CborLaws L} `{!HexLaws L}
    kA kB set suite fnum fden esA esB nA nB i fa fb :
  (forall v, v ∈ validators set -> exists k, pubkey v = bytesToHex k) ->
  node_run kA set suite fnum fden esA nA -> node_run kB set suite fnum fden esB nB ->
  chain (ledger nA) !! i = Some fa -> chain (ledger nB) !! i = Some fb ->
  fb_hash fa <> fb_hash fb ->
  exists X : gset string,
    (2 * num_Z fnum - num_Z fden) * totalStake set <= stake_in set X * num_Z fden /\
    forall v, v ∈ X -> exists a b, a ∈ fb_attestations fa /\ b ∈ fb_attestations fb /\
      att_validator a = v /\ att_validator b = v /\
      verifyEquivocationProof (proof_of a b) set = Ok true.
Proof.
  intros Hk [RA _ _ _ _ _ _ _ _ _]%node_run_ok [RB _ _ _ _ _ _ _ _ _]%node_run_ok Ha Hb Hn.
  destruct (reachable_links _ _ _ _ _ RA) as [_ KA]. destruct (reachable_links _ _ _ _ _ RB) as [_ KB].
  destruct (KA _ _ Ha) as [HA TA _ _ (vA & VA & FA & _)].
  destruct (KB _ _ Hb) as [HB TB _ _ (vB & VB & FB & _)].
  eapply (conflict_convicts (fb_block fa) (fb_attestations fa) (fb_block fb) (fb_attestations fb));
    [exact Hk | exact VA | exact FA | exact VB | exact FB | exact HA | exact HB | exact Hn |].
  eapply num_eqb_trans; [exact TA|]. by rewrite num_eqb_sym.
Qed.
End runs.

(** ** [drainBuffered] returns *)
Section drain.
Context {L : Lib} {C : Ed25519}.

(** Buffered blocks have the height they are filed under. *)
Definition filed (n : GossipNode) : Prop :=
  forall k l b, (k, l) ∈ pendingBlocks n -> b ∈ l -> height (header b) ≡ k.

(** The buffer is as it was, the node not lower. *)
Record keeps (n n' : GossipNode) : Prop := {
  kp_pending : pendingBlocks n' = pendingBlocks n;
  kp_height : forall k, num_ltb (node_height n) k = false -> num_ltb (node_height n') k = false }.

#[local] Instance keeps_preorder : PreOrder keeps.
Proof.
  split; [by constructor|]. intros a b c [P1 H1] [P2 H2]. constructor; [congruence | auto].
Qed.

Definition kept {A} (c : M A) (n : GossipNode) : Prop := keeps n (c n).1.1.

Lemma kept_bind {A B} (c : M A) (k : A -> M B) n :
  kept c n -> (forall n1 es a, c n = (n1, es, Ok a) -> kept (k a) n1) -> kept (c ≫= k) n.
Proof.
  unfold kept, mbind, M_bind. intros H K. destruct (c n) as [[n1 es] [a|e]]; [|exact H].
  specialize (K n1 es a eq_refl). destruct (k a n1) as [[n2 es2] r]. cbn in *. by transitivity n1.
Qed.
Lemma kept_read {A} (k : GossipNode -> M A) n : kept (k n) n -> kept (read ≫= k) n.
Proof. intros H. apply kept_bind; [by constructor|]. by intros n1 es a [= <- <- <-]. Qed.
Lemma kept_lift {A B} (c : res A) (k : A -> M B) n :
  (forall a, c = Ok a -> kept (k a) n) -> kept (lift c ≫= k) n.
Proof. intros H. apply kept_bind; [by constructor|]. intros n1 es a [= <- <- E]. by apply H. Qed.

Lemma ltb_int_next (i : nat) k : num_ltb (Int (Z.of_nat i)) k = false ->
  num_ltb (Int (Z.of_nat i + 1)) k = false.
Proof.
  destruct k as [|s|m e]; cbn; try done. rewrite !Z.ltb_ge. pose proof (pow2_pos e).
  change (pow2 0) with 1. nia.
Qed.

Lemma tryFinalize_kept h n : kept (tryFinalize h) n.
Proof.
  unfold tryFinalize. apply kept_read. destruct (bool_decide _); [by constructor|].
  destruct (knownBlocks n !! h); [|by constructor]. destruct (negb _); [by constructor|].
  destruct (submit _ _ _) as [[l' fb]|] eqn:S; [|by constructor].
  destruct (submit_inv _ _ _ _ _ S) as (_ & _ & _ & _ & Hc & _). constructor; [done|].
  intros k Hk. change (num_ltb (Int (Z.of_nat (length (chain l')))) k = false).
  rewrite Hc, length_app, Nat2Z.inj_add. by apply ltb_int_next.
Qed.

Lemma onAttestation_kept a n : kept (onAttestation a) n.
Proof.
  unfold onAttestation. apply kept_read. destruct (negb _); [by constructor|].
  destruct (_ <=? _); [by constructor|]. apply kept_lift. intros [] _; cbn [negb]; [|by constructor].
  destruct (_ || _); [by constructor|]. cbv zeta.
  destruct (match _ ≫= _ with Some _ => true | None => false end); [by constructor|].
  destruct (_ && _); [by constructor|]. destruct (match _ with Some _ => _ | None => _ end);
    [by constructor|].
  apply kept_bind; [by constructor|]. intros n1 es1 a1 _.
  apply kept_bind; [by constructor|]. intros n2 es2 a2 _. apply tryFinalize_kept.
Qed.

Lemma onBlock_kept b n : num_ltb (node_height n) (height (header b)) = false ->
  kept (onBlock b false) n.
Proof.
  intros H. unfold onBlock. apply kept_read. destruct (num_ltb (height (header b)) _); [by constructor|].
  rewrite H. apply kept_lift. intros h _.
  destruct (match knownBlocks n !! h with Some _ => _ | None => _ end); [by constructor|].
  destruct (_ <=? _)%nat; [by constructor|].
  apply kept_bind; [by constructor|]. intros n1 es1 a1 _.
  apply kept_bind; [by constructor|]. intros n2 es2 a2 _.
  apply kept_bind; [|intros n3 es3 a3 _; apply tryFinalize_kept].
  destruct (num_get _ _); [destruct (_ && _); by constructor|].
  destruct (0 <? _); [|by constructor]. unfold attest_own. apply kept_read.
  apply kept_bind; [by constructor|]. intros n3 es3 a3 _. apply kept_lift. intros a _.
  apply kept_bind; [by constructor|]. intros n4 es4 a4 _. apply onAttestation_kept.
Qed.

Lemma replay_kept due : forall n,
  (forall b, b ∈ due -> num_ltb (node_height n) (height (header b)) = false) ->
  kept (replay_blocks due) n.
Proof.
  induction due as [|b due IH]; intros n Hd; cbn [replay_blocks]; [by constructor|].
  assert (K : kept (onBlock b false) n) by (apply onBlock_kept, Hd; left).
  apply kept_bind; [exact K|]. intros n1 es a E. unfold kept in K. rewrite E in K. cbn in K.
  apply IH. intros c Hc. apply K, Hd. by right.
Qed.

Lemma filter_length_le {A} (f : A -> bool) l : (length (List.filter f l) <= length l)%nat.
Proof. induction l as [|x l IH]; cbn; [lia|]. destruct (f x); cbn; lia. Qed.
Lemma num_delete_shorter {A} (m : list (num * A)) k v : num_get m k = Some v ->
  (length (num_delete m k) < length m)%nat.
Proof.
  unfold num_get, num_delete. induction m as [|e m IH]; cbn [find List.filter]; [done|].
  pose proof (filter_length_le (fun e => negb (same_key e.1 k)) m).
  destruct (same_key e.1 k); cbn; [lia|]. intros H'. specialize (IH H'). lia.
Qed.

Lemma drain_loop_some fuel : forall n, filed n -> (length (pendingBlocks n) < fuel)%nat ->
  is_Some (drain_loop fuel n).
Proof.
  induction fuel as [|fuel IH]; intros n F Hf; [lia|]. cbn [drain_loop].
  assert (Hp : pendingBlocks (prune n) = num_prune (pendingBlocks n) (node_height n)) by done.
  assert (Hh : node_height (prune n) = node_height n) by done. rewrite Hp, Hh.
  destruct (num_get _ _) as [due|] eqn:G; [|eauto].
  pose proof (num_delete_shorter _ _ _ G) as Hs.
  pose proof (filter_length_le (fun e : num * list Block => negb (num_ltb e.1 (node_height n))) (pendingBlocks n)) as Hl.
  set (n1 := set_pending _ _).
  assert (K : kept (replay_blocks due) n1).
  { apply replay_kept. intros b Hb. apply num_get_elem in G as (k' & Hk & Ek).
    apply filter_incl in Hk. rewrite (F _ _ _ Hk Hb), Ek. change (node_height n1) with (node_height n).
    unfold node_height, ledger_height. rewrite num_ltb_Int. apply Z.ltb_irrefl. }
  unfold kept in K. destruct (replay_blocks due n1) as [[n2 es] [[]|e]]; [|eauto]. cbn [fst snd] in K.
  destruct (num_eqb _ _); [eauto|]. destruct K as [K _].
  destruct (IH n2) as [[[n3 es3] r] E].
  - intros k l b Hk Hb. rewrite K in Hk. cbn [pendingBlocks n1 set_pending] in Hk.
    apply filter_incl, filter_incl in Hk. by eapply F.
  - rewrite K. change (pendingBlocks n1) with (num_delete (num_prune (pendingBlocks n) (node_height n)) (node_height n)).
    unfold num_prune in *. lia.
  - rewrite E. cbn. eauto.
Qed.

Lemma gstep_filed n e n' : gstep n e n' -> filed n -> filed n'.
Proof.
  intros G F. destruct G; try exact F.
  - intros k l' b [Hk|[H3 H4]]%num_set_elem Hb; [by eapply F|]. cbn in H3, H4. subst l l'.
    apply elem_of_app in Hb as [Hb| ->%list_elem_of_singleton]; [|by symmetry].
    destruct (num_get _ _) as [l|] eqn:E; [|by apply elem_of_nil in Hb].
    apply num_get_elem in E as (k' & Hk & Ek). by rewrite (F _ _ _ Hk Hb), Ek, H4.
  - intros k l b Hk. apply filter_incl in Hk. by apply F.
  - intros k l b Hk. apply filter_incl in Hk. by apply F.
Qed.

(** C40: Catching up terminates: for every node that can arise, the loop of
    [drainBuffered] ends after at most one round per buffered height, each
    round removing one. *)
Theorem drain_terminates k set suite fnum fden es n : node_run k set suite fnum fden es n ->
  exists n' es' r, drain_loop (S (length (pendingBlocks n))) n = Some (n', es', r) /\
    drainBuffered n = (n', es', r).
Proof.
  intros R. assert (F : filed n).
  { induction R as [|es n i _ IH]; [by intros ? ? ? ?%elem_of_nil|].
    assert (S : gsteps n (handle i n).2 (handle i n).1)
      by (destruct i; [apply onMessage_sound | apply proposeIfLeader_sound]).
    revert IH. induction S as [|n0 e n1 e1 n2 G _ IHs]; [done|]. intros F0.
    apply IHs. by eapply gstep_filed. }
  destruct (drain_loop_some (S (length (pendingBlocks n))) n F) as [[[n' es'] r] E]; [lia|].
  exists n', es', r. split; [done|]. unfold drainBuffered. by rewrite E.
Qed.
End drain.

(** ** Concrete runs *)
Definition node0 (name : string) : GossipNode := new_node (kp name) sample_set "PS-5" (Int 2) (Int 3).
Definition node_inputs (payload : string) : list input :=
  Receive (GBlock (block0 payload)) :: map (fun a => Receive (GAttestation a)) (atts0 payload).
Definition node_after (name payload : string) : GossipNode :=
  (handle_all (node0 name) (node_inputs payload)).1.
Definition events_after (name payload : string) : list event :=
  (handle_all (node0 name) (node_inputs payload)).2.

(** The node that finalized the block "root", and one that finalized "evil". *)
Definition node_root : GossipNode := Eval vm_compute in node_after "v3" "root".
Definition events_root : list event := Eval vm_compute in events_after "v3" "root".
Definition node_evil : GossipNode := Eval vm_compute in node_after "v3" "evil".
Definition events_evil : list event := Eval vm_compute in events_after "v3" "evil".

Lemma sample_run payload n es : handle_all (node0 "v3") (node_inputs payload) = (n, es) ->
  node_run (kp "v3") sample_set "PS-5" (Int 2) (Int 3) es n.
Proof.
  intros E. pose proof (handle_all_run (kp "v3") sample_set "PS-5" (Int 2) (Int 3) (node_inputs payload)) as R.
  fold (node0 "v3") in R. by rewrite E in R.
Qed.
Lemma run_root : node_run (kp "v3") sample_set "PS-5" (Int 2) (Int 3) events_root node_root.
Proof. apply (sample_run "root"). vm_compute. reflexivity. Qed.
Lemma run_evil : node_run (kp "v3") sample_set "PS-5" (Int 2) (Int 3) events_evil node_evil.
Proof. apply (sample_run "evil"). vm_compute. reflexivity. Qed.

Lemma node_safe_witness :
  length (chain (ledger node_root)) = 1%nat /\ signed_of events_root = [(Int 0, hash0 "root")] /\
  reachable sample_set "PS-5" (Int 2) (Int 3) (ledger node_root).
Proof.
  split; [by vm_compute|]. split; [by vm_compute|].
  exact (proj1 (node_safe (kp "v3") sample_set "PS-5" (Int 2) (Int 3) _ _ run_root)).
Defined.

Definition no_fb : FinalizedBlock := {|
  fb_block := no_block; fb_hash := ""; fb_attestations := []; fb_attestingStake := 0;
  fb_finalized := false |}.
Definition fb_of (n : GossipNode) : FinalizedBlock := default no_fb (chain (ledger n) !! 0%nat).
Definition fb_root : FinalizedBlock := Eval vm_compute in fb_of node_root.
Definition fb_evil : FinalizedBlock := Eval vm_compute in fb_of node_evil.

Lemma fork_accountable_witness : exists X : gset string,
  (2 * num_Z (Int 2) - num_Z (Int 3)) * totalStake sample_set <= stake_in sample_set X * num_Z (Int 3) /\
  forall v, v ∈ X -> exists a b, a ∈ fb_attestations fb_root /\ b ∈ fb_attestations fb_evil /\
    att_validator a = v /\ att_validator b = v /\
    verifyEquivocationProof (proof_of a b) sample_set = Ok true.
Proof.
  refine (fork_accountable (kp "v3") (kp "v3") sample_set "PS-5" (Int 2) (Int 3)
    events_root events_evil node_root node_evil 0%nat fb_root fb_evil
    sample_keys_hex run_root run_evil _ _ _); by vm_compute.
Defined.

Lemma drain_terminates_witness : exists n' es' r,
  drain_loop (S (length (pendingBlocks node_root))) node_root = Some (n', es', r) /\
  drainBuffered node_root = (n', es', r).
Proof. exact (drain_terminates (kp "v3") sample_set "PS-5" (Int 2) (Int 3) _ _ run_root). Defined.

(** Three nodes on a bus: the leader proposes, the messages are delivered, and
    every node has finalized the same block. *)
Definition bus0 : GossipBus :=
  let reg b name := register b (node0 name) in
  reg (reg (reg {| handlers := []; queue := []; reachable_from := fun _ _ => true; delivered := 0 |}
    "v1") "v2") "v3".
Definition bus_after : GossipBus :=
  let n := node0 "v2" in
  let '(n', es, _) := proposeIfLeader "root" (Int 5) n in
  (bus_run 100 {| handlers := put_node (handlers bus0) n'; queue := enqueue bus0 (id n) es;
                  reachable_from := reachable_from bus0; delivered := 0 |}).1.

Example bus_converges : queue bus_after = [] /\
  map (fun e => map fb_hash (chain (ledger e.2))) (handlers bus_after) =
    [[hash0 "root"]; [hash0 "root"]; [hash0 "root"]].
Proof. by vm_compute. Qed.

(** A block whose height is NaN is neither below nor above the node's height,
    so it is kept as a block of the current height, and no later height prunes
    it: 64 of them, unsigned and from anyone, and the node takes no block again. *)
Definition nan_block (i : nat) : Block := {|
  header := {| height := NaN; prevHash := ""; round := Int 0; proposer := "";
    payloadRoot := to_hex [byte_of_Z (Z.of_nat i)]; timestamp := Int 0; vrfOutput := None |};
  proposerSig := []; block_suite := ""; vrfProof := None; viewChangeCert := None |}.

Definition nan_inputs : list input := map (fun i => Receive (GBlock (nan_block i))) (seq 0 64).

Theorem nan_blocks_jam_node :
  let n := (handle_all (node0 "v3") nan_inputs).1 in
  let after := handle_all n (node_inputs "root") in
  length (chain (ledger node_root)) = 1%nat /\
  knownBlockCount n = 64%nat /\ length (chain (ledger after.1)) = 0%nat /\
  signed_of after.2 = [].
Proof. by vm_compute. Qed.

(** The cap on buffered blocks is per height, and heights need not be integers:
    unsigned blocks at heights between 0 and 1 are all kept. *)
Definition fractional_block (i : nat) : Block := {|
  header := {| height := Fin (2 * Z.of_nat i + 1) 10; prevHash := ""; round := Int 0; proposer := "";
    payloadRoot := ""; timestamp := Int 0; vrfOutput := None |};
  proposerSig := []; block_suite := ""; vrfProof := None; viewChangeCert := None |}.

Theorem fractional_heights_evade_cap :
  let n := (handle_all (node0 "v3") (map (fun i => Receive (GBlock (fractional_block i))) (seq 0 100))).1 in
  pendingBlockCount n = 100%nat.
Proof. by vm_compute. Qed.
