(* ===== verification/Consensus.v ===== *)
(** * ledger/: consensus among honest nodes

    An abstract specification of what the ledger promises (a voting machine:
    every honest validator votes at most once per height, and a participant
    decides the next position of its chain on a quorum), agreement of that
    machine, and the proof that a network of the nodes of Gossip.v, whose
    handlers are given any inputs in any order, refines it.  The other
    validators may send anything but an attestation that verifies under the key
    of an honest node and that this node did not sign. *)
From S2P Require Import Prelude JsNum JsVal Crypto Concrete Sortition Vrf Leader Chain Finality Equivocation Gossip Network.
Open Scope string_scope.
Open Scope Z_scope.
Open Scope list_scope.

(** ** The specification *)
Module Voting.
Section machine.
Context (set : ValidatorSet) (fnum fden : num) (honest : gset string).

(** The votes each honest validator cast, and the hashes each participant
    decided, position by position. *)
Record machine := {
  votes : gmap string (list (num * string));
  decided : gmap string (list string) }.

Definition quorum (Q : gset string) : Prop := num_Z fnum * totalStake set <= stake_in set Q * num_Z fden.

(** The honest members of [Q] all voted for [x] at position [i]. *)
Definition backed (m : machine) (i : nat) (x : string) (Q : gset string) : Prop :=
  forall v vs, v ∈ Q -> votes m !! v = Some vs -> exists k, k ≡ Int (Z.of_nat i) /\ (k, x) ∈ vs.

Inductive vstep (m : machine) : machine -> Prop :=
| cast v k x vs :
    votes m !! v = Some vs -> (forall a, a ∈ vs -> ~ a.1 ≡ k) ->
    vstep m {| votes := <[v := vs ++ [(k, x)]]> (votes m); decided := decided m |}
| decide p x d Q :
    decided m !! p = Some d -> quorum Q -> backed m (length d) x Q ->
    vstep m {| votes := votes m; decided := <[p := d ++ [x]]> (decided m) |}.

Definition initial (m : machine) : Prop :=
  dom (votes m) = honest /\ (forall v vs, votes m !! v = Some vs -> vs = []) /\
  forall p d, decided m !! p = Some d -> d = [].

Definition reachable (m : machine) : Prop := exists m0, initial m0 /\ rtc vstep m0 m.

(** *** Agreement *)
Record consistent (m : machine) : Prop := {
  c_dom : dom (votes m) = honest;
  c_once : forall v vs a b, votes m !! v = Some vs -> a ∈ vs -> b ∈ vs -> a.1 ≡ b.1 -> a = b;
  c_backed : forall p d i x, decided m !! p = Some d -> d !! i = Some x ->
    exists Q, quorum Q /\ backed m i x Q }.

Lemma backed_cast m v k x vs i y Q : votes m !! v = Some vs -> backed m i y Q ->
  backed {| votes := <[v := vs ++ [(k, x)]]> (votes m); decided := decided m |} i y Q.
Proof.
  intros E B w ws Hw. cbn. intros [[-> <-]|[_ F]]%lookup_insert_Some; [|by apply (B w)].
  destruct (B w vs Hw E) as (k' & ? & ?). exists k'. split; [done|]. apply elem_of_app. by left.
Qed.

Lemma vstep_consistent m m' : consistent m -> vstep m m' -> consistent m'.
Proof.
  intros [D O B] [v k x vs E N|p x d Q E HQ HB]; constructor; cbn.
  - rewrite dom_insert_lookup_L; eauto.
  - intros w ws a b [[-> <-]|[_ F]]%lookup_insert_Some; [|by apply (O w)].
    intros [Ha|Ha%list_elem_of_singleton]%elem_of_app [Hb|Hb%list_elem_of_singleton]%elem_of_app Eq;
      subst; [by eapply O | by destruct (N a) | by destruct (N b) | done].
  - intros p d i y Ep Ei. destruct (B p d i y Ep Ei) as (Q & HQ & HB). exists Q. split; [done|].
    by apply backed_cast.
  - done.
  - done.
  - intros q e i y [[-> <-]|[_ F]]%lookup_insert_Some Ei; [|by eapply B].
    apply lookup_app_Some in Ei as [Ei|[Hl Ei]]; [by eapply B|].
    apply list_lookup_singleton_Some in Ei as [Hi <-]. exists Q. split; [done|].
    by replace i with (length d) by lia.
Qed.

Lemma reachable_consistent m : reachable m -> consistent m.
Proof.
  intros (m0 & (D & V & E) & S). assert (C : consistent m0).
  { constructor; [done | |].
    - intros v vs a b Hv Ha. rewrite (V v vs Hv) in Ha. by apply elem_of_nil in Ha.
    - intros p d i x Hp Hi. by rewrite (E p d Hp) in Hi. }
  clear D V E. induction S as [|m1 m2 m3 S _ IH]; [done|]. by apply IH, (vstep_consistent m1).
Qed.

(** Two quorums share an honest validator, once the honest ones hold more
    than twice the missing part of the threshold (a third at two thirds). *)
Lemma quorums_meet A B : NoDup (map pubkey (validators set)) -> 0 < num_Z fden ->
  2 * (num_Z fden - num_Z fnum) * totalStake set < stake_in set honest * num_Z fden ->
  quorum A -> quorum B -> exists v, v ∈ A /\ v ∈ B /\ v ∈ honest.
Proof.
  unfold quorum. intros Hn Hd Hh HA HB.
  destruct (set_choose_or_empty (A ∩ B ∩ honest)) as [[v Hv]|He]; [exists v; set_solver|].
  pose proof (stake_in_union_inter set A B). pose proof (stake_in_le set (A ∪ B)).
  pose proof (stake_in_union_inter set (A ∩ B) honest) as E.
  pose proof (stake_in_le set (A ∩ B ∪ honest)).
  apply leibniz_equiv in He. rewrite He, stake_in_empty in E. nia.
Qed.

Lemma agreement m : NoDup (map pubkey (validators set)) -> 0 < num_Z fden ->
  2 * (num_Z fden - num_Z fnum) * totalStake set < stake_in set honest * num_Z fden ->
  reachable m -> forall p q d e i x y, decided m !! p = Some d -> decided m !! q = Some e ->
  d !! i = Some x -> e !! i = Some y -> x = y.
Proof.
  intros Hn Hd Hh [D O B]%reachable_consistent p q d e i x y Hp Hq Hx Hy.
  destruct (B p d i x Hp Hx) as (Q & HQ & BQ), (B q e i y Hq Hy) as (R & HR & BR).
  destruct (quorums_meet Q R) as (v & VQ & VR & VH); try done.
  rewrite <- D in VH. apply elem_of_dom in VH as [vs Hv].
  destruct (BQ v vs VQ Hv) as (k & Ek & Hk), (BR v vs VR Hv) as (k' & Ek' & Hk').
  enough ((k, x) = (k', y)) by congruence. eapply (O v); [done | done | done |].
  cbn. by rewrite Ek, Ek'.
Qed.

(** *** Many votes, many decisions *)
Lemma cast_all v new : forall m vs, votes m !! v = Some vs ->
  (forall i j a b, (vs ++ new) !! i = Some a -> (vs ++ new) !! j = Some b -> a.1 ≡ b.1 -> i = j) ->
  rtc vstep m {| votes := <[v := vs ++ new]> (votes m); decided := decided m |}.
Proof.
  induction new as [|[k x] new IH]; intros m vs E O.
  - rewrite app_nil_r, insert_id by done. destruct m. apply rtc_refl.
  - eapply rtc_l.
    + apply (cast m v k x vs E). intros a Ha Eq. apply list_elem_of_lookup in Ha as [i Hi].
      pose proof (lookup_lt_Some _ _ _ Hi).
      enough (i = length vs) by lia. eapply (O _ _ a (k, x)); [by apply lookup_app_l_Some | | done].
      by rewrite lookup_app_r, Nat.sub_diag by lia.
    + specialize (IH {| votes := <[v := vs ++ [(k, x)]]> (votes m); decided := decided m |}
        (vs ++ [(k, x)])). cbn in IH. rewrite insert_insert_eq, <- app_assoc in IH. cbn in IH.
      apply IH; [by rewrite lookup_insert_eq | done].
Qed.

Lemma decide_all p new : forall m d, decided m !! p = Some d ->
  (forall i x, new !! i = Some x -> exists Q, quorum Q /\ backed m (length d + i) x Q) ->
  rtc vstep m {| votes := votes m; decided := <[p := d ++ new]> (decided m) |}.
Proof.
  induction new as [|x new IH]; intros m d E H.
  - rewrite app_nil_r, insert_id by done. destruct m. apply rtc_refl.
  - destruct (H 0%nat x eq_refl) as (Q & HQ & HB). rewrite Nat.add_0_r in HB.
    eapply rtc_l; [by apply (decide m p x d Q E)|].
    specialize (IH {| votes := votes m; decided := <[p := d ++ [x]]> (decided m) |} (d ++ [x])).
    cbn in IH. rewrite insert_insert_eq, <- app_assoc in IH. apply IH; [by rewrite lookup_insert_eq|].
    intros i y Hi. destruct (H (S i) y Hi) as (R & HR & BR). exists R. split; [done|].
    rewrite length_app. cbn. by rewrite <- Nat.add_assoc.
Qed.
End machine.
End Voting.

(** ** Which attestations a node gossips

    Only the attestation it was just sent, and its own. *)
Section provenance.
Context {L : Lib} {C : Ed25519}.

Definition own (k : KeyPair) (es : list event) (a : Attestation) : Prop :=
  att_validator a = bytesToHex (publicKey k) /\ (att_height a, att_blockHash a) ∈ signed_of es.

Record vouched {A} (P : Attestation -> Prop) (c : M A) (n : GossipNode) : Prop := {
  vo_key : key (c n).1.1 = key n;
  vo_from : forall a, Broadcast (GAttestation a) ∈ (c n).1.2 -> P a \/ own (key n) (c n).1.2 a }.

Lemma own_mono k es es' a : es ⊆ es' -> own k es a -> own k es' a.
Proof.
  intros S [V I]. split; [done|]. unfold signed_of in *. apply list_elem_of_omap in I as (e & He & E).
  apply list_elem_of_omap. exists e. auto.
Qed.

Lemma vouched_quiet {A} P (c : M A) n : key (c n).1.1 = key n -> (c n).1.2 = [] -> vouched P c n.
Proof. intros K E. split; [done|]. rewrite E. by intros a ?%elem_of_nil. Qed.
Lemma vouched_bind {A B} P (c : M A) (k : A -> M B) n :
  vouched P c n -> (forall n1 es a, c n = (n1, es, Ok a) -> vouched P (k a) n1) ->
  vouched P (c ≫= k) n.
Proof.
  intros [K1 F1] H. destruct (c n) as [[n1 es] [a|e]] eqn:E; cbn [fst snd] in K1, F1.
  - destruct (H n1 es a eq_refl) as [K2 F2]. destruct (k a n1) as [[n2 es2] r] eqn:Ek.
    assert (Eq : (c ≫= k) n = (n2, es ++ es2, r)) by (unfold mbind, M_bind; by rewrite E, Ek).
    cbn [fst snd] in K2, F2. split; rewrite Eq; cbn [fst snd]; [congruence|].
    intros b [Hb|Hb]%elem_of_app.
    + destruct (F1 b Hb) as [|O]; [by left | right]. eapply own_mono; [|exact O]. set_solver.
    + destruct (F2 b Hb) as [|O]; [by left | right]. rewrite K1 in O.
      eapply own_mono; [|exact O]. set_solver.
  - assert (Eq : (c ≫= k) n = (n1, es, Throw e)) by (unfold mbind, M_bind; by rewrite E).
    by split; rewrite Eq.
Qed.
Lemma vouched_read {A} P (k : GossipNode -> M A) n : vouched P (k n) n -> vouched P (read ≫= k) n.
Proof. intros H. apply vouched_bind; [by apply vouched_quiet|]. by intros n1 es a [= <- <- <-]. Qed.
Lemma vouched_lift {A B} P (c : res A) (k : A -> M B) n :
  (forall a, c = Ok a -> vouched P (k a) n) -> vouched P (lift c ≫= k) n.
Proof.
  intros H. apply vouched_bind; [by apply vouched_quiet|]. intros n1 es a [= <- <- E]. by apply H.
Qed.
Lemma vouched_emit P e n : (forall a, e = Broadcast (GAttestation a) -> P a) -> vouched P (emit e) n.
Proof. intros H. split; [done|]. intros a <-%list_elem_of_singleton. left. by apply H. Qed.

(** Ends the silent branches. *)
Ltac quiet := by apply vouched_quiet.

Lemma tryFinalize_vouched P h n : vouched P (tryFinalize h) n.
Proof.
  unfold tryFinalize. apply vouched_read. destruct (bool_decide _); [quiet|].
  destruct (knownBlocks n !! h); [|quiet]. destruct (negb _); [quiet|].
  destruct (submit _ _ _) as [[l' fb]|]; quiet.
Qed.

Lemma onAttestation_vouched (P : Attestation -> Prop) a n : P a -> vouched P (onAttestation a) n.
Proof.
  intros Pa. unfold onAttestation. apply vouched_read. destruct (negb _); [quiet|].
  destruct (_ <=? _); [quiet|]. apply vouched_lift. intros [] _; cbn [negb]; [|quiet].
  destruct (_ || _); [quiet|]. cbv zeta.
  destruct (match _ ≫= _ with Some _ => true | None => false end); [quiet|].
  destruct (_ && _); [quiet|]. destruct (match _ with Some _ => _ | None => _ end); [quiet|].
  apply vouched_bind; [quiet|]. intros n1 es1 a1 _. apply vouched_bind.
  - apply vouched_emit. by intros b [= <-].
  - intros n2 es2 a2 _. apply tryFinalize_vouched.
Qed.

Lemma bufferFuture_vouched P b n : vouched P (bufferFuture b) n.
Proof.
  unfold bufferFuture. apply vouched_read. destruct (num_ltb _ _); [quiet|].
  apply vouched_lift. intros h _. apply vouched_lift. intros [] _; [quiet|].
  destruct (_ <=? _)%nat; [quiet|]. apply vouched_bind; [quiet|]. intros n1 es1 a1 _.
  by apply vouched_emit.
Qed.

(** The attestation the node makes is of the block, under its own id, and its
    signature is on record first. *)
Lemma attest_inv l b k a h : attest l b k = Ok a -> blockHash (header b) = Ok h ->
  att_blockHash a = h /\ att_height a = height (header b) /\
  att_validator a = bytesToHex (publicKey k).
Proof.
  unfold attest. intros E H. apply bind_ok in E as (h' & H' & E). apply bind_ok in E as (s & _ & E).
  apply bind_ok in E as (i & _ & E). apply bind_ok in E as (m & _ & E).
  apply bind_ok in E as (g & _ & E). apply Ok_inj in E as <-. cbn. split_and!; congruence.
Qed.

Lemma attest_own_vouched P b h n : blockHash (header b) = Ok h -> vouched P (attest_own b h) n.
Proof.
  intros Hh. unfold attest_own. apply vouched_read.
  set (n1 := set_attestedAt (num_set (attestedAt n) (height (header b)) h) n).
  destruct (attest (ledger n) b (key n)) as [a|e] eqn:E; [|by split; [|intros a ?%elem_of_nil]].
  destruct (attest_inv _ _ _ _ _ E Hh) as (E1 & E2 & E3).
  destruct (onAttestation_vouched (eq a) a n1 eq_refl) as [K F].
  destruct (onAttestation a n1) as [[n2 es2] r] eqn:O. cbn [fst snd] in K, F.
  match goal with |- vouched P ?c n => assert (Eq : c n = (n2, Signed (height (header b)) h :: es2, r)) end.
  { unfold mbind, M_bind, update, emit, lift. fold n1. by rewrite O. }
  split; rewrite Eq; cbn [fst snd]; [done|].
  intros c Hc. apply elem_of_cons in Hc as [|Hc]; [discriminate|]. right.
  destruct (F c Hc) as [<-|O'].
  - split; [done|]. rewrite E1, E2. left.
  - eapply own_mono; [|exact O']. set_solver.
Qed.

Lemma onBlock_vouched P b flood n : vouched P (onBlock b flood) n.
Proof.
  unfold onBlock. apply vouched_read. destruct (num_ltb _ _); [quiet|].
  destruct (num_ltb _ _); [apply bufferFuture_vouched|]. apply vouched_lift. intros h Hh.
  destruct (match knownBlocks n !! h with Some _ => _ | None => _ end); [quiet|].
  destruct (_ <=? _)%nat; [quiet|].
  apply vouched_bind; [quiet|]. intros n1 es1 a1 _.
  apply vouched_bind; [destruct flood; [by apply vouched_emit | quiet]|]. intros n2 es2 a2 _.
  apply vouched_bind; [|intros n3 es3 a3 _; apply tryFinalize_vouched].
  destruct (num_get _ _); [destruct (_ && _); quiet|].
  destruct (0 <? _); [|quiet]. by apply attest_own_vouched.
Qed.

Lemma replay_vouched P due : forall n, vouched P (replay_blocks due) n.
Proof.
  induction due as [|b due IH]; intros n; cbn [replay_blocks]; [quiet|].
  apply vouched_bind; [apply onBlock_vouched | auto].
Qed.

Lemma drain_loop_vouched P fuel : forall n n' es r, drain_loop fuel n = Some (n', es, r) ->
  vouched P (fun _ => (n', es, r)) n.
Proof.
  induction fuel as [|fuel IH]; intros n n' es r; cbn [drain_loop]; [done|].
  destruct (num_get _ _) as [due|]; [|intros [= <- <- <-]; quiet].
  set (n1 := set_pending _ _). pose proof (replay_vouched P due n1) as [K F].
  destruct (replay_blocks due n1) as [[n2 es2] [[]|e]]; cbn [fst snd] in K, F;
    change (key n1) with (key n) in *; [|by intros [= <- <- <-]].
  destruct (num_eqb _ _); [by intros [= <- <- <-]|].
  destruct (drain_loop fuel n2) as [[[n3 es3] r3]|] eqn:D; [|done]. intros [= <- <- <-].
  destruct (IH _ _ _ _ D) as [K3 F3]. cbn in K3, F3. split; cbn [fst snd]; [congruence|].
  intros a [Ha|Ha]%elem_of_app.
  - destruct (F a Ha) as [|O]; [by left | right]. eapply own_mono; [|exact O]. set_solver.
  - destruct (F3 a Ha) as [|O]; [by left | right]. rewrite K in O.
    eapply own_mono; [|exact O]. set_solver.
Qed.

Lemma drain_vouched P n : vouched P drainBuffered n.
Proof.
  destruct (drain_loop (S (length (pendingBlocks n))) n) as [[[n' es] r]|] eqn:D.
  - destruct (drain_loop_vouched P _ _ _ _ _ D) as [K F].
    split; unfold drainBuffered; rewrite D; [exact K | exact F].
  - split; unfold drainBuffered; rewrite D; [done|]. by intros a ?%elem_of_nil.
Qed.
End provenance.

(** ** The network *)
Section network.
Context {L : Lib} {C : Ed25519}.
Context (set : ValidatorSet) (suite : string) (fnum fden : num).

(** The honest nodes by id, each with the events it produced. *)
Local Abbreviation net := (gmap string (GossipNode * list event)).

Definition start (keys : list KeyPair) : net :=
  list_to_map (map (fun k => (bytesToHex (publicKey k), (new_node k set suite fnum fden, []))) keys).

(** If it verifies under the key of an honest node, that node signed it. *)
Definition authentic (w : net) (a : Attestation) : Prop :=
  att_suite a = suite -> verifyAttestationSig a set = Ok true ->
  forall s, w !! att_validator a = Some s ->
  exists k, k ≡ att_height a /\ (k, att_blockHash a) ∈ signed_of s.2.

Definition allowed (w : net) (i : input) : Prop :=
  match i with Receive (GAttestation a) => authentic w a | _ => True end.

(** Any honest node handles any such input. *)
Inductive nstep (w : net) : net -> Prop :=
| nstep_handle p n es i : w !! p = Some (n, es) -> allowed w i ->
    nstep w (<[p := ((handle i n).1, es ++ (handle i n).2)]> w).

Definition net_reachable (keys : list KeyPair) (w : net) : Prop := rtc nstep (start keys) w.

(** What the machine of the specification sees of it. *)
Definition abs (w : net) : Voting.machine := {|
  Voting.votes := (fun s => signed_of s.2) <$> w;
  Voting.decided := (fun s => map fb_hash (chain (ledger s.1))) <$> w |}.

(** *** One handler *)
Lemma handle_sound i n : gsteps n (handle i n).2 (handle i n).1.
Proof. destruct i as [m|p ts]; [apply onMessage_sound | apply proposeIfLeader_sound]. Qed.

Lemma handle_vouched (P : Attestation -> Prop) i n :
  (forall a, i = Receive (GAttestation a) -> P a) ->
  key (handle i n).1 = key n /\
  forall a, Broadcast (GAttestation a) ∈ (handle i n).2 -> P a \/ own (key n) (handle i n).2 a.
Proof.
  intros H. assert (V : match i with Receive m => vouched P (onMessage m) n
      | Propose p ts => vouched P (proposeIfLeader p ts) n end).
  { destruct i as [m|p ts].
    - unfold onMessage. apply vouched_bind; [|intros n1 es a _; apply drain_vouched].
      destruct m; [apply onBlock_vouched | by apply onAttestation_vouched, H].
    - unfold proposeIfLeader. apply vouched_read, vouched_lift. intros l _.
      destruct (negb _); [by apply vouched_quiet|]. apply vouched_lift. intros b _.
      apply vouched_bind; [apply onBlock_vouched|]. intros n1 es1 a1 _.
      apply vouched_bind; [apply drain_vouched|]. intros n2 es2 a2 _. by apply vouched_quiet. }
  by destruct i as [m|p ts], V.
Qed.

(** Every attestation the node keeps, in its pool or in its chain. *)
Definition keeps_only (A : Attestation -> Prop) (n : GossipNode) : Prop :=
  (forall h byV v a, attestations n !! h = Some byV -> (v, a) ∈ byV -> A a) /\
  forall fb a, fb ∈ chain (ledger n) -> a ∈ fb_attestations fb -> A a.

Lemma submit_atts l b atts l' fb : submit l b atts = Ok (l', fb) -> fb_attestations fb = atts.
Proof.
  unfold submit. intros E. apply bind_ok in E as (v & _ & E). destruct (negb _); [done|].
  apply bind_ok in E as (h & _ & E). cbv zeta in E. destruct (negb _); [done|].
  by apply Ok_inj in E as [= _ <-].
Qed.

Lemma gstep_keeps A n e n' : gstep n e n' -> node_set n = set ->
  (forall a, Broadcast (GAttestation a) ∈ e -> verifyAttestationSig a set = Ok true -> A a) ->
  keeps_only A n -> node_set n' = set /\ keeps_only A n' /\
    exists d, chain (ledger n') = chain (ledger n) ++ d.
Proof.
  intros G S H [KP KC].
  destruct G as [hash block l' fb K Es|att h v vh E1 E2 E3| | | |c| |hgt];
    try (split_and!; [done | done | exists []; by rewrite app_nil_r]).
  - pose proof (submit_atts _ _ _ _ _ Es) as F.
    destruct (submit_inv _ _ _ _ _ Es) as (S' & _ & _ & _ & Hc & _).
    split_and!; [unfold node_set in *; cbn; congruence | split; [exact KP|] | cbn; eauto].
    cbn [set_finalized set_ledger ledger]. rewrite Hc.
    intros f a [Hf|Hf%list_elem_of_singleton]%elem_of_app Ha; [by eapply KC|]. subst f.
    rewrite F in Ha. unfold attestationsFor in Ha.
    apply list_elem_of_fmap in Ha as ([v a'] & -> & Ha).
    destruct (attestations n !! hash) as [byV|] eqn:Eb; [by eapply KP | by apply elem_of_nil in Ha].
  - split_and!; [done | split; [|exact KC] | exists []; by rewrite app_nil_r].
    intros h' byV v' a'. cbn [set_pool attestations].
    intros [[<- <-]|[_ F]]%lookup_insert_Some Ha; [|by eapply KP].
    apply elem_of_app in Ha as [Ha|Ha%list_elem_of_singleton].
    + destruct (attestations n !! h) eqn:Eb; [by eapply KP | by apply elem_of_nil in Ha].
    + injection Ha as -> ->. apply H; [left | by rewrite <- S].
  - split_and!; [done | split; [|exact KC] | exists []; by rewrite app_nil_r].
    intros h byV v a Hb Ha. eapply KP; [|exact Ha]. unfold prune in Hb.
    cbn [set_pending set_pool attestations] in Hb.
    apply map_lookup_filter_Some in Hb as [Hb _]. by apply map_lookup_filter_Some in Hb as [Hb _].
Qed.

Lemma gsteps_keeps A n e n' : gsteps n e n' -> node_set n = set ->
  (forall a, Broadcast (GAttestation a) ∈ e -> verifyAttestationSig a set = Ok true -> A a) ->
  keeps_only A n -> keeps_only A n' /\ exists d, chain (ledger n') = chain (ledger n) ++ d.
Proof.
  induction 1 as [n|n e n1 e1 n2 G _ IH]; intros S H K.
  - split; [done|]. exists []. by rewrite app_nil_r.
  - destruct (gstep_keeps A n e n1 G S) as (S1 & K1 & d & D); [set_solver | done |].
    destruct IH as (K2 & d2 & D2); [done | set_solver | done |]. split; [done|].
    exists (d ++ d2). by rewrite D2, D, app_assoc.
Qed.

(** *** The invariant of the network *)
Definition vetted (w : net) (a : Attestation) : Prop :=
  verifyAttestationSig a set = Ok true /\ authentic w a.

Record member_ok (w : net) (p : string) (n : GossipNode) (es : list event) : Prop := {
  mo_id : p = bytesToHex (publicKey (key n));
  mo_run : node_run (key n) set suite fnum fden es n;
  mo_keeps : keeps_only (vetted w) n }.

Definition net_ok (w : net) : Prop := forall p n es, w !! p = Some (n, es) -> member_ok w p n es.

Lemma node_run_set k es n : node_run k set suite fnum fden es n -> node_set n = set.
Proof. intros [R _ _ _ _ _ _ _ _ _]%node_run_ok. apply (reachable_links _ _ _ _ _ R). Qed.

Lemma start_lookup keys p s : start keys !! p = Some s ->
  exists k, k ∈ keys /\ p = bytesToHex (publicKey k) /\ s = (new_node k set suite fnum fden, []).
Proof.
  intros E%elem_of_list_to_map_2. apply list_elem_of_fmap in E as (k & [= -> ->] & Hk). eauto.
Qed.

Lemma start_ok keys : net_ok (start keys).
Proof.
  intros p n es (k & _ & -> & [= -> ->])%start_lookup. constructor; [done | constructor |].
  split; [intros h byV v a E; cbn in E; by rewrite lookup_empty in E | by intros fb a ?%elem_of_nil].
Qed.

(** What was signed stays signed. *)
Lemma authentic_step w p n es e n' a : w !! p = Some (n, es) -> authentic w a ->
  authentic (<[p := (n', es ++ e)]> w) a.
Proof.
  intros Hp H U V s Hs.
  apply lookup_insert_Some in Hs as [[Eq <-]|[_ Hs]]; [|by apply H].
  rewrite Eq in Hp. destruct (H U V _ Hp) as (k & Ek & Hk). exists k. split; [done|]. cbn in Hk |- *.
  unfold signed_of in *. rewrite omap_app. apply elem_of_app. by left.
Qed.

Lemma handle_ok w p n es i : net_ok w -> w !! p = Some (n, es) -> allowed w i ->
  let w' := <[p := ((handle i n).1, es ++ (handle i n).2)]> w in
  member_ok w' p (handle i n).1 (es ++ (handle i n).2) /\
  exists d, chain (ledger (handle i n).1) = chain (ledger n) ++ d.
Proof.
  intros O Hp Ha w'. destruct (O p n es Hp) as [Id R K].
  destruct (handle_vouched (authentic w') i n) as [Ek F].
  { intros a ->. by eapply authentic_step. }
  destruct (gsteps_keeps (vetted w') n _ _ (handle_sound i n)) as (K' & d & D).
  - by eapply node_run_set.
  - intros a Hb V. split; [done|]. destruct (F a Hb) as [|[Ev Hs]]; [done|].
    intros _ _ s Hw. rewrite Ev, <- Id in Hw. unfold w' in Hw. rewrite lookup_insert_eq in Hw.
    injection Hw as <-. exists (att_height a). split; [done|]. cbn. unfold signed_of in *.
    rewrite omap_app. apply elem_of_app. by right.
  - destruct K as [K1 K2]. split.
    + intros h byV v a Hb Hv. destruct (K1 h byV v a Hb Hv). split; [done|]. by eapply authentic_step.
    + intros fb a Hf Hv. destruct (K2 fb a Hf Hv). split; [done|]. by eapply authentic_step.
  - split; [|eauto]. constructor; rewrite ?Ek; [done | by constructor | done].
Qed.

Lemma nstep_ok w w' : net_ok w -> nstep w w' -> net_ok w'.
Proof.
  intros O [p n es i Hp Ha]. destruct (handle_ok w p n es i O Hp Ha) as [M _].
  intros q n' es' [[<- [= <- <-]]|[Hq Hs]]%lookup_insert_Some; [done|].
  destruct (O q n' es' Hs) as [Id R [K1 K2]]. constructor; [done | done|]. split.
  - intros h byV v a Hb Hv. destruct (K1 h byV v a Hb Hv). split; [done|]. by eapply authentic_step.
  - intros fb a Hf Hv. destruct (K2 fb a Hf Hv). split; [done|]. by eapply authentic_step.
Qed.

(** *** The network refines the machine *)
Lemma link_backed w c i fb : link_ok set suite fnum fden c i fb ->
  (forall a, a ∈ fb_attestations fb -> vetted w a) ->
  exists Q, Voting.quorum set fnum fden Q /\ Voting.backed (abs w) i (fb_hash fb) Q.
Proof.
  intros [Hh Ht _ _ (v & V & F & _)] A.
  destruct (verifyFinalized_finalized _ _ _ _ _ _ _ _ V F) as (_ & h & setId & X & Fi & _).
  destruct (position_reasons_nil _ _ _ (fi_position _ _ _ _ _ _ _ _ _ _ Fi)) as (P1 & _).
  exists X. split; [apply Fi|]. intros k vs Hk Hv. cbn in Hv.
  apply lookup_fmap_Some in Hv as (s & <- & Hs).
  destruct (fi_atts _ _ _ _ _ _ _ _ _ _ Fi k Hk) as (a & Ha & Ea & Va).
  destruct (A a Ha) as [Sg Au]. destruct Va as [Eh Et Es _ _].
  destruct (Au) with (s := s) as (t & Et' & Hs'); [rewrite Es; by apply P1 | done | by rewrite Ea|].
  exists t. split.
  - rewrite Et'. apply num_eqb_equiv. by eapply num_eqb_trans.
  - assert (fb_hash fb = att_blockHash a) as -> by (rewrite Eh; pose proof (fi_hash _ _ _ _ _ _ _ _ _ _ Fi); congruence).
    done.
Qed.

Lemma nstep_refines w w' : net_ok w -> nstep w w' -> rtc (Voting.vstep set fnum fden) (abs w) (abs w').
Proof.
  intros O N. pose proof (nstep_ok _ _ O N) as O'. destruct N as [p n es i Hp Ha].
  destruct (handle_ok w p n es i O Hp Ha) as [[_ R [_ KC]] [d D]].
  set (w' := <[p := _]> w) in *. destruct (handle i n) as [n' e] eqn:Eh. cbn [fst snd] in *.
  destruct (node_run_ok _ _ _ _ _ _ _ R) as [RL _ Once _ _ _ _ _ _ _].
  set (m1 := {| Voting.votes := Voting.votes (abs w'); Voting.decided := Voting.decided (abs w) |}).
  transitivity m1.
  - pose proof (Voting.cast_all set fnum fden p (signed_of e) (abs w) (signed_of es)) as H.
    unfold m1, abs, w' in *. cbn in *. rewrite fmap_insert. cbn.
    unfold signed_of in *. rewrite omap_app. apply H.
    + by rewrite lookup_fmap, Hp.
    + intros i' j a b Hi Hj E. rewrite omap_app in Once. by eapply Once.
  - pose proof (Voting.decide_all set fnum fden p (map fb_hash d) m1 (map fb_hash (chain (ledger n)))) as H.
    assert (E : abs w' = {| Voting.votes := Voting.votes m1; Voting.decided :=
      <[p := map fb_hash (chain (ledger n)) ++ map fb_hash d]> (Voting.decided m1) |}).
    { unfold m1, abs, w'. cbn. f_equal. rewrite !fmap_insert. cbn. by rewrite D, map_app. }
    rewrite E. apply H; [cbn; by rewrite lookup_fmap, Hp|].
    intros j x Hj. apply list_lookup_fmap_Some in Hj as (fb & -> & Hj).
    assert (Hfb : chain (ledger n') !! (length (chain (ledger n)) + j)%nat = Some fb).
    { rewrite D, lookup_app_r by lia. by replace (_ - _)%nat with j by lia. }
    destruct (reachable_links _ _ _ _ _ RL) as [_ Ks]. rewrite length_map.
    apply (link_backed w' _ _ _ (Ks _ _ Hfb)). intros a Ha'. eapply KC; [|done].
    by eapply list_elem_of_lookup_2.
Qed.

Lemma start_initial keys :
  Voting.initial (list_to_set (map (fun k => bytesToHex (publicKey k)) keys)) (abs (start keys)).
Proof.
  split_and!.
  - cbn. rewrite dom_fmap_L. unfold start. rewrite dom_list_to_map_L. f_equal.
    induction keys as [|k keys IH]; cbn; [done|]. by f_equal.
  - intros v vs Hv. cbn in Hv. apply lookup_fmap_Some in Hv as (s & <- & (k & _ & _ & ->)%start_lookup).
    done.
  - intros v vs Hv. cbn in Hv. apply lookup_fmap_Some in Hv as (s & <- & (k & _ & _ & ->)%start_lookup).
    done.
Qed.

Lemma network_machine keys w : net_reachable keys w ->
  net_ok w /\
  Voting.reachable set fnum fden (list_to_set (map (fun k => bytesToHex (publicKey k)) keys)) (abs w).
Proof.
  intros S. enough (net_ok w /\ rtc (Voting.vstep set fnum fden) (abs (start keys)) (abs w)) as [O V].
  { split; [done|]. exists (abs (start keys)). split; [apply start_initial | done]. }
  unfold net_reachable in S. pose proof (start_ok keys) as O.
  induction S as [w|w w1 w2 N _ IH]; [by split|]. destruct IH as [O2 V]; [by eapply nstep_ok|].
  split; [done|]. etransitivity; [by apply nstep_refines | exact V].
Qed.

(** C5: A network of honest nodes refines the voting machine.  A world is what the
    nodes of [keys] reach from fresh nodes when they handle, one at a time and
    in any order, inputs each of which is a block, a request to propose, or an
    attestation that, if it is of the network's suite and verifies under an
    honest node's key, was signed by that node.  Seen through the votes (what
    each node has signed, by height) and the decisions (the hashes of its
    chain), the start is the machine's initial state; in every world that is reached, the handling
    of any such input by any node is a sequence of the machine's steps -- a
    vote of a validator that has not voted at that height, or a decision of
    the next position of a chain, backed by the votes at that position of the
    honest members of a set with a quorum of the stake -- from the votes and
    decisions before it to those after it; so every world reached is a
    reachable state of the machine. *)
Theorem network_refines keys w : net_reachable keys w ->
  let honest := list_to_set (map (fun k => bytesToHex (publicKey k)) keys) in
  Voting.initial honest (abs (start keys)) /\
  (forall p n es i, w !! p = Some (n, es) -> allowed w i ->
     rtc (Voting.vstep set fnum fden) (abs w)
       (abs (<[p := ((handle i n).1, es ++ (handle i n).2)]> w))) /\
  Voting.reachable set fnum fden honest (abs w).
Proof.
  intros R. destruct (network_machine keys w R) as [O V]. split; [apply start_initial|].
  split; [|done]. intros p n es i Hp Ha. apply nstep_refines; [done | by constructor].
Qed.

(** *** Agreement *)
Lemma chain_well_formed k es n i f : node_run k set suite fnum fden es n ->
  chain (ledger n) !! i = Some f -> NoDup (map pubkey (validators set)) /\ 0 < num_Z fden.
Proof.
  intros [R _ _ _ _ _ _ _ _ _]%node_run_ok H. destruct (reachable_links _ _ _ _ _ R) as [_ K].
  destruct (K _ _ H) as [_ _ _ _ (v & V & F & _)].
  destruct (verifyFinalized_finalized _ _ _ _ _ _ _ _ V F) as (_ & h & setId & X & Fi & _).
  split; [by apply (isWellFormedStakeSet_iff set), Fi|].
  pose proof (valid_threshold_Z _ _ (fi_threshold _ _ _ _ _ _ _ _ _ _ Fi)). lia.
Qed.

Lemma reachable_agreement keys w :
  2 * (num_Z fden - num_Z fnum) * totalStake set <
    stake_in set (list_to_set (map (fun k => bytesToHex (publicKey k)) keys)) * num_Z fden ->
  net_reachable keys w -> forall p q n m es es' i f g,
  w !! p = Some (n, es) -> w !! q = Some (m, es') ->
  chain (ledger n) !! i = Some f -> chain (ledger m) !! i = Some g -> fb_hash f = fb_hash g.
Proof.
  intros H [O R]%network_machine p q n m es es' i f g Hp Hq Hf Hg.
  destruct (O p n es Hp) as [_ Rn _]. destruct (chain_well_formed _ _ _ _ _ Rn Hf) as [Hn Hd].
  assert (D : forall p n es, w !! p = Some (n, es) ->
    Voting.decided (abs w) !! p = Some (map fb_hash (chain (ledger n))))
    by (intros ??? E; cbn; by rewrite lookup_fmap, E).
  apply (Voting.agreement set fnum fden _ (abs w) Hn Hd H R p q _ _ i _ _ (D _ _ _ Hp) (D _ _ _ Hq));
    apply list_lookup_fmap_Some; eauto.
Qed.

(** C6: Agreement.  Honest nodes, of which enough stake is honest (more than two
    thirds, when the threshold is two thirds), never finalize different blocks
    at one position, whatever messages the others send them and in whatever
    order, short of an attestation under an honest node's key that this node
    did not sign. *)
Theorem network_agreement keys w p q n m es es' i f g :
  2 * (num_Z fden - num_Z fnum) * totalStake set <
    stake_in set (list_to_set (map (fun k => bytesToHex (publicKey k)) keys)) * num_Z fden ->
  net_reachable keys w -> w !! p = Some (n, es) -> w !! q = Some (m, es') ->
  chain (ledger n) !! i = Some f -> chain (ledger m) !! i = Some g -> fb_hash f = fb_hash g.
Proof. intros H R. by apply (reachable_agreement keys w). Qed.

(** *** The bus *)
Definition handler_of (b : GossipBus) (p : string) : option GossipNode :=
  snd <$> find (fun e => bool_decide (e.1 = p)) (handlers b).

Definition bus_start (keys : list KeyPair) (reach : string -> string -> bool) : GossipBus :=
  fold_left (fun b k => register b (new_node k set suite fnum fden)) keys
    {| handlers := []; queue := []; reachable_from := reach; delivered := 0 |}.

(** A delivery, a proposal, or a change of the partitions. *)
Inductive bus_step (b : GossipBus) : GossipBus -> Prop :=
| bus_deliver : bus_step b (deliver b).1
| bus_propose p n payload ts : handler_of b p = Some n ->
    bus_step b {| handlers := put_node (handlers b) (handle (Propose payload ts) n).1;
      queue := queue b ++ enqueue b p (handle (Propose payload ts) n).2;
      reachable_from := reachable_from b; delivered := delivered b |}
| bus_partition f : bus_step b (setReachability b f).

Lemma bus_run_steps fuel : forall b, rtc bus_step b (bus_run fuel b).1.
Proof.
  induction fuel as [|fuel IH]; intros b; cbn [bus_run]; destruct (queue b); try apply rtc_refl.
  pose proof (bus_deliver b) as D. destruct (deliver b) as [b' [[]|e]]; cbn in D |- *.
  - by eapply rtc_l.
  - by apply rtc_once.
Qed.

Lemma find_put_node hs n p :
  snd <$> find (fun e => bool_decide (e.1 = p)) (put_node hs n) =
  if bool_decide (p = id n) then Some n else snd <$> find (fun e => bool_decide (e.1 = p)) hs.
Proof.
  induction hs as [|e hs IH]; cbn.
  - rewrite (bool_decide_ext (id n = p) (p = id n)) by done. by destruct (bool_decide _).
  - destruct (bool_decide_reflect (e.1 = id n)) as [E|E]; cbn.
    + rewrite E, (bool_decide_ext (id n = p) (p = id n)) by done. by destruct (bool_decide _).
    + destruct (bool_decide_reflect (e.1 = p)) as [<-|Hp]; [|exact IH].
      by rewrite bool_decide_eq_false_2.
Qed.

Lemma gsteps_id n e n' : gsteps n e n' -> id n' = id n.
Proof. induction 1 as [|n e n1 e1 n2 G _ IH]; [done|]. rewrite IH. by destruct G. Qed.
Lemma node_run_id k es n : node_run k set suite fnum fden es n -> id n = bytesToHex (publicKey k).
Proof. induction 1 as [|es n i _ IH]; [done|]. by rewrite (gsteps_id _ _ _ (handle_sound i n)). Qed.

Record bus_rel (b : GossipBus) (w : net) : Prop := {
  br_nodes : forall p n, handler_of b p = Some n -> exists es, w !! p = Some (n, es);
  br_queue : forall to a, (to, GAttestation a) ∈ queue b -> authentic w a }.

Lemma bus_start_rel keys reach : NoDup (map (fun k => bytesToHex (publicKey k)) keys) ->
  bus_rel (bus_start keys reach) (start keys).
Proof.
  intros N. set (b0 := {| handlers := []; queue := []; reachable_from := reach; delivered := 0 |}).
  assert (G : forall ks b, ks ⊆ keys -> queue b = [] ->
    (forall p n, handler_of b p = Some n -> exists k, k ∈ keys /\ p = bytesToHex (publicKey k) /\
      n = new_node k set suite fnum fden) ->
    queue (fold_left (fun b k => register b (new_node k set suite fnum fden)) ks b) = [] /\
    forall p n, handler_of (fold_left (fun b k => register b (new_node k set suite fnum fden)) ks b) p = Some n ->
      exists k, k ∈ keys /\ p = bytesToHex (publicKey k) /\ n = new_node k set suite fnum fden).
  { induction ks as [|k ks IH]; intros b S Q H; [done|]. cbn. apply IH; [set_solver | done|].
    intros p n. unfold handler_of, register. cbn [handlers]. rewrite find_put_node.
    destruct (bool_decide_reflect (p = id (new_node k set suite fnum fden))) as [->|]; [|apply H].
    intros [= <-]. exists k. split_and!; [set_solver | done | done]. }
  destruct (G keys b0) as [Q H]; [done | done | done |].
  unfold bus_start. fold b0. constructor; [|intros to a Ha; rewrite Q in Ha; by apply elem_of_nil in Ha].
  intros p n (k & Hk & -> & ->)%H. exists []. unfold start. apply elem_of_list_to_map_1.
  - rewrite <- list_fmap_compose. exact N.
  - by apply (list_elem_of_fmap_2 (fun k => (bytesToHex (publicKey k), (new_node k set suite fnum fden, @nil event)))).
Qed.

(** A handler run on the bus is a step of the network. *)
Lemma bus_handle b w p n es i q r d : net_ok w -> bus_rel b w -> w !! p = Some (n, es) ->
  allowed w i -> q ⊆ queue b ->
  let b' := {| handlers := put_node (handlers b) (handle i n).1;
    queue := q ++ enqueue b p (handle i n).2; reachable_from := r; delivered := d |} in
  exists w', nstep w w' /\ bus_rel b' w'.
Proof.
  intros O [Bn Bq] Hp Ha Hq b'. eexists. split; [by apply (nstep_handle w p n es i)|].
  destruct (handle_ok w p n es i O Hp Ha) as [[Id R _] _]. constructor.
  - intros p' m. unfold handler_of, b'. cbn [handlers]. rewrite find_put_node.
    assert (id (handle i n).1 = p) as -> by (rewrite (node_run_id _ _ _ R); by symmetry).
    destruct (bool_decide_reflect (p' = p)) as [->|Hn].
    + intros [= <-]. rewrite lookup_insert_eq. eauto.
    + rewrite lookup_insert_ne by done. apply Bn.
  - intros to a. cbn [b' queue]. intros [H|H]%elem_of_app.
    + eapply authentic_step; [done | by eapply Bq, Hq].
    + destruct (O p n es Hp) as [Id' _ _].
      set (w' := <[p := _]> w). destruct (handle_vouched (authentic w') i n) as [Ek F].
      { intros a' ->. by eapply authentic_step. }
      unfold enqueue in H. apply list_elem_of_In, in_concat in H as (ms & Hms & H).
      apply list_elem_of_In, list_elem_of_fmap in Hms as (e & -> & He).
      destruct e as [m|]; [|done]. apply list_elem_of_In, list_elem_of_fmap in H as (t & [= _ <-] & _).
      destruct (F a He) as [|[Ev Hs]]; [done|]. intros _ _ s Hw.
      rewrite Ev, <- Id' in Hw. unfold w' in Hw. rewrite lookup_insert_eq in Hw. injection Hw as <-.
      exists (att_height a). split; [done|]. cbn. unfold signed_of in *. rewrite omap_app.
      apply elem_of_app. by right.
Qed.

Lemma bus_step_network b b' w : net_ok w -> bus_rel b w -> bus_step b b' ->
  exists w', rtc nstep w w' /\ bus_rel b' w'.
Proof.
  intros O R S. destruct S as [|p n payload ts Hp|f].
  - unfold deliver. destruct (queue b) as [|[to m] q] eqn:Q; [by exists w; split|].
    destruct (find _ (handlers b)) as [e|] eqn:F.
    + assert (H : handler_of b to = Some e.2) by (unfold handler_of; by rewrite F).
      destruct (br_nodes _ _ R _ _ H) as [es Hw].
      assert (Hq : q ⊆ queue b) by (rewrite Q; set_solver).
      destruct (bus_handle b w to e.2 es (Receive m) q (reachable_from b)
        (match (onMessage m e.2).2 with Ok _ => S (delivered b) | Throw _ => delivered b end)
        O R Hw) as (w' & N & R'); [|exact Hq|].
      * destruct m as [|a]; [done|]. apply (br_queue _ _ R to). rewrite Q. left.
      * exists w'. split; [by apply rtc_once|]. cbn in R'.
        destruct (onMessage m e.2) as [[n' es'] r]. exact R'.
    + exists w. split; [done|]. destruct R as [R1 R2]. constructor; [exact R1|].
      intros t a H. apply (R2 t). rewrite Q. by right.
  - destruct (br_nodes _ _ R _ _ Hp) as [es Hw].
    destruct (bus_handle b w p n es (Propose payload ts) (queue b) (reachable_from b) (delivered b)
      O R Hw) as (w' & N & R'); [done | done |]. exists w'. split; [by apply rtc_once | exact R'].
  - exists w. split; [done|]. by destruct R as [R1 R2].
Qed.

Lemma bus_steps_network keys b b' : rtc bus_step b b' -> forall w,
  net_reachable keys w -> bus_rel b w -> exists w', net_reachable keys w' /\ bus_rel b' w'.
Proof.
  induction 1 as [b|b b1 b2 S _ IH]; intros w R0 R; [eauto|].
  destruct (bus_step_network b b1 w) as (w' & N & R'); [by eapply network_machine | done | done |].
  eapply IH; [|exact R']. by eapply (transitivity (R := rtc nstep)).
Qed.

Lemma bus_network keys reach b : NoDup (map (fun k => bytesToHex (publicKey k)) keys) ->
  rtc bus_step (bus_start keys reach) b -> exists w, net_reachable keys w /\ bus_rel b w.
Proof.
  intros N S. eapply (bus_steps_network keys); [exact S | apply rtc_refl | by apply bus_start_rel].
Qed.

(** C7: On the bus of the program, whatever is delivered, proposed and partitioned,
    no two nodes finalize different blocks at one position, if the nodes hold
    more than two thirds of the stake (at the threshold of two thirds); the
    validators that are not on the bus send nothing, so nothing is assumed of
    the signatures. *)
Theorem bus_agreement keys reach b p q n m i f g :
  NoDup (map (fun k => bytesToHex (publicKey k)) keys) ->
  2 * (num_Z fden - num_Z fnum) * totalStake set <
    stake_in set (list_to_set (map (fun k => bytesToHex (publicKey k)) keys)) * num_Z fden ->
  rtc bus_step (bus_start keys reach) b -> handler_of b p = Some n -> handler_of b q = Some m ->
  chain (ledger n) !! i = Some f -> chain (ledger m) !! i = Some g -> fb_hash f = fb_hash g.
Proof.
  intros N H S Hp Hq Hf Hg. destruct (bus_network _ _ _ N S) as (w & R & [Bn _]).
  destruct (Bn _ _ Hp) as [es Hw], (Bn _ _ Hq) as [es' Hw'].
  by apply (reachable_agreement keys w H R p q n m es es' i).
Qed.
End network.

(** ** Concrete runs *)
Section checked.
Context {L : Lib} {C : Ed25519}.

Definition authentic_b (w : gmap string (GossipNode * list event)) (a : Attestation) : bool :=
  match w !! att_validator a with
  | None => true
  | Some s => existsb (fun kh => num_eqb kh.1 (att_height a) && bool_decide (kh.2 = att_blockHash a))
                (signed_of s.2)
  end.
Definition allowed_b w (i : input) : bool :=
  match i with Receive (GAttestation a) => authentic_b w a | _ => true end.

(** The inputs that are allowed, in order. *)
Definition run_inputs (w : gmap string (GossipNode * list event)) (steps : list (string * input)) :=
  fold_left (fun w pi => match w !! pi.1 with
    | Some s => if allowed_b w pi.2
                then <[pi.1 := ((handle pi.2 s.1).1, s.2 ++ (handle pi.2 s.1).2)]> w else w
    | None => w
    end) steps w.

Lemma run_inputs_steps set suite steps : forall w, rtc (nstep set suite) w (run_inputs w steps).
Proof.
  induction steps as [|[p i] steps IH]; intros w; cbn; [done|].
  destruct (w !! p) as [[n es]|] eqn:E; [|apply IH].
  destruct (allowed_b w i) eqn:A; [|apply IH]. eapply rtc_l; [|apply IH].
  apply nstep_handle; [done|]. destruct i as [[|a]|]; try done. intros _ _ s Hs.
  cbn in A. unfold authentic_b in A. rewrite Hs in A. apply existsb_exists in A as ([k h] & Hk & A).
  apply andb_true_iff in A as [A1%num_eqb_equiv A2%bool_decide_eq_true]. cbn in *. subst h.
  exists k. split; [done|]. by apply list_elem_of_In.
Qed.
End checked.

(** Two honest validators with 70 of 100; the third is not of the network. *)
Definition honest_keys : list KeyPair := [kp "v1"; kp "v2"].
Definition net0 := start sample_set "PS-5" (Int 2) (Int 3) honest_keys.
Definition net_inputs : list (string * input) :=
  [(kp_hex "v1", Receive (GBlock (block0 "root"))); (kp_hex "v2", Receive (GBlock (block0 "root")))] ++
  flat_map (fun a => [(kp_hex "v1", Receive (GAttestation a)); (kp_hex "v2", Receive (GAttestation a))])
    (atts0 "root").
Definition net1 := run_inputs net0 net_inputs.
Definition member_of (w : gmap string (GossipNode * list event)) (p : string) : GossipNode * list event :=
  default (node0 p, []) (w !! p).
Definition m1 : GossipNode * list event := Eval vm_compute in member_of net1 (kp_hex "v1").
Definition m2 : GossipNode * list event := Eval vm_compute in member_of net1 (kp_hex "v2").

Lemma net1_reachable : net_reachable sample_set "PS-5" (Int 2) (Int 3) honest_keys net1.
Proof.
  apply run_inputs_steps.
Qed.

Lemma net1_members : net1 !! kp_hex "v1" = Some m1 /\ net1 !! kp_hex "v2" = Some m2.
Proof.
  apply pair_equal_spec. vm_cast_no_check (@eq_refl _ (Some m1, Some m2)).
Qed.

Lemma network_refines_witness :
  Voting.decided (abs net1) !! kp_hex "v1" = Some [hash0 "root"] /\
  Voting.decided (abs net1) !! kp_hex "v2" = Some [hash0 "root"] /\
  Voting.reachable sample_set (Int 2) (Int 3)
    (list_to_set (map (fun k => bytesToHex (publicKey k)) honest_keys)) (abs net1).
Proof.
  destruct net1_members as [E1 E2]. cbn [abs Voting.decided]. rewrite !lookup_fmap, E1, E2.
  split; [by vm_compute|]. split; [by vm_compute|].
  exact (proj2 (proj2 (network_refines sample_set "PS-5" (Int 2) (Int 3) honest_keys net1 net1_reachable))).
Defined.

Lemma network_agreement_witness : fb_hash (fb_of m1.1) = fb_hash (fb_of m2.1).
Proof.
  refine (network_agreement sample_set "PS-5" (Int 2) (Int 3) honest_keys net1 (kp_hex "v1") (kp_hex "v2")
    m1.1 m2.1 m1.2 m2.2 0%nat (fb_of m1.1) (fb_of m2.1) _ net1_reachable _ _ _ _).
  - by vm_compute.
  - exact (proj1 net1_members).
  - exact (proj2 net1_members).
  - by vm_compute.
  - by vm_compute.
Defined.

(** Three nodes on the bus; one of them proposes. *)
Definition bus_keys : list KeyPair := [kp "v1"; kp "v2"; kp "v3"].
Definition bus1 : GossipBus := bus_start sample_set "PS-5" (Int 2) (Int 3) bus_keys (fun _ _ => true).
Definition bus2 : GossipBus :=
  let n := node0 "v2" in
  {| handlers := put_node (handlers bus1) (handle (Propose "root" (Int 5)) n).1;
     queue := queue bus1 ++ enqueue bus1 (kp_hex "v2") (handle (Propose "root" (Int 5)) n).2;
     reachable_from := reachable_from bus1; delivered := delivered bus1 |}.
Definition bus_end : GossipBus := (bus_run 100 bus2).1.
Definition b1 := Eval vm_compute in default (node0 "v1") (handler_of bus_end (kp_hex "v1")).
Definition b3 := Eval vm_compute in default (node0 "v3") (handler_of bus_end (kp_hex "v3")).

Lemma bus_end_reached : rtc bus_step bus1 bus_end.
Proof.
  eapply rtc_l; [|apply bus_run_steps]. apply bus_propose. by vm_compute.
Qed.

Lemma bus_end_members : handler_of bus_end (kp_hex "v1") = Some b1 /\ handler_of bus_end (kp_hex "v3") = Some b3.
Proof.
  apply pair_equal_spec. vm_cast_no_check (@eq_refl _ (Some b1, Some b3)).
Qed.

Lemma bus_agreement_witness : chain (ledger b1) <> [] /\ fb_hash (fb_of b1) = fb_hash (fb_of b3).
Proof.
  split; [by vm_compute|].
  refine (bus_agreement sample_set "PS-5" (Int 2) (Int 3) bus_keys (fun _ _ => true) bus_end
    (kp_hex "v1") (kp_hex "v3") b1 b3 0%nat (fb_of b1) (fb_of b3) _ _ bus_end_reached _ _ _ _).
  - by apply (bool_decide_unpack _); vm_compute.
  - by vm_compute.
  - exact (proj1 bus_end_members).
  - exact (proj2 bus_end_members).
  - by vm_compute.
  - by vm_compute.
Defined.
