(* ===== verification/Governance.v ===== *)
(** * governance/: quorum approval, revocation, kill switch

    src/governance/src/types.ts and quorum.ts. *)
From S2P Require Import Prelude JsNum JsVal Crypto Concrete Grant Capability Kernel.
Open Scope string_scope.
Open Scope Z_scope.
Open Scope list_scope.

Inductive ProposalKind := revoke | rotate | upgrade | param.
#[export] Instance ProposalKind_eq_dec : EqDecision ProposalKind.
Proof. solve_decision. Defined.
Definition kind_str (k : ProposalKind) : string :=
  match k with revoke => "revoke" | rotate => "rotate" | upgrade => "upgrade" | param => "param" end.

Record Proposal := {
  p_id : string;
  kind : ProposalKind;
  target : string;
  payload : string;
  notBefore : num;
  notAfter : num;
  nonce : string }.

Record Quorum := { members : list string; threshold : num }.

Record Approval := { ap_proposalId : string; signer : string; ap_suite : string; ap_sig : bytes }.

(** A reason is a fixed text, or the template with its two numbers. *)
Inductive Reason :=
| because (s : string)
| need_approvals (needed : num) (have : nat).

Record EnactmentResult := { enacted : bool; validApprovals : nat; reasons : list Reason }.

(** What the counting loop keeps: [distinctValid] and [verifies]. *)
Record enact_state := { distinctValid : gset string; verifies : nat }.

Section governance.
Context {L : Lib}.

Definition GOV_CONTEXT : string := tag "GOVERNANCE_PROPOSAL".

Definition quorumId (q : Quorum) : res string :=
  b ← encodeCanonical (VArr [VStr GOV_CONTEXT; VStr "quorum";
    VStrs (js_sort str_ltb (members q)); VNum (threshold q)]);
  Ok (bytesToHex (sha3_256 b)).

Definition proposalBytes (p : Proposal) (qid suite : string) : res bytes :=
  encodeCanonical (VArr [VStr GOV_CONTEXT; VStr (p_id p); VStr (kind_str (kind p));
    VStr (target p); VStr (payload p); VNum (notBefore p); VNum (notAfter p); VStr (nonce p);
    VStr qid; VStr suite]).

Definition proposalId (p : Proposal) : res string :=
  b ← encodeCanonical (VArr [VStr GOV_CONTEXT; VStr (kind_str (kind p)); VStr (target p);
    VStr (payload p); VNum (notBefore p); VNum (notAfter p); VStr (nonce p)]);
  Ok (str_take 24 (bytesToHex (sha3_256 b))).

Definition approve (p : Proposal) (suite : string) (member : KeyPair) (q : Quorum)
  : res Approval :=
  s ← signerFor suite;
  qid ← quorumId q;
  msg ← proposalBytes p qid suite;
  sg ← scheme_sign s msg (secretKey member) None;
  Ok {| ap_proposalId := p_id p; signer := bytesToHex (publicKey member); ap_suite := suite;
        ap_sig := sg |}.

Definition verifyApproval (p : Proposal) (a : Approval) (q : Quorum) : bool :=
  if negb (bool_decide (ap_proposalId a = p_id p)) then false else
  try_catch
    (s ← signerFor (ap_suite a);
     qid ← quorumId q;
     msg ← proposalBytes p qid (ap_suite a);
     pub ← hexToBytes (signer a);
     scheme_verify s (ap_sig a) msg pub None)
    (fun _ => false).

(** The clock and the window, in the order of the [if] chain. *)
Definition window_reasons (p : Proposal) (now : num) : list Reason :=
  if negb (isSafeInteger now) then [because "enactment clock is non-finite or unsafe"]
  else if negb (isSafeInteger (notBefore p)) || negb (isSafeInteger (notAfter p)) ||
          num_ltb (notAfter p) (notBefore p)
  then [because "proposal validity window is malformed (non-finite or inverted bounds)"]
  else if num_ltb now (notBefore p) || num_ltb (notAfter p) now
  then [because "proposal is outside its validity window"]
  else [].

Definition positive_threshold (q : Quorum) : bool :=
  isInteger (threshold q) && negb (num_ltb (threshold q) (Int 1)).

(** [distinctValid.size >= threshold] where a bad threshold reads as Infinity *)
Definition reached (q : Quorum) (n : nat) : bool :=
  positive_threshold q && num_leb (threshold q) (Int (Z.of_nat n)).

Definition max_verifies (q : Quorum) : nat := Nat.max (length (members q) * 4) 256.

Fixpoint enact_loop (p : Proposal) (q : Quorum) (st : enact_state) (approvals : list Approval)
  : enact_state :=
  match approvals with
  | [] => st
  | a :: rest =>
      if reached q (size (distinctValid st)) then st else
      if negb (includes (members q) (signer a)) then enact_loop p q st rest else
      if bool_decide (signer a ∈ distinctValid st) then enact_loop p q st rest else
      if (max_verifies q <=? verifies st)%nat then st else
      enact_loop p q
        {| distinctValid := if verifyApproval p a q then {[signer a]} ∪ distinctValid st
                            else distinctValid st;
           verifies := S (verifies st) |} rest
  end.

Definition enact (p : Proposal) (approvals : list Approval) (q : Quorum) (now : num)
  : EnactmentResult :=
  let r1 := window_reasons p now in
  let r2 := if positive_threshold q then []
            else [because "quorum threshold must be a positive integer"] in
  let st := enact_loop p q {| distinctValid := ∅; verifies := 0 |} approvals in
  let n := size (distinctValid st) in
  let r3 := if num_ltb (Int (Z.of_nat n)) (threshold q) then [need_approvals (threshold q) n]
            else [] in
  let rs := r1 ++ r2 ++ r3 in
  {| enacted := (length rs =? 0)%nat; validApprovals := n; reasons := rs |}.

(** *** The revocation registry: a set in insertion order *)
Record RevocationRegistry := { revoked : list string }.
Definition new_registry : RevocationRegistry := {| revoked := [] |}.

Definition isRevoked (r : RevocationRegistry) (t : string) : bool := includes (revoked r) t.
Definition revokedIds (r : RevocationRegistry) : list string := revoked r.

Definition enactRevocation (reg : RevocationRegistry) (p : Proposal) (approvals : list Approval)
    (q : Quorum) (now : num) : RevocationRegistry * EnactmentResult :=
  if negb (bool_decide (kind p = revoke))
  then (reg, {| enacted := false; validApprovals := 0;
                reasons := [because "proposal is not a revocation"] |})
  else
    let r := enact p approvals q now in
    (if enacted r
     then {| revoked := if includes (revoked reg) (target p) then revoked reg
                        else revoked reg ++ [target p] |}
     else reg, r).

(** *** The local kill switch *)
Record LocalKillSwitch := { killed : bool }.
Definition engage (k : LocalKillSwitch) : LocalKillSwitch := {| killed := true |}.
Definition release (k : LocalKillSwitch) : LocalKillSwitch := {| killed := false |}.
Definition engaged (k : LocalKillSwitch) : bool := killed k.
End governance.

(** ** Lemmas *)
Section lemmas.
Context {L : Lib}.

(** A member with an approval that verifies. *)
Definition approved (p : Proposal) (q : Quorum) (approvals : list Approval) (m : string) : Prop :=
  m ∈ members q /\ exists a, a ∈ approvals /\ signer a = m /\ verifyApproval p a q = true.

Lemma enact_loop_sound p q all approvals : forall st,
  approvals ⊆ all -> (forall m, m ∈ distinctValid st -> approved p q all m) ->
  forall m, m ∈ distinctValid (enact_loop p q st approvals) -> approved p q all m.
Proof.
  induction approvals as [|a rest IH]; intros st Hs Hi; cbn [enact_loop]; [done|].
  destruct (reached _ _); [done|].
  destruct (includes (members q) (signer a)) eqn:E1; cbn [negb]; [|by apply IH; [set_solver|]].
  destruct (bool_decide _); [by apply IH; [set_solver|]|]. destruct (_ <=? _)%nat; [done|].
  apply IH; [set_solver|]. cbn. destruct (verifyApproval p a q) eqn:V; [|done].
  intros m [->%elem_of_singleton|Hm]%elem_of_union; [|by apply Hi].
  split; [by apply includes_spec|]. exists a. split_and!; [apply Hs; left | done | done].
Qed.

Definition by_member (q : Quorum) (a : Approval) : bool := includes (members q) (signer a).

(** Within the verification budget the loop counts every approving member,
    or has reached the threshold. *)
Lemma enact_loop_complete p q approvals : forall st,
  (verifies st + length (List.filter (by_member q) approvals) <= max_verifies q)%nat ->
  let st' := enact_loop p q st approvals in
  reached q (size (distinctValid st')) = true \/
  (distinctValid st ⊆ distinctValid st' /\
   forall m, approved p q approvals m -> m ∈ distinctValid st').
Proof.
  induction approvals as [|a rest IH]; intros st Hb; cbn [enact_loop].
  - right. split; [done|]. by intros m (_ & a & ?%elem_of_nil & _).
  - destruct (reached q (size (distinctValid st))) eqn:R; [by left|].
    cbn [List.filter] in Hb. unfold by_member at 1 in Hb.
    destruct (includes (members q) (signer a)) eqn:E1; cbn [negb].
    + destruct (bool_decide (signer a ∈ distinctValid st)) eqn:E2.
      * cbn [length] in Hb. destruct (IH st) as [H|[H1 H2]]; [lia | by left |]. right.
        split; [done|]. intros m (Hm & b & [->|Hb']%elem_of_cons & Eb & V).
        -- apply H1. rewrite <- Eb. by apply bool_decide_eq_true in E2.
        -- apply H2. split; [done|]. by exists b.
      * cbn [length] in Hb. rewrite (proj2 (Nat.leb_gt _ _)) by lia.
        match goal with |- context [enact_loop p q ?s rest] => destruct (IH s) as [H|[H1 H2]] end;
          [cbn; lia | by left |].
        right. cbn [distinctValid] in H1. split; [destruct (verifyApproval p a q); set_solver|].
        intros m (Hm & b & [->|Hb']%elem_of_cons & Eb & V).
        -- apply H1. rewrite V, Eb. set_solver.
        -- apply H2. split; [done|]. by exists b.
    + destruct (IH st) as [H|[H1 H2]]; [done | by left |]. right. split; [done|].
      intros m (Hm & b & [->|Hb']%elem_of_cons & Eb & V).
      -- apply includes_spec in Hm. congruence.
      -- apply H2. split; [done|]. by exists b.
Qed.

Lemma positive_threshold_Z q : positive_threshold q = true ->
  threshold q ≡ Int (num_Z (threshold q)) /\ 1 <= num_Z (threshold q).
Proof.
  unfold positive_threshold. rewrite andb_true_iff, negb_true_iff. intros [I T].
  split; [by apply isInteger_equiv|]. rewrite num_ltb_Z, Z.ltb_ge in T by done. exact T.
Qed.

Lemma threshold_met q n : positive_threshold q = true ->
  num_ltb (Int (Z.of_nat n)) (threshold q) = (Z.of_nat n <? num_Z (threshold q)) /\
  reached q n = (num_Z (threshold q) <=? Z.of_nat n).
Proof.
  intros H. destruct (positive_threshold_Z q H) as [E _]. unfold reached. rewrite H. cbn [andb].
  rewrite E at 1 3. by rewrite num_ltb_Int, num_leb_Int.
Qed.

Lemma window_reasons_nil p now : window_reasons p now = [] <->
  isSafeInteger now = true /\ isSafeInteger (notBefore p) = true /\
  isSafeInteger (notAfter p) = true /\ num_Z (notBefore p) <= num_Z now <= num_Z (notAfter p).
Proof.
  unfold window_reasons. destruct (isSafeInteger now) eqn:N; cbn [negb]; [|naive_solver].
  destruct (isSafeInteger (notBefore p)) eqn:B; cbn [negb orb]; [|naive_solver].
  destruct (isSafeInteger (notAfter p)) eqn:A; cbn [negb orb]; [|naive_solver].
  assert (I : forall x, isSafeInteger x = true -> isInteger x = true)
    by (unfold isSafeInteger; intros x; rewrite !andb_true_iff; tauto).
  rewrite !num_ltb_Z by (by apply I).
  destruct (Z.ltb_spec (num_Z (notAfter p)) (num_Z (notBefore p))),
    (Z.ltb_spec (num_Z now) (num_Z (notBefore p))),
    (Z.ltb_spec (num_Z (notAfter p)) (num_Z now)); cbn [orb];
    split; try done; intros; try lia; by split_and!; try lia.
Qed.
End lemmas.

(** ** Properties *)
Section properties.
Context {L : Lib}.

Lemma enacted_iff p approvals q now : enacted (enact p approvals q now) = true <->
  window_reasons p now = [] /\ positive_threshold q = true /\
  num_Z (threshold q) <= Z.of_nat (validApprovals (enact p approvals q now)).
Proof.
  unfold enact. cbn [enacted validApprovals]. rewrite Nat.eqb_eq, !length_app.
  set (n := size _). split.
  - intros H. assert (W : window_reasons p now = []) by (apply length_zero_iff_nil; lia).
    destruct (positive_threshold q) eqn:T; [|cbn in H; lia]. split; [done|]. split; [done|].
    destruct (threshold_met q n T) as [E _]. rewrite E in H.
    destruct (Z.ltb_spec (Z.of_nat n) (num_Z (threshold q))); [cbn in H; lia | done].
  - intros (-> & T & H). rewrite T. destruct (threshold_met q n T) as [E _]. rewrite E.
    by rewrite (proj2 (Z.ltb_ge _ _)).
Qed.

Lemma enacted_quorate p approvals q now :
  let quorate := exists X : gset string, num_Z (threshold q) <= Z.of_nat (size X) /\
    forall m, m ∈ X -> approved p q approvals m in
  let timely := isSafeInteger now = true /\ isSafeInteger (notBefore p) = true /\
    isSafeInteger (notAfter p) = true /\ num_Z (notBefore p) <= num_Z now <= num_Z (notAfter p) in
  (enacted (enact p approvals q now) = true -> timely /\ positive_threshold q = true /\ quorate) /\
  ((length (List.filter (by_member q) approvals) <= max_verifies q)%nat ->
   timely -> positive_threshold q = true -> quorate ->
   enacted (enact p approvals q now) = true).
Proof.
  cbv zeta. split.
  - intros (W & T & N)%enacted_iff. split; [by apply window_reasons_nil|]. split; [done|].
    exists (distinctValid (enact_loop p q {| distinctValid := ∅; verifies := 0 |} approvals)).
    split; [exact N|]. intros m. apply enact_loop_sound; [done|]. set_solver.
  - intros Hb W T (X & HX & Ha). apply enacted_iff. split; [by apply window_reasons_nil|].
    split; [done|]. cbn [enact validApprovals].
    destruct (enact_loop_complete p q approvals {| distinctValid := ∅; verifies := 0 |})
      as [R|[_ H]]; [exact Hb | |].
    + destruct (threshold_met q (size (distinctValid (enact_loop p q
        {| distinctValid := ∅; verifies := 0 |} approvals))) T) as [_ E]. rewrite E in R. by apply Z.leb_le.
    + etransitivity; [exact HX|]. apply Nat2Z.inj_le, subseteq_size. intros m Hm. by apply H, Ha.
Qed.

(** C26: Quorum enactment.  A proposal is enacted only at a safe integer time
    inside a well-formed window, under a positive integer threshold, and with
    at least that many distinct members each having an approval in the list
    that verifies; and whenever the list holds at most the verification
    budget (the larger of 256 and four per member) of approvals that name a
    member, these conditions are also enough, whatever else the list holds
    and in whatever order. *)
Theorem enact_quorum p approvals q now :
  let quorate := exists X : gset string, num_Z (threshold q) <= Z.of_nat (size X) /\
    forall m, m ∈ X -> approved p q approvals m in
  let timely := isSafeInteger now = true /\ isSafeInteger (notBefore p) = true /\
    isSafeInteger (notAfter p) = true /\ num_Z (notBefore p) <= num_Z now <= num_Z (notAfter p) in
  (enacted (enact p approvals q now) = true -> timely /\ positive_threshold q = true /\ quorate) /\
  ((length (List.filter (by_member q) approvals) <= max_verifies q)%nat ->
   timely -> positive_threshold q = true -> quorate ->
   enacted (enact p approvals q now) = true).
Proof. apply enacted_quorate. Qed.

(** The registries an enactment, and anything after it, leads to. *)
Inductive later (reg : RevocationRegistry) : RevocationRegistry -> Prop :=
| later_refl : later reg reg
| later_step reg' p approvals q now : later reg reg' ->
    later reg (enactRevocation reg' p approvals q now).1.

Lemma enactRevocation_revoked reg p approvals q now t :
  t ∈ revoked (enactRevocation reg p approvals q now).1 <->
  t ∈ revoked reg \/
  kind p = revoke /\ enacted (enact p approvals q now) = true /\ t = target p.
Proof.
  unfold enactRevocation. case_bool_decide as K; cbn [negb fst revoked]; [|naive_solver].
  destruct (enacted (enact p approvals q now)) eqn:En; cbn [revoked];
    [|split; [intros ?; by left | by intros [?|(_ & ? & _)]]].
  destruct (includes (revoked reg) (target p)) eqn:I.
  - apply includes_spec in I. naive_solver.
  - rewrite elem_of_app, list_elem_of_singleton. naive_solver.
Qed.

Lemma later_mono reg reg' : later reg reg' -> revoked reg ⊆ revoked reg'.
Proof.
  induction 1 as [|reg' p approvals q now _ IH]; [done|].
  intros t Ht. apply enactRevocation_revoked. left. by apply IH.
Qed.

(** C27: An enacted revocation is enforced: once a quorum has enacted the
    revocation of a capability id, the kernel, given the registry's ids then
    or at any later time, denies every request whose candidate capabilities
    all contain a grant with that id, whatever the request. *)
Theorem revocation_enforced reg p approvals q now later_reg input :
  kind p = revoke -> enacted (enact p approvals q now) = true ->
  later (enactRevocation reg p approvals q now).1 later_reg ->
  in_revoked input = Some (revokedIds later_reg) ->
  (forall cap, cap ∈ capabilities input ->
     exists l, l ∈ chain cap /\ grant_id (grant l) = target p) ->
  effect (decide input) = deny.
Proof.
  intros K E Hl Hi Hc. unfold decide.
  destruct (decide_cases input) as [(_ & h & cap & _ & Hcap & [_ U _ _] & _)|(_ & D & _)];
    [|exact D].
  exfalso. destruct (Hc cap Hcap) as (l & Hin & Hid). apply (U l Hin). rewrite Hid.
  unfold revoked_set. rewrite Hi. cbn. apply elem_of_list_to_set, (later_mono _ _ Hl).
  apply enactRevocation_revoked. by right.
Qed.
End properties.

(** ** Concrete runs *)
Definition sample_quorum : Quorum :=
  {| members := [kp_hex "m1"; kp_hex "m2"; kp_hex "m3"]; threshold := Int 2 |}.
Definition sample_revocation : Proposal := {|
  p_id := "p1"; kind := revoke; target := grant_id (grant sample_tail_link); payload := "";
  notBefore := Int 0; notAfter := Int 100; nonce := "n" |}.
Definition no_approval : Approval :=
  {| ap_proposalId := ""; signer := ""; ap_suite := ""; ap_sig := [] |}.
Definition sample_approval (m : string) : Approval :=
  try_catch (approve sample_revocation "PS-5" (kp m) sample_quorum) (fun _ => no_approval).
Definition sample_approvals : list Approval :=
  [no_approval; sample_approval "m3"; sample_approval "m3"; sample_approval "m1"].

Lemma enact_quorum_witness :
  enacted (enact sample_revocation sample_approvals sample_quorum (Int 50)) = true /\
  isSafeInteger (Int 50) = true.
Proof.
  assert (E : enacted (enact sample_revocation sample_approvals sample_quorum (Int 50)) = true)
    by (by vm_compute).
  split; [exact E|].
  exact (proj1 (proj1 (proj1 (enact_quorum _ _ _ _) E))).
Defined.

Definition sample_registry : RevocationRegistry :=
  (enactRevocation new_registry sample_revocation sample_approvals sample_quorum (Int 50)).1.
Definition sample_revoked_input : KernelInput := {|
  intent := intent sample_input; capabilities := [sample_child];
  policy := policy sample_input; trustedRoots := trustedRoots sample_input;
  in_now := Int 50; in_observedAggregate := Int 0; in_holder := Some (kp_hex "helper");
  in_revoked := Some (revokedIds sample_registry) |}.

Lemma revocation_enforced_witness :
  effect (decide {| intent := intent sample_revoked_input;
    capabilities := capabilities sample_revoked_input; policy := policy sample_revoked_input;
    trustedRoots := trustedRoots sample_revoked_input; in_now := Int 50;
    in_observedAggregate := Int 0; in_holder := Some (kp_hex "helper"); in_revoked := None |}) = allow /\
  effect (decide sample_revoked_input) = deny.
Proof.
  split; [by vm_compute|].
  apply (revocation_enforced new_registry sample_revocation sample_approvals sample_quorum (Int 50)
    sample_registry).
  - done.
  - by vm_compute.
  - apply later_refl.
  - done.
  - intros cap ->%list_elem_of_singleton. exists sample_tail_link. split; [|done].
    apply list_elem_of_lookup_2 with 1%nat. by vm_compute.
Defined.

(** Approvals that name a member but are not signed use up the verification
    budget: placed before the genuine ones, 256 of them keep a unanimous quorum
    from enacting. *)
Definition forged_approval : Approval :=
  {| ap_proposalId := "p1"; signer := kp_hex "m1"; ap_suite := "PS-5"; ap_sig := [] |}.

Theorem forged_approvals_exhaust_budget :
  let genuine := map sample_approval ["m1"; "m2"; "m3"] in
  enacted (enact sample_revocation genuine sample_quorum (Int 50)) = true /\
  enacted (enact sample_revocation (repeat forged_approval 256 ++ genuine) sample_quorum (Int 50))
    = false.
Proof. by vm_compute. Qed.
