(* ===== verification/Permit.v ===== *)
(** * planes/: bound permits and macaroon-style attenuation

    src/planes/src/permit.ts and caveat.ts.  A caveat comes from the wire: its
    value is any JavaScript value, its kind any string.  The other fields of an
    attenuated permit have their declared types, so the shape test in front of
    [verifyAttenuatedPermit] passes. *)
From S2P Require Import Prelude JsNum JsVal Crypto Concrete Grant Capability Kernel.
Open Scope string_scope.
Open Scope Z_scope.
Open Scope list_scope.

(** ** permit.ts *)
Definition MAX_PERMIT_BODY_BYTES : nat := Z.to_nat 8192.
Definition MAX_PERMIT_SUITE_LEN : nat := 64.

Record PermitClaims := {
  pc_sessionId : string;
  pc_nonce : string;
  pc_audience : string;
  pc_actionHash : string;
  pc_tier : num;
  pc_exp : num;
  pc_evaluator : string;
  pc_effect : string }.

Definition claims_val (c : PermitClaims) : jsval := VObj [
  ("sessionId", VStr (pc_sessionId c)); ("nonce", VStr (pc_nonce c));
  ("audience", VStr (pc_audience c)); ("actionHash", VStr (pc_actionHash c));
  ("tier", VNum (pc_tier c)); ("exp", VNum (pc_exp c));
  ("evaluator", VStr (pc_evaluator c)); ("effect", VStr (pc_effect c))].

Record PermitCheck := {
  ck_audience : string;
  ck_intent : ActionIntent;
  ck_now : num;
  ck_sessionId : option string;
  expectedEffect : option string }.

(** A reason is a fixed text, or the template on the bound effect. *)
Inductive Reason :=
| because (s : string)
| effect_is_not (bound : jsval) (required : string).

Record PermitVerdict := { pv_ok : bool; pv_reasons : list Reason }.

(** [v === s] for a string [s] *)
Definition is_str (v : jsval) (s : string) : bool :=
  match v with VStr t => bool_decide (t = s) | _ => false end.

(** [v.k] *)
Definition prop (v : jsval) (k : string) : res jsval :=
  match v with
  | VUndef => Throw ("Cannot read properties of undefined (reading '" +:+ k +:+ "')")
  | VNull => Throw ("Cannot read properties of null (reading '" +:+ k +:+ "')")
  | _ => Ok (default VUndef (get v k))
  end.

(** [typeof v === 'number' && Number.isFinite(v) && now <= v] *)
Definition not_expired (now : num) (v : jsval) : bool :=
  match v with VNum n => isFinite n && num_leb now n | _ => false end.

Definition because_if (b : bool) (s : string) : list Reason := if b then [because s] else [].

Section permit.
Context {L : Lib}.

Definition actionHash (i : ActionIntent) : res string :=
  b ← encodeCanonical (intent_val i); Ok (bytesToHex (sha3_256 b)).

Definition issueBoundPermit (claims : PermitClaims) (suite : string) (sessionKey : bytes)
  : res PermitToken :=
  audienceKey ← deriveAudiencePermitKey sessionKey (pc_audience claims);
  issuePermit (claims_val claims) suite audienceKey.

Definition verifyPermitForAction (token : PermitToken) (audienceKey : bytes)
    (check : PermitCheck) : res PermitVerdict :=
  if (MAX_PERMIT_BODY_BYTES <? length (tok_body token))%nat ||
     (MAX_PERMIT_SUITE_LEN <? String.length (tok_suite token))%nat
  then Ok {| pv_ok := false; pv_reasons := [because "permit token exceeds size bound"] |} else
  good ← verifyPermit token audienceKey;
  if negb good
  then Ok {| pv_ok := false;
             pv_reasons := [because "permit MAC invalid (wrong audience key or tampered)"] |} else
  claims ← readPermit token;
  audience ← prop claims "audience";
  ah ← prop claims "actionHash";
  h ← actionHash (ck_intent check);
  exp ← prop claims "exp";
  sid ← prop claims "sessionId";
  eff ← prop claims "effect";
  let required := default "allow" (expectedEffect check) in
  let rs :=
    because_if (negb (is_str audience (ck_audience check)))
      "permit audience does not match this resource" ++
    because_if (negb (is_str ah h)) "permit is not bound to this action" ++
    because_if (negb (not_expired (ck_now check) exp))
      "permit expired or has no valid expiry" ++
    because_if (match ck_sessionId check with Some s => negb (is_str sid s) | None => false end)
      "permit session mismatch" ++
    (if negb (is_str eff required) then [effect_is_not eff required] else []) in
  Ok {| pv_ok := (length rs =? 0)%nat; pv_reasons := rs |}.
End permit.

(** ** caveat.ts *)
Definition MAX_CAVEATS : nat := 16.

Record Caveat := { c_kind : string; c_value : jsval }.

Record AttenuatedPermit := {
  at_suite : string; at_body : bytes; caveats : list Caveat; at_mac : bytes }.

(** [Number.isSafeInteger(v)] on any value *)
Definition safe_int (v : jsval) : option num :=
  match v with VNum n => if isSafeInteger n then Some n else None | _ => None end.

Definition enforceCaveat (c : Caveat) (check : PermitCheck) : res (option string) :=
  if bool_decide (c_kind c = "expiresAtMost") then
    match safe_int (c_value c) with
    | None => Ok (Some "caveat expiresAtMost is malformed")
    | Some v => Ok (if num_leb (ck_now check) v then None else Some "caveat expiry exceeded")
    end
  else if bool_decide (c_kind c = "amountAtMost") then
    match safe_int (c_value c) with
    | None => Ok (Some "caveat amountAtMost is malformed")
    | Some v =>
        if num_ltb v (Int 0) then Ok (Some "caveat amountAtMost is malformed") else
        let amount := default (Int 0) (amount (ck_intent check)) in
        if negb (isSafeInteger amount) || num_ltb amount (Int 0)
        then Ok (Some "intent amount is malformed") else
        Ok (if num_leb amount v then None else Some "caveat amount ceiling exceeded")
    end
  else if bool_decide (c_kind c = "counterpartyIs") then
    Ok (if match counterparty (ck_intent check), c_value c with
           | Some s, VStr t => bool_decide (s = t)
           | None, VUndef => true
           | _, _ => false
           end then None else Some "caveat counterparty mismatch")
  else if bool_decide (c_kind c = "actionPrefix") then
    match c_value c with
    | VStr v =>
        let t := type_ (ck_intent check) in
        let boundary := if ends_with_char v "." then v else v +:+ "." in
        Ok (if bool_decide (t = v) || starts_with boundary t then None
            else Some "caveat action-prefix mismatch")
    | _ => Throw "c.value.endsWith is not a function"
    end
  else Ok (Some ("unknown caveat kind: " +:+ c_kind c)).

(** The loop that collects the reasons. *)
Fixpoint enforce_all (cs : list Caveat) (check : PermitCheck) : res (list Reason) :=
  match cs with
  | [] => Ok []
  | c :: cs' =>
      r ← enforceCaveat c check;
      rs ← enforce_all cs' check;
      Ok (match r with Some s => because s :: rs | None => rs end)
  end.

Section caveat.
Context {L : Lib}.

Definition caveatChainMessage (c : Caveat) : res bytes :=
  encodeCanonical (VArr [VStr (tag "PERMIT_CAVEAT"); VStr (c_kind c); c_value c]).

Fixpoint chainMac (acc : bytes) (cs : list Caveat) : res bytes :=
  match cs with
  | [] => Ok acc
  | c :: cs' => m ← caveatChainMessage c; chainMac (HMAC_SHA384_compute acc m) cs'
  end.

Definition attenuate (permit : PermitToken + AttenuatedPermit) (c : Caveat)
  : res AttenuatedPermit :=
  m ← caveatChainMessage c;
  match permit with
  | inl t => Ok {| at_suite := tok_suite t; at_body := tok_body t; caveats := [c];
                   at_mac := HMAC_SHA384_compute (tok_mac t) m |}
  | inr a => Ok {| at_suite := at_suite a; at_body := at_body a; caveats := caveats a ++ [c];
                   at_mac := HMAC_SHA384_compute (at_mac a) m |}
  end.

Definition verifyAttenuatedPermit (ap : AttenuatedPermit) (audienceKey : bytes)
    (check : PermitCheck) : res PermitVerdict :=
  if (MAX_PERMIT_BODY_BYTES <? length (at_body ap))%nat ||
     (MAX_PERMIT_SUITE_LEN <? String.length (at_suite ap))%nat
  then Ok {| pv_ok := false; pv_reasons := [because "permit token exceeds size bound"] |} else
  if (MAX_CAVEATS <? length (caveats ap))%nat
  then Ok {| pv_ok := false; pv_reasons := [because "too many caveats (> 16)"] |} else
  m0 ← permitMac (at_suite ap) (at_body ap) audienceKey;
  base ← verifyPermitForAction {| tok_suite := at_suite ap; tok_body := at_body ap;
                                  tok_mac := m0 |} audienceKey check;
  if negb (pv_ok base) then Ok base else
  m ← chainMac m0 (caveats ap);
  if negb (constantTimeEqual m (at_mac ap))
  then Ok {| pv_ok := false; pv_reasons :=
    [because "attenuated permit caveat chain is invalid (tampered or forged)"] |} else
  rs ← enforce_all (caveats ap) check;
  Ok {| pv_ok := (length rs =? 0)%nat; pv_reasons := rs |}.

(** A permit with the caveats [cs] added one by one by its holders. *)
Fixpoint attenuate_all (a : AttenuatedPermit) (cs : list Caveat) : res AttenuatedPermit :=
  match cs with
  | [] => Ok a
  | c :: cs' => a' ← attenuate (inr a) c; attenuate_all a' cs'
  end.
End caveat.

(** ** Properties *)
Section properties.
Context {L : Lib}.

(** The hash of an action: SHA3-256, in hex, of its canonical encoding. *)
Definition action_digest (i : ActionIntent) (h : string) : Prop :=
  exists b, cbor_encode (VObj (
      [("type", VStr (type_ i)); ("resource", VStr (resource i))] ++
      match counterparty i with Some c => [("counterparty", VStr c)] | None => [] end ++
      match amount i with Some a => [("amount", VNum a)] | None => [] end ++
      match params i with Some p => [("params", p)] | None => [] end)) = Ok b /\
    h = bytesToHex (sha3_256 b).

(** The MAC of a permit token under a key. *)
Definition token_mac (suite : string) (body key mac : bytes) : Prop :=
  exists tbm, cbor_encode (VArr [VStr "PolarSeek-Permit-v1"; VStr suite; VBytes body]) = Ok tbm /\
    mac = hmac_sha384 key tbm.

Lemma action_digest_iff i h : actionHash i = Ok h <-> action_digest i h.
Proof.
  change (action_digest i h) with (exists b, encodeCanonical (intent_val i) = Ok b /\
    h = bytesToHex (sha3_256 b)). unfold actionHash. split.
  - intros E. apply bind_ok in E as (b & Eb & E). apply Ok_inj in E as <-. by exists b.
  - intros (b & -> & ->). done.
Qed.

Lemma token_mac_iff suite body key mac : permitMac suite body key = Ok mac <-> token_mac suite body key mac.
Proof.
  change (token_mac suite body key mac) with (exists tbm, toBeMaced suite body = Ok tbm /\
    mac = hmac_sha384 key tbm). unfold permitMac. split.
  - intros E. apply bind_ok in E as (b & Eb & E). apply Ok_inj in E as <-. by exists b.
  - intros (b & -> & ->). done.
Qed.

(** What a permit that passes says. *)
Record PermitOK (token : PermitToken) (key : bytes) (check : PermitCheck) : Prop := {
  po_size : (length (tok_body token) <= Z.to_nat 8192)%nat /\
    (String.length (tok_suite token) <= 64)%nat;
  po_mac : token_mac (tok_suite token) (tok_body token) key (tok_mac token);
  po_claims : exists claims h exp eff, cbor_decode (tok_body token) = Ok claims /\
    prop claims "audience" = Ok (VStr (ck_audience check)) /\
    action_digest (ck_intent check) h /\ prop claims "actionHash" = Ok (VStr h) /\
    prop claims "exp" = Ok (VNum exp) /\ isFinite exp = true /\ num_leb (ck_now check) exp = true /\
    (forall s, ck_sessionId check = Some s -> prop claims "sessionId" = Ok (VStr s)) /\
    prop claims "effect" = Ok (VStr eff) /\ eff = default "allow" (expectedEffect check) }.

Lemma is_str_iff v s : is_str v s = true <-> v = VStr s.
Proof. destruct v; cbn; try (split; congruence). rewrite bool_decide_eq_true. split; congruence. Qed.

Lemma because_if_nil b s : because_if b s = [] <-> b = false.
Proof. by destruct b. Qed.

Lemma prop_all v k k' x : prop v k = Ok x -> exists y, prop v k' = Ok y.
Proof. destruct v; cbn; try done; eauto. Qed.

Lemma verifyPermit_mac token key : verifyPermit token key = Ok true <->
  permitMac (tok_suite token) (tok_body token) key = Ok (tok_mac token).
Proof.
  unfold verifyPermit, permitMac, HMAC_SHA384_verify, HMAC_SHA384_compute.
  destruct (toBeMaced _ _) as [tbm|]; cbn [mbind res_bind]; [|done].
  split; intros E; apply Ok_inj in E.
  - by apply constantTimeEqual_true in E as ->.
  - by rewrite E, constantTimeEqual_refl.
Qed.

Lemma verifyPermitForAction_iff token key check :
  (exists v, verifyPermitForAction token key check = Ok v /\ pv_ok v = true) <->
  PermitOK token key check.
Proof.
  unfold verifyPermitForAction. split.
  - intros (v & E & V). destruct (_ || _) eqn:S in E; [by apply Ok_inj in E as <-|].
    apply orb_false_iff in S as [S1%Nat.ltb_ge S2%Nat.ltb_ge].
    apply bind_ok in E as (good & M & E). destruct good; cbn [negb] in E; [|by apply Ok_inj in E as <-].
    apply verifyPermit_mac, token_mac_iff in M. apply bind_ok in E as (claims & R & E).
    apply bind_ok in E as (au & A & E). apply bind_ok in E as (ah & H & E).
    apply bind_ok in E as (h & AH & E). apply bind_ok in E as (exp & X & E).
    apply bind_ok in E as (sid & I & E). apply bind_ok in E as (eff & F & E).
    apply Ok_inj in E as <-. cbn [pv_ok] in V. apply Nat.eqb_eq, length_zero_iff_nil in V.
    apply app_eq_nil in V as [V1 V]. apply app_eq_nil in V as [V2 V].
    apply app_eq_nil in V as [V3 V]. apply app_eq_nil in V as [V4 V5].
    apply because_if_nil in V1, V2, V3, V4. apply negb_false_iff in V1, V2, V3.
    apply is_str_iff in V1, V2. subst au ah.
    destruct exp as [| | |e| | | | | |]; try done. cbn [not_expired] in V3.
    apply andb_true_iff in V3 as [V3 V3'].
    destruct (is_str eff _) eqn:V6 in V5; [|done]. apply is_str_iff in V6 as ->.
    constructor; [done | done |]. exists claims, h, e, (default "allow" (expectedEffect check)).
    apply action_digest_iff in AH. split_and!; try done. intros s Hs. rewrite Hs in V4. apply negb_false_iff, is_str_iff in V4.
    by rewrite V4 in I.
  - intros [[S1 S2] M%token_mac_iff (claims & h & exp & eff & R & A & AH%action_digest_iff & H & X & XF & XN & I & F & ->)].
    rewrite !(proj2 (Nat.ltb_ge _ _)) by done. cbn [orb].
    rewrite (proj2 (verifyPermit_mac token key) M). cbn [mbind res_bind negb].
    change (readPermit token = Ok claims) in R. rewrite R. cbn [mbind res_bind]. rewrite A. cbn [mbind res_bind]. rewrite H. cbn [mbind res_bind].
    rewrite AH. cbn [mbind res_bind]. rewrite X. cbn [mbind res_bind].
    destruct (prop_all _ _ "sessionId" _ A) as [sid Hs]. rewrite Hs. cbn [mbind res_bind].
    rewrite F. cbn [mbind res_bind]. eexists. split; [done|]. cbn [pv_ok is_str not_expired].
    rewrite !bool_decide_true by done. rewrite XF, XN. cbn [negb andb because_if app].
    destruct (ck_sessionId check) as [s|]; [|done]. specialize (I s eq_refl).
    rewrite Hs in I. apply Ok_inj in I as ->. cbn. by rewrite bool_decide_true.
Qed.

Lemma enforce_all_nil cs check : enforce_all cs check = Ok [] <->
  Forall (fun c => enforceCaveat c check = Ok None) cs.
Proof.
  induction cs as [|c cs IH]; cbn [enforce_all]; [by split; [constructor|]|].
  rewrite Forall_cons, <- IH. split.
  - intros E. apply bind_ok in E as (r & R & E). apply bind_ok in E as (rs & S & E).
    destruct r; apply Ok_inj in E; [done|]. by subst rs.
  - intros [R S]. by rewrite R; cbn [mbind res_bind]; rewrite S.
Qed.

Lemma attenuated_permit_ok ap key check :
  (exists v, verifyAttenuatedPermit ap key check = Ok v /\ pv_ok v = true) <->
  exists m0, permitMac (at_suite ap) (at_body ap) key = Ok m0 /\
    PermitOK {| tok_suite := at_suite ap; tok_body := at_body ap; tok_mac := m0 |} key check /\
    (length (caveats ap) <= MAX_CAVEATS)%nat /\
    chainMac m0 (caveats ap) = Ok (at_mac ap) /\
    Forall (fun c => enforceCaveat c check = Ok None) (caveats ap).
Proof.
  unfold verifyAttenuatedPermit. split.
  - intros (v & E & V). destruct (_ || _) eqn:S in E; [by apply Ok_inj in E as <-|].
    destruct (_ <? _)%nat eqn:N in E; [by apply Ok_inj in E as <-|]. apply Nat.ltb_ge in N.
    apply bind_ok in E as (m0 & M & E). apply bind_ok in E as (base & B & E).
    destruct (pv_ok base) eqn:P; cbn [negb] in E; [|by apply Ok_inj in E as <-; congruence].
    apply bind_ok in E as (m & C & E).
    destruct (constantTimeEqual m (at_mac ap)) eqn:Q; cbn [negb] in E; [|by apply Ok_inj in E as <-].
    apply constantTimeEqual_true in Q as ->. apply bind_ok in E as (rs & F & E).
    apply Ok_inj in E as <-. cbn [pv_ok] in V. apply Nat.eqb_eq, length_zero_iff_nil in V as ->.
    exists m0. split_and!; try done; [|by apply enforce_all_nil].
    apply verifyPermitForAction_iff. by exists base.
  - intros (m0 & M & P & N & C & F). pose proof P as [[S1 S2] _ _]. cbn in S1, S2.
    rewrite !(proj2 (Nat.ltb_ge _ _)) by done. cbn [orb]. rewrite M. cbn [mbind res_bind].
    apply verifyPermitForAction_iff in P as (base & Eb & Ep). rewrite Eb. cbn [mbind res_bind].
    rewrite Ep. cbn [negb].
    rewrite C. cbn [mbind res_bind]. rewrite constantTimeEqual_refl. cbn [negb].
    rewrite (proj2 (enforce_all_nil _ _) F). by eexists.
Qed.

(** What each kind of caveat asks of the action at hand. *)
Inductive caveat_holds (check : PermitCheck) : Caveat -> Prop :=
| holds_time v : isSafeInteger v = true -> num_leb (ck_now check) v = true ->
    caveat_holds check {| c_kind := "expiresAtMost"; c_value := VNum v |}
| holds_amount v n : isSafeInteger v = true ->
    n = default (Int 0) (amount (ck_intent check)) -> isSafeInteger n = true ->
    0 <= num_Z n <= num_Z v ->
    caveat_holds check {| c_kind := "amountAtMost"; c_value := VNum v |}
| holds_counterparty s : counterparty (ck_intent check) = Some s ->
    caveat_holds check {| c_kind := "counterpartyIs"; c_value := VStr s |}
| holds_no_counterparty : counterparty (ck_intent check) = None ->
    caveat_holds check {| c_kind := "counterpartyIs"; c_value := VUndef |}
| holds_action p : type_ (ck_intent check) = p ->
    caveat_holds check {| c_kind := "actionPrefix"; c_value := VStr p |}
| holds_child p rest : ends_with_char p "." = false ->
    type_ (ck_intent check) = p +:+ "." +:+ rest ->
    caveat_holds check {| c_kind := "actionPrefix"; c_value := VStr p |}
| holds_dotted p rest : ends_with_char p "." = true ->
    type_ (ck_intent check) = p +:+ rest ->
    caveat_holds check {| c_kind := "actionPrefix"; c_value := VStr p |}.

Lemma safe_int_some v n : safe_int v = Some n <-> v = VNum n /\ isSafeInteger n = true.
Proof.
  destruct v; cbn; try (split; [done | by intros [[=] _]]).
  destruct (isSafeInteger n0) eqn:S; split.
  - by intros [= ->].
  - by intros [[= ->] _].
  - done.
  - intros [[= ->] ?]. congruence.
Qed.

Lemma enforce_amount_none v check :
  enforceCaveat {| c_kind := "amountAtMost"; c_value := v |} check = Ok None <->
  caveat_holds check {| c_kind := "amountAtMost"; c_value := v |}.
Proof.
  unfold enforceCaveat. cbn [c_kind c_value]. rewrite bool_decide_false by done.
  rewrite bool_decide_true by done. set (n := default _ _).
  destruct (safe_int v) as [m|] eqn:V.
  2: { split; [done|]. intros H. inversion H; subst. cbn in V. destruct (isSafeInteger v0); done. }
  apply safe_int_some in V as [-> Sm]. pose proof (safe_isInteger _ Sm) as Im.
  rewrite num_ltb_Z by done. cbn [num_Z]. split.
  - destruct (Z.ltb_spec (num_Z m) (num_Z (Int 0))) as [|Hm]; [done|]. intros E.
    destruct (isSafeInteger n) eqn:Sn; cbn [negb orb] in E; [|done].
    pose proof (safe_isInteger _ Sn) as In. rewrite num_ltb_Z in E by done.
    destruct (Z.ltb_spec (num_Z n) (num_Z (Int 0))) as [|Hn]; [done|].
    rewrite num_leb_Z in E by done. destruct (Z.leb_spec (num_Z n) (num_Z m)); [|done].
    apply (holds_amount check m n); try done.
  - intros H. inversion H as [|v0 n0 Sv Hn Sn Hb| | | | |]; subst. pose proof (safe_isInteger _ Sn) as In.
    change (num_Z (Int 0)) with 0. rewrite (proj2 (Z.ltb_ge _ _)) by lia.
    fold n in Sn, Hb, In. rewrite Sn. cbn [negb orb]. rewrite num_ltb_Z by done. change (num_Z (Int 0)) with 0.
    rewrite (proj2 (Z.ltb_ge _ _)) by lia. rewrite num_leb_Z by done.
    by rewrite (proj2 (Z.leb_le _ _)) by lia.
Qed.

Lemma enforce_prefix_none v check :
  enforceCaveat {| c_kind := "actionPrefix"; c_value := v |} check = Ok None <->
  caveat_holds check {| c_kind := "actionPrefix"; c_value := v |}.
Proof.
  unfold enforceCaveat. cbn [c_kind c_value]. rewrite !bool_decide_false by done.
  rewrite bool_decide_true by done.
  destruct v as [| | | | |p| | | |]; try (split; [done | intros H; inversion H]).
  split.
  - intros E. destruct (_ || _) eqn:B in E; [|done].
    apply orb_true_iff in B as [B%bool_decide_eq_true|B]; [by apply holds_action|].
    apply starts_with_iff in B as [r B].
    destruct (ends_with_char p ".") eqn:D; [by eapply holds_dotted|].
    eapply holds_child; [done|]. by rewrite B, app_str_assoc.
  - intros H. inversion H as [| | | | |? r D T|? r D T]; subst.
    + by rewrite bool_decide_true.
    + rewrite D, T. rewrite (proj2 (starts_with_iff _ _)); [by rewrite orb_true_r|].
      exists r. by rewrite app_str_assoc.
    + rewrite D, T. rewrite (proj2 (starts_with_iff _ _)); [by rewrite orb_true_r | by exists r].
Qed.

Lemma enforceCaveat_none c check : enforceCaveat c check = Ok None <-> caveat_holds check c.
Proof.
  destruct c as [k v]. destruct (base.decide (k = "expiresAtMost")) as [->|K1].
  { unfold enforceCaveat. cbn [c_kind c_value]. rewrite bool_decide_true by done.
    destruct (safe_int v) as [m|] eqn:V.
    - apply safe_int_some in V as [-> S]. destruct (num_leb _ _) eqn:T; split; try done.
      + intros _. by apply holds_time.
      + intros H. inversion H; subst. congruence.
    - split; [done|]. intros H. inversion H; subst. cbn in V. by destruct (isSafeInteger v0). }
  destruct (base.decide (k = "amountAtMost")) as [->|K2]; [apply enforce_amount_none|].
  destruct (base.decide (k = "counterpartyIs")) as [->|K3].
  { unfold enforceCaveat. cbn [c_kind c_value]. rewrite !bool_decide_false by done.
    rewrite bool_decide_true by done. split.
    - destruct (counterparty _) as [s|] eqn:C; destruct v as [| | | | |t| | | |]; try done;
        [|intros _; by constructor].
      case_bool_decide; [subst; by constructor | done].
    - intros H. inversion H as [| |s C|C| | |]; subst; rewrite C; [by rewrite bool_decide_true | done]. }
  destruct (base.decide (k = "actionPrefix")) as [->|K4]; [apply enforce_prefix_none|].
  unfold enforceCaveat. cbn [c_kind]. rewrite !bool_decide_false by done.
  split; [done|]. intros H. by inversion H; subst.
Qed.

(** The message of a caveat in the chain, and the chain over such messages
    from a root MAC [m0]. *)
Definition caveat_msg (c : Caveat) (m : bytes) : Prop :=
  cbor_encode (VArr [VStr "Nerion/permit-caveat/v1"; VStr (c_kind c); c_value c]) = Ok m.

(** The HMAC inputs (key and message) along the chain, the root's first. *)
Fixpoint chain_inputs (key tbm : bytes) (msgs : list bytes) : list (bytes * bytes) :=
  (key, tbm) :: match msgs with
                | [] => []
                | m :: ms => chain_inputs (hmac_sha384 key tbm) m ms
                end.

(** Two of the listed inputs with one MAC.  Their messages differ, or their keys
    do and both keys are MACs (of one length: a key that is the other padded with
    zeros is no collision). *)
Definition hmac_collision (l : list (bytes * bytes)) : Prop :=
  exists a b, a ∈ l /\ b ∈ l /\ (a.2 <> b.2 \/ a.1 <> b.1 /\ (exists k m, a.1 = hmac_sha384 k m) /\ exists k m, b.1 = hmac_sha384 k m) /\
    hmac_sha384 a.1 a.2 = hmac_sha384 b.1 b.2.

Lemma chainMac_fold cs m0 m : chainMac m0 cs = Ok m <->
  exists msgs, Forall2 caveat_msg cs msgs /\ m = fold_left hmac_sha384 msgs m0.
Proof.
  revert m0. induction cs as [|c cs IH]; intros m0; cbn [chainMac].
  - split; [intros E; apply Ok_inj in E as <-; by exists [] | intros (ms & F & ->); by inversion F].
  - split.
    + intros E. apply bind_ok in E as (x & Ex & E). apply IH in E as (ms & F & ->).
      exists (x :: ms). split; [by constructor | done].
    + intros (ms & F & ->). inversion F as [|? x ? ms' Ex F']; subst.
      change (caveatChainMessage c = Ok x) in Ex. rewrite Ex. cbn [mbind res_bind fold_left].
      apply IH. by exists ms'.
Qed.

Lemma attenuated_permit_spelled ap key check :
  (exists v, verifyAttenuatedPermit ap key check = Ok v /\ pv_ok v = true) <->
  exists tbm msgs, toBeMaced (at_suite ap) (at_body ap) = Ok tbm /\
    Forall2 caveat_msg (caveats ap) msgs /\
    PermitOK {| tok_suite := at_suite ap; tok_body := at_body ap; tok_mac := hmac_sha384 key tbm |} key check /\
    (length (caveats ap) <= 16)%nat /\
    at_mac ap = fold_left hmac_sha384 msgs (hmac_sha384 key tbm) /\
    Forall (caveat_holds check) (caveats ap).
Proof.
  rewrite attenuated_permit_ok. split.
  - intros (m0 & M & P & N & C & F). unfold permitMac in M. apply bind_ok in M as (tbm & T & M).
    apply Ok_inj in M as <-. apply chainMac_fold in C as (ms & G & C). exists tbm, ms.
    split_and!; try done. eapply Forall_impl; [exact F|]. intros c. apply enforceCaveat_none.
  - intros (tbm & ms & T & G & P & N & C & F). exists (hmac_sha384 key tbm).
    unfold permitMac. rewrite T. split_and!; try done; [apply chainMac_fold; by exists ms|].
    eapply Forall_impl; [exact F|]. intros c. apply enforceCaveat_none.
Qed.

Lemma toBeMaced_inj {CL : CborLaws L} s b s' b' m :
  toBeMaced s b = Ok m -> toBeMaced s' b' = Ok m -> s = s' /\ b = b'.
Proof.
  intros E E'. assert (S : same_enc (VArr [VStr (tag "PERMIT_MAC"); VStr s; VBytes b])
    (VArr [VStr (tag "PERMIT_MAC"); VStr s'; VBytes b'])) by (by exists m).
  apply cbor_arr in S. split_fields S.
  repeat match goal with
  | H : same_enc (VStr _) (VStr _) |- _ => apply cbor_str in H
  | H : same_enc (VBytes _) (VBytes _) |- _ => apply cbor_bytes in H end. done.
Qed.

Lemma chain_inputs_snoc ms m : forall key tbm, chain_inputs key tbm (ms ++ [m]) =
  chain_inputs key tbm ms ++ [(fold_left hmac_sha384 ms (hmac_sha384 key tbm), m)].
Proof. induction ms as [|x ms IH]; intros key tbm; cbn; [done|]. by rewrite IH. Qed.

Lemma hmac_collision_app l l' : hmac_collision l \/ hmac_collision l' -> hmac_collision (l ++ l').
Proof. intros [(a & b & A & B & H)|(a & b & A & B & H)]; exists a, b; set_solver. Qed.

Lemma hmac_collision_sub l l' : l ⊆ l' -> hmac_collision l -> hmac_collision l'.
Proof. intros S (a & b & A & B & H). exists a, b. set_solver. Qed.

Lemma fold_is_mac ms m0 : (exists k m, m0 = hmac_sha384 k m) ->
  exists k m, fold_left hmac_sha384 ms m0 = hmac_sha384 k m.
Proof. revert m0. induction ms as [|x ms IH]; intros m0 H; cbn; [done|]. apply IH. by exists m0, x. Qed.

(** Two chains from one key that end in one MAC are over the same messages. *)
Lemma chain_binding key t1 t2 ms1 : forall ms2, t1 ∉ ms2 -> t2 ∉ ms1 ->
  fold_left hmac_sha384 ms1 (hmac_sha384 key t1) = fold_left hmac_sha384 ms2 (hmac_sha384 key t2) ->
  (t1 = t2 /\ ms1 = ms2) \/ hmac_collision (chain_inputs key t1 ms1 ++ chain_inputs key t2 ms2).
Proof.
  induction ms1 as [|m1 ms1 IH] using rev_ind; intros ms2 N1 N2 E.
  - destruct ms2 as [|m2 ms2 _] using rev_ind; cbn [fold_left] in E.
    + destruct (base.decide (t1 = t2)) as [|D]; [by left; split|]. right. exists (key, t1), (key, t2).
      split_and!; [set_solver.. | by left | done].
    + rewrite fold_left_app in E. right. rewrite chain_inputs_snoc. exists (key, t1), (fold_left hmac_sha384 ms2 (hmac_sha384 key t2), m2).
      split_and!; [set_solver | set_solver | | exact E]. left. cbn [snd]. set_solver.
  - rewrite fold_left_app in E. cbn [fold_left] in E.
    destruct ms2 as [|m2 ms2 _] using rev_ind; cbn [fold_left] in E.
    + right. rewrite chain_inputs_snoc. exists (fold_left hmac_sha384 ms1 (hmac_sha384 key t1), m1), (key, t2).
      split_and!; [set_solver | set_solver | | exact E]. left. cbn [snd]. set_solver.
    + rewrite fold_left_app in E. cbn [fold_left] in E. rewrite !chain_inputs_snoc.
      set (k1 := fold_left _ ms1 _) in *. set (k2 := fold_left _ ms2 _) in *.
      destruct (base.decide (m1 = m2)) as [->|D].
      2: { right. exists (k1, m1), (k2, m2). split_and!; [set_solver.. | by left | done]. }
      destruct (base.decide (k1 = k2)) as [K|D].
      * destruct (IH ms2) as [[-> ->]|H]; [set_solver | set_solver | done | by left|].
        right. eapply hmac_collision_sub; [|done]. set_solver.
      * right. exists (k1, m2), (k2, m2). split_and!; [set_solver.. | | done].
        right. split; [done|]. split; apply fold_is_mac; eauto.
Qed.

(** The root MAC's input and the caveats' messages are tagged apart. *)
Lemma caveat_msg_not_root {CL : CborLaws L} suite body tbm cs msgs :
  toBeMaced suite body = Ok tbm -> Forall2 caveat_msg cs msgs -> tbm ∉ msgs.
Proof.
  intros T F I. apply list_elem_of_lookup in I as [i I].
  destruct (Forall2_lookup_r _ _ _ _ _ F I) as (c & _ & M). unfold caveat_msg in M.
  assert (S : same_enc (VArr [VStr (tag "PERMIT_MAC"); VStr suite; VBytes body])
    (VArr [VStr "Nerion/permit-caveat/v1"; VStr (c_kind c); c_value c])) by (by exists tbm).
  apply cbor_arr in S. apply Forall2_cons_1 in S as [S _]. by apply cbor_str in S.
Qed.

Lemma caveat_msgs_inj {CL : CborLaws L} cs ds msgs :
  Forall2 caveat_msg cs msgs -> Forall2 caveat_msg ds msgs ->
  Forall2 (fun c d => c_kind c = c_kind d /\ same_enc (c_value c) (c_value d)) cs ds.
Proof.
  intros F. revert ds. induction F as [|c m cs msgs M F IH]; intros ds G; inversion G; subst; constructor;
    [|by apply IH].
  assert (S : same_enc (VArr [VStr "Nerion/permit-caveat/v1"; VStr (c_kind c); c_value c])
    (VArr [VStr "Nerion/permit-caveat/v1"; VStr (c_kind x); c_value x])) by (by exists m).
  apply cbor_arr in S. apply Forall2_cons_1 in S as [_ S]. apply Forall2_cons_1 in S as [K S].
  apply Forall2_cons_1 in S as [V _]. split; [by apply cbor_str in K | done].
Qed.

(** C28: What an attenuated permit can do.  [verifyAttenuatedPermit] accepts
    exactly when the permit without its caveats (with the root MAC recomputed
    from the resource's key) is accepted for the same action, there are at
    most 16 caveats, each of them holds of the action (the time is no later,
    the amount no more, the counterparty the same, the action type equal or a
    dotted child), and the transmitted MAC is the HMAC-SHA-384 chain from the
    root MAC over the tagged encodings of all the caveats, in order: so caveats
    only narrow.  And none can be dropped, added, reordered or changed: if the
    same MAC is the MAC of two such tokens under the resource's key, they have
    the same suite, the same body, and the same caveats (kinds, and values up
    to their encoding), unless two of the HMAC inputs along the two chains
    collide. *)
Theorem attenuated_permit_iff {CL : CborLaws L} ap key check :
  ((exists v, verifyAttenuatedPermit ap key check = Ok v /\ pv_ok v = true) <->
   exists tbm msgs,
    cbor_encode (VArr [VStr "PolarSeek-Permit-v1"; VStr (at_suite ap); VBytes (at_body ap)]) = Ok tbm /\
    Forall2 (fun c m => cbor_encode (VArr [VStr "Nerion/permit-caveat/v1"; VStr (c_kind c); c_value c])
      = Ok m) (caveats ap) msgs /\
    let m0 := hmac_sha384 key tbm in
    PermitOK {| tok_suite := at_suite ap; tok_body := at_body ap; tok_mac := m0 |} key check /\
    (length (caveats ap) <= 16)%nat /\
    at_mac ap = fold_left hmac_sha384 msgs m0 /\
    Forall (caveat_holds check) (caveats ap)) /\
  forall ap' v v', verifyAttenuatedPermit ap key check = Ok v -> pv_ok v = true ->
    verifyAttenuatedPermit ap' key check = Ok v' -> pv_ok v' = true -> at_mac ap = at_mac ap' ->
    (at_suite ap = at_suite ap' /\ at_body ap = at_body ap' /\
     Forall2 (fun c d => c_kind c = c_kind d /\ same_enc (c_value c) (c_value d))
       (caveats ap) (caveats ap')) \/
    exists tbm tbm' msgs msgs',
      toBeMaced (at_suite ap) (at_body ap) = Ok tbm /\ Forall2 caveat_msg (caveats ap) msgs /\
      toBeMaced (at_suite ap') (at_body ap') = Ok tbm' /\ Forall2 caveat_msg (caveats ap') msgs' /\
      hmac_collision (chain_inputs key tbm msgs ++ chain_inputs key tbm' msgs').
Proof.
  split.
  - rewrite attenuated_permit_spelled. done.
  - intros ap' v v' V O V' O' E.
    destruct (proj1 (attenuated_permit_spelled ap key check) (ex_intro _ v (conj V O)))
      as (tbm & ms & T & F & _ & _ & M & _).
    destruct (proj1 (attenuated_permit_spelled ap' key check) (ex_intro _ v' (conj V' O')))
      as (tbm' & ms' & T' & F' & _ & _ & M' & _).
    rewrite M, M' in E.
    destruct (chain_binding key tbm tbm' ms ms') as [[<- <-]|H]; try done.
    + by eapply caveat_msg_not_root.
    + by eapply caveat_msg_not_root.
    + left. destruct (toBeMaced_inj _ _ _ _ _ T T') as [-> ->].
      split_and!; [done..|]. by eapply caveat_msgs_inj.
    + right. by exists tbm, tbm', ms, ms'.
Qed.

(** The token's body reads back: it decodes, to a value with the properties of
    the claims (their order is the codec's). *)
Definition claim_keys : list string :=
  ["sessionId"; "nonce"; "audience"; "actionHash"; "tier"; "exp"; "evaluator"; "effect"].
Definition claims_read (token : PermitToken) (claims : PermitClaims) : Prop :=
  exists v, readPermit token = Ok v /\
    Forall (fun k => prop v k = prop (claims_val claims) k) claim_keys.

(** A permit the issuer minted is good at its audience for the action it names. *)
Lemma issued_permit_ok claims suite sessionKey key token check h :
  deriveAudiencePermitKey sessionKey (pc_audience claims) = Ok key ->
  issueBoundPermit claims suite sessionKey = Ok token ->
  claims_read token claims ->
  (length (tok_body token) <= MAX_PERMIT_BODY_BYTES)%nat ->
  (String.length suite <= MAX_PERMIT_SUITE_LEN)%nat ->
  actionHash (ck_intent check) = Ok h -> pc_actionHash claims = h ->
  pc_audience claims = ck_audience check ->
  isFinite (pc_exp claims) = true -> num_leb (ck_now check) (pc_exp claims) = true ->
  (forall s, ck_sessionId check = Some s -> pc_sessionId claims = s) ->
  pc_effect claims = default "allow" (expectedEffect check) ->
  PermitOK token key check.
Proof.
  intros K I R B1 B2 H Hh Ha X1 X2 Hs He.
  unfold issueBoundPermit in I. rewrite K in I. cbn [mbind res_bind] in I.
  unfold issuePermit in I. apply bind_ok in I as (body & Eb & I).
  apply bind_ok in I as (tbm & Et & I). apply Ok_inj in I as <-. cbn [tok_body tok_suite] in *.
  constructor; cbn [tok_suite tok_body tok_mac]; [done | by exists tbm |].
  apply action_digest_iff in H.
  destruct R as (v & Rv & P).
  assert (F : forall k, k ∈ claim_keys -> prop v k = prop (claims_val claims) k) by by apply Forall_forall.
  exists v, h, (pc_exp claims), (pc_effect claims).
  rewrite !F by (unfold claim_keys; set_solver).
  split_and!; try done; cbn; try congruence. intros s E. by rewrite (Hs s E).
Qed.

Lemma chainMac_app cs ds : forall m, chainMac m (cs ++ ds) = chainMac m cs ≫= fun m' => chainMac m' ds.
Proof.
  induction cs as [|c cs IH]; intros m; cbn [chainMac app]; [done|].
  destruct (caveatChainMessage c); cbn [mbind res_bind]; [apply IH | done].
Qed.

Lemma attenuate_all_chain cs m0 : forall a a', attenuate_all a cs = Ok a' ->
  chainMac m0 (caveats a) = Ok (at_mac a) ->
  at_suite a' = at_suite a /\ at_body a' = at_body a /\ caveats a' = caveats a ++ cs /\
  chainMac m0 (caveats a') = Ok (at_mac a').
Proof.
  induction cs as [|c cs IH]; intros a a' E H; cbn [attenuate_all] in E.
  - apply Ok_inj in E as <-. by rewrite app_nil_r.
  - apply bind_ok in E as (b & Eb & E). unfold attenuate in Eb.
    apply bind_ok in Eb as (m & Em & Eb). apply Ok_inj in Eb as <-.
    destruct (IH _ _ E) as (I1 & I2 & I3 & I4).
    { cbn [caveats at_mac]. rewrite chainMac_app, H. cbn [mbind res_bind chainMac].
      by rewrite Em. }
    cbn in I1, I2, I3. split_and!; [done | done | by rewrite I3, <- app_assoc | done].
Qed.

(** Offline attenuation is complete: a permit the issuer minted for an
    audience, narrowed by its holders with any caveats (at most 16) that the
    action meets, is accepted by that audience whenever the claims are those
    of the action, unexpired and of the required effect. *)
Theorem attenuate_complete claims suite sessionKey key token check c cs a ap h :
  deriveAudiencePermitKey sessionKey (pc_audience claims) = Ok key ->
  issueBoundPermit claims suite sessionKey = Ok token ->
  claims_read token claims ->
  (length (tok_body token) <= MAX_PERMIT_BODY_BYTES)%nat ->
  (String.length suite <= MAX_PERMIT_SUITE_LEN)%nat ->
  attenuate (inl token) c = Ok a -> attenuate_all a cs = Ok ap ->
  (length (c :: cs) <= MAX_CAVEATS)%nat ->
  Forall (fun c => enforceCaveat c check = Ok None) (c :: cs) ->
  actionHash (ck_intent check) = Ok h -> pc_actionHash claims = h ->
  pc_audience claims = ck_audience check ->
  isFinite (pc_exp claims) = true -> num_leb (ck_now check) (pc_exp claims) = true ->
  (forall s, ck_sessionId check = Some s -> pc_sessionId claims = s) ->
  pc_effect claims = default "allow" (expectedEffect check) ->
  exists v, verifyAttenuatedPermit ap key check = Ok v /\ pv_ok v = true.
Proof.
  intros K I R B1 B2 A As N F H Hh Ha X1 X2 Hs He.
  assert (P : PermitOK token key check) by (by eapply issued_permit_ok).
  assert (tok_suite token = suite) as Es.
  { unfold issueBoundPermit in I. apply bind_ok in I as (k & _ & I). unfold issuePermit in I.
    apply bind_ok in I as (body & _ & I). apply bind_ok in I as (tbm & _ & I).
    by apply Ok_inj in I as <-. }
  unfold attenuate in A. apply bind_ok in A as (m & Em & A). apply Ok_inj in A as <-.
  destruct (attenuate_all_chain cs (tok_mac token) _ _ As) as (I1 & I2 & I3 & I4).
  { cbn [caveats at_mac chainMac]. by rewrite Em. }
  cbn [at_suite at_body caveats app] in I1, I2, I3.
  apply attenuated_permit_ok. exists (tok_mac token). rewrite I1, I2.
  split_and!; [apply token_mac_iff, (po_mac _ _ _ P) | by destruct token | by rewrite I3 | done | by rewrite I3].
Qed.
End properties.

(** ** Concrete runs *)
Definition sample_session : bytes := repeat x07 32.
Definition sample_check : PermitCheck := {|
  ck_audience := "res-1"; ck_intent := sample_intent; ck_now := Int 30;
  ck_sessionId := Some "s"; expectedEffect := None |}.
Definition sample_claims : PermitClaims := {|
  pc_sessionId := "s"; pc_nonce := "n"; pc_audience := "res-1";
  pc_actionHash := try_catch (actionHash sample_intent) (fun _ => "");
  pc_tier := Int 1; pc_exp := Int 60; pc_evaluator := "e"; pc_effect := "allow" |}.
Definition no_token : PermitToken := {| tok_suite := ""; tok_body := []; tok_mac := [] |}.
Definition no_attenuated : AttenuatedPermit :=
  {| at_suite := ""; at_body := []; caveats := []; at_mac := [] |}.
Definition sample_key : bytes :=
  try_catch (deriveAudiencePermitKey sample_session "res-1") (fun _ => []).
Definition sample_token : PermitToken :=
  try_catch (issueBoundPermit sample_claims "PS-5" sample_session) (fun _ => no_token).
Definition caveat_time : Caveat := {| c_kind := "expiresAtMost"; c_value := VNum (Int 40) |}.
Definition caveat_type : Caveat := {| c_kind := "actionPrefix"; c_value := VStr "payment" |}.
Definition caveat_late : Caveat := {| c_kind := "expiresAtMost"; c_value := VNum (Int 20) |}.
Definition attenuated1 : AttenuatedPermit :=
  try_catch (attenuate (inl sample_token) caveat_time) (fun _ => no_attenuated).
Definition attenuated2 : AttenuatedPermit :=
  try_catch (attenuate_all attenuated1 [caveat_type]) (fun _ => no_attenuated).

Lemma attenuate_complete_witness : exists v,
  verifyAttenuatedPermit attenuated2 sample_key sample_check = Ok v /\ pv_ok v = true.
Proof.
  refine (attenuate_complete sample_claims "PS-5" sample_session sample_key sample_token sample_check
    caveat_time [caveat_type] attenuated1 attenuated2 (pc_actionHash sample_claims)
    _ _ _ _ _ _ _ _ _ _ _ _ _ _ _ _).
  - by vm_compute.
  - by vm_compute.
  - eexists. split; [vm_compute; reflexivity | repeat constructor; by vm_compute].
  - apply Nat.leb_le. by vm_compute.
  - apply Nat.leb_le. by vm_compute.
  - by vm_compute.
  - by vm_compute.
  - apply Nat.leb_le. by vm_compute.
  - repeat constructor; by vm_compute.
  - by vm_compute.
  - done.
  - done.
  - done.
  - by vm_compute.
  - by intros s [= <-].
  - done.
Defined.

(** The same caveats, the time written as another representation of 40. *)
Definition attenuated2' : AttenuatedPermit := {|
  at_suite := at_suite attenuated2; at_body := at_body attenuated2; at_mac := at_mac attenuated2;
  caveats := [{| c_kind := "expiresAtMost"; c_value := VNum (Fin 80 1) |}; caveat_type] |}.
Definition passed : PermitVerdict := {| pv_ok := true; pv_reasons := [] |}.

Lemma attenuated_permit_iff_witness :
  Forall (caveat_holds sample_check) (caveats attenuated2) /\
  ((at_suite attenuated2 = at_suite attenuated2' /\ at_body attenuated2 = at_body attenuated2' /\
    Forall2 (fun c d => c_kind c = c_kind d /\ same_enc (c_value c) (c_value d))
       (caveats attenuated2) (caveats attenuated2')) \/
   exists tbm tbm' msgs msgs',
      toBeMaced (at_suite attenuated2) (at_body attenuated2) = Ok tbm /\
      Forall2 caveat_msg (caveats attenuated2) msgs /\
      toBeMaced (at_suite attenuated2') (at_body attenuated2') = Ok tbm' /\
      Forall2 caveat_msg (caveats attenuated2') msgs' /\
      hmac_collision (chain_inputs sample_key tbm msgs ++ chain_inputs sample_key tbm' msgs')).
Proof.
  assert (E : verifyAttenuatedPermit attenuated2 sample_key sample_check = Ok passed)
    by (vm_compute; reflexivity).
  assert (E' : verifyAttenuatedPermit attenuated2' sample_key sample_check = Ok passed)
    by (vm_compute; reflexivity).
  destruct (attenuated_permit_iff attenuated2 sample_key sample_check) as [[H _] B]. split.
  - destruct (H (ex_intro _ passed (conj E eq_refl))) as (tbm & ms & _ & _ & _ & _ & _ & F). exact F.
  - exact (B attenuated2' passed passed E eq_refl E' eq_refl eq_refl).
Defined.

(** A caveat the time does not meet, a dropped caveat, the wrong resource key. *)
Example attenuation_enforced :
  (v ← verifyAttenuatedPermit (try_catch (attenuate (inr attenuated2) caveat_late)
         (fun _ => no_attenuated)) sample_key sample_check; Ok (pv_reasons v))
    = Ok [because "caveat expiry exceeded"] /\
  (v ← verifyAttenuatedPermit {| at_suite := at_suite attenuated2; at_body := at_body attenuated2;
         caveats := [caveat_type]; at_mac := at_mac attenuated2 |} sample_key sample_check;
   Ok (pv_ok v)) = Ok false /\
  (v ← verifyAttenuatedPermit attenuated2 sample_session sample_check; Ok (pv_ok v)) = Ok false.
Proof. by vm_compute. Qed.
