(* ===== verification/Settlement.v ===== *)
(** * settlement/: metering credits

    src/settlement/src/credits.ts.  An operation that throws may already have
    changed the ledger, so [grant] and [meter] return the state together with
    the result.  The keys [JSON.stringify([account, nonce])] are pairs. *)
From S2P Require Import Prelude JsNum JsVal Crypto Concrete.
Open Scope string_scope.
Open Scope Z_scope.
Open Scope list_scope.

Record CreditGrant := {
  cg_account : string;
  cg_amount : num;
  cg_issuer : string;
  cg_nonce : string;
  cg_suite : string;
  cg_sig : bytes }.

Record MeterRecord := { mr_account : string; mr_cost : num; mr_ref : string }.

(** [COSTS[tier] ?? 20] *)
Definition tierCost (tier : num) : num :=
  if isInteger tier && (0 <=? num_Z tier)
  then default (Int 20) ([Int 1; Int 2; Int 5; Int 20] !! Z.to_nat (num_Z tier))
  else Int 20.

Record MeteringLedger := {
  balances : gmap string num;
  consumedNonces : gset (string * string);
  meteredRefs : gset (string * string);
  ml_suite : string;
  ml_issuer : KeyPair }.

Definition new_metering (suite : string) (issuer : KeyPair) : MeteringLedger :=
  {| balances := ∅; consumedNonces := ∅; meteredRefs := ∅; ml_suite := suite; ml_issuer := issuer |}.

Definition balance (l : MeteringLedger) (account : string) : num :=
  default (Int 0) (balances l !! account).

Section settlement.
Context {L : Lib}.

Definition grantMessage (suite account : string) (amount : num) (nonce : string) : res bytes :=
  encodeCanonical (VArr [VStr (tag "CREDIT_GRANT"); VStr suite; VStr account; VNum amount;
    VStr nonce]).

Definition grant (l : MeteringLedger) (account : string) (amount : num) (nonce : string)
  : MeteringLedger * res CreditGrant :=
  if negb (isSafeInteger amount) || num_leb amount (Int 0)
  then (l, Throw "grant amount must be a positive safe integer") else
  let nonceKey := (account, nonce) in
  if bool_decide (nonceKey ∈ consumedNonces l)
  then (l, Throw "grant nonce already used for this account (replay rejected)") else
  if num_ltb (num_sub (Int MAX_SAFE) amount) (balance l account)
  then (l, Throw "grant would overflow the safe-integer balance range") else
  let l' := {| balances := <[account := num_add (balance l account) amount]> (balances l);
               consumedNonces := {[nonceKey]} ∪ consumedNonces l;
               meteredRefs := meteredRefs l; ml_suite := ml_suite l; ml_issuer := ml_issuer l |} in
  (l', signer ← signerFor (ml_suite l);
       msg ← grantMessage (ml_suite l) account amount nonce;
       sg ← scheme_sign signer msg (secretKey (ml_issuer l)) None;
       Ok {| cg_account := account; cg_amount := amount;
             cg_issuer := bytesToHex (publicKey (ml_issuer l)); cg_nonce := nonce;
             cg_suite := ml_suite l; cg_sig := sg |}).

Definition meter (l : MeteringLedger) (account : string) (cost : num) (ref : string)
  : MeteringLedger * res MeterRecord :=
  if negb (isSafeInteger cost) || num_ltb cost (Int 0)
  then (l, Throw "cost must be a non-negative safe integer") else
  let refKey := (account, ref) in
  if bool_decide (refKey ∈ meteredRefs l)
  then (l, Throw "ref already metered for this account (replay rejected)") else
  let bal := balance l account in
  if num_ltb bal cost then (l, Throw "insufficient metering credits") else
  ({| balances := <[account := num_sub bal cost]> (balances l);
      consumedNonces := consumedNonces l; meteredRefs := {[refKey]} ∪ meteredRefs l;
      ml_suite := ml_suite l; ml_issuer := ml_issuer l |},
   Ok {| mr_account := account; mr_cost := cost; mr_ref := ref |}).

Definition verifyGrant (g : CreditGrant) (trustedIssuer : option string) : bool :=
  if match trustedIssuer with
     | Some t => negb (bool_decide (cg_issuer g = t)) | None => false end then false else
  if negb (isSafeInteger (cg_amount g)) || num_leb (cg_amount g) (Int 0) then false else
  if negb (includes activeSuiteIds (cg_suite g)) then false else
  try_catch
    (signer ← signerFor (cg_suite g);
     msg ← grantMessage (cg_suite g) (cg_account g) (cg_amount g) (cg_nonce g);
     pub ← hexToBytes (cg_issuer g);
     scheme_verify signer (cg_sig g) msg pub None)
    (fun _ => false).
End settlement.

(** ** The books

    [run G M l]: a sequence of calls of [grant] and [meter], with any arguments
    and whether they return or throw, leads from the empty ledger to [l]; [G]
    are the grants that consumed their nonce, [M] the meterings that consumed
    their reference. *)
Record entry := { e_account : string; e_key : string; e_amount : Z }.
Definition entry_key (e : entry) : string * string := (e_account e, e_key e).

(** The entries of an account summed. *)
Definition total (es : list entry) (account : string) : Z :=
  foldr (fun e n => if bool_decide (e_account e = account) then e_amount e + n else n) 0 es.

Section books.
Context {L : Lib}.

Inductive run (suite : string) (issuer : KeyPair) : list entry -> list entry -> MeteringLedger -> Prop :=
| run_new : run suite issuer [] [] (new_metering suite issuer)
| run_grant G M l account amount nonce :
    run suite issuer G M l ->
    let l' := (grant l account amount nonce).1 in
    run suite issuer
      (if bool_decide ((account, nonce) ∈ consumedNonces l' ∖ consumedNonces l)
       then {| e_account := account; e_key := nonce; e_amount := num_Z amount |} :: G else G) M l'
| run_meter G M l account cost ref :
    run suite issuer G M l ->
    let l' := (meter l account cost ref).1 in
    run suite issuer G
      (if bool_decide ((account, ref) ∈ meteredRefs l' ∖ meteredRefs l)
       then {| e_account := account; e_key := ref; e_amount := num_Z cost |} :: M else M) l'.

Record books (G M : list entry) (l : MeteringLedger) : Prop := {
  bk_balance : forall a, isSafeInteger (balance l a) = true /\ 0 <= num_Z (balance l a) /\
    num_Z (balance l a) = total G a - total M a;
  bk_nonces : forall k, k ∈ map entry_key G <-> k ∈ consumedNonces l;
  bk_refs : forall k, k ∈ map entry_key M <-> k ∈ meteredRefs l;
  bk_once : NoDup (map entry_key G) /\ NoDup (map entry_key M);
  bk_amounts : (forall e, e ∈ G -> 0 < e_amount e) /\ (forall e, e ∈ M -> 0 <= e_amount e) }.

(** Exact arithmetic on the balances. *)
Lemma safe_sum a b : isSafeInteger a = true -> isSafeInteger b = true ->
  - MAX_SAFE <= num_Z a + num_Z b <= MAX_SAFE ->
  isSafeInteger (num_add a b) = true /\ num_Z (num_add a b) = num_Z a + num_Z b.
Proof.
  rewrite !isSafeInteger_spec. intros [Ha Ra] [Hb Rb] Hs.
  assert (E : num_add a b ≡ Int (num_Z a + num_Z b)).
  { rewrite Ha, Hb at 1. rewrite num_add_Int; [done|]. unfold MAX_SAFE in *. lia. }
  apply num_Z_equiv in E as F. destruct F as [F _]. rewrite F. done.
Qed.

Lemma safe_neg a : isSafeInteger a = true ->
  isSafeInteger (num_neg a) = true /\ num_Z (num_neg a) = - num_Z a.
Proof.
  rewrite !isSafeInteger_spec. intros [Ha Ra].
  assert (E : num_neg a ≡ Int (- num_Z a)).
  { destruct a as [|s|m k]; cbn in Ha |- *; try done. unfold pow2 in *. cbn in *. lia. }
  apply num_Z_equiv in E as F. destruct F as [F _]. rewrite F. split; [|done]. split; [done|]. lia.
Qed.

Lemma isSafe_int a : isSafeInteger a = true -> isInteger a = true /\ - MAX_SAFE <= num_Z a <= MAX_SAFE.
Proof. unfold isSafeInteger. rewrite !andb_true_iff, !Z.leb_le. tauto. Qed.

Lemma safe_num_ltb a b : isSafeInteger a = true -> isSafeInteger b = true ->
  num_ltb a b = (num_Z a <? num_Z b) /\ num_leb a b = (num_Z a <=? num_Z b).
Proof. intros [Ha _]%isSafe_int [Hb _]%isSafe_int. by rewrite num_ltb_Z, num_leb_Z. Qed.

Lemma total_cons e es a :
  total (e :: es) a = (if bool_decide (e_account e = a) then e_amount e else 0) + total es a.
Proof. unfold total. cbn [foldr]. by case_bool_decide. Qed.

Lemma balance_set m ns rs s i a x b :
  balance {| balances := <[a := x]> m; consumedNonces := ns; meteredRefs := rs; ml_suite := s;
             ml_issuer := i |} b = if bool_decide (a = b) then x else default (Int 0) (m !! b).
Proof.
  unfold balance. cbn [balances]. case_bool_decide as D.
  - subst b. by rewrite lookup_insert_eq.
  - by rewrite lookup_insert_ne.
Qed.

Lemma grant_books G M l account amount nonce : books G M l ->
  let l' := (grant l account amount nonce).1 in
  books (if bool_decide ((account, nonce) ∈ consumedNonces l' ∖ consumedNonces l)
         then {| e_account := account; e_key := nonce; e_amount := num_Z amount |} :: G else G) M l'.
Proof.
  intros B. cbv zeta. unfold grant.
  assert (Same : books (if bool_decide ((account, nonce) ∈ consumedNonces l ∖ consumedNonces l)
         then {| e_account := account; e_key := nonce; e_amount := num_Z amount |} :: G else G) M l)
    by (by rewrite bool_decide_false by set_solver).
  destruct (negb (isSafeInteger amount) || num_leb amount (Int 0)) eqn:E1; [done|].
  destruct (bool_decide ((account, nonce) ∈ consumedNonces l)) eqn:E2; [done|].
  destruct (num_ltb _ _) eqn:E3; [done|]. clear Same. cbn [fst consumedNonces].
  apply orb_false_iff in E1 as [Sa%negb_false_iff Pa]. apply bool_decide_eq_false in E2.
  rewrite bool_decide_true by set_solver.
  destruct B as [B1 B2 B3 [B4 B5] [B6 B7]]. destruct (B1 account) as (Sb & Pb & Eb).
  destruct (safe_neg amount Sa) as [Sn En].
  pose proof (proj2 (isSafe_int _ Sa)) as Ra. pose proof (proj2 (isSafe_int _ Sb)) as Rb.
  assert (P : 0 < num_Z amount).
  { assert (I0 : isSafeInteger (Int 0) = true) by done.
    rewrite (proj2 (safe_num_ltb amount (Int 0) Sa I0)), Z.leb_gt in Pa. exact Pa. }
  assert (IM : isSafeInteger (Int MAX_SAFE) = true) by done.
  assert (ZM : num_Z (Int MAX_SAFE) = MAX_SAFE) by done.
  destruct (safe_sum (Int MAX_SAFE) (num_neg amount) IM Sn) as [Ss Es]; [rewrite En, ZM; lia|].
  unfold num_sub in E3. rewrite (proj1 (safe_num_ltb _ _ Ss Sb)), Es, En, ZM, Z.ltb_ge in E3.
  destruct (safe_sum (balance l account) amount Sb Sa) as [Sr Er]; [lia|].
  constructor.
  - intros a. rewrite total_cons, balance_set. cbn [e_account e_amount].
    case_bool_decide as D.
    + subst a. rewrite Er. split; [done | lia].
    + change (default (Int 0) (balances l !! a)) with (balance l a).
      destruct (B1 a) as (? & ? & ?). split; [done | lia].
  - intros k. cbn [map]. rewrite elem_of_cons, B2. cbn. set_solver.
  - done.
  - split; [|done]. cbn [map]. constructor; [|done]. by rewrite B2.
  - split; [|done]. intros e [->|He]%elem_of_cons; [done | by apply B6].
Qed.

Lemma meter_books G M l account cost ref : books G M l ->
  let l' := (meter l account cost ref).1 in
  books G (if bool_decide ((account, ref) ∈ meteredRefs l' ∖ meteredRefs l)
           then {| e_account := account; e_key := ref; e_amount := num_Z cost |} :: M else M) l'.
Proof.
  intros B. cbv zeta. unfold meter.
  assert (Same : books G (if bool_decide ((account, ref) ∈ meteredRefs l ∖ meteredRefs l)
         then {| e_account := account; e_key := ref; e_amount := num_Z cost |} :: M else M) l)
    by (by rewrite bool_decide_false by set_solver).
  destruct (negb (isSafeInteger cost) || num_ltb cost (Int 0)) eqn:E1; [done|].
  destruct (bool_decide ((account, ref) ∈ meteredRefs l)) eqn:E2; [done|].
  destruct (num_ltb (balance l account) cost) eqn:E3; [done|]. clear Same. cbn [fst meteredRefs].
  apply orb_false_iff in E1 as [Sa%negb_false_iff Pa]. apply bool_decide_eq_false in E2.
  rewrite bool_decide_true by set_solver.
  destruct B as [B1 B2 B3 [B4 B5] [B6 B7]]. destruct (B1 account) as (Sb & Pb & Eb).
  destruct (safe_neg cost Sa) as [Sn En]. pose proof (proj2 (isSafe_int _ Sb)) as Rb.
  assert (P : 0 <= num_Z cost).
  { assert (I0 : isSafeInteger (Int 0) = true) by done.
    rewrite (proj1 (safe_num_ltb cost (Int 0) Sa I0)), Z.ltb_ge in Pa. exact Pa. }
  rewrite (proj1 (safe_num_ltb _ _ Sb Sa)), Z.ltb_ge in E3.
  destruct (safe_sum (balance l account) (num_neg cost) Sb Sn) as [Sr Er]; [lia|].
  constructor.
  - intros a. rewrite total_cons, balance_set. cbn [e_account e_amount].
    case_bool_decide as D.
    + subst a. unfold num_sub. rewrite Er. split; [done | lia].
    + change (default (Int 0) (balances l !! a)) with (balance l a).
      destruct (B1 a) as (? & ? & ?). split; [done | lia].
  - done.
  - intros k. cbn [map]. rewrite elem_of_cons, B3. cbn. set_solver.
  - split; [done|]. cbn [map]. constructor; [|done]. by rewrite B3.
  - split; [done|]. intros e [->|He]%elem_of_cons; [done | by apply B7].
Qed.

(** C33: The books balance.  Whatever is granted and metered, in any order and
    with any arguments, and also when a call throws: every balance is the sum
    of the grants that consumed a nonce less the sum of the meterings that
    consumed a reference, exactly, and stays within [0, 2^53 - 1]; no nonce
    credits an account twice and no reference charges it twice. *)
Theorem books_balance suite issuer G M l : run suite issuer G M l ->
  (forall a, isSafeInteger (balance l a) = true /\ 0 <= num_Z (balance l a) /\
     num_Z (balance l a) = total G a - total M a) /\
  NoDup (map entry_key G) /\ NoDup (map entry_key M) /\
  (forall e, e ∈ G -> 0 < e_amount e) /\ (forall e, e ∈ M -> 0 <= e_amount e).
Proof.
  intros R. assert (B : books G M l).
  { induction R as [|G M l account amount nonce R IH l'|G M l account cost ref R IH l'].
    - constructor; try (split; [constructor | constructor]); try done.
      all: try (intros k; cbn; set_solver).
      all: try (split; intros e ?%elem_of_nil; done).
    - by apply grant_books.
    - by apply meter_books. }
  destruct B as [B1 _ _ [B2 B3] [B4 B5]]. done.
Qed.

(** A grant the ledger returns verifies: whether or not
    the verifier pins the issuer, for any ledger over an active suite; and it
    says what was asked for. *)
Theorem grant_verifies `{!HexLaws L} `{!SigLaws L kpr} l account amount nonce l' g :
  ml_suite l ∈ activeSuiteIds -> kpr (publicKey (ml_issuer l)) (secretKey (ml_issuer l)) ->
  grant l account amount nonce = (l', Ok g) ->
  verifyGrant g None = true /\
  verifyGrant g (Some (bytesToHex (publicKey (ml_issuer l)))) = true /\
  cg_account g = account /\ cg_amount g = amount /\ cg_suite g = ml_suite l.
Proof.
  intros Hs Hk. unfold grant. destruct (_ || _) eqn:E1; [done|].
  destruct (bool_decide _); [done|]. destruct (num_ltb _ _); [done|].
  intros H. apply pair_equal_spec in H as [_ E]. apply bind_ok in E as (s & Es & E).
  apply bind_ok in E as (msg & Em & E). apply bind_ok in E as (sg & Eg & E). apply Ok_inj in E as <-.
  assert (V : scheme_verify s sg msg (publicKey (ml_issuer l)) None = Ok true).
  { rewrite signerFor_active in Es by done. apply Ok_inj in Es as <-.
    eapply ml_dsa87_correct; [exact Hk | exact Eg]. }
  unfold verifyGrant. cbn [cg_issuer cg_amount cg_suite cg_account cg_nonce cg_sig].
  rewrite E1, bool_decide_true by done. rewrite (proj2 (includes_spec _ _) Hs). cbn [negb].
  rewrite Es. cbn [mbind res_bind]. rewrite Em. cbn [mbind res_bind].
  rewrite hex_roundtrip. cbn [mbind res_bind]. rewrite V. done.
Qed.
End books.

(** ** Concrete runs *)
Definition sample_metering : MeteringLedger := new_metering "PS-5" (kp "issuer").
Definition metering1 : MeteringLedger := (grant sample_metering "acme" (Int 100) "n1").1.
Definition metering2 : MeteringLedger := (meter metering1 "acme" (Int 30) "r1").1.
(** A replayed grant and a replayed metering change nothing. *)
Definition metering3 : MeteringLedger :=
  (meter (grant metering2 "acme" (Int 100) "n1").1 "acme" (Int 30) "r1").1.

Definition sample_G : list entry := [{| e_account := "acme"; e_key := "n1"; e_amount := 100 |}].
Definition sample_M : list entry := [{| e_account := "acme"; e_key := "r1"; e_amount := 30 |}].

Lemma metering3_run : run "PS-5" (kp "issuer") sample_G sample_M metering3.
Proof.
  pose proof (run_new "PS-5" (kp "issuer")) as R.
  apply (run_grant _ _ _ _ _ "acme" (Int 100) "n1"), (run_meter _ _ _ _ _ "acme" (Int 30) "r1"),
    (run_grant _ _ _ _ _ "acme" (Int 100) "n1"), (run_meter _ _ _ _ _ "acme" (Int 30) "r1") in R.
  exact R.
Qed.

Lemma books_balance_witness : num_Z (balance metering3 "acme") = 70 /\
  num_Z (balance metering3 "acme") = total sample_G "acme" - total sample_M "acme".
Proof.
  split; [by vm_compute|].
  exact (proj2 (proj2 (proj1 (books_balance _ _ _ _ _ metering3_run) "acme"))).
Defined.

Definition sample_credit : CreditGrant :=
  match (grant sample_metering "acme" (Int 100) "n1").2 with
  | Ok g => g
  | Throw _ => {| cg_account := ""; cg_amount := NaN; cg_issuer := ""; cg_nonce := ""; cg_suite := "";
                  cg_sig := [] |}
  end.

Lemma grant_verifies_witness : verifyGrant sample_credit None = true.
Proof.
  refine (proj1 (grant_verifies (kpr := eq) sample_metering "acme" (Int 100) "n1" metering1
    sample_credit _ _ _)).
  - rewrite activeSuiteIds_eq. by left.
  - done.
  - by vm_compute.
Defined.

(** The balance is credited and the nonce consumed before the grant is signed:
    with a suite that has no signer, [grant] throws and leaves the credit. *)
Theorem grant_throws_after_crediting :
  let r := grant (new_metering "PS-5-FN" (kp "issuer")) "acme" (Int 100) "n1" in
  is_ok r.2 = false /\ num_Z (balance r.1 "acme") = 100 /\
  ("acme", "n1") ∈ consumedNonces r.1.
Proof. split_and!; [by vm_compute | by vm_compute | set_solver]. Qed.
