(* ===== verification/HbsState.v ===== *)
(** * keystore/: one-time-key state for hash-based signatures

    src/keystore/src/hbs-state.ts and [assertSingleTree] of
    src/crypto/src/code-sign.ts.  The store and the signing engine are the
    interfaces of the source: classes whose laws say what the provider relies
    on; [SoftwareOtsStateStore] is an instance of the first.  In this file
    [Throw] carries the error's code. *)
From S2P Require Import Prelude JsNum JsVal Crypto.
Open Scope string_scope.
Open Scope Z_scope.
Open Scope list_scope.

(** ** code-sign.ts *)
Inductive Family := LMS | XMSS.
Definition family_str (f : Family) : string := match f with LMS => "LMS" | XMSS => "XMSS" end.

Record HbsParams := { family : Family; multiTree : bool; hbs_hash : string; hbs_height : num }.

(** The pattern [HSS|XMSSMT|_MT_|MT-], ignoring case *)
Definition MULTI_TREE_ID (s : string) : bool :=
  let t := to_lower s in
  contains t "hss" || contains t "xmssmt" || contains t "_mt_" || contains t "mt-".

Definition assertSingleTree (p : HbsParams) (id : string) : res unit :=
  throw_if (multiTree p || MULTI_TREE_ID id || MULTI_TREE_ID (family_str (family p)))
    "E_MULTI_TREE_FORBIDDEN".

(** ** The interfaces *)
Record OtsCapacity := { cap_height : num; cap_total : Z; cap_consumed : Z }.

(** A store reserves indexes: [burned st k i] says that index [i] of key [k] has
    been handed out.  What is handed out was not before, and stays burned. *)
Class OtsStateStore := {
  store : Type;
  reserve : store -> string -> num -> store * res Z;
  capacity : store -> string -> OtsCapacity;
  burned : store -> string -> Z -> Prop;
  reserve_fresh : forall st k h st' i, reserve st k h = (st', Ok i) ->
    ~ burned st k i /\ burned st' k i;
  reserve_keeps : forall st k h k' i, burned st k' i -> burned (reserve st k h).1 k' i }.

(** The raw primitive, supplied by a hardware module; any call may throw. *)
Class HbsSignEngine := {
  getRoot : string -> res bytes;
  signWithIndex : string -> Z -> bytes -> res bytes;
  engine_params : string -> res HbsParams }.

(** ** HbsKeyProvider *)
Section provider.
Context {S : OtsStateStore} {E : HbsSignEngine}.

(** A call the provider makes to the engine. *)
Record engine_call := { call_key : string; call_index : Z; call_message : bytes }.

Definition getPublicKey (keyId : string) : res bytes := getRoot keyId.

(** The store afterwards, the engine's signing calls, the result. *)
Definition sign (st : store) (keyId : string) (message : bytes)
  : store * list engine_call * res bytes :=
  match p ← engine_params keyId; _ ← assertSingleTree p keyId; Ok p with
  | Throw e => (st, [], Throw e)
  | Ok p =>
      match reserve st keyId (hbs_height p) with
      | (st', Throw e) => (st', [], Throw e)
      | (st', Ok index) =>
          (st', [{| call_key := keyId; call_index := index; call_message := message |}],
           signWithIndex keyId index message)
      end
  end.

Definition remaining (st : store) (keyId : string) : Z :=
  cap_total (capacity st keyId) - cap_consumed (capacity st keyId).

(** A run: signing requests, and reservations made past the provider. *)
Inductive request := sign_request (keyId : string) (message : bytes)
                   | reserve_request (keyId : string) (height : num).

Fixpoint serve (st : store) (reqs : list request) : store * list engine_call :=
  match reqs with
  | [] => (st, [])
  | sign_request k m :: reqs' =>
      let '(st', calls, _) := sign st k m in
      let '(st'', calls') := serve st' reqs' in (st'', calls ++ calls')
  | reserve_request k h :: reqs' => serve (reserve st k h).1 reqs'
  end.

Lemma sign_calls st k m st' calls r : sign st k m = (st', calls, r) ->
  (calls = [] \/ exists i, calls = [{| call_key := k; call_index := i; call_message := m |}] /\
     r = signWithIndex k i m /\ ~ burned st k i /\ burned st' k i) /\
  forall k' i, burned st k' i -> burned st' k' i.
Proof.
  unfold sign. destruct (_ ≫= _) as [p|e]; [|by intros [= <- <- <-]; auto].
  destruct (reserve st k (hbs_height p)) as [st1 [i|e]] eqn:R; intros [= <- <- <-].
  - split; [right; exists i; split_and!; [done | done | |];
      by destruct (reserve_fresh _ _ _ _ _ R)|].
    intros k' j H. by apply (reserve_keeps _ k (hbs_height p)) in H; rewrite R in H.
  - split; [by left|]. intros k' j H. by apply (reserve_keeps _ k (hbs_height p)) in H; rewrite R in H.
Qed.

Lemma serve_calls reqs : forall st,
  NoDup (map (fun c => (call_key c, call_index c)) (serve st reqs).2) /\
  (forall c, c ∈ (serve st reqs).2 -> ~ burned st (call_key c) (call_index c)) /\
  (forall k i, burned st k i -> burned (serve st reqs).1 k i).
Proof.
  induction reqs as [|[k m|k h] reqs IH]; intros st; cbn [serve].
  - split_and!; [constructor | by intros c ?%elem_of_nil | done].
  - destruct (sign st k m) as [[st' calls] r] eqn:G.
    destruct (sign_calls _ _ _ _ _ _ G) as [Hc Hk]. destruct (IH st') as (I1 & I2 & I3).
    destruct (serve st' reqs) as [st'' calls']. cbn [fst snd] in *.
    destruct Hc as [->|(i & -> & _ & F & B)]; cbn [app].
    + split_and!; [done | intros c Hc Hb; by apply (I2 c Hc), Hk | auto].
    + split_and!.
      * cbn [map]. constructor; [|done]. intros (c & [= E1 E2] & Hc)%list_elem_of_fmap.
        apply (I2 c Hc). by rewrite <- E1, <- E2.
      * intros c [->|Hc]%elem_of_cons; [done|]. intros Hb. by apply (I2 c Hc), Hk.
      * auto.
  - destruct (IH (reserve st k h).1) as (I1 & I2 & I3). split_and!; [done | |].
    + intros c Hc Hb. apply (I2 c Hc). by apply reserve_keeps.
    + intros k' i Hb. by apply I3, reserve_keeps.
Qed.

(** C34: No one-time key is used twice: over any store that keeps the
    interface's laws, from any state of it, whatever is requested in whatever
    order, also when the engine or the policy rejects calls, no two calls to
    the engine sign with the same index of the same key. *)
Theorem no_index_reuse st reqs :
  NoDup (map (fun c => (call_key c, call_index c)) (serve st reqs).2).
Proof. apply serve_calls. Qed.
End provider.

(** ** SoftwareOtsStateStore *)
Record ots := { o_height : num; o_total : Z; o_next : Z }.

(** The constructor's gate. *)
Definition new_software_store (allowUnsafeSoftwareState : bool) : res (gmap string ots) :=
  if negb allowUnsafeSoftwareState then Throw "E_OTS_SOFTWARE_UNSAFE" else Ok ∅.

(** [state]: the entry of a key, created on first use. *)
Definition ots_state (keys : gmap string ots) (keyId : string) (h : num)
  : res (gmap string ots * ots) :=
  match keys !! keyId with
  | None =>
      if negb (isInteger h) || num_ltb h (Int 0) || num_ltb (Int 32) h
      then Throw "E_OTS_BAD_HEIGHT"
      else let s := {| o_height := h; o_total := 2 ^ num_Z h; o_next := 0 |} in
           Ok (<[keyId := s]> keys, s)
  | Some s => if negb (num_eqb (o_height s) h) then Throw "E_OTS_HEIGHT_MISMATCH" else Ok (keys, s)
  end.

Definition software_reserve (keys : gmap string ots) (keyId : string) (h : num)
  : gmap string ots * res Z :=
  match ots_state keys keyId h with
  | Throw e => (keys, Throw e)
  | Ok (keys', s) =>
      if o_total s <=? o_next s then (keys', Throw "E_OTS_EXHAUSTED") else
      let index := o_next s in
      (<[keyId := {| o_height := o_height s; o_total := o_total s; o_next := index + 1 |}]> keys',
       Ok index)
  end.

Definition software_capacity (keys : gmap string ots) (keyId : string) : OtsCapacity :=
  match keys !! keyId with
  | None => {| cap_height := Int 0; cap_total := 0; cap_consumed := 0 |}
  | Some s => {| cap_height := o_height s; cap_total := o_total s; cap_consumed := o_next s |}
  end.

Definition assertMonotonicFloor (keys : gmap string ots) (keyId : string) (externalFloor : num)
  : res unit :=
  match keys !! keyId with
  | Some s => throw_if (num_ltb (Int (o_next s)) externalFloor) "E_OTS_ROLLBACK"
  | None => Ok tt
  end.

Definition software_burned (keys : gmap string ots) (keyId : string) (i : Z) : Prop :=
  match keys !! keyId with Some s => i < o_next s | None => i < 0 end.

Lemma ots_state_burned keys k h keys' s : ots_state keys k h = Ok (keys', s) ->
  keys' !! k = Some s /\ (forall i, software_burned keys k i <-> i < o_next s) /\
  forall k', k' <> k -> keys' !! k' = keys !! k'.
Proof.
  unfold ots_state, software_burned. destruct (keys !! k) as [t|] eqn:K.
  - destruct (negb _); [done|]. by intros [= <- <-].
  - destruct (_ || _); [done|]. intros [= <- <-]. rewrite lookup_insert_eq.
    split_and!; [done | done |]. intros k' Hk. by rewrite lookup_insert_ne.
Qed.

Lemma software_reserve_fresh keys k h keys' i : software_reserve keys k h = (keys', Ok i) ->
  ~ software_burned keys k i /\ software_burned keys' k i.
Proof.
  unfold software_reserve. destruct (ots_state keys k h) as [[m s]|e] eqn:G; [|done].
  destruct (Z.leb_spec (o_total s) (o_next s)); [done|]. intros [= <- <-].
  destruct (ots_state_burned _ _ _ _ _ G) as (_ & B & _). rewrite B. split; [lia|].
  unfold software_burned. rewrite lookup_insert_eq. cbn. lia.
Qed.

Lemma software_reserve_keeps keys k h k' i : software_burned keys k' i ->
  software_burned (software_reserve keys k h).1 k' i.
Proof.
  intros B. unfold software_reserve. destruct (ots_state keys k h) as [[m s]|e] eqn:G; [|done].
  destruct (ots_state_burned _ _ _ _ _ G) as (Hs & Hb & Ho).
  destruct (Z.leb_spec (o_total s) (o_next s)); cbn [fst];
    (destruct (decide (k' = k)) as [->|D]; [apply Hb in B|]); unfold software_burned in *;
    rewrite ?lookup_insert_eq, ?lookup_insert_ne, ?Hs by done; cbn; try lia; by rewrite Ho.
Qed.

#[export] Instance SoftwareOtsStateStore : OtsStateStore := {|
  store := gmap string ots;
  reserve := software_reserve;
  capacity := software_capacity;
  burned := software_burned;
  reserve_fresh := software_reserve_fresh;
  reserve_keeps := software_reserve_keeps |}.

(** [n] reservations of one key. *)
Fixpoint reserve_n (n : nat) (keys : gmap string ots) (k : string) (h : num) : gmap string ots :=
  match n with O => keys | S n' => (software_reserve (reserve_n n' keys k h) k h).1 end.

Lemma reserve_n_state n keys k h : keys !! k = None -> 0 <= num_Z h <= 32 -> isInteger h = true ->
  (1 <= n)%nat -> exists s, reserve_n n keys k h !! k = Some s /\ o_height s = h /\
    o_total s = 2 ^ num_Z h /\ o_next s = Z.min (Z.of_nat n) (2 ^ num_Z h).
Proof.
  intros K Hh Hi. assert (P : 1 <= 2 ^ num_Z h) by (apply Z.lt_pred_le, Z.pow_pos_nonneg; lia).
  assert (HE : num_eqb h h = true) by (rewrite num_eqb_Z by done; apply Z.eqb_refl).
  induction n as [|n IH]; intros Hn; [lia|]. cbn [reserve_n]. unfold software_reserve, ots_state.
  destruct n as [|n].
  - cbn [reserve_n]. rewrite K, Hi, !num_ltb_Z by done. change (num_Z (Int 0)) with 0.
    change (num_Z (Int 32)) with 32. rewrite !(proj2 (Z.ltb_ge _ _)) by lia. cbn [negb orb o_total o_next].
    rewrite (proj2 (Z.leb_gt _ _)) by lia. cbn [fst]. eexists. rewrite lookup_insert_eq.
    split_and!; try done. cbn [o_next]. lia.
  - destruct IH as (s & L & H1 & H2 & H3); [lia|]. rewrite L, H1, HE. cbn [negb].
    destruct (Z.leb_spec (o_total s) (o_next s)); cbn [fst].
    + exists s. split_and!; try done. lia.
    + eexists. rewrite lookup_insert_eq. split_and!; try done. cbn [o_next]. lia.
Qed.

(** The software store hands out exactly the indexes 0, 1, ..., 2^h - 1 of a
    key, in this order, and refuses from then on; what remains is counted
    exactly. *)
Theorem software_store_exact keys k h n : keys !! k = None -> isInteger h = true ->
  0 <= num_Z h <= 32 ->
  (software_reserve (reserve_n n keys k h) k h).2 =
    (if Z.of_nat n <? 2 ^ num_Z h then Ok (Z.of_nat n) else Throw "E_OTS_EXHAUSTED") /\
  ((1 <= n)%nat -> remaining (S := SoftwareOtsStateStore) (reserve_n n keys k h) k =
     Z.max 0 (2 ^ num_Z h - Z.of_nat n)).
Proof.
  intros K Hi Hh. assert (P : 1 <= 2 ^ num_Z h) by (apply Z.lt_pred_le, Z.pow_pos_nonneg; lia).
  assert (HE : num_eqb h h = true) by (rewrite num_eqb_Z by done; apply Z.eqb_refl).
  destruct n as [|n].
  - split; [|lia]. unfold software_reserve, ots_state. cbn [reserve_n]. rewrite K, Hi, !num_ltb_Z by done.
    change (num_Z (Int 0)) with 0. change (num_Z (Int 32)) with 32.
    rewrite !(proj2 (Z.ltb_ge _ _)) by lia. cbn [negb orb o_total o_next].
    rewrite (proj2 (Z.leb_gt _ _)) by lia. by rewrite (proj2 (Z.ltb_lt _ _)) by lia.
  - destruct (reserve_n_state (S n) keys k h K Hh Hi) as (s & L & H1 & H2 & H3); [lia|]. split.
    + unfold software_reserve, ots_state. rewrite L, H1, HE. cbn [negb].
      destruct (Z.leb_spec (o_total s) (o_next s)), (Z.ltb_spec (Z.of_nat (S n)) (2 ^ num_Z h));
        try lia; [done|]. cbn [snd]. f_equal. lia.
    + intros _. unfold remaining. cbn [capacity SoftwareOtsStateStore]. unfold software_capacity.
      rewrite L. cbn [cap_total cap_consumed]. lia.
Qed.

Lemma software_store_exact_witness :
  (software_reserve (reserve_n 2 ∅ "k" (Int 1)) "k" (Int 1)).2 = Throw "E_OTS_EXHAUSTED".
Proof.
  refine (proj1 (software_store_exact ∅ "k" (Int 1) 2 _ _ _)).
  - apply lookup_empty.
  - by vm_compute.
  - vm_compute. split; discriminate.
Defined.

(** ** A run of the provider over the software store *)
Definition toy_engine : HbsSignEngine := {|
  getRoot := fun _ => Ok [];
  signWithIndex := fun _ i m => if i =? 1 then Throw "E_OTS_ENGINE" else Ok m;
  engine_params := fun _ => Ok {| family := XMSS; multiTree := false; hbs_hash := "SHA-256";
                                  hbs_height := Int 2 |} |}.
Definition toy_calls : list engine_call :=
  (serve (S := SoftwareOtsStateStore) (E := toy_engine) (∅ : gmap string ots)
    [sign_request "a" [x01]; sign_request "a" [x01]; sign_request "b" [x02];
     reserve_request "a" (Int 2); sign_request "a" [x03]; sign_request "a" [x04]]).2.

(** The failed call burns index 1, the reservation past the provider burns
    index 2, and the exhausted key makes no call. *)
Lemma no_index_reuse_witness :
  map (fun c => (call_key c, call_index c)) toy_calls = [("a", 0); ("a", 1); ("b", 0); ("a", 3)] /\
  NoDup (map (fun c => (call_key c, call_index c)) toy_calls).
Proof. split; [by vm_compute | apply no_index_reuse]. Defined.
