(* ===== verification/Keystore.v ===== *)
(** * keystore/: key providers, the sealing provider

    src/keystore/src/types.ts, providers.ts and sealing-provider.ts.  The sealing
    provider awaits the custody backend between its steps, so other calls run in
    between: an operation is a sequence of steps on the shared state (the
    [Vault]), and every interleaving is a run.  The secrets are mutable buffers
    that the code overwrites with zeros; the vault holds the heap of them, so
    what is left in memory, and what an overlapping call wipes, can be said.
    [keygen] and the seed lengths are the library's. *)
From stdpp Require Import pretty.
From S2P Require Import Prelude JsNum JsVal Crypto Concrete.
Open Scope string_scope.
Open Scope Z_scope.
Open Scope list_scope.

(** [scheme.keygen(seed)] and [scheme.lengths.seed] of the scheme with that id *)
Class KeyGen := {
  keygen : string -> bytes -> res KeyPair;
  seed_length : string -> option num }.

(** A generated pair is one the signature scheme works with. *)
Class KeyGenLaws {KG : KeyGen} (keypair : bytes -> bytes -> Prop) := {
  keygen_pair : forall id seed kp, keygen id seed = Ok kp ->
    keypair (publicKey kp) (secretKey kp) }.

(** ** types.ts *)
Record KeyRef := { ref_provider : string; ref_id : string }.

(** A provider, as the registry and the envelope helper use it: a view of its
    state at the time of the call.  [generate] is not routed. *)
Record KeyProvider := {
  prov_name : string;
  prov_getPublicKey : KeyRef -> res bytes;
  prov_sign : KeyRef -> string -> bytes -> res bytes }.

(** ** providers.ts *)
Section providers.
Context {L : Lib} {KG : KeyGen}.

Definition SoftwareKeyProvider := gmap string KeyPair.

(** [generate]; [seed] is what [keygen()] draws. *)
Definition sw_generate (keys : SoftwareKeyProvider) (suite id : string) (seed : bytes)
  : SoftwareKeyProvider * res (KeyRef * bytes) :=
  match scheme ← signerFor suite; keygen (scheme_id scheme) seed with
  | Throw e => (keys, Throw e)
  | Ok kp => (<[id := kp]> keys, Ok ({| ref_provider := "software"; ref_id := id |}, publicKey kp))
  end.

Definition importKeyPair (keys : SoftwareKeyProvider) (id : string) (kp : KeyPair)
  : SoftwareKeyProvider * KeyRef :=
  (<[id := kp]> keys, {| ref_provider := "software"; ref_id := id |}).

Definition sw_require (keys : SoftwareKeyProvider) (ref : KeyRef) : res KeyPair :=
  match keys !! ref_id ref with
  | Some kp => Ok kp
  | None => Throw ("software keystore has no key " +:+ quoted (ref_id ref))
  end.

Definition sw_getPublicKey (keys : SoftwareKeyProvider) (ref : KeyRef) : res bytes :=
  kp ← sw_require keys ref; Ok (publicKey kp).

Definition sw_sign (keys : SoftwareKeyProvider) (ref : KeyRef) (suite : string) (message : bytes)
  : res bytes :=
  scheme ← signerFor suite;
  kp ← sw_require keys ref;
  scheme_sign scheme message (secretKey kp) None.

Definition software (keys : SoftwareKeyProvider) : KeyProvider := {|
  prov_name := "software";
  prov_getPublicKey := sw_getPublicKey keys;
  prov_sign := sw_sign keys |}.

(** [StubKeyProvider.fail], with the name and the [connect] text of the class *)
Definition stub_fail {A} (name connect : string) : res A :=
  Throw (NotImplementedError (name +:+ " key provider") connect).

Definition CloudKmsKeyProvider : KeyProvider :=
  let connect := "GCP KMS credentials + SDK (Azure→AzureKeyVaultKeyProvider, AWS→AwsKmsKeyProvider, HSM→Pkcs11KeyProvider)" in
  {| prov_name := "cloud-kms";
     prov_getPublicKey := fun _ => stub_fail "cloud-kms" connect;
     prov_sign := fun _ _ _ => stub_fail "cloud-kms" connect |}.

Definition KeyProviderRegistry := gmap string KeyProvider.

Definition register (reg : KeyProviderRegistry) (p : KeyProvider) : KeyProviderRegistry :=
  <[prov_name p := p]> reg.

Definition resolve_provider (reg : KeyProviderRegistry) (ref : KeyRef) : res KeyProvider :=
  match reg !! ref_provider ref with
  | Some p => Ok p
  | None => Throw ("no key provider named " +:+ quoted (ref_provider ref))
  end.

Definition reg_getPublicKey (reg : KeyProviderRegistry) (ref : KeyRef) : res bytes :=
  p ← resolve_provider reg ref; prov_getPublicKey p ref.

Definition reg_sign (reg : KeyProviderRegistry) (ref : KeyRef) (suite : string) (message : bytes)
  : res bytes :=
  p ← resolve_provider reg ref; prov_sign p ref suite message.

Definition signEnvelopeViaProvider (payload : jsval) (suite : string) (provider : KeyProvider)
    (ref : KeyRef) (context : string) : res SignedEnvelope :=
  signEnvelopeWith payload suite (fun tbs => prov_sign provider ref suite tbs) context.
End providers.

(** ** sealing-provider.ts *)
(** The length-prefixed field of [sealedKeyAad]. *)
Definition aad_field (s : string) : string := pretty (String.length s) +:+ ":" +:+ s.

Definition sealedKeyAad (id suite sigId : string) : bytes :=
  utf8 ("polarseek-seed-seal-aad-v1|" +:+ aad_field id +:+ "|" +:+ aad_field suite +:+ "|" +:+
        aad_field sigId).

Record SealedKey := {
  sl_id : string; sl_suite : string; sl_sigId : string;
  wrappedSeed : bytes; sl_publicKey : bytes }.

(** An unlocked key: [e_secret] is the buffer of its secret key. *)
Record Entry := { e_suite : string; e_public : bytes; e_secret : nat }.

(** What an operation that awaits the backend holds on to. *)
Inductive Pending :=
| wrapping (suite id : string) (scheme : SignatureScheme) (seed : nat) (pk : bytes) (sk : nat)
| verifying (suite id : string) (scheme : SignatureScheme) (seed : nat) (pk : bytes) (sk : nat)
    (wrapped : bytes)
| unwrapping (sealed : SealedKey) (scheme : SignatureScheme) (trusted : option bytes).

(** The provider and its heap of secret buffers. *)
Record Vault := {
  heap : gmap nat bytes; next : nat;
  unlocked : gmap string Entry;
  pending : gmap nat Pending; next_op : nat }.

Definition new_vault : Vault :=
  {| heap := ∅; next := 0; unlocked := ∅; pending := ∅; next_op := 0 |}.

(** Calls of [SeedSealer]. *)
Inductive sealer_call :=
| call_wrap (seed aad : bytes)
| call_unwrap (sealed aad : bytes).

(** What a step ends in: the operation awaits the backend, or its promise
    settles. *)
Inductive outcome :=
| waits (op : nat) (call : sealer_call)
| provisioned (r : res (KeyRef * bytes * SealedKey))
| loaded (r : res KeyRef)
| no_outcome.

Definition alloc (b : bytes) (v : Vault) : Vault := {|
  heap := <[next v := b]> (heap v); next := S (next v);
  unlocked := unlocked v; pending := pending v; next_op := next_op v |}.

(** [buffer.fill(0)] *)
Definition zeros (b : bytes) : bytes := repeat x00 (length b).
Definition wipe (l : nat) (v : Vault) : Vault := {|
  heap := alter zeros l (heap v); next := next v;
  unlocked := unlocked v; pending := pending v; next_op := next_op v |}.

Definition content (v : Vault) (l : nat) : bytes := default [] (heap v !! l).

Definition set_unlocked (m : gmap string Entry) (v : Vault) : Vault := {|
  heap := heap v; next := next v; unlocked := m; pending := pending v; next_op := next_op v |}.
Definition set_pending (m : gmap nat Pending) (v : Vault) : Vault := {|
  heap := heap v; next := next v; unlocked := unlocked v; pending := m; next_op := next_op v |}.

(** A new operation suspends; an operation is over. *)
Definition suspend (p : Pending) (v : Vault) : Vault := {|
  heap := heap v; next := next v; unlocked := unlocked v;
  pending := <[next_op v := p]> (pending v); next_op := S (next_op v) |}.
Definition settle (op : nat) (v : Vault) : Vault := set_pending (delete op (pending v)) v.

Definition lock (id : string) (v : Vault) : Vault :=
  match unlocked v !! id with
  | Some e => set_unlocked (delete id (unlocked v)) (wipe (e_secret e) v)
  | None => v
  end.

(** [this.lock(id); this.unlocked.set(id, ..)] *)
Definition unlock (id : string) (e : Entry) (v : Vault) : Vault :=
  let v' := lock id v in set_unlocked (<[id := e]> (unlocked v')) v'.

Section sealing.
Context {L : Lib} {KG : KeyGen}.
(** The provider's name, and whether its backend wraps with a public key. *)
Context (name : string) (isPublicKeyWrap : bool).

Definition seedLengthFor (scheme : SignatureScheme) : res num :=
  let fail := Throw (NotImplementedError
    ("sealed seeds for signature scheme " +:+ quoted (scheme_id scheme))
    "the scheme does not expose a keygen seed length via scheme.lengths.seed") in
  match seed_length (scheme_id scheme) with
  | Some n => if num_leb n (Int 0) then fail else Ok n
  | None => fail
  end.

(** The synchronous [generate] *)
Definition seal_generate (suite id : string) : res (KeyRef * bytes) :=
  Throw (NotImplementedError ("synchronous generate() on the " +:+ name +:+ " provider")
    "use the async provision(suite, id) — wrapping the seed is a network/HSM round-trip").

(** [provision] up to its first [await]; [rnd] is [randomBytes]. *)
Definition provision (suite id : string) (rnd : num -> bytes) (v : Vault) : Vault * outcome :=
  match scheme ← signerFor suite; n ← seedLengthFor scheme; Ok (scheme, n) with
  | Throw e => (v, provisioned (Throw e))
  | Ok (scheme, n) =>
      let seed := next v in
      let v1 := alloc (rnd n) v in
      let aad := sealedKeyAad id suite (scheme_id scheme) in
      match keygen (scheme_id scheme) (content v1 seed) with
      | Throw e => (wipe seed v1, provisioned (Throw e))
      | Ok kp =>
          let sk := next v1 in
          let v2 := alloc (secretKey kp) v1 in
          (suspend (wrapping suite id scheme seed (publicKey kp) sk) v2,
           waits (next_op v2) (call_wrap (content v2 seed) aad))
      end
  end.

(** The [catch] and [finally] blocks of [provision]. *)
Definition provision_fails (op seed sk : nat) (e : string) (v : Vault) : Vault * outcome :=
  (settle op (wipe seed (wipe sk v)), provisioned (Throw e)).

(** [wrap] has settled. *)
Definition provision_wrapped (op : nat) (suite id : string) (scheme : SignatureScheme) (seed : nat)
    (pk : bytes) (sk : nat) (r : res bytes) (v : Vault) : Vault * outcome :=
  match r with
  | Throw e => provision_fails op seed sk e v
  | Ok w => (set_pending (<[op := verifying suite id scheme seed pk sk w]> (pending v)) v,
             waits op (call_unwrap w (sealedKeyAad id suite (scheme_id scheme))))
  end.

(** The verifying [unwrap] has settled. *)
Definition provision_checked (op : nat) (suite id : string) (scheme : SignatureScheme) (seed : nat)
    (pk : bytes) (sk : nat) (w : bytes) (r : res bytes) (v : Vault) : Vault * outcome :=
  match r with
  | Throw e => provision_fails op seed sk e v
  | Ok b =>
      let check := next v in
      let v1 := alloc b v in
      let roundTrips := constantTimeEqual (content v1 check) (content v1 seed) in
      let v2 := wipe check v1 in
      if negb roundTrips
      then provision_fails op seed sk ("seal round-trip failed for " +:+ quoted id +:+
             ": backend did not unwrap the wrapped seed to the original") v2
      else
        let v3 := unlock id {| e_suite := suite; e_public := pk; e_secret := sk |} v2 in
        (settle op (wipe seed v3),
         provisioned (Ok ({| ref_provider := name; ref_id := id |}, pk,
           {| sl_id := id; sl_suite := suite; sl_sigId := scheme_id scheme;
              wrappedSeed := w; sl_publicKey := pk |})))
  end.

(** [load] up to its [await] *)
Definition load (sealed : SealedKey) (trustedPublicKey : option bytes) (v : Vault)
  : Vault * outcome :=
  match signerFor (sl_suite sealed) with
  | Throw e => (v, loaded (Throw e))
  | Ok scheme =>
      if negb (bool_decide (sl_sigId sealed = scheme_id scheme))
      then (v, loaded (Throw ("sealed key " +:+ quoted (sl_id sealed) +:+ " failed metadata check: sigId " +:+
             quoted (sl_sigId sealed) +:+ " does not match suite " +:+ quoted (sl_suite sealed) +:+
             " (scheme " +:+ quoted (scheme_id scheme) +:+ ")")))
      else
        (suspend (unwrapping sealed scheme trustedPublicKey) v,
         waits (next_op v) (call_unwrap (wrappedSeed sealed)
           (sealedKeyAad (sl_id sealed) (sl_suite sealed) (sl_sigId sealed))))
  end.

(** The three checks of [load] on the key re-derived from the seed *)
Definition load_error (sealed : SealedKey) (trusted : option bytes) (pk : bytes) : option string :=
  if negb (constantTimeEqual pk (sl_publicKey sealed))
  then Some ("sealed key " +:+ quoted (sl_id sealed) +:+
    " failed integrity check: re-derived public key does not match sealed.publicKey") else
  if isPublicKeyWrap && bool_decide (trusted = None)
  then Some ("sealed key " +:+ quoted (sl_id sealed) +:+ " requires opts.trustedPublicKey: the " +:+
    quoted name +:+ " backend is a public-key wrap (offline-forgeable without it) — CUSTODY-SEAL-002.") else
  match trusted with
  | Some t =>
      if negb (constantTimeEqual pk t)
      then Some ("sealed key " +:+ quoted (sl_id sealed) +:+
        " failed authenticity check: re-derived public key does not match the trusted public key (possible blob substitution — CUSTODY-SEAL-001)")
      else None
  | None => None
  end.

(** [unwrap] has settled. *)
Definition load_unwrapped (op : nat) (sealed : SealedKey) (scheme : SignatureScheme)
    (trusted : option bytes) (r : res bytes) (v : Vault) : Vault * outcome :=
  match r with
  | Throw e => (settle op v, loaded (Throw e))
  | Ok b =>
      let seed := next v in
      let v1 := alloc b v in
      match keygen (scheme_id scheme) (content v1 seed) with
      | Throw e => (settle op (wipe seed v1), loaded (Throw e))
      | Ok kp =>
          let sk := next v1 in
          let v2 := alloc (secretKey kp) v1 in
          match load_error sealed trusted (publicKey kp) with
          | Some e => (settle op (wipe seed (wipe sk v2)), loaded (Throw e))
          | None =>
              let v3 := unlock (sl_id sealed)
                {| e_suite := sl_suite sealed; e_public := publicKey kp; e_secret := sk |} v2 in
              (settle op (wipe seed v3),
               loaded (Ok {| ref_provider := name; ref_id := sl_id sealed |}))
          end
      end
  end.

(** The backend's answer to the call of [op] arrives. *)
Definition resume (op : nat) (r : res bytes) (v : Vault) : Vault * outcome :=
  match pending v !! op with
  | None => (v, no_outcome)
  | Some (wrapping suite id scheme seed pk sk) =>
      provision_wrapped op suite id scheme seed pk sk r v
  | Some (verifying suite id scheme seed pk sk w) =>
      provision_checked op suite id scheme seed pk sk w r v
  | Some (unwrapping sealed scheme trusted) => load_unwrapped op sealed scheme trusted r v
  end.

Definition require (v : Vault) (id : string) : res Entry :=
  match unlocked v !! id with
  | Some e => Ok e
  | None => Throw ("key " +:+ quoted id +:+ " is not unlocked — call provision()/load() (async) first")
  end.

Definition seal_getPublicKey (v : Vault) (ref : KeyRef) : res bytes :=
  e ← require v (ref_id ref); Ok (e_public e).

Definition seal_sign (v : Vault) (ref : KeyRef) (suite : string) (message : bytes) : res bytes :=
  e ← require v (ref_id ref);
  if negb (bool_decide (e_suite e = suite))
  then Throw ("key " +:+ quoted (ref_id ref) +:+ " is suite " +:+ e_suite e +:+ ", not " +:+ suite)
  else
    scheme ← signerFor suite;
    scheme_sign scheme message (content v (e_secret e)) None.

Definition sealing (v : Vault) : KeyProvider := {|
  prov_name := name;
  prov_getPublicKey := seal_getPublicKey v;
  prov_sign := seal_sign v |}.

(** *** Runs: calls and answers in any order *)
Inductive event :=
| do_provision (suite id : string) (rnd : num -> bytes)
| do_load (sealed : SealedKey) (trusted : option bytes)
| do_resume (op : nat) (r : res bytes)
| do_lock (id : string).

Definition step (v : Vault) (ev : event) : Vault :=
  match ev with
  | do_provision suite id rnd => (provision suite id rnd v).1
  | do_load sealed trusted => (load sealed trusted v).1
  | do_resume op r => (resume op r v).1
  | do_lock id => lock id v
  end.

Definition run (evs : list event) : Vault := fold_left step evs new_vault.
End sealing.

(** ** What is left in memory *)
Section memory.
Context {L : Lib} {KG : KeyGen}.

(** The buffers an operation holds on to; those the state refers to. *)
Definition held (p : Pending) : list nat :=
  match p with
  | wrapping _ _ _ seed _ sk | verifying _ _ _ seed _ sk _ => [seed; sk]
  | unwrapping _ _ _ => []
  end.

Definition live (v : Vault) : list nat :=
  map (fun kv => e_secret kv.2) (map_to_list (unlocked v)) ++
  concat (map (fun kv => held kv.2) (map_to_list (pending v))).

(** Buffer [l] holds the secret key that belongs to [pk], made from [seed]. *)
Definition secret_at (v : Vault) (suite : string) (seed pk : bytes) (l : nat) : Prop :=
  exists scheme kp, signerFor suite = Ok scheme /\ keygen (scheme_id scheme) seed = Ok kp /\
    publicKey kp = pk /\ heap v !! l = Some (secretKey kp).

Definition entry_ok (v : Vault) (e : Entry) : Prop :=
  exists seed, secret_at v (e_suite e) seed (e_public e) (e_secret e).

Definition pending_ok (v : Vault) (p : Pending) : Prop :=
  match p with
  | wrapping suite _ scheme seed pk sk | verifying suite _ scheme seed pk sk _ =>
      signerFor suite = Ok scheme /\
      exists b, heap v !! seed = Some b /\ secret_at v suite b pk sk
  | unwrapping sealed scheme _ =>
      signerFor (sl_suite sealed) = Ok scheme /\ sl_sigId sealed = scheme_id scheme
  end.

(** [loose] are the buffers the running step still holds in local variables. *)
Record vault_ok (loose : list nat) (v : Vault) : Prop := {
  vo_fresh : forall l, is_Some (heap v !! l) -> (l < next v)%nat;
  vo_held : forall l, l ∈ loose ++ live v -> is_Some (heap v !! l);
  vo_apart : NoDup (loose ++ live v);
  vo_wiped : forall l b, heap v !! l = Some b -> l ∉ loose ++ live v -> b = zeros b;
  vo_entries : forall id e, unlocked v !! id = Some e -> entry_ok v e;
  vo_pending : forall op p, pending v !! op = Some p -> pending_ok v p;
  vo_ops : forall op, is_Some (pending v !! op) -> (op < next_op v)%nat }.

(** *** The live buffers of changed states *)
Lemma live_unlocked_insert v id e : unlocked v !! id = None ->
  live (set_unlocked (<[id := e]> (unlocked v)) v) ≡ₚ e_secret e :: live v.
Proof. intros H. unfold live. cbn [unlocked pending set_unlocked]. by rewrite map_to_list_insert. Qed.

Lemma live_unlocked_delete v id e : unlocked v !! id = Some e ->
  live v ≡ₚ e_secret e :: live (set_unlocked (delete id (unlocked v)) v).
Proof.
  intros H. unfold live. cbn [unlocked pending set_unlocked].
  by rewrite <- (map_to_list_delete _ id e H).
Qed.

Lemma live_pending_insert v op p : pending v !! op = None ->
  live (set_pending (<[op := p]> (pending v)) v) ≡ₚ held p ++ live v.
Proof.
  intros H. unfold live. cbn [unlocked pending set_pending].
  rewrite map_to_list_insert by done. cbn. rewrite !app_assoc. f_equiv. apply Permutation_app_comm.
Qed.

Lemma live_settle v op p : pending v !! op = Some p -> live v ≡ₚ held p ++ live (settle op v).
Proof.
  intros H. unfold live. cbn [unlocked pending settle set_pending].
  rewrite <- (map_to_list_delete (pending v) op p H). cbn. rewrite !app_assoc. f_equiv.
  apply Permutation_app_comm.
Qed.

Lemma live_unlocked v id e : unlocked v !! id = Some e -> e_secret e ∈ live v.
Proof. intros H. rewrite (live_unlocked_delete v id e H). apply elem_of_cons; auto. Qed.
Lemma live_pending v op p l : pending v !! op = Some p -> l ∈ held p -> l ∈ live v.
Proof. intros H. rewrite (live_settle v op p H), elem_of_app; auto. Qed.

(** What the live buffers hold is all that entries and operations rely on. *)
Lemma entry_ok_mono v v' e : heap v' !! e_secret e = heap v !! e_secret e ->
  entry_ok v e -> entry_ok v' e.
Proof. intros H (seed & s & kp & A & B & C & D). exists seed, s, kp. by rewrite H. Qed.

Lemma pending_ok_mono v v' p : (forall l, l ∈ held p -> heap v' !! l = heap v !! l) ->
  pending_ok v p -> pending_ok v' p.
Proof.
  destruct p; cbn; [| |done]; intros H (A & b & B & s & kp & C & D & F & G);
    (split; [done|]; exists b; rewrite H by set_solver; split; [done|];
     exists s, kp; rewrite H by set_solver; done).
Qed.

(** *** The primitive changes *)
Lemma vault_ok_perm k l v : k ≡ₚ l -> vault_ok k v -> vault_ok l v.
Proof.
  intros P []. split; try done; setoid_rewrite <- P; done.
Qed.

Lemma alloc_ok loose b v : vault_ok loose v -> vault_ok (next v :: loose) (alloc b v).
Proof.
  intros [F H N W E P O]. assert (X : heap v !! next v = None).
  { destruct (heap v !! next v) eqn:X; [|done]. specialize (F (next v)). rewrite X in F.
    specialize (F ltac:(eauto)). lia. }
  assert (Y : forall l, l ∈ loose ++ live v -> l <> next v) by (intros l Hl ->; by destruct (H _ Hl); simplify_eq).
  split; cbn [heap next alloc pending unlocked next_op].
  - intros l. destruct (base.decide (l = next v)) as [->|Hl]; [lia|].
    rewrite lookup_insert_ne by done. intros Hs%F. lia.
  - intros l. cbn. rewrite elem_of_cons. intros [->|Hl]; [rewrite lookup_insert_eq; eauto|].
    rewrite lookup_insert_ne by (symmetry; by apply Y). by apply H.
  - cbn. constructor; [|done]. intros Hl. by apply (Y _ Hl).
  - intros l c. cbn. rewrite not_elem_of_cons. intros Hl [Hn Hl'].
    rewrite lookup_insert_ne in Hl by done. by apply (W l).
  - intros id e He. apply (entry_ok_mono v); [|by apply (E id)]. cbn.
    apply lookup_insert_ne. intros Eq. apply (Y (e_secret e)); [|done].
    apply elem_of_app; right. by apply (live_unlocked v id).
  - intros op p Hp. apply (pending_ok_mono v); [|by apply (P op)]. intros l Hl. cbn.
    apply lookup_insert_ne. intros Eq. apply (Y l); [|done].
    apply elem_of_app; right. by apply (live_pending v op p).
  - done.
Qed.

Lemma zeros_idem b : zeros b = zeros (zeros b).
Proof. unfold zeros. by rewrite repeat_length. Qed.

Lemma wipe_ok loose l v : vault_ok (l :: loose) v -> vault_ok loose (wipe l v).
Proof.
  intros [F H N W E P O]. cbn in N. apply NoDup_cons in N as [Nl N].
  assert (K : forall k, k ∈ loose ++ live v -> heap (wipe l v) !! k = heap v !! k).
  { intros k Hk. cbn. apply lookup_alter_ne. by intros ->. }
  split; cbn [next wipe pending unlocked next_op].
  - intros k. cbn. destruct (base.decide (l = k)) as [->|Hl].
    + rewrite lookup_alter_eq, fmap_is_Some. apply F.
    + rewrite lookup_alter_ne by done. apply F.
  - intros k Hk. rewrite K by done. apply H. cbn. by apply elem_of_cons; right.
  - done.
  - intros k b Hb Hk. cbn in Hb. destruct (base.decide (l = k)) as [->|Hl].
    + rewrite lookup_alter_eq in Hb. apply fmap_Some in Hb as (c & _ & ->). apply zeros_idem.
    + rewrite lookup_alter_ne in Hb by done. apply (W k); [done|]. cbn.
      rewrite not_elem_of_cons. split; [by intros ->|done].
  - intros id e He. apply (entry_ok_mono v); [|by apply (E id)]. apply K, elem_of_app; right.
    by apply (live_unlocked v id).
  - intros op p Hp. apply (pending_ok_mono v); [|by apply (P op)]. intros k Hk.
    apply K, elem_of_app; right. by apply (live_pending v op p).
  - done.
Qed.

(** States that differ in the tables only. *)
Lemma tables_ok loose loose' v v' : vault_ok loose v ->
  heap v' = heap v -> next v' = next v -> loose' ++ live v' ≡ₚ loose ++ live v ->
  (forall id e, unlocked v' !! id = Some e -> unlocked v !! id = Some e \/ entry_ok v e) ->
  (forall op p, pending v' !! op = Some p ->
     (op < next_op v')%nat /\ (pending v !! op = Some p \/ pending_ok v p)) ->
  vault_ok loose' v'.
Proof.
  intros [F H N W E P O] Hh Hn Hl Hu Hp. split.
  - rewrite Hh, Hn. done.
  - intros l. rewrite Hl, Hh. apply H.
  - by rewrite Hl.
  - intros l b. rewrite Hh, Hl. apply W.
  - intros id e He. apply (entry_ok_mono v); [by rewrite Hh|].
    destruct (Hu _ _ He) as [Hv|]; [by apply (E id) | done].
  - intros op p He. apply (pending_ok_mono v); [by rewrite Hh|].
    destruct (Hp _ _ He) as [_ [Hv|]]; [by apply (P op) | done].
  - intros op [p He]. by destruct (Hp _ _ He).
Qed.

Lemma settle_ok loose op p v : pending v !! op = Some p -> vault_ok loose v ->
  vault_ok (held p ++ loose) (settle op v).
Proof.
  intros Hp Ok. eapply tables_ok; [exact Ok | done | done | | by left |].
  - rewrite (live_settle v op p Hp). rewrite <- !app_assoc.
    rewrite !app_assoc. f_equiv. apply Permutation_app_comm.
  - intros o q Hq. cbn in Hq. apply lookup_delete_Some in Hq as [_ Hq].
    split; [cbn; apply (vo_ops _ _ Ok); eauto | by left].
Qed.

Lemma pending_put_ok loose op p v : pending v !! op = None -> (op < next_op v)%nat ->
  pending_ok v p -> vault_ok (held p ++ loose) v ->
  vault_ok loose (set_pending (<[op := p]> (pending v)) v).
Proof.
  intros Hn Ho Hp Ok. eapply tables_ok; [exact Ok | done | done | | by left |].
  - rewrite live_pending_insert by done. rewrite !app_assoc. f_equiv. apply Permutation_app_comm.
  - intros o q Hq. cbn in Hq. apply lookup_insert_Some in Hq as [[<- <-]|[_ Hq]].
    + split; [done | by right].
    + split; [apply (vo_ops _ _ Ok); eauto | by left].
Qed.

Lemma suspend_ok loose p v : pending_ok v p -> vault_ok (held p ++ loose) v ->
  vault_ok loose (suspend p v).
Proof.
  intros Hp Ok. assert (Hn : pending v !! next_op v = None).
  { destruct (pending v !! next_op v) eqn:X; [|done].
    pose proof (vo_ops _ _ Ok (next_op v) ltac:(eauto)). lia. }
  eapply tables_ok; [exact Ok | done | done | | by left |].
  - change (live (suspend p v)) with (live (set_pending (<[next_op v := p]> (pending v)) v)).
    rewrite live_pending_insert by done. rewrite !app_assoc. f_equiv. apply Permutation_app_comm.
  - intros o q Hq. cbn in Hq |- *. apply lookup_insert_Some in Hq as [[<- <-]|[_ Hq]].
    + split; [lia | by right].
    + split; [|by left]. pose proof (vo_ops _ _ Ok o ltac:(eauto)). lia.
Qed.

Lemma lock_ok loose id v : vault_ok loose v -> vault_ok loose (lock id v).
Proof.
  intros Ok. unfold lock. destruct (unlocked v !! id) as [e|] eqn:He; [|done].
  change (vault_ok loose (wipe (e_secret e) (set_unlocked (delete id (unlocked v)) v))).
  apply wipe_ok.
  eapply tables_ok; [exact Ok | done | done | | |].
  - rewrite (live_unlocked_delete v id e He). cbn. apply Permutation_middle.
  - intros i f Hf. cbn in Hf. apply lookup_delete_Some in Hf as [_ Hf]. by left.
  - intros o q Hq. split; [apply (vo_ops _ _ Ok); eauto | by left].
Qed.

Lemma lock_heap loose id v l : vault_ok loose v -> l ∈ loose -> heap (lock id v) !! l = heap v !! l.
Proof.
  intros Ok Hl. unfold lock. destruct (unlocked v !! id) as [e|] eqn:He; [|done].
  apply lookup_alter_ne. intros <-. pose proof (vo_apart _ _ Ok) as N.
  apply NoDup_app in N as (_ & N & _). apply (N _ Hl). by apply (live_unlocked v id).
Qed.

Lemma lock_none id v : unlocked (lock id v) !! id = None.
Proof.
  unfold lock. destruct (unlocked v !! id) as [e|] eqn:He; [|done]. apply lookup_delete_eq.
Qed.

Lemma unlock_ok loose id e v : vault_ok (e_secret e :: loose) v -> entry_ok v e ->
  vault_ok loose (unlock id e v).
Proof.
  intros Ok He. pose proof (lock_ok _ id v Ok) as Ok'.
  eapply tables_ok; [exact Ok' | done | done | | |].
  - unfold unlock. rewrite live_unlocked_insert by apply lock_none. cbn. by rewrite Permutation_middle.
  - intros i f Hf. cbn in Hf. apply lookup_insert_Some in Hf as [[<- <-]|[_ Hf]]; [right | by left].
    apply (entry_ok_mono v); [|done]. eapply lock_heap; [exact Ok|]. by apply elem_of_cons; left.
  - intros o q Hq. split; [apply (vo_ops _ _ Ok'); eauto | by left].
Qed.
End memory.

(** *** The steps *)
Section steps.
Context {L : Lib} {KG : KeyGen}.
Context (name : string) (isPublicKeyWrap : bool).

Lemma alloc_lookup b v : heap (alloc b v) !! next v = Some b.
Proof. apply lookup_insert_eq. Qed.

Lemma alloc_content b v : content (alloc b v) (next v) = b.
Proof. unfold content. by rewrite alloc_lookup. Qed.

Lemma alloc_other loose b v l : vault_ok loose v -> l ∈ loose ->
  heap (alloc b v) !! l = heap v !! l.
Proof.
  intros Ok Hl. apply lookup_insert_ne. intros E.
  assert (is_Some (heap v !! l)) as X%(vo_fresh _ _ Ok) by (apply (vo_held _ _ Ok); set_solver). lia.
Qed.

(** A key generated into a new buffer next to its seed. *)
Lemma keygen_alloc loose suite scheme v b kp :
  vault_ok loose v -> signerFor suite = Ok scheme -> keygen (scheme_id scheme) b = Ok kp ->
  let v2 := alloc (secretKey kp) (alloc b v) in
  vault_ok (S (next v) :: next v :: loose) v2 /\ heap v2 !! next v = Some b /\
  secret_at v2 suite b (publicKey kp) (S (next v)).
Proof.
  intros Ok Hs Hk v2. pose proof (alloc_ok _ b v Ok) as Ok1.
  pose proof (alloc_ok _ (secretKey kp) _ Ok1) as Ok2. split_and!; [exact Ok2 | |].
  - unfold v2. rewrite (alloc_other _ _ _ (next v) Ok1) by set_solver. apply alloc_lookup.
  - exists scheme, kp. split_and!; [done..|]. exact (alloc_lookup (secretKey kp) (alloc b v)).
Qed.

Lemma secret_at_heap v v' suite b pk l : heap v' !! l = heap v !! l ->
  secret_at v suite b pk l -> secret_at v' suite b pk l.
Proof. intros E (s & kp & A & B & C & D). exists s, kp. by rewrite E. Qed.

Lemma provision_ok suite id rnd v : vault_ok [] v -> vault_ok [] (provision suite id rnd v).1.
Proof.
  intros Ok. unfold provision. destruct (_ ≫= _) as [[scheme n]|e] eqn:S; [|done].
  apply bind_ok in S as (s & Hs & S). apply bind_ok in S as (m & _ & [= -> ->]).
  rewrite alloc_content. destruct (keygen _ _) as [kp|e] eqn:K; cbn [fst].
  - destruct (keygen_alloc [] suite scheme v (rnd n) kp Ok Hs K) as (Ok2 & Hb & Hk).
    apply suspend_ok; cbn [held pending_ok].
    + split; [done|]. by exists (rnd n).
    + eapply vault_ok_perm; [|exact Ok2]. apply perm_swap.
  - by apply wipe_ok, alloc_ok.
Qed.

Lemma provision_fails_ok loose op seed sk e v p : pending v !! op = Some p -> held p = [seed; sk] ->
  vault_ok loose v -> vault_ok loose (provision_fails op seed sk e v).1.
Proof.
  intros Hp Hh Ok. cbn [provision_fails fst].
  change (vault_ok loose (wipe seed (wipe sk (settle op v)))).
  apply wipe_ok, wipe_ok. eapply vault_ok_perm; [|exact (settle_ok loose op p v Hp Ok)].
  rewrite Hh. apply perm_swap.
Qed.

Lemma provision_wrapped_ok op suite id scheme seed pk sk r v :
  pending v !! op = Some (wrapping suite id scheme seed pk sk) -> vault_ok [] v ->
  vault_ok [] (provision_wrapped op suite id scheme seed pk sk r v).1.
Proof.
  intros Hp Ok. destruct r as [w|e]; cbn [provision_wrapped fst].
  - assert (E : set_pending (<[op:=verifying suite id scheme seed pk sk w]> (pending v)) v =
      set_pending (<[op:=verifying suite id scheme seed pk sk w]> (pending (settle op v))) (settle op v)).
    { unfold set_pending, settle. cbn. by rewrite insert_delete_eq. }
    rewrite E. apply pending_put_ok.
    + cbn. apply lookup_delete_eq.
    + cbn. apply (vo_ops _ _ Ok). eauto.
    + apply (pending_ok_mono v); [done|]. by apply (vo_pending _ _ Ok) in Hp.
    + by apply (settle_ok [] op _ v Hp).
  - by eapply provision_fails_ok.
Qed.

Lemma settle_lock op id v : settle op (lock id v) = lock id (settle op v).
Proof. unfold lock, settle. cbn. by destruct (unlocked v !! id). Qed.

Lemma settle_unlock op id e v : settle op (unlock id e v) = unlock id e (settle op v).
Proof. unfold unlock. rewrite <- settle_lock. done. Qed.

Lemma provision_checked_ok op suite id scheme seed pk sk w r v :
  pending v !! op = Some (verifying suite id scheme seed pk sk w) -> vault_ok [] v ->
  vault_ok [] (provision_checked name op suite id scheme seed pk sk w r v).1.
Proof.
  intros Hp Ok. destruct r as [b|e]; cbn [provision_checked fst]; [|by eapply provision_fails_ok].
  pose proof (wipe_ok _ _ _ (alloc_ok _ b v Ok)) as Ok2.
  destruct (constantTimeEqual _ _); cbn [negb fst]; [|by eapply provision_fails_ok].
  change (vault_ok [] (wipe seed (settle op (unlock id
    {| e_suite := suite; e_public := pk; e_secret := sk |} (wipe (next v) (alloc b v)))))).
  rewrite settle_unlock. apply wipe_ok. set (v2 := wipe (next v) (alloc b v)) in *.
  pose proof (vo_pending _ _ Ok2 op _ Hp) as (Hs & sd & _ & Hk).
  apply unlock_ok; [|by exists sd]. eapply vault_ok_perm; [|exact (settle_ok [] op _ v2 Hp Ok2)].
  apply perm_swap.
Qed.

Lemma load_ok sealed trusted v : vault_ok [] v -> vault_ok [] (load sealed trusted v).1.
Proof.
  intros Ok. unfold load. destruct (signerFor _) as [scheme|e] eqn:S; [|done].
  case_bool_decide as Hs; cbn [negb fst]; [|done]. by apply suspend_ok.
Qed.

Lemma load_unwrapped_ok op sealed scheme trusted r v :
  pending v !! op = Some (unwrapping sealed scheme trusted) -> vault_ok [] v ->
  vault_ok [] (load_unwrapped name isPublicKeyWrap op sealed scheme trusted r v).1.
Proof.
  intros Hp Ok. destruct (vo_pending _ _ Ok op _ Hp) as [Hs _].
  pose proof (settle_ok [] op _ v Hp Ok) as Ok'. cbn [held app] in Ok'.
  destruct r as [b|e]; cbn [load_unwrapped fst]; [|done].
  rewrite alloc_content. destruct (keygen _ _) as [kp|e] eqn:K; cbn [fst].
  2: { change (vault_ok [] (wipe (next v) (alloc b (settle op v)))). exact (wipe_ok _ _ _ (alloc_ok _ b _ Ok')). }
  destruct (keygen_alloc [] _ scheme (settle op v) b kp Ok' Hs K) as (Ok2 & Hb & Hk).
  destruct (load_error _ _ _ _ _); cbn [fst].
  - change (vault_ok [] (wipe (next v) (wipe (S (next v))
      (alloc (secretKey kp) (alloc b (settle op v)))))). exact (wipe_ok _ _ _ (wipe_ok _ _ _ Ok2)).
  - change (vault_ok [] (wipe (next v) (settle op (unlock (sl_id sealed)
      {| e_suite := sl_suite sealed; e_public := publicKey kp; e_secret := S (next v) |}
      (alloc (secretKey kp) (alloc b v)))))).
    rewrite settle_unlock. apply wipe_ok, unlock_ok; [exact Ok2 | by exists b].
Qed.

Lemma step_ok ev v : vault_ok [] v -> vault_ok [] (step name isPublicKeyWrap v ev).
Proof.
  intros Ok. destruct ev as [suite id rnd|sealed trusted|op r|id]; cbn [step].
  - by apply provision_ok.
  - by apply load_ok.
  - unfold resume. destruct (pending v !! op) as [[]|] eqn:Hp; [| | |done].
    + by apply provision_wrapped_ok.
    + by apply provision_checked_ok.
    + by apply load_unwrapped_ok.
  - by apply lock_ok.
Qed.

Lemma run_ok evs : vault_ok [] (run name isPublicKeyWrap evs).
Proof.
  unfold run. assert (vault_ok [] new_vault) as Ok.
  { split; cbn; try done.
    - intros l [b Hb]. by rewrite lookup_empty in Hb.
    - intros l Hl. by apply elem_of_nil in Hl.
    - constructor.
    - intros op [p Hp]. by rewrite lookup_empty in Hp. }
  revert Ok. generalize new_vault. induction evs as [|ev evs IH]; intros v Ok; cbn; [done|].
  by apply IH, step_ok.
Qed.
End steps.

(** ** Texts with length-prefixed fields *)
Section fields.
Lemma pretty_nat_free (n : nat) : free_of ":" (pretty n).
Proof. change (pretty n) with (pretty (N.of_nat n)). apply pretty_N_free. no_digit. Qed.

Lemma aad_field_inj s t r r' : (aad_field s +:+ r = aad_field t +:+ r')%string -> s = t /\ r = r'.
Proof.
  unfold aad_field. rewrite !app_str_assoc. cbn. intros E.
  apply until_char in E as [E1 E2]; [|apply pretty_nat_free..].
  apply (inj pretty) in E1. by apply same_length_app.
Qed.
End fields.

(** ** What loading and provisioning do *)
Section spec.
Context {L : Lib} {KG : KeyGen}.
Context (name : string) (isPublicKeyWrap : bool).

Lemma load_error_none sealed trusted pk :
  load_error name isPublicKeyWrap sealed trusted pk = None <->
  pk = sl_publicKey sealed /\ (isPublicKeyWrap = true -> trusted <> None) /\
  forall t, trusted = Some t -> t = pk.
Proof.
  unfold load_error. destruct (constantTimeEqual pk (sl_publicKey sealed)) eqn:E; cbn [negb].
  2: { split; [done|]. intros [-> _]. by rewrite constantTimeEqual_refl in E. }
  apply constantTimeEqual_true in E. destruct trusted as [t|].
  - rewrite bool_decide_false, andb_false_r by done.
    destruct (constantTimeEqual pk t) eqn:T; cbn [negb].
    + apply constantTimeEqual_true in T. split; [|done]. intros _. split_and!; [done | done |].
      by intros ? [= <-].
    + split; [done|]. intros (_ & _ & H). rewrite (H t eq_refl) in T. by rewrite constantTimeEqual_refl in T.
  - rewrite bool_decide_true, andb_true_r by done. destruct isPublicKeyWrap.
    + split; [done|]. intros (_ & H & _). by destruct H.
    + split; [|done]. intros _. by split_and!.
Qed.

(** What makes an answer of the backend acceptable to [load]. *)
Definition acceptable (sealed : SealedKey) (scheme : SignatureScheme) (trusted : option bytes)
    (r : res bytes) (kp : KeyPair) : Prop :=
  exists b, r = Ok b /\ keygen (scheme_id scheme) b = Ok kp /\
    publicKey kp = sl_publicKey sealed /\ (isPublicKeyWrap = true -> trusted <> None) /\
    forall t, trusted = Some t -> t = publicKey kp.

Lemma lock_unlocked id i v : i <> id -> unlocked (lock id v) !! i = unlocked v !! i.
Proof.
  intros H. unfold lock. destruct (unlocked v !! id); [|done]. by apply lookup_delete_ne.
Qed.

Lemma load_unwrapped_spec op sealed scheme trusted r v v' out : vault_ok [] v ->
  load_unwrapped name isPublicKeyWrap op sealed scheme trusted r v = (v', out) ->
  (exists kp e, acceptable sealed scheme trusted r kp /\
     out = loaded (Ok {| ref_provider := name; ref_id := sl_id sealed |}) /\
     unlocked v' !! sl_id sealed = Some e /\ e_suite e = sl_suite sealed /\
     e_public e = publicKey kp /\ content v' (e_secret e) = secretKey kp /\
     forall i, i <> sl_id sealed -> unlocked v' !! i = unlocked v !! i) \/
  ((forall kp, ~ acceptable sealed scheme trusted r kp) /\
   (exists e, out = loaded (Throw e)) /\ unlocked v' = unlocked v).
Proof.
  intros Ok E. destruct r as [b|e]; cbn [load_unwrapped] in E.
  2: { injection E as <- <-. right. split_and!; [|eauto|done]. by intros kp (? & ? & _). }
  rewrite alloc_content in E. destruct (keygen _ b) as [kp|e] eqn:K.
  2: { injection E as <- <-. right. split_and!; [|eauto|done].
       intros kp (c & [= <-] & K' & _). congruence. }
  destruct (load_error _ _ _ _ _) as [e|] eqn:Err; injection E as <- <-.
  - right. split_and!; [|eauto|done]. intros kp' (c & [= <-] & K' & H).
    rewrite K in K'. injection K' as ->. apply load_error_none in H. congruence.
  - left. apply load_error_none in Err as (Hp & Hw & Ht).
    pose proof (alloc_ok _ (secretKey kp) _ (alloc_ok _ b v Ok)) as Ok2. cbn in Ok2.
    set (v2 := alloc (secretKey kp) (alloc b v)) in *.
    eexists kp, _. split_and!; [by exists b | done | apply lookup_insert_eq | done | done | |].
    + unfold content. cbn [e_secret heap settle set_pending wipe unlock set_unlocked].
      rewrite lookup_alter_ne by lia. rewrite (lock_heap _ _ _ _ Ok2) by set_solver.
      unfold v2, alloc. cbn. by rewrite lookup_insert_eq.
    + intros i Hi. cbn [unlocked settle set_pending wipe unlock set_unlocked].
      rewrite lookup_insert_ne by done. by rewrite lock_unlocked.
Qed.

(** *** One operation with nothing in between, on a given backend *)
Class Sealer := { wrap : bytes -> bytes -> res bytes; unwrap : bytes -> bytes -> res bytes }.

(** An authenticated backend refuses other associated data. *)
Class AeadSealer {S : Sealer} := {
  unwrap_aad : forall s a w s' a', wrap s a = Ok w -> unwrap w a' = Ok s' -> a' = a }.

Context {S : Sealer}.

Definition answer (c : sealer_call) : res bytes :=
  match c with call_wrap s a => wrap s a | call_unwrap w a => unwrap w a end.

Fixpoint drive (fuel : nat) (x : Vault * outcome) : Vault * outcome :=
  match fuel, x.2 with
  | Datatypes.S fuel', waits op c => drive fuel' (resume name isPublicKeyWrap op (answer c) x.1)
  | _, _ => x
  end.

Definition provision_now (suite id : string) (rnd : num -> bytes) (v : Vault) : Vault * outcome :=
  drive 2 (provision suite id rnd v).
Definition load_now (sealed : SealedKey) (trusted : option bytes) (v : Vault) : Vault * outcome :=
  drive 1 (load sealed trusted v).

Lemma drive_waits n v op c :
  drive (Datatypes.S n) (v, waits op c) = drive n (resume name isPublicKeyWrap op (answer c) v).
Proof. done. Qed.

Lemma drive_done n v r : drive n (v, provisioned r) = (v, provisioned r).
Proof. by destruct n. Qed.

(** What a successful provisioning has established. *)
Lemma provision_now_ok suite id rnd v v' ref pk sealed : vault_ok [] v ->
  provision_now suite id rnd v = (v', provisioned (Ok (ref, pk, sealed))) ->
  exists scheme seed kp, signerFor suite = Ok scheme /\ keygen (scheme_id scheme) seed = Ok kp /\
    pk = publicKey kp /\ ref = {| ref_provider := name; ref_id := id |} /\
    sl_id sealed = id /\ sl_suite sealed = suite /\ sl_sigId sealed = scheme_id scheme /\
    sl_publicKey sealed = pk /\
    wrap seed (sealedKeyAad id suite (scheme_id scheme)) = Ok (wrappedSeed sealed) /\
    unwrap (wrappedSeed sealed) (sealedKeyAad id suite (scheme_id scheme)) = Ok seed.
Proof.
  intros Ok. unfold provision_now, provision.
  destruct (_ ≫= _) as [[scheme n]|e] eqn:Sg; [|done].
  apply bind_ok in Sg as (s & Hs & Sg). apply bind_ok in Sg as (m & _ & [= -> ->]).
  rewrite alloc_content. destruct (keygen _ _) as [kp|e] eqn:K; [|done].
  set (v2 := alloc (secretKey kp) (alloc (rnd n) v)).
  assert (Hsd : heap v2 !! next v = Some (rnd n)).
  { unfold v2. rewrite (alloc_other [next v]) by (by apply (alloc_ok []) || set_solver).
    apply alloc_lookup. }
  assert (content v2 (next v) = rnd n) as -> by (unfold content; by rewrite Hsd).
  rewrite drive_waits. unfold resume at 1. cbn [pending suspend]. rewrite lookup_insert_eq.
  cbn [answer]. destruct (wrap _ _) as [w|e] eqn:W; cbn [provision_wrapped provision_fails];
    [|by (rewrite drive_done || cbn [drive snd fst])].
  rewrite drive_waits. unfold resume. cbn [pending set_pending]. rewrite lookup_insert_eq.
  cbn [answer]. destruct (unwrap w _) as [b|e] eqn:U; cbn [provision_checked provision_fails];
    [|by (rewrite drive_done || cbn [drive snd fst])].
  set (v3 := set_pending _ _).
  assert (content (alloc b v3) (next v) = rnd n) as ->.
  { unfold content. cbn [heap alloc next v3 set_pending suspend].
    rewrite lookup_insert_ne by (unfold v2; cbn; lia). by rewrite Hsd. }
  rewrite alloc_content. destruct (constantTimeEqual b (rnd n)) eqn:C; cbn [negb];
    [|by (rewrite drive_done || cbn [drive snd fst])].
  rewrite drive_done. apply constantTimeEqual_true in C as ->. intros [= <- <- <- <-].
  exists scheme, (rnd n), kp. by split_and!.
Qed.

(** [load] with the answer of the backend. *)
Lemma load_now_spec sealed trusted v v' out : vault_ok [] v ->
  load_now sealed trusted v = (v', out) ->
  (exists scheme kp e, signerFor (sl_suite sealed) = Ok scheme /\ sl_sigId sealed = scheme_id scheme /\
     acceptable sealed scheme trusted
       (unwrap (wrappedSeed sealed) (sealedKeyAad (sl_id sealed) (sl_suite sealed) (sl_sigId sealed))) kp /\
     out = loaded (Ok {| ref_provider := name; ref_id := sl_id sealed |}) /\
     unlocked v' !! sl_id sealed = Some e /\ e_suite e = sl_suite sealed /\
     e_public e = publicKey kp /\ content v' (e_secret e) = secretKey kp) \/
  ((exists e, out = loaded (Throw e)) /\
   forall scheme kp, signerFor (sl_suite sealed) = Ok scheme -> sl_sigId sealed = scheme_id scheme ->
     ~ acceptable sealed scheme trusted
       (unwrap (wrappedSeed sealed) (sealedKeyAad (sl_id sealed) (sl_suite sealed) (sl_sigId sealed))) kp).
Proof.
  intros Ok. unfold load_now, load. destruct (signerFor _) as [scheme|e] eqn:Sg.
  2: { intros [= <- <-]. right. split; [eauto | done]. }
  case_bool_decide as Hs; cbn [negb].
  2: { intros [= <- <-]. right. split; [eauto|]. intros ? kp [= <-]. done. }
  rewrite drive_waits. unfold resume. cbn [pending suspend drive]. rewrite lookup_insert_eq.
  cbn [answer]. intros E. apply load_unwrapped_spec in E as [(kp & e & A & -> & H1 & H2 & H3 & H4 & _)|(A & Ho & _)].
  - left. by exists scheme, kp, e.
  - right. split; [done|]. intros ? kp [= <-] _. apply A.
  - pose proof (load_ok sealed trusted v Ok) as H. unfold load in H. rewrite Sg in H.
    by rewrite bool_decide_true in H.
Qed.
End spec.

(** ** Properties *)
Section properties.
Context {L : Lib} {KG : KeyGen}.
Context (name : string) (isPublicKeyWrap : bool).

(** The buffers of distinct operations, and those of keys and operations, are
    distinct; so are the two of one operation. *)
Lemma buffers_apart v : NoDup (live v) ->
  (forall i j e f, unlocked v !! i = Some e -> unlocked v !! j = Some f ->
     e_secret e = e_secret f -> i = j) /\
  (forall i e op p, unlocked v !! i = Some e -> pending v !! op = Some p -> e_secret e ∉ held p) /\
  (forall op op' p q l, pending v !! op = Some p -> pending v !! op' = Some q ->
     l ∈ held p -> l ∈ held q -> op = op') /\
  (forall op p, pending v !! op = Some p -> NoDup (held p)).
Proof.
  intros N. split_and!.
  - intros i j e f He Hf E. destruct (base.decide (i = j)) as [|Hij]; [done|].
    rewrite (live_unlocked_delete v i e He) in N.
    apply NoDup_cons in N as [N _]. destruct N. rewrite E. apply (live_unlocked _ j).
    cbn. by rewrite lookup_delete_ne.
  - intros i e op p He Hp I. rewrite (live_unlocked_delete v i e He) in N.
    apply NoDup_cons in N as [N _]. destruct N. by apply (live_pending _ op p).
  - intros op op' p q l Hp Hq Ip Iq. destruct (base.decide (op = op')) as [|D]; [done|].
    rewrite (live_settle v op p Hp) in N. apply NoDup_app in N as (_ & N & _).
    destruct (N l Ip). apply (live_pending _ op' q); [|done]. cbn. by rewrite lookup_delete_ne.
  - intros op p Hp. rewrite (live_settle v op p Hp) in N. by apply NoDup_app in N as (N & _).
Qed.

(** C14: Custody.  After any interleaving of calls and backend answers, failures
    included: every buffer that held a secret and that no unlocked key and no
    operation in flight still needs holds only zeros; an unlocked key's buffer
    holds exactly the secret key of its public key, and a provisioning in flight
    still has its seed and the secret key made from it, so no overlapping
    operation wiped or replaced them; no two keys, no key and operation, and no
    two operations in flight share a buffer, and an operation's own are distinct;
    and when nothing is in flight and everything is locked, no secret is left at
    all. *)
Theorem custody evs : let v := run name isPublicKeyWrap evs in
  (forall l b, heap v !! l = Some b -> b = zeros b \/
     (exists id e, unlocked v !! id = Some e /\ e_secret e = l) \/
     exists op p, pending v !! op = Some p /\ l ∈ held p) /\
  (forall id e, unlocked v !! id = Some e ->
     exists seed, secret_at v (e_suite e) seed (e_public e) (e_secret e)) /\
  (forall op p, pending v !! op = Some p -> pending_ok v p) /\
  (forall i j e f, unlocked v !! i = Some e -> unlocked v !! j = Some f ->
     e_secret e = e_secret f -> i = j) /\
  (forall i e op p, unlocked v !! i = Some e -> pending v !! op = Some p -> e_secret e ∉ held p) /\
  (forall op op' p q l, pending v !! op = Some p -> pending v !! op' = Some q ->
     l ∈ held p -> l ∈ held q -> op = op') /\
  (forall op p, pending v !! op = Some p -> NoDup (held p)) /\
  (unlocked v = ∅ -> pending v = ∅ -> forall l b, heap v !! l = Some b -> b = zeros b).
Proof.
  intros v. pose proof (run_ok name isPublicKeyWrap evs) as Ok. fold v in Ok.
  assert (W : forall l b, heap v !! l = Some b -> b = zeros b \/
     (exists id e, unlocked v !! id = Some e /\ e_secret e = l) \/
     exists op p, pending v !! op = Some p /\ l ∈ held p).
  { intros l b Hb. destruct (base.decide (l ∈ live v)) as [Hl|Hl]; [right | left; by apply (vo_wiped _ _ Ok l)].
    unfold live in Hl. apply elem_of_app in Hl as [Hl|Hl].
    - apply list_elem_of_fmap in Hl as ([id e] & -> & He%elem_of_map_to_list). left. by exists id, e.
    - apply list_elem_of_In, in_concat in Hl as (k & Hk & Hl). apply in_map_iff in Hk as ([op p] & <- & Hp).
      right. exists op, p. by rewrite <- elem_of_map_to_list, list_elem_of_In, list_elem_of_In. }
  destruct (buffers_apart v (vo_apart _ _ Ok)) as (A1 & A2 & A3 & A4).
  split_and!; [done | apply (vo_entries _ _ Ok) | apply (vo_pending _ _ Ok) | done.. |].
  - intros U P l b Hb. destruct (W l b Hb) as [|[(id & e & He & _)|(op & p & Hp & _)]]; [done | |].
    + by rewrite U, lookup_empty in He.
    + by rewrite P, lookup_empty in Hp.
Qed.

(** What loading accepts.  Whatever else is in flight, the answer of the
    backend unlocks the sealed key exactly when it is a seed from which the
    blob's public key is derived again, a trusted public key was given if the
    backend wraps with a public key, and the derived key is the trusted one if
    one was given; then the unlocked key is the derived one, under the blob's id
    and suite, and no other key changes.  Otherwise the promise is rejected and
    the unlocked keys are what they were. *)
Theorem load_accepts evs op sealed scheme trusted r v v' out :
  v = run name isPublicKeyWrap evs -> pending v !! op = Some (unwrapping sealed scheme trusted) ->
  resume name isPublicKeyWrap op r v = (v', out) ->
  signerFor (sl_suite sealed) = Ok scheme /\ sl_sigId sealed = scheme_id scheme /\
  ((exists kp e, acceptable isPublicKeyWrap sealed scheme trusted r kp /\
      out = loaded (Ok {| ref_provider := name; ref_id := sl_id sealed |}) /\
      unlocked v' !! sl_id sealed = Some e /\ e_suite e = sl_suite sealed /\
      e_public e = publicKey kp /\ content v' (e_secret e) = secretKey kp /\
      forall i, i <> sl_id sealed -> unlocked v' !! i = unlocked v !! i) \/
   ((forall kp, ~ acceptable isPublicKeyWrap sealed scheme trusted r kp) /\
    (exists e, out = loaded (Throw e)) /\ unlocked v' = unlocked v)).
Proof.
  intros -> Hp E. pose proof (run_ok name isPublicKeyWrap evs) as Ok.
  destruct (vo_pending _ _ Ok op _ Hp) as [A B]. split_and!; [done | done |].
  unfold resume in E. rewrite Hp in E. by apply (load_unwrapped_spec name isPublicKeyWrap op).
Qed.

(** The associated data of a sealed blob identifies its id, suite and signature
    scheme: the fields are prefixed with their lengths. *)
Lemma sealedKeyAad_inj id suite sigId id' suite' sigId' :
  sealedKeyAad id suite sigId = sealedKeyAad id' suite' sigId' ->
  id = id' /\ suite = suite' /\ sigId = sigId'.
Proof.
  unfold sealedKeyAad. intros E%utf8_inj. apply same_length_app in E as [_ E]; [|done].
  apply aad_field_inj in E as [-> E]. apply same_length_app in E as [_ E]; [|done].
  apply aad_field_inj in E as [-> E]. apply same_length_app in E as [_ E]; [|done].
  rewrite <- (append_nil_r (aad_field sigId)), <- (append_nil_r (aad_field sigId')) in E.
  by apply aad_field_inj in E as [-> _].
Qed.

Context {S : Sealer}.

(** C18: A sealed key can be used.  What a provisioning that succeeded returns
    loads in any process of the provider, in any state it may be in, with its
    public key as the trusted one; the unlocked key has that public key, and
    what it signs verifies under it. *)
Theorem sealed_key_usable `{!SigLaws L kpr} `{!KeyGenLaws kpr} evs suite id rnd v1 ref pk sealed evs' :
  suite ∈ activeSuiteIds ->
  provision_now name isPublicKeyWrap suite id rnd (run name isPublicKeyWrap evs) =
    (v1, provisioned (Ok (ref, pk, sealed))) ->
  exists v2, load_now name isPublicKeyWrap sealed (Some pk) (run name isPublicKeyWrap evs') =
      (v2, loaded (Ok ref)) /\
    seal_getPublicKey v2 ref = Ok pk /\
    forall m s, seal_sign v2 ref suite m = Ok s -> suite_verify suite s m pk = Ok true.
Proof.
  intros A P. apply (provision_now_ok name isPublicKeyWrap) in P
    as (scheme & seed & kp & Hs & Hk & -> & -> & <- & <- & Hi & Hpk & _ & U); [|apply run_ok].
  destruct (load_now _ _ _ _ _) as [v2 out] eqn:E. exists v2.
  assert (Ac : acceptable isPublicKeyWrap sealed scheme (Some (publicKey kp))
    (unwrap (wrappedSeed sealed) (sealedKeyAad (sl_id sealed) (sl_suite sealed) (sl_sigId sealed))) kp).
  { exists seed. rewrite Hi. split_and!; try done. by intros t [= <-]. }
  apply load_now_spec in E as [(sc & kp' & e & Hs' & _ & (b & Ub & Kb & _) & -> & Hu & He & Hp & Hc)|(_ & N)];
    [| by destruct (N scheme kp Hs Hi) | apply run_ok].
  rewrite Hs' in Hs. injection Hs as ->. rewrite <- Hi, Ub in U. injection U as ->.
  rewrite Kb in Hk. injection Hk as ->. split_and!; [done | |].
  - unfold seal_getPublicKey, require. cbn [ref_id]. rewrite Hu. cbn. by rewrite Hp.
  - intros m s. unfold seal_sign, require. cbn [ref_id]. rewrite Hu. cbn [mbind res_bind].
    rewrite He, bool_decide_true, Hc by done. cbn [negb]. intros Sg.
    eapply (suite_sign_verify (kpr := kpr)); [exact A | by eapply keygen_pair | exact Sg].
Qed.

(** A relabelled blob does not load.  On a backend that authenticates the
    associated data, a blob that carries the wrapped seed of a provisioned key
    loads only under the id, the suite and the scheme that key was provisioned
    with, and only with its public key. *)
Theorem relabelled_blob_rejected `{!AeadSealer} evs suite id rnd v1 ref pk sealed evs' sealed' t v2 ref' :
  provision_now name isPublicKeyWrap suite id rnd (run name isPublicKeyWrap evs) =
    (v1, provisioned (Ok (ref, pk, sealed))) ->
  wrappedSeed sealed' = wrappedSeed sealed ->
  load_now name isPublicKeyWrap sealed' t (run name isPublicKeyWrap evs') = (v2, loaded (Ok ref')) ->
  sealed' = sealed /\ ref' = ref.
Proof.
  intros P W E. apply (provision_now_ok name isPublicKeyWrap) in P
    as (scheme & seed & kp & Hs & Hk & -> & -> & <- & <- & Hi & Hpk & Wr & U); [|apply run_ok].
  apply load_now_spec in E as [(sc & kp' & e & Hs' & Hi' & (b & Ub & Kb & Hp & _) & [= ->] & _)|((x & [=]) & _)];
    [|apply run_ok].
  rewrite W in Ub. pose proof (unwrap_aad _ _ _ _ _ Wr Ub) as Eq.
  apply sealedKeyAad_inj in Eq as (E1 & E2 & E3).
  rewrite E1, E2, E3, U in Ub. injection Ub as ->.
  rewrite E2 in Hs'. rewrite Hs' in Hs. injection Hs as ->. rewrite Kb in Hk. injection Hk as ->.
  split; [|by rewrite E1]. destruct sealed, sealed'; cbn in *. congruence.
Qed.
End properties.

(** ** Envelopes signed behind a provider *)
Section envelopes.
Context {L : Lib} {KG : KeyGen}.

(** What the envelope helper relies on: under [ref], the provider signs with
    the secret of the public key it gives. *)
Class Signs (p : KeyProvider) (ref : KeyRef) (suite : string) (pk : bytes) : Prop := {
  signs_key : prov_getPublicKey p ref = Ok pk;
  signs_ok : forall m s, prov_sign p ref suite m = Ok s -> suite_verify suite s m pk = Ok true }.

(** Envelopes signed behind any provider, directly or through the registry,
    verify under the public key the provider gives for the reference, in the
    suite and context they were made for. *)
Theorem provider_envelope_verifies p ref suite pk payload context env allowed :
  Signs p ref suite pk ->
  (forall ss, allowed = Some ss -> suite ∈ ss) ->
  signEnvelopeViaProvider payload suite p ref context = Ok env ->
  env_context env = context /\ verifyEnvelope env pk allowed = true.
Proof.
  intros [_ Hs] Ha E. unfold signEnvelopeViaProvider, signEnvelopeWith in E.
  apply bind_ok in E as (b & Eb & E). apply bind_ok in E as (tbs & Et & E).
  apply bind_ok in E as (sg & Es & E). apply Ok_inj in E as <-. split; [done|].
  unfold verifyEnvelope. cbn [env_suite env_context env_payload env_sig].
  assert (match allowed with Some ss => negb (includes ss suite) | None => false end = false) as ->.
  { destruct allowed as [ss|]; [|done]. by rewrite (proj2 (includes_spec ss suite) (Ha ss eq_refl)). }
  apply try_catch_true. apply Hs in Es. unfold suite_verify in Es.
  apply bind_ok in Es as (signer & -> & Es). cbn [mbind res_bind]. rewrite Et. done.
Qed.
End envelopes.

(** The two providers, and the registry over them, keep the promise. *)
Section instances.
Context {L : Lib} {KG : KeyGen} `{!SigLaws L kpr}.

Lemma software_signs keys ref suite kp : suite ∈ activeSuiteIds -> keys !! ref_id ref = Some kp ->
  kpr (publicKey kp) (secretKey kp) -> Signs (software keys) ref suite (publicKey kp).
Proof.
  intros A Hk Hp. split; cbn; unfold sw_getPublicKey, sw_sign, sw_require; rewrite Hk; [done|].
  intros m s E. by eapply (suite_sign_verify (kpr := kpr)).
Qed.

Lemma sealing_signs `{!KeyGenLaws kpr} name w evs ref e : e_suite e ∈ activeSuiteIds ->
  unlocked (run name w evs) !! ref_id ref = Some e ->
  Signs (sealing name (run name w evs)) ref (e_suite e) (e_public e).
Proof.
  intros A He. destruct (vo_entries _ _ (run_ok name w evs) _ _ He) as (seed & s & kp & Hs & Hk & Hp & Hh).
  split; cbn; unfold seal_getPublicKey, seal_sign, require; rewrite He; [done|].
  cbn [mbind res_bind]. rewrite bool_decide_true by done. unfold content. rewrite Hh. cbn [negb default].
  intros m sg E. rewrite <- Hp. eapply (suite_sign_verify (kpr := kpr)); [exact A | by eapply keygen_pair | exact E].
Qed.

Lemma registry_signs reg p ref suite pk : reg !! ref_provider ref = Some p -> Signs p ref suite pk ->
  Signs {| prov_name := "registry"; prov_getPublicKey := reg_getPublicKey reg; prov_sign := reg_sign reg |}
    ref suite pk.
Proof.
  intros Hr []. split; cbn; unfold reg_getPublicKey, reg_sign, resolve_provider; by rewrite Hr.
Qed.
End instances.

(** ** Runs on the concrete library *)
#[export] Instance toy_keygen : KeyGen := {|
  keygen := fun _ seed => Ok {| publicKey := seed; secretKey := seed |};
  seed_length := fun id => if bool_decide (id = "ML-DSA-87") then Some (Int 32) else None |}.

#[export] Instance toy_keygen_laws : KeyGenLaws eq.
Proof. by split; intros id seed kp [= <-]. Qed.

(** A backend that keeps the associated data next to the seed. *)
#[export] Instance toy_sealer : Sealer := {|
  wrap := fun s a => cbor_encode (VArr [VBytes a; VBytes s]);
  unwrap := fun w a =>
    match cbor_decode w with
    | Ok (VArr [VBytes b; VBytes s]) => if bool_decide (b = a) then Ok s else Throw "AccessDenied"
    | _ => Throw "InvalidCiphertext"
    end |}.

#[export] Instance toy_aead : AeadSealer.
Proof.
  split. intros s a w s' a' W U. cbn [wrap unwrap toy_sealer] in W, U.
  apply concrete_encode_ok, concrete_decode_ser in W. change (concrete_decode w) with (cbor_decode w) in W.
  rewrite W in U. cbn in U. by case_bool_decide.
Qed.

Definition toy_rnd (x : byte) : num -> bytes := fun n => repeat x (Z.to_nat (num_Z n)).
Definition no_sealed : SealedKey :=
  {| sl_id := ""; sl_suite := ""; sl_sigId := ""; wrappedSeed := []; sl_publicKey := [] |}.
Definition sealed_of (x : Vault * outcome) : SealedKey :=
  match x.2 with provisioned (Ok (_, _, s)) => s | _ => no_sealed end.
Definition toy_provisioned : Vault * outcome :=
  Eval vm_compute in provision_now "kms" true PS_5 "issuer" (toy_rnd x07) new_vault.
Definition toy_sealed : SealedKey := Eval vm_compute in sealed_of toy_provisioned.
Definition toy_ref : KeyRef := {| ref_provider := "kms"; ref_id := "issuer" |}.

Lemma toy_provisioned_eq : provision_now "kms" true PS_5 "issuer" (toy_rnd x07) (run "kms" true []) =
  (toy_provisioned.1, provisioned (Ok (toy_ref, sl_publicKey toy_sealed, toy_sealed))).
Proof. vm_compute. reflexivity. Qed.

(** Two provisionings of one id overlap, and a key is loaded in between: the
    keys they supersede are wiped, the last one stays usable. *)
Definition overlapping : list event :=
  [do_provision PS_5 "issuer" (toy_rnd x07); do_provision PS_5 "issuer" (toy_rnd x08);
   do_load toy_sealed (Some (sl_publicKey toy_sealed));
   do_resume 1 (Ok [x01]); do_resume 1 (Ok (toy_rnd x08 (Int 32)));
   do_resume 2 (Ok (toy_rnd x07 (Int 32))); do_resume 0 (Throw "ThrottlingException")].

Example overlapping_run : let v := run "kms" true overlapping in
  pending v = ∅ /\ map fst (map_to_list (unlocked v)) = ["issuer"] /\
  seal_getPublicKey v toy_ref = Ok (sl_publicKey toy_sealed) /\
  seal_sign v toy_ref PS_5 [x55] = Ok (toy_rnd x07 (Int 32) ++ [x00; x55]) /\
  size (filter (fun lb => lb.2 <> zeros lb.2) (heap v)) = 1%nat.
Proof. vm_compute. repeat split; reflexivity. Qed.

(** A blob under another id, a forged blob without a trusted key, a wrong key. *)
Definition relabelled : SealedKey :=
  {| sl_id := "root"; sl_suite := PS_5; sl_sigId := "ML-DSA-87";
     wrappedSeed := wrappedSeed toy_sealed; sl_publicKey := sl_publicKey toy_sealed |}.

Definition loads (x : Vault * outcome) : bool :=
  match x.2 with loaded (Ok _) => true | _ => false end.

Example load_rejections :
  loads (load_now "kms" false relabelled None new_vault) = false /\
  loads (load_now "kms" true toy_sealed None new_vault) = false /\
  loads (load_now "kms" true toy_sealed (Some [x01]) new_vault) = false /\
  loads (load_now "kms" false toy_sealed None new_vault) = true.
Proof. vm_compute. repeat split; reflexivity. Qed.

Lemma load_accepts_witness : exists v' out,
  resume "kms" true 0 (Ok (toy_rnd x07 (Int 32)))
    (run "kms" true [do_load toy_sealed (Some (sl_publicKey toy_sealed))]) = (v', out) /\
  out = loaded (Ok toy_ref) /\
  exists e, unlocked v' !! "issuer" = Some e /\ e_public e = sl_publicKey toy_sealed.
Proof.
  set (v := run "kms" true [do_load toy_sealed (Some (sl_publicKey toy_sealed))]).
  destruct (signerFor PS_5) as [scheme|] eqn:Sg; [|discriminate Sg].
  destruct (resume "kms" true 0 (Ok (toy_rnd x07 (Int 32))) v) as [v' out] eqn:E.
  assert (P : pending v !! 0%nat = Some (unwrapping toy_sealed scheme (Some (sl_publicKey toy_sealed)))).
  { injection Sg as <-. reflexivity. }
  exists v', out. split; [reflexivity|].
  destruct (load_accepts "kms" true _ 0 toy_sealed scheme _ _ v v' out eq_refl P E)
    as (_ & _ & [(kp & e & (b & _ & _ & H1 & _) & H2 & H3 & _ & H4 & _)|(N & _)]).
  - split; [exact H2|]. exists e. split; [exact H3|]. by rewrite H4.
  - destruct (N {| publicKey := sl_publicKey toy_sealed; secretKey := sl_publicKey toy_sealed |}).
    exists (toy_rnd x07 (Int 32)). split; [reflexivity|]. split; [reflexivity|].
    split; [reflexivity|]. split; [discriminate|]. by intros t [= <-].
Defined.

Lemma sealed_key_usable_witness : exists v2,
  load_now "kms" true toy_sealed (Some (sl_publicKey toy_sealed)) (run "kms" true overlapping) =
    (v2, loaded (Ok toy_ref)) /\
  seal_getPublicKey v2 toy_ref = Ok (sl_publicKey toy_sealed) /\
  forall m s, seal_sign v2 toy_ref PS_5 m = Ok s -> suite_verify PS_5 s m (sl_publicKey toy_sealed) = Ok true.
Proof.
  apply (sealed_key_usable "kms" true (kpr := eq) [] PS_5 "issuer" (toy_rnd x07) toy_provisioned.1).
  - rewrite activeSuiteIds_eq. by apply elem_of_cons; left.
  - exact toy_provisioned_eq.
Defined.

Lemma relabelled_blob_rejected_witness : exists v2,
  load_now "kms" true toy_sealed (Some (sl_publicKey toy_sealed)) (run "kms" true []) =
    (v2, loaded (Ok toy_ref)) /\ toy_sealed = toy_sealed /\ toy_ref = toy_ref.
Proof.
  destruct (load_now "kms" true toy_sealed (Some (sl_publicKey toy_sealed)) (run "kms" true []))
    as [v2 out] eqn:E.
  assert (out = loaded (Ok toy_ref)) as -> by (apply (f_equal snd) in E; vm_compute in E; by rewrite <- E).
  exists v2. split; [done|].
  exact (relabelled_blob_rejected "kms" true [] PS_5 "issuer" (toy_rnd x07) toy_provisioned.1
    toy_ref (sl_publicKey toy_sealed) toy_sealed [] toy_sealed _ v2 toy_ref toy_provisioned_eq eq_refl E).
Defined.

Definition soft_ref : KeyRef := {| ref_provider := "software"; ref_id := "k" |}.

Definition toy_software : KeyProvider :=
  software (importKeyPair ∅ "k" {| publicKey := [x01]; secretKey := [x01] |}).1.

Lemma provider_envelope_verifies_witness : exists env,
  signEnvelopeViaProvider (VStr "payload") PS_5 toy_software soft_ref "ctx" = Ok env /\
  env_context env = "ctx" /\ verifyEnvelope env [x01] (Some [PS_5]) = true.
Proof.
  destruct (signEnvelopeViaProvider _ _ _ _ _) as [env|] eqn:E; [|vm_compute in E; discriminate E].
  exists env. split; [reflexivity|].
  apply (provider_envelope_verifies toy_software soft_ref PS_5 [x01] (VStr "payload") "ctx" env (Some [PS_5])); [| |exact E].
  - apply (software_signs (kpr := eq) _ soft_ref PS_5 {| publicKey := [x01]; secretKey := [x01] |});
      [rewrite activeSuiteIds_eq; by apply elem_of_cons; left | reflexivity | reflexivity].
  - intros ss [= <-]. by apply elem_of_cons; left.
Defined.

Definition toy_registry : KeyProviderRegistry :=
  register (register ∅ CloudKmsKeyProvider) toy_software.
Example registry_routes :
  reg_getPublicKey toy_registry soft_ref = Ok [x01] /\
  is_ok (reg_getPublicKey toy_registry {| ref_provider := "cloud-kms"; ref_id := "k" |}) = false /\
  is_ok (reg_getPublicKey toy_registry {| ref_provider := "hsm"; ref_id := "k" |}) = false.
Proof. vm_compute. repeat split; reflexivity. Qed.
