(* ===== verification/Custody.v ===== *)
(** * keystore/: custody backends

    src/keystore/src/aws-kms.ts, azure-kv.ts, azure-provider.ts and pkcs11.ts,
    and the accessors of src/ops/src/env.ts: the requests the adapters send and what they make of the responses.  The
    services are a parameter ([fetch]), as are the primitives of @noble/hashes,
    Node's [Buffer] and the URL parser.  An adapter's calls are run one after
    the other. *)
From stdpp Require Import pretty.
From S2P Require Import Prelude JsNum JsVal Crypto Concrete Keystore.
Open Scope string_scope.
Open Scope Z_scope.
Open Scope list_scope.

(** ** Third-party code *)
Record HttpRequest := {
  rq_url : string;
  rq_method : string;
  rq_headers : list (string * string);
  rq_body : option string }.
(** [ok], [status] and what [json()] gives. *)
Record HttpResponse := { rs_ok : bool; rs_status : num; rs_json : res jsval }.

Class Platform := {
  fetch : HttpRequest -> res HttpResponse;
  sha256 : bytes -> bytes;
  hmac_sha256 : bytes -> bytes -> bytes;
  b64Encode : bytes -> string;
  b64Decode : string -> bytes;
  b64uEncode : bytes -> string;
  b64uDecode : string -> bytes;
  (** [new URL(s).host] *)
  url_host : string -> res string;
  (** [Number(s)] of a string *)
  Number_of : string -> num }.

Class PlatformLaws {P : Platform} := {
  b64_roundtrip : forall b, b64Decode (b64Encode b) = b }.

(** ** JSON text of the payloads: nested objects of strings *)
#[local] Unset Elimination Schemes.
Inductive json := JStr (s : string) | JObj (fs : list (string * json)).
#[local] Set Elimination Schemes.

Definition dquote : ascii := ascii_of_nat 34.
Definition newline : ascii := ascii_of_nat 10.
Definition nl : string := String newline EmptyString.

Definition escape_char (c : ascii) : string :=
  let n := nat_of_ascii c in
  let esc d := String "\"%char (String d EmptyString) in
  if (n =? 34)%nat then esc dquote else
  if (n =? 92)%nat then esc "\"%char else
  if (n =? 8)%nat then esc "b"%char else
  if (n =? 9)%nat then esc "t"%char else
  if (n =? 10)%nat then esc "n"%char else
  if (n =? 12)%nat then esc "f"%char else
  if (n =? 13)%nat then esc "r"%char else
  if (n <? 32)%nat then "\u00" +:+ to_hex [byte_of_ascii c]
  else String c EmptyString.
Fixpoint json_escape (s : string) : string :=
  match s with EmptyString => EmptyString | String c s' => escape_char c +:+ json_escape s' end.
Definition json_string (s : string) : string := quoted (json_escape s).

(** [JSON.stringify] *)
Fixpoint json_text (v : json) : string :=
  match v with
  | JStr s => json_string s
  | JObj fs => "{" +:+ join_with "," (map (fun kv => json_string kv.1 +:+ ":" +:+ json_text kv.2) fs) +:+ "}"
  end.

(** [s.replace(/\/+$/, '')] *)
Fixpoint drop_slashes (l : list ascii) : list ascii :=
  match l with c :: l' => if bool_decide (c = "/"%char) then drop_slashes l' else l | [] => [] end.
Definition strip_slashes (s : string) : string :=
  string_of_list_ascii (rev (drop_slashes (rev (list_ascii_of_string s)))).

(** [v[k]] when it is a string *)
Definition str_field (v : jsval) (k : string) : option string :=
  match get v k with Some (VStr s) => Some s | _ => None end.

(** ** aws-kms.ts *)
Section aws.
Context {L : Lib} {P : Platform}.

Definition sha256hex (data : bytes) : string := bytesToHex (sha256 data).
Definition hmacRaw (key : bytes) (msg : string) : bytes := hmac_sha256 key (utf8 msg).

Definition deriveSigningKey (secret dateStamp region service : string) : bytes :=
  let kDate := hmacRaw (utf8 ("AWS4" +:+ secret)) dateStamp in
  let kRegion := hmacRaw kDate region in
  let kService := hmacRaw kRegion service in
  hmacRaw kService "aws4_request".

Record SigV4Input := {
  sv_host : string; sv_region : string; sv_service : string; sv_target : string; sv_body : string;
  sv_accessKeyId : string; sv_secretAccessKey : string; sv_sessionToken : option string;
  sv_amzDate : string }.

(** [if (token)] *)
Definition truthy (o : option string) : option string :=
  match o with Some "" => None | _ => o end.

Definition contentType := "application/x-amz-json-1.1".
Definition dateStamp (input : SigV4Input) : string := str_take 8 (sv_amzDate input).

Definition headerMap (input : SigV4Input) : list (string * string) :=
  [("content-type", contentType); ("host", sv_host input); ("x-amz-date", sv_amzDate input);
   ("x-amz-target", sv_target input)] ++
  match truthy (sv_sessionToken input) with Some t => [("x-amz-security-token", t)] | None => [] end.

(** [headerMap[n] ?? ''] *)
Definition header_value (m : list (string * string)) (n : string) : string :=
  match find (fun kv => bool_decide (kv.1 = n)) m with Some kv => kv.2 | None => "" end.

Definition header_names (input : SigV4Input) : list string :=
  js_sort str_ltb (map fst (headerMap input)).
Definition canonicalHeaders (input : SigV4Input) : string :=
  join_with "" (map (fun n => n +:+ ":" +:+ header_value (headerMap input) n +:+ nl) (header_names input)).
Definition signedHeaders (input : SigV4Input) : string := join_with ";" (header_names input).

Definition canonicalRequest (input : SigV4Input) : string :=
  join_with nl ["POST"; "/"; ""; canonicalHeaders input; signedHeaders input;
                sha256hex (utf8 (sv_body input))].

Definition credential_scope (input : SigV4Input) : string :=
  dateStamp input +:+ "/" +:+ sv_region input +:+ "/" +:+ sv_service input +:+ "/aws4_request".

Definition stringToSign (input : SigV4Input) : string :=
  join_with nl ["AWS4-HMAC-SHA256"; sv_amzDate input; credential_scope input;
                sha256hex (utf8 (canonicalRequest input))].

Definition sigv4_signature (input : SigV4Input) : string :=
  bytesToHex (hmacRaw (deriveSigningKey (sv_secretAccessKey input) (dateStamp input) (sv_region input)
    (sv_service input)) (stringToSign input)).

Definition signedHeadersFor (input : SigV4Input) : list (string * string) :=
  let authorization := "AWS4-HMAC-SHA256 Credential=" +:+ sv_accessKeyId input +:+ "/" +:+
    credential_scope input +:+ ", SignedHeaders=" +:+ signedHeaders input +:+ ", Signature=" +:+
    sigv4_signature input in
  [("content-type", contentType); ("x-amz-date", sv_amzDate input); ("x-amz-target", sv_target input);
   ("authorization", authorization)] ++
  match truthy (sv_sessionToken input) with Some t => [("x-amz-security-token", t)] | None => [] end.

(** [iso.replace(/[:-]|\.\d{3}/g, '')] *)
Definition is_digit (c : ascii) : bool := let n := nat_of_ascii c in ((48 <=? n) && (n <=? 57))%nat.
Fixpoint amz_chars (l : list ascii) : list ascii :=
  match l with
  | [] => []
  | c :: l' =>
      if bool_decide (c = ":"%char) || bool_decide (c = "-"%char) then amz_chars l' else
      match l' with
      | d1 :: d2 :: d3 :: l'' =>
          if bool_decide (c = "."%char) && (is_digit d1 && is_digit d2 && is_digit d3)
          then amz_chars l'' else c :: amz_chars l'
      | _ => c :: amz_chars l'
      end
  end.
Definition amzDate (iso : string) : string :=
  string_of_list_ascii (amz_chars (list_ascii_of_string iso)).

Definition safeAwsError (j : jsval) : string :=
  default "(no __type in response)" (str_field j "__type").

Record AwsKmsConfig := {
  ak_region : string; ak_accessKeyId : string; ak_secretAccessKey : string; ak_keyId : string;
  ak_sessionToken : option string; ak_endpoint : option string }.

(** The sealer's fields besides its clock and [fetch]. *)
Record AwsKmsSealer := { as_config : AwsKmsConfig; as_endpoint : string; as_host : string }.

(** The constructor, where [fetch] is a function. *)
Definition new_AwsKmsSealer (c : AwsKmsConfig) : res AwsKmsSealer :=
  let missing k := Throw ("AwsKmsSealer: missing config " +:+ quoted k) in
  if bool_decide (ak_region c = "") then missing "region" else
  if bool_decide (ak_accessKeyId c = "") then missing "accessKeyId" else
  if bool_decide (ak_secretAccessKey c = "") then missing "secretAccessKey" else
  if bool_decide (ak_keyId c = "") then missing "keyId" else
  let endpoint := strip_slashes (default ("https://kms." +:+ ak_region c +:+ ".amazonaws.com")
    (ak_endpoint c)) in
  host ← url_host endpoint;
  Ok {| as_config := c; as_endpoint := endpoint; as_host := host |}.

Context (sealer : AwsKmsSealer).

Definition encryptionContext (aad : option bytes) : list (string * json) :=
  [("purpose", JStr "polarseek-seed-seal-v1"); ("keyId", JStr (ak_keyId (as_config sealer)))] ++
  match aad with Some a => [("binding", JStr (b64Encode a))] | None => [] end.

(** The request of [call]; [iso] is the clock's time. *)
Definition aws_request (iso target : string) (payload : json) : HttpRequest :=
  let c := as_config sealer in
  let body := json_text payload in
  {| rq_url := as_endpoint sealer; rq_method := "POST";
     rq_headers := signedHeadersFor {| sv_host := as_host sealer; sv_region := ak_region c;
       sv_service := "kms"; sv_target := target; sv_body := body; sv_accessKeyId := ak_accessKeyId c;
       sv_secretAccessKey := ak_secretAccessKey c; sv_sessionToken := ak_sessionToken c;
       sv_amzDate := amzDate iso |};
     rq_body := Some body |}.

(** What [call] makes of a response; a status prints as an integer. *)
Definition aws_answer (target : string) (rs : HttpResponse) : res jsval :=
  j ← rs_json rs;
  if negb (rs_ok rs)
  then Throw ("AWS KMS " +:+ target +:+ " failed (" +:+ pretty (num_Z (rs_status rs)) +:+ "): " +:+ safeAwsError j)
  else Ok j.

Definition aws_call (iso target : string) (payload : json) : res jsval :=
  rs ← fetch (aws_request iso target payload); aws_answer target rs.

Definition encrypt_payload (seed : bytes) (aad : option bytes) : json := JObj [
  ("KeyId", JStr (ak_keyId (as_config sealer))); ("Plaintext", JStr (b64Encode seed));
  ("EncryptionContext", JObj (encryptionContext aad))].
Definition decrypt_payload (blob : bytes) (aad : option bytes) : json := JObj [
  ("KeyId", JStr (ak_keyId (as_config sealer))); ("CiphertextBlob", JStr (b64Encode blob));
  ("EncryptionContext", JObj (encryptionContext aad))].

Definition aws_wrap (iso : string) (seed : bytes) (aad : option bytes) : res bytes :=
  j ← aws_call iso "TrentService.Encrypt" (encrypt_payload seed aad);
  match str_field j "CiphertextBlob" with
  | Some ct => Ok (b64Decode ct)
  | None => Throw "AWS KMS Encrypt: no CiphertextBlob in response"
  end.

Definition aws_unwrap (iso : string) (blob : bytes) (aad : option bytes) : res bytes :=
  j ← aws_call iso "TrentService.Decrypt" (decrypt_payload blob aad);
  match str_field j "Plaintext" with
  | Some pt => Ok (b64Decode pt)
  | None => Throw "AWS KMS Decrypt: no Plaintext in response"
  end.
End aws.

(** [awsKmsSealerFromEnv]; [env] is the object of variables. *)
Definition awsKmsSealerFromEnv {P : Platform} (env : gmap string string) : res AwsKmsSealer :=
  let v k := default "" (env !! k) in
  new_AwsKmsSealer {| ak_region := v "AWS_REGION"; ak_accessKeyId := v "AWS_ACCESS_KEY_ID";
    ak_secretAccessKey := v "AWS_SECRET_ACCESS_KEY"; ak_keyId := v "AWS_KMS_KEY_ID";
    ak_sessionToken := truthy (env !! "AWS_SESSION_TOKEN"); ak_endpoint := None |}.

(** ** azure-kv.ts *)
Record AzureKeyVaultConfig := {
  az_tenantId : string; az_clientId : string; az_clientSecret : string; az_vaultUrl : string;
  az_keyName : string; az_apiVersion : option string; az_authHost : option string }.

Record ResolvedConfig := {
  rc_tenantId : string; rc_clientId : string; rc_clientSecret : string; rc_vaultUrl : string;
  rc_keyName : string; rc_apiVersion : string; rc_authHost : string }.

(** The sealer's caches *)
Record AzureCaches := { az_token : option (string * num); az_kid : option string }.
Definition no_caches : AzureCaches := {| az_token := None; az_kid := None |}.

(** [this.kid] when it is set and not empty. *)
Definition cached_kid (s : AzureCaches) : option string := truthy (az_kid s).

Definition safeError (j : jsval) : string :=
  let code := match get j "error" with
              | Some (VStr e) => [e]
              | Some e => match str_field e "code" with Some c => [c] | None => [] end
              | None => []
              end in
  (** [json['correlation_id'] ?? json['x-ms-request-id']] *)
  let corr := match get j "correlation_id" with
              | None | Some VNull | Some VUndef => get j "x-ms-request-id"
              | c => c
              end in
  let parts := code ++ match corr with Some (VStr c) => ["req=" +:+ c] | _ => [] end in
  if (0 <? length parts)%nat then join_with " " parts else "(no error code in response)".

Section azure.
Context {P : Platform}.

(** The constructor, where [fetch] is a function. *)
Definition new_AzureKeyVaultSealer (c : AzureKeyVaultConfig) : res ResolvedConfig :=
  let missing k := Throw ("AzureKeyVaultSealer: missing config " +:+ quoted k) in
  if bool_decide (az_tenantId c = "") then missing "tenantId" else
  if bool_decide (az_clientId c = "") then missing "clientId" else
  if bool_decide (az_clientSecret c = "") then missing "clientSecret" else
  if bool_decide (az_vaultUrl c = "") then missing "vaultUrl" else
  if bool_decide (az_keyName c = "") then missing "keyName" else
  Ok {| rc_tenantId := az_tenantId c; rc_clientId := az_clientId c; rc_clientSecret := az_clientSecret c;
        rc_vaultUrl := strip_slashes (az_vaultUrl c); rc_keyName := az_keyName c;
        rc_apiVersion := default "7.4" (az_apiVersion c);
        rc_authHost := strip_slashes (default "https://login.microsoftonline.com" (az_authHost c)) |}.

Context (cfg : ResolvedConfig) (form_text : list (string * string) -> string).

(** [Number(v ?? 3000)]: of the values a JSON document holds, those the code can
    meet; an object or array converts through its text, which is left out. *)
Definition expires_in (j : jsval) : num :=
  match get j "expires_in" with
  | None | Some VNull | Some VUndef => Int 3000
  | Some (VNum n) => n
  | Some (VBool b) => if b then Int 1 else Int 0
  | Some (VStr s) => Number_of s
  | Some _ => NaN
  end.

(** [n * 1000] *)
Definition times_1000 (n : num) : num :=
  match n with Fin m k => round53 (m * 1000) k | _ => n end.

Definition token_request : HttpRequest := {|
  rq_url := rc_authHost cfg +:+ "/" +:+ rc_tenantId cfg +:+ "/oauth2/v2.0/token"; rq_method := "POST";
  rq_headers := [("content-type", "application/x-www-form-urlencoded")];
  rq_body := Some (form_text [("grant_type", "client_credentials"); ("client_id", rc_clientId cfg);
    ("client_secret", rc_clientSecret cfg); ("scope", "https://vault.azure.net/.default")]) |}.

Definition token_answer (nowMs : num) (rs : HttpResponse) : res (string * num) :=
  j ← rs_json rs;
  if negb (rs_ok rs)
  then Throw ("Azure AAD token failed (" +:+ pretty (num_Z (rs_status rs)) +:+ "): " +:+ safeError j) else
  match str_field j "access_token" with
  | None => Throw "Azure AAD token: no access_token in response"
  | Some access => Ok (access, num_add nowMs (times_1000 (expires_in j)))
  end.

Definition fresh_token (nowMs : num) (s : AzureCaches) : AzureCaches * res string :=
  match rs ← fetch token_request; token_answer nowMs rs with
  | Throw e => (s, Throw e)
  | Ok t => ({| az_token := Some t; az_kid := az_kid s |}, Ok t.1)
  end.

Definition accessToken (nowMs : num) (s : AzureCaches) : AzureCaches * res string :=
  match az_token s with
  | Some (value, expiresAt) =>
      if num_ltb (num_add nowMs (Int 60000)) expiresAt then (s, Ok value) else fresh_token nowMs s
  | None => fresh_token nowMs s
  end.

Definition vault_request (token url method : string) (body : option json) : HttpRequest := {|
  rq_url := url; rq_method := method;
  rq_headers := ("authorization", "Bearer " +:+ token) ::
    match body with Some _ => [("content-type", "application/json")] | None => [] end;
  rq_body := json_text <$> body |}.

Definition vault_answer (method url : string) (rs : HttpResponse) : res jsval :=
  j ← rs_json rs;
  if negb (rs_ok rs)
  then Throw ("Azure Key Vault " +:+ method +:+ " " +:+ url +:+ " failed (" +:+
              pretty (num_Z (rs_status rs)) +:+ "): " +:+ safeError j)
  else Ok j.

Definition send (nowMs : num) (url : string) (body : option json) (method : string) (s : AzureCaches)
  : AzureCaches * res jsval :=
  match accessToken nowMs s with
  | (s', Throw e) => (s', Throw e)
  | (s', Ok token) => (s', rs ← fetch (vault_request token url method body); vault_answer method url rs)
  end.

Definition keyId_url : string :=
  rc_vaultUrl cfg +:+ "/keys/" +:+ rc_keyName cfg +:+ "?api-version=" +:+ rc_apiVersion cfg.

Definition keyId (nowMs : num) (s : AzureCaches) : AzureCaches * res string :=
  match cached_kid s with
  | Some kid => (s, Ok kid)
  | None =>
      match send nowMs keyId_url None "GET" s with
      | (s', Throw e) => (s', Throw e)
      | (s', Ok j) =>
          match get j "key" ≫= (fun k => str_field k "kid") with
          | None => (s', Throw ("Azure Key Vault: key " +:+ quoted (rc_keyName cfg) +:+
                                " has no kid (does it exist?)"))
          | Some kid => ({| az_token := az_token s'; az_kid := Some kid |}, Ok kid)
          end
      end
  end.

Definition op_url (kid kind : string) : string :=
  kid +:+ "/" +:+ kind +:+ "?api-version=" +:+ rc_apiVersion cfg.
Definition op_body (input : bytes) : json :=
  JObj [("alg", JStr "RSA-OAEP-256"); ("value", JStr (b64uEncode input))].

(** [op]; the two clock readings are those of its two calls of [send]. *)
Definition op (now1 now2 : num) (kind : string) (input : bytes) (s : AzureCaches)
  : AzureCaches * res bytes :=
  match keyId now1 s with
  | (s', Throw e) => (s', Throw e)
  | (s', Ok kid) =>
      match send now2 (op_url kid kind) (Some (op_body input)) "POST" s' with
      | (s'', Throw e) => (s'', Throw e)
      | (s'', Ok j) =>
          (s'', match str_field j "value" with
                | None => Throw ("Azure Key Vault " +:+ kind +:+ ": no value in response")
                | Some v => Ok (b64uDecode v)
                end)
      end
  end.

Definition az_wrap (now1 now2 : num) (seed : bytes) := op now1 now2 "wrapkey" seed.
Definition az_unwrap (now1 now2 : num) (sealed : bytes) := op now1 now2 "unwrapkey" sealed.
End azure.

Definition azureSealerFromEnv (env : gmap string string) : res ResolvedConfig :=
  let v k := default "" (env !! k) in
  new_AzureKeyVaultSealer {| az_tenantId := v "AZURE_TENANT_ID"; az_clientId := v "AZURE_CLIENT_ID";
    az_clientSecret := v "AZURE_CLIENT_SECRET"; az_vaultUrl := v "AZURE_KEY_VAULT_URL";
    az_keyName := default "polarseek-seal-kek" (env !! "AZURE_KEY_VAULT_KEK_NAME");
    az_apiVersion := None; az_authHost := None |}.

(** ** azure-provider.ts: [load] of [AzureKeyVaultKeyProvider] *)
Definition azure_load {L : Lib} {KG : KeyGen} (sealed : SealedKey) (trusted : option bytes) (v : Vault)
  : Vault * outcome :=
  match trusted with
  | None => (v, loaded (Throw ("sealed key " +:+ quoted (sl_id sealed) +:+
      " requires opts.trustedPublicKey: AzureKeyVaultKeyProvider wraps with a public-key (RSA-OAEP) " +:+
      "backend and is offline-forgeable without it (CUSTODY-SEAL-002).")))
  | Some _ => load sealed trusted v
  end.

(** ** pkcs11.ts *)
Record Pkcs11Config := { modulePath : string; pin : string; wrapKeyLabel : option string }.

(** [pkcs11SealerFromEnv] up to the engine: the configuration it is made from. *)
Definition pkcs11SealerFromEnv (env : gmap string string) (engineFactory : bool) : res Pkcs11Config :=
  let path := default "" (env !! "PKCS11_MODULE_PATH") in
  let p := default "" (env !! "PKCS11_PIN") in
  if bool_decide (path = "") || bool_decide (p = "")
  then Throw "pkcs11SealerFromEnv: PKCS11_MODULE_PATH and PKCS11_PIN must both be set" else
  if negb engineFactory
  then Throw (NotImplementedError "a native PKCS#11 engine"
    "pass engineFactory wired to `pkcs11js` (npm i pkcs11js; needs node-gyp + a C toolchain) bound to PKCS11_MODULE_PATH + PKCS11_PIN")
  else Ok {| modulePath := path; pin := p; wrapKeyLabel := truthy (env !! "PKCS11_WRAP_KEY_LABEL") |}.

(** [Pkcs11Sealer]: the engine behind the interface; the declared class of its
    mechanism defaults to a public-key wrap. *)
Record Pkcs11Sealer := { engine : Sealer; p11_isPublicKeyWrap : bool }.
Definition new_Pkcs11Sealer (e : Sealer) (isPublicKeyWrap : option bool) : Pkcs11Sealer :=
  {| engine := e; p11_isPublicKeyWrap := default true isPublicKeyWrap |}.
Definition p11_wrap (s : Pkcs11Sealer) (seed : bytes) : res bytes := @wrap (engine s) seed [].
Definition p11_unwrap (s : Pkcs11Sealer) (blob : bytes) : res bytes := @unwrap (engine s) blob [].

(** ** ops/src/env.ts: the accessors, over the environment of the process *)
Section env.
Context (process_env : gmap string string).

Definition hasEnv (n : string) : bool :=
  match process_env !! n with Some v => negb (bool_decide (v = "")) | None => false end.
Definition getEnv (n : string) (fallback : option string) : option string :=
  match process_env !! n with
  | Some v => if negb (bool_decide (v = "")) then Some v else fallback
  | None => fallback
  end.
Definition requireEnv (n : string) : res string :=
  match process_env !! n with
  | Some v => if bool_decide (v = "")
              then Throw ("required environment variable " +:+ quoted n +:+ " is not set") else Ok v
  | None => Throw ("required environment variable " +:+ quoted n +:+ " is not set")
  end.

(** The three accessors agree: a variable is there exactly when it can be
    required, and then it is what [getEnv] gives whatever the fallback. *)
Lemma env_accessors n : (hasEnv n = true <-> is_ok (requireEnv n) = true) /\
  (forall v, requireEnv n = Ok v <-> forall fallback, getEnv n fallback = Some v).
Proof.
  unfold hasEnv, requireEnv, getEnv. destruct (process_env !! n) as [v|].
  - case_bool_decide; cbn [negb is_ok]; (split; [done|]); intros w; split; try done.
    + intros H0. by specialize (H0 None).
    + by intros [= ->] fb.
    + intros H0. specialize (H0 None). congruence.
  - split; [done|]. intros w. split; [done|]. intros H0. by specialize (H0 None).
Qed.
End env.

(** ** What a SigV4 signature authorizes *)
Section sigv4.
Context {L : Lib} {P : Platform}.

Lemma app_cancel (p a b : string) : (p +:+ a = p +:+ b)%string -> a = b.
Proof. induction p as [|c p IH]; cbn; [done|]. intros E. injection E as E. by apply IH. Qed.

Definition line (k v rest : string) : string := k +:+ v +:+ String newline rest.

Lemma line_inj k v v' r r' : free_of newline v -> free_of newline v' ->
  line k v r = line k v' r' -> v = v' /\ r = r'.
Proof. intros H H' E%app_cancel. by apply (until_char newline). Qed.

(** The canonical headers, line by line, in the order of their names. *)
Definition token_line (input : SigV4Input) (rest : string) : string :=
  match truthy (sv_sessionToken input) with
  | Some t => line "x-amz-security-token:" t rest
  | None => rest
  end.

Lemma canonicalHeaders_eq input : canonicalHeaders input =
  line "content-type:" contentType (line "host:" (sv_host input) (line "x-amz-date:" (sv_amzDate input)
    (token_line input (line "x-amz-target:" (sv_target input) "")))).
Proof.
  unfold canonicalHeaders, header_names, headerMap, token_line, line.
  destruct (truthy (sv_sessionToken input)) as [t|]; cbn [map app fst snd].
  - change (js_sort str_ltb ["content-type"; "host"; "x-amz-date"; "x-amz-target"; "x-amz-security-token"])
      with ["content-type"; "host"; "x-amz-date"; "x-amz-security-token"; "x-amz-target"].
    cbn [map join_with header_value find fst snd bool_decide]. 
    repeat (rewrite ?app_str_assoc; cbn).  done.
  - change (js_sort str_ltb ["content-type"; "host"; "x-amz-date"; "x-amz-target"])
      with ["content-type"; "host"; "x-amz-date"; "x-amz-target"].
    cbn. repeat (rewrite ?app_str_assoc; cbn). done.
Qed.
Lemma line_app k v r t : (line k v r +:+ t)%string = line k v (r +:+ t).
Proof. unfold line. by rewrite !app_str_assoc. Qed.

Lemma stringToSign_eq input : stringToSign input =
  line "" "AWS4-HMAC-SHA256" (line "" (sv_amzDate input) (line "" (credential_scope input)
    (sha256hex (utf8 (canonicalRequest input))))).
Proof. done. Qed.

Lemma canonicalRequest_eq input : canonicalRequest input =
  line "" "POST" (line "" "/" (line "" "" (canonicalHeaders input +:+
    String newline (line "" (signedHeaders input) (sha256hex (utf8 (sv_body input))))))).
Proof. done. Qed.

(** Inputs without line breaks in what the canonical request prints as lines. *)
Record one_line (input : SigV4Input) : Prop := {
  ol_host : free_of newline (sv_host input);
  ol_target : free_of newline (sv_target input);
  ol_date : free_of newline (sv_amzDate input);
  ol_token : forall t, sv_sessionToken input = Some t -> free_of newline t;
  ol_scope : free_of newline (credential_scope input) }.

Lemma ol_truthy input t : one_line input -> truthy (sv_sessionToken input) = Some t -> free_of newline t.
Proof. intros O. unfold truthy. destruct (sv_sessionToken input) as [[|c u]|] eqn:E; try done.
  intros [= <-]. by apply (ol_token _ O). Qed.

Lemma signedHeaders_token i j : truthy (sv_sessionToken i) = truthy (sv_sessionToken j) ->
  signedHeaders i = signedHeaders j.
Proof.
  unfold signedHeaders, header_names, headerMap. intros E. rewrite E. by destruct (truthy _).
Qed.

Lemma free_literal s : bool_decide (newline ∈ list_ascii_of_string s) = false -> free_of newline s.
Proof. apply bool_decide_eq_false. Qed.

(** What a canonical request stands for. *)
Definition same_request (i j : SigV4Input) : Prop :=
  sv_host i = sv_host j /\ sv_amzDate i = sv_amzDate j /\ sv_target i = sv_target j /\
  truthy (sv_sessionToken i) = truthy (sv_sessionToken j).

Lemma canonicalRequest_inj i j : one_line i -> one_line j -> canonicalRequest i = canonicalRequest j ->
  same_request i j /\ sha256hex (utf8 (sv_body i)) = sha256hex (utf8 (sv_body j)).
Proof.
  intros Oi Oj E. rewrite !canonicalRequest_eq in E. do 3 apply line_inj in E as [_ E]; try by apply free_literal.
  rewrite !canonicalHeaders_eq, !line_app in E. apply line_inj in E as [_ E]; try by apply free_literal.
  apply line_inj in E as [E1 E]; [|apply Oi|apply Oj].
  apply line_inj in E as [E2 E]; [|apply Oi|apply Oj].
  assert (T : truthy (sv_sessionToken i) = truthy (sv_sessionToken j) /\
    (line "x-amz-target:" (sv_target i) (String newline (line "" (signedHeaders i) (sha256hex (utf8 (sv_body i)))))
     = line "x-amz-target:" (sv_target j) (String newline (line "" (signedHeaders j) (sha256hex (utf8 (sv_body j))))))%string).
  { unfold token_line in E. destruct (truthy (sv_sessionToken i)) as [t|] eqn:Ti,
      (truthy (sv_sessionToken j)) as [u|] eqn:Tj; rewrite ?line_app in E.
    - apply line_inj in E as [-> E]; [|by apply (ol_truthy i)|by apply (ol_truthy j)]. done.
    - by apply (f_equal (String.get 6)) in E.
    - by apply (f_equal (String.get 6)) in E.
    - done. }
  destruct T as [T E3]. apply line_inj in E3 as [E3 E4]; [|apply Oi|apply Oj].
  split; [done|]. rewrite (signedHeaders_token i j T) in E4. injection E4 as E4.
  apply (app_cancel (signedHeaders j)) in E4. by injection E4.
Qed.

(** ** Properties *)
(** The HMAC inputs (key and message) of a signature, and its SHA-256 inputs. *)
Definition date_key (x : SigV4Input) : bytes :=
  hmac_sha256 (utf8 ("AWS4" +:+ sv_secretAccessKey x)) (utf8 (dateStamp x)).
Definition region_key (x : SigV4Input) : bytes := hmac_sha256 (date_key x) (utf8 (sv_region x)).
Definition service_key (x : SigV4Input) : bytes := hmac_sha256 (region_key x) (utf8 (sv_service x)).
Definition signing_key (x : SigV4Input) : bytes := hmac_sha256 (service_key x) (utf8 "aws4_request").
Definition mac_inputs (x : SigV4Input) : list (bytes * bytes) := [
  (date_key x, utf8 (sv_region x)); (region_key x, utf8 (sv_service x));
  (service_key x, utf8 "aws4_request"); (signing_key x, utf8 (stringToSign x))].
Definition sha_inputs (x : SigV4Input) : list bytes :=
  [utf8 (canonicalRequest x); utf8 (sv_body x)].

(** Two of the listed inputs, all of them under keys that are MACs, with one MAC. *)
Definition mac_collision (l : list (bytes * bytes)) : Prop :=
  exists a b, a ∈ l /\ b ∈ l /\ a <> b /\ hmac_sha256 a.1 a.2 = hmac_sha256 b.1 b.2.
Definition sha_collision (l : list bytes) : Prop :=
  exists x y, x ∈ l /\ y ∈ l /\ x <> y /\ sha256 x = sha256 y.

Lemma mac_step l k m k' m' : hmac_sha256 k m = hmac_sha256 k' m' -> (k, m) ∈ l -> (k', m') ∈ l ->
  (k = k' /\ m = m') \/ mac_collision l.
Proof.
  intros E I I'. destruct (base.decide ((k, m) = (k', m'))) as [[= -> ->]|N]; [by left|].
  right. by exists (k, m), (k', m').
Qed.

Lemma sha_step l x y : sha256 x = sha256 y -> x ∈ l -> y ∈ l -> x = y \/ sha_collision l.
Proof. intros E I I'. destruct (base.decide (x = y)) as [->|N]; [by left|]. right. by exists x, y. Qed.

Local Ltac in_inputs := match goal with |- _ ∈ ?l => unfold l, mac_inputs, sha_inputs; set_solver end.

(** C16: One SigV4 signature, one request.  For two inputs whose host, target, date,
    session token and credential scope have no line break in them: if their
    signatures agree, then they have the same region, service, date, host,
    target, session token (an empty one counts as none) and body, and secrets
    with the same key for that date -- or two of the inputs the two signatures
    give to HMAC-SHA256, whose keys are themselves MACs, collide, or two of the
    four they give to SHA-256.  (With a line break in it, a token could be split
    into another header.) *)
Theorem sigv4_binding {HL : HexLaws L} i j : one_line i -> one_line j ->
  sigv4_signature i = sigv4_signature j ->
  (date_key i = date_key j /\ sv_region i = sv_region j /\ sv_service i = sv_service j /\
   sv_amzDate i = sv_amzDate j /\ sv_host i = sv_host j /\ sv_target i = sv_target j /\
   truthy (sv_sessionToken i) = truthy (sv_sessionToken j) /\ sv_body i = sv_body j) \/
  mac_collision (mac_inputs i ++ mac_inputs j) \/ sha_collision (sha_inputs i ++ sha_inputs j).
Proof.
  intros Oi Oj E. apply bytesToHex_inj in E.
  change (hmac_sha256 (signing_key i) (utf8 (stringToSign i)) =
          hmac_sha256 (signing_key j) (utf8 (stringToSign j))) in E.
  set (l := mac_inputs i ++ mac_inputs j). set (h := sha_inputs i ++ sha_inputs j).
  destruct (mac_step l _ _ _ _ E) as [[K S%utf8_inj]|]; [in_inputs.. | |by right; left].
  destruct (mac_step l _ _ _ _ K) as [[K3 _]|]; [in_inputs.. | |by right; left].
  destruct (mac_step l _ _ _ _ K3) as [[K2 Sv%utf8_inj]|]; [in_inputs.. | |by right; left].
  destruct (mac_step l _ _ _ _ K2) as [[K1 Rg%utf8_inj]|]; [in_inputs.. | |by right; left].
  rewrite !stringToSign_eq in S. apply line_inj in S as [_ S]; try by apply free_literal.
  apply line_inj in S as [_ S]; [|apply Oi|apply Oj].
  apply line_inj in S as [_ S]; [|apply (ol_scope _ Oi)|apply (ol_scope _ Oj)].
  apply bytesToHex_inj in S.
  destruct (sha_step h _ _ S) as [C%utf8_inj|]; [in_inputs.. | |by right; right].
  destruct (canonicalRequest_inj i j Oi Oj C) as [(R1 & R2 & R3 & R4) B]. apply bytesToHex_inj in B.
  destruct (sha_step h _ _ B) as [D%utf8_inj|]; [in_inputs.. | |by right; right].
  by left.
Qed.
End sigv4.

(** ** The KMS adapter keeps the promise of an authenticated backend *)
Section kms.
Context {L : Lib} {P : Platform}.

(** A request to the service's JSON API: a POST whose one [x-amz-target] header
    names the operation and whose body is the text of an object with these
    fields. *)
Record kms_request (r : HttpRequest) (target : string) (fs : list (string * json)) : Prop := {
  kr_method : rq_method r = "POST";
  kr_target : exists l1 l2, rq_headers r = l1 ++ ("x-amz-target", target) :: l2 /\
    "x-amz-target" ∉ map fst (l1 ++ l2);
  kr_body : rq_body r = Some (json_text (JObj fs)) }.

(** A field of a request's object; the encryption context, which is empty when
    the request has none. *)
Definition field_of (fs : list (string * json)) (k : string) : option json :=
  match find (fun kv => bool_decide (kv.1 = k)) fs with Some kv => Some kv.2 | None => None end.
Definition context_of (fs : list (string * json)) : list (string * json) :=
  match field_of fs "EncryptionContext" with Some (JObj c) => c | _ => [] end.

(** A successful answer with this string field. *)
Definition answers (r : HttpRequest) (k v : string) : Prop :=
  exists rs j, fetch r = Ok rs /\ rs_ok rs = true /\ rs_json rs = Ok j /\ str_field j k = Some v.

(** The documented behaviour of the service, on any requests it is sent: Decrypt
    answers with a plaintext, for a ciphertext that Encrypt has answered with,
    only if the encryption contexts of the two requests have the same entries
    (in any order), and then with the plaintext of the Encrypt request. *)
Class KmsService : Prop := {
  kms_decrypt : forall re fe rd fd plain ct blob pt,
    kms_request re "TrentService.Encrypt" fe -> field_of fe "Plaintext" = Some (JStr plain) ->
    answers re "CiphertextBlob" ct ->
    kms_request rd "TrentService.Decrypt" fd -> field_of fd "CiphertextBlob" = Some (JStr blob) ->
    b64Decode blob = b64Decode ct -> answers rd "Plaintext" pt ->
    context_of fe ≡ₚ context_of fd /\ b64Decode pt = b64Decode plain }.

Lemma b64_inj `{!PlatformLaws} a b : b64Encode a = b64Encode b -> a = b.
Proof. intros E. apply (f_equal b64Decode) in E. by rewrite !b64_roundtrip in E. Qed.

Context (sealer : AwsKmsSealer).

Lemma encryptionContext_inj `{!PlatformLaws} a b :
  encryptionContext sealer a ≡ₚ encryptionContext sealer b -> a = b.
Proof.
  assert (E : forall c x, ("binding", JStr x) ∈ encryptionContext sealer c -> exists a, c = Some a /\ x = b64Encode a).
  { intros c x I. unfold encryptionContext in I. destruct c as [c|]; cbn in I.
    - exists c. split; [done|]. set_solver.
    - set_solver. }
  intros S. destruct a as [a|], b as [b|]; [| | |done].
  - assert (I : ("binding", JStr (b64Encode a)) ∈ encryptionContext sealer (Some b)).
    { rewrite <- S. unfold encryptionContext. set_solver. }
    apply E in I as (? & [= <-] & I). f_equal. by apply b64_inj.
  - assert (I : ("binding", JStr (b64Encode a)) ∈ encryptionContext sealer None).
    { rewrite <- S. unfold encryptionContext. set_solver. }
    by apply E in I as (? & [=] & _).
  - assert (I : ("binding", JStr (b64Encode b)) ∈ encryptionContext sealer None).
    { rewrite S. unfold encryptionContext. set_solver. }
    by apply E in I as (? & [=] & _).
Qed.

Lemma aws_request_kms t target fs : kms_request (aws_request sealer t target (JObj fs)) target fs.
Proof.
  split; [done | | done]. cbn [rq_headers aws_request]. unfold signedHeadersFor. cbn [sv_target sv_sessionToken].
  set (a := "AWS4-HMAC-SHA256 Credential=" +:+ _). set (d := sv_amzDate _).
  exists [("content-type", contentType); ("x-amz-date", d)]. eexists. split; [reflexivity|].
  destruct (truthy _); cbn; set_solver.
Qed.

Lemma aws_call_answers t target fs j k v : aws_call sealer t target (JObj fs) = Ok j ->
  str_field j k = Some v -> answers (aws_request sealer t target (JObj fs)) k v.
Proof.
  unfold aws_call, aws_answer. intros (rs & F & A)%bind_ok S. apply bind_ok in A as (j' & J & A).
  destruct (rs_ok rs) eqn:O; cbn [negb] in A; [|done]. apply Ok_inj in A as ->. by exists rs, j.
Qed.

Lemma aws_authentic `{!PlatformLaws} `{!KmsService} t t' seed aad w aad' seed' :
  aws_wrap sealer t seed aad = Ok w -> aws_unwrap sealer t' w aad' = Ok seed' -> aad' = aad /\ seed' = seed.
Proof.
  unfold aws_wrap, aws_unwrap. intros (j & Ej & W)%bind_ok (j' & Ej' & U)%bind_ok.
  destruct (str_field j "CiphertextBlob") as [ct|] eqn:Ec; [|done]. apply Ok_inj in W as <-.
  destruct (str_field j' "Plaintext") as [pt|] eqn:Ep; [|done]. apply Ok_inj in U as <-.
  unfold encrypt_payload in Ej. unfold decrypt_payload in Ej'.
  match type of Ej with aws_call _ _ _ (JObj ?fe) = _ => match type of Ej' with aws_call _ _ _ (JObj ?fd) = _ =>
    destruct (kms_decrypt (aws_request sealer t "TrentService.Encrypt" (JObj fe)) fe
      (aws_request sealer t' "TrentService.Decrypt" (JObj fd)) fd (b64Encode seed) ct
      (b64Encode (b64Decode ct)) pt) as [C ->] end end;
    [apply aws_request_kms | done | by eapply aws_call_answers | apply aws_request_kms | done
    | apply b64_roundtrip | by eapply aws_call_answers |].
  split; [|apply b64_roundtrip]. symmetry. by apply encryptionContext_inj.
Qed.

(** C15: Behind the adapter a blob is bound to its associated data: of a service
    that, on the requests it is sent, decrypts a ciphertext only under the
    encryption context it was encrypted under, what [unwrap] returns for a
    wrapped blob under some associated data (or none) is what was wrapped, and
    it was wrapped under the same associated data (or none).  (JSON texts and
    base64 decode to what was encoded.) *)
Theorem aws_authenticates `{!PlatformLaws} `{!KmsService} t t' seed aad w aad' seed' :
  aws_wrap sealer t seed aad = Ok w -> aws_unwrap sealer t' w aad' = Ok seed' -> aad' = aad /\ seed' = seed.
Proof. apply aws_authentic. Qed.

(** The backend as the sealing provider sees it, at some times of its calls. *)
Definition aws_sealer (t t' : string) : Sealer := {|
  wrap := fun seed aad => aws_wrap sealer t seed (Some aad);
  unwrap := fun w aad => aws_unwrap sealer t' w (Some aad) |}.

End kms.

#[export] Instance aws_aead {L : Lib} {P : Platform} {PL : PlatformLaws} sealer {K : KmsService} t t' :
  AeadSealer (S := aws_sealer sealer t t').
Proof. split. intros s a w s' a' W U. by destruct (aws_authentic sealer t t' s (Some a) w (Some a') s' W U) as [[= ->] _]. Qed.

(** ** The Azure adapter *)
Section azure_lemmas.
Context {P : Platform} (cfg : ResolvedConfig) (form_text : list (string * string) -> string).

(** A token that is sent is cached and has more than a minute left, or was just
    answered to a request of its own; the key version is kept. *)
Lemma accessToken_ok now s s' tok : accessToken cfg form_text now s = (s', Ok tok) ->
  az_kid s' = az_kid s /\
  ((s' = s /\ exists e, az_token s = Some (tok, e) /\ num_ltb (num_add now (Int 60000)) e = true) \/
   exists rs e, fetch (token_request cfg form_text) = Ok rs /\ token_answer now rs = Ok (tok, e) /\
     az_token s' = Some (tok, e)).
Proof.
  assert (F : fresh_token cfg form_text now s = (s', Ok tok) -> az_kid s' = az_kid s /\
    exists rs e, fetch (token_request cfg form_text) = Ok rs /\ token_answer now rs = Ok (tok, e) /\
      az_token s' = Some (tok, e)).
  { unfold fresh_token. destruct (rs ← _; _) as [[t e]|] eqn:E; [|done]. intros [= <- <-].
    apply bind_ok in E as (rs & Er & E). split; [done|]. by exists rs, e. }
  unfold accessToken. destruct (az_token s) as [[t e]|]; [destruct (num_ltb _ e) eqn:X|].
  - intros [= <- <-]. split; [done|]. left. split; [done|]. by exists e.
  - intros [A B]%F. by split; [|right].
  - intros [A B]%F. by split; [|right].
Qed.

Lemma send_kid now url body method s s' r : send cfg form_text now url body method s = (s', r) ->
  az_kid s' = az_kid s.
Proof.
  unfold send. destruct (accessToken _ _ now s) as [s1 [tok|e]] eqn:A; intros [= <- _].
  - by apply accessToken_ok in A as [? _].
  - unfold accessToken, fresh_token in A. repeat case_match; by injection A as <- _.
Qed.

Lemma keyId_ok now s s' kid : keyId cfg form_text now s = (s', Ok kid) -> az_kid s' = Some kid /\
  (forall k, cached_kid s = Some k -> kid = k /\ s' = s).
Proof.
  unfold keyId. destruct (cached_kid s) as [k|] eqn:C.
  - intros [= <- <-]. split; [|by intros k' [= <-]]. unfold cached_kid, truthy in C.
    destruct (az_kid s) as [[|c u]|]; congruence.
  - destruct (send _ _ _ _ _ _ s) as [s1 [j|e]]; [|done].
    destruct (_ ≫= _) as [k|]; [|done]. intros [= <- <-]. by split.
Qed.

(** The key version is pinned.  The first operation that succeeds fixes the
    wrapping key's version; every later wrap and unwrap, successful or not,
    addresses that version and leaves it in place. *)
Theorem key_version_pinned now1 now2 kind input s s' r : op cfg form_text now1 now2 kind input s = (s', r) ->
  (is_ok r = true -> is_Some (az_kid s')) /\
  forall k, cached_kid s = Some k -> az_kid s' = Some k /\
    forall b, r = Ok b -> exists tok rs j v, fetch (vault_request tok (op_url cfg k kind) "POST"
        (Some (op_body input))) = Ok rs /\ rs_json rs = Ok j /\ rs_ok rs = true /\
      str_field j "value" = Some v /\ b = b64uDecode v.
Proof.
  unfold op. destruct (keyId cfg form_text now1 s) as [s1 [kid|e]] eqn:K.
  - apply keyId_ok in K as [K1 K2].
    destruct (send _ _ _ _ _ _ s1) as [s2 [j|e]] eqn:Se; intros [= <- <-];
      pose proof (send_kid _ _ _ _ _ _ _ Se) as E; rewrite K1 in E.
    + split; [by eexists|]. intros k [-> ->]%K2. split; [done|]. intros b Hb.
      destruct (str_field j "value") as [v|] eqn:V; [|done]. apply Ok_inj in Hb as <-.
      unfold send in Se. destruct (accessToken _ _ now2 s) as [s3 [tok|e]]; [|done].
      injection Se as _ Se. apply bind_ok in Se as (rs & Er & Se). unfold vault_answer in Se.
      apply bind_ok in Se as (j' & Ej & Se). destruct (rs_ok rs) eqn:O; [|done].
      apply Ok_inj in Se as ->. by exists tok, rs, j, v.
    + split; [done|]. intros k [-> ->]%K2. by split.
  - intros [= <- <-]. split; [done|]. intros k C. exfalso. unfold keyId in K. by rewrite C in K.
Qed.
End azure_lemmas.

Section azure_provider.
Context {L : Lib} {KG : KeyGen}.

(** No substituted blob unlocks behind the Azure provider, even when its sealer
    does not declare itself a public-key wrap: whatever else is in flight and
    whatever the vault answers, a load that succeeds was given a trusted public
    key, and the unlocked key is the one with that public key. *)
Theorem azure_key_authentic name wrapFlag evs sealed trusted v1 op c r v2 ref :
  azure_load sealed trusted (run name wrapFlag evs) = (v1, waits op c) ->
  resume name wrapFlag op r v1 = (v2, loaded (Ok ref)) ->
  exists t e, trusted = Some t /\ unlocked v2 !! sl_id sealed = Some e /\ e_public e = t /\
    ref = {| ref_provider := name; ref_id := sl_id sealed |}.
Proof.
  unfold azure_load. destruct trusted as [t|]; [|done]. intros A R. exists t.
  assert (Ok1 : vault_ok [] v1).
  { pose proof (run_ok name wrapFlag (evs ++ [do_load sealed (Some t)])) as O.
    unfold run in O. rewrite fold_left_app in O. cbn [fold_left step] in O. fold (run name wrapFlag evs) in O.
    by rewrite A in O. }
  unfold load in A. destruct (signerFor (sl_suite sealed)) as [scheme|]; [|done].
  destruct (negb _); [done|]. injection A as <- <- _.
  unfold resume in R. cbn [suspend pending] in R. rewrite lookup_insert_eq in R.
  apply load_unwrapped_spec in R as [(kp & e & (b & _ & _ & _ & _ & T) & [= ->] & He & _ & Hp & _)|(_ & (x & [=]) & _)];
    [|done].
  exists e. rewrite Hp. by rewrite (T t eq_refl).
Qed.
End azure_provider.

(** ** Runs against toy services *)
(** *** Reading JSON text back *)
Definition unescape (s : string) : option (ascii * string) :=
  match s with
  | EmptyString => None
  | String c r =>
      if bool_decide (c = dquote) then None else
      if bool_decide (c = "\"%char) then
        match r with
        | String d r =>
            if bool_decide (d = "b"%char) then Some (ascii_of_nat 8, r) else
            if bool_decide (d = "t"%char) then Some (ascii_of_nat 9, r) else
            if bool_decide (d = "n"%char) then Some (ascii_of_nat 10, r) else
            if bool_decide (d = "f"%char) then Some (ascii_of_nat 12, r) else
            if bool_decide (d = "r"%char) then Some (ascii_of_nat 13, r) else
            if bool_decide (d = "u"%char) then
              match r with
              | String _ (String _ (String h (String l r))) =>
                  match hexToBytesLocal (String h (String l EmptyString)) with
                  | [b] => Some (ascii_of_byte b, r)
                  | _ => None
                  end
              | _ => None
              end
            else Some (d, r)
        | EmptyString => None
        end
      else Some (c, r)
  end.

Lemma unescape_escape c r : unescape (escape_char c +:+ r) = Some (c, r).
Proof. destruct c as [[] [] [] [] [] [] [] []]; reflexivity. Qed.

Fixpoint par_chars (fuel : nat) (s : string) : option (string * string) :=
  match fuel with
  | O => None
  | S fuel =>
      match s with
      | String c r =>
          if bool_decide (c = dquote) then Some (EmptyString, r)
          else '(c, r) ← unescape s; '(t, r) ← par_chars fuel r; Some (String c t, r)
      | EmptyString => None
      end
  end.

Definition par_string (fuel : nat) (s : string) : option (string * string) :=
  match s with
  | String c r => if bool_decide (c = dquote) then par_chars fuel r else None
  | EmptyString => None
  end.

(** [p] reads a value; the fields end with the closing brace. *)
Fixpoint par_fields (p : string -> option (json * string)) (fuel : nat) (s : string)
  : option (list (string * json) * string) :=
  match fuel with
  | O => None
  | S fuel' =>
      '(k, r) ← par_string fuel s;
      match r with
      | String colon r =>
          if bool_decide (colon = ":"%char) then
            '(v, r) ← p r;
            match r with
            | String c r =>
                if bool_decide (c = ","%char)
                then '(fs, r) ← par_fields p fuel' r; Some ((k, v) :: fs, r)
                else if bool_decide (c = "}"%char) then Some ([(k, v)], r) else None
            | EmptyString => None
            end
          else None
      | EmptyString => None
      end
  end.

Fixpoint par_json (fuel : nat) (s : string) : option (json * string) :=
  match fuel with
  | O => None
  | S fuel' =>
      match s with
      | String c r =>
          if bool_decide (c = "{"%char) then
            match r with
            | String d r' =>
                if bool_decide (d = "}"%char) then Some (JObj [], r')
                else '(fs, r) ← par_fields (par_json fuel') fuel' r; Some (JObj fs, r)
            | EmptyString => None
            end
          else '(t, r) ← par_string fuel s; Some (JStr t, r)
      | EmptyString => None
      end
  end.

(** Enough fuel for a value. *)
Fixpoint json_size (v : json) : nat :=
  match v with
  | JStr s => S (S (String.length s))
  | JObj fs => S (foldr (fun kv n => S (S (S (String.length kv.1 + json_size kv.2 + n)))) O fs)
  end%nat.
Definition fields_size (fs : list (string * json)) : nat :=
  foldr (fun kv n => S (S (S (String.length kv.1 + json_size kv.2 + n)))) O fs.

Lemma str_app_cons c a b : (String c a +:+ b)%string = String c (a +:+ b).
Proof. done. Qed.

Lemma escape_char_cons c r : exists d t, (escape_char c +:+ r)%string = String d t /\ d <> dquote.
Proof. destruct c as [[] [] [] [] [] [] [] []]; do 2 eexists; (split; [reflexivity | discriminate]). Qed.

Lemma par_chars_escape s r fuel : (String.length s < fuel)%nat ->
  par_chars fuel (json_escape s +:+ String dquote r) = Some (s, r).
Proof.
  revert fuel. induction s as [|c s IH]; intros [|fuel] H; cbn in H; try lia.
  - cbn. done.
  - cbn [json_escape]. rewrite app_str_assoc.
    destruct (escape_char_cons c (json_escape s +:+ String dquote r)) as (d & t & E & D).
    pose proof (unescape_escape c (json_escape s +:+ String dquote r)) as U. rewrite E in *.
    cbn [par_chars]. rewrite bool_decide_false by done. rewrite U. cbn [mbind option_bind].
    by rewrite IH by lia.
Qed.

Lemma par_string_text s r fuel : (String.length s < fuel)%nat ->
  par_string fuel (json_string s +:+ r) = Some (s, r).
Proof.
  intros H. unfold json_string, quoted. rewrite !str_app_cons. cbn [par_string].
  rewrite bool_decide_true by done. change ("" +:+ ?x)%string with x.
  rewrite app_str_assoc. by apply par_chars_escape.
Qed.

Definition field_text (kv : string * json) : string := json_string kv.1 +:+ ":" +:+ json_text kv.2.

Lemma par_fields_text p fuel : forall fs, (fields_size fs < fuel)%nat -> fs <> [] ->
  (forall k v r, (k, v) ∈ fs -> p (json_text v +:+ r)%string = Some (v, r)) ->
  forall r, par_fields p fuel (join_with "," (map field_text fs) +:+ "}" +:+ r)%string = Some (fs, r).
Proof.
  induction fuel as [|fuel IH]; [lia|]. intros [|[k v] fs] H N P r; [done|].
  cbn [fields_size foldr fst snd] in H. fold (fields_size fs) in H.
  assert (T : forall rest, par_fields p (S fuel) (field_text (k, v) +:+ rest) =
    match rest with
    | String c r => if bool_decide (c = ","%char)
        then '(fs, r) ← par_fields p fuel r; Some ((k, v) :: fs, r)
        else if bool_decide (c = "}"%char) then Some ([(k, v)], r) else None
    | EmptyString => None
    end).
  { intros rest. cbn [par_fields]. unfold field_text. cbn [fst snd]. rewrite !app_str_assoc.
    rewrite par_string_text by lia. cbn [mbind option_bind]. rewrite str_app_cons.
    rewrite bool_decide_true by done. change ("" +:+ ?x)%string with x.
    rewrite (P k v) by (by left). done. }
  destruct fs as [|kv fs].
  - change (join_with "," (map field_text [(k, v)])) with (field_text (k, v)). by rewrite T.
  - change (join_with "," (map field_text ((k, v) :: kv :: fs)))
      with (field_text (k, v) +:+ "," +:+ join_with "," (map field_text (kv :: fs)))%string.
    rewrite !app_str_assoc, T, str_app_cons. rewrite bool_decide_true by done.
    change ("" +:+ ?x)%string with x.
    rewrite IH; [done | lia | done |]. intros k' v' r' I. apply (P k'). by right.
Qed.

Lemma par_json_text fuel : forall v r, (json_size v < fuel)%nat ->
  par_json fuel (json_text v +:+ r) = Some (v, r).
Proof.
  induction fuel as [|fuel IH]; [lia|]. intros [s|fs] r H; cbn [json_size] in H.
  - change (json_text (JStr s)) with (json_string s). pose proof (par_string_text s r (S fuel)) as P.
    unfold json_string, quoted in *. rewrite !str_app_cons in *. cbn [par_json].
    rewrite bool_decide_false by done. by rewrite P by lia.
  - fold (fields_size fs) in H.
    change (json_text (JObj fs)) with ("{" +:+ join_with "," (map field_text fs) +:+ "}")%string.
    rewrite !str_app_cons. change ("" +:+ ?x)%string with x. rewrite app_str_assoc. cbn [par_json]. rewrite bool_decide_true by done.
    destruct fs as [|kv fs]; [done|].
    assert (B : exists t, (join_with "," (map field_text (kv :: fs)) +:+ "}" +:+ r)%string = String dquote t).
    { cbn [map join_with]. unfold field_text, json_string, quoted.
      destruct (map _ fs); rewrite ?app_str_assoc, str_app_cons; by eexists. }
    assert (F : par_fields (par_json fuel) fuel (join_with "," (map field_text (kv :: fs)) +:+ "}" +:+ r)
      = Some (kv :: fs, r)).
    2: { destruct B as [t B]. rewrite B in *. rewrite bool_decide_false by done. by rewrite F. }
    apply par_fields_text; [lia | done |].
    intros k v r' I. apply IH. assert (S : (json_size v <= fields_size (kv :: fs))%nat); [|lia].
    clear -I. induction (kv :: fs) as [|[k' v'] l IHl]; [by apply elem_of_nil in I|].
    cbn [fields_size foldr fst snd]. fold (fields_size l). apply elem_of_cons in I as [[= <- <-]|I]; [lia|].
    specialize (IHl I). lia.
Qed.

Lemma str_length_app a b : String.length (a +:+ b) = (String.length a + String.length b)%nat.
Proof. induction a as [|c a IH]; [done|]. rewrite str_app_cons. cbn. by rewrite IH. Qed.

Lemma escape_length s : (String.length s <= String.length (json_escape s))%nat.
Proof.
  induction s as [|c s IH]; cbn [json_escape String.length]; [lia|]. rewrite str_length_app.
  destruct (escape_char_cons c "") as (d & t & E & _). rewrite append_nil_r in E. rewrite E. cbn. lia.
Qed.

Lemma string_length s : (S (S (String.length s)) <= String.length (json_string s))%nat.
Proof.
  unfold json_string, quoted. rewrite !str_length_app. cbn [String.length].
  pose proof (escape_length s). lia.
Qed.

Lemma json_size_text n : forall v, (json_size v <= n)%nat -> (json_size v <= String.length (json_text v))%nat.
Proof.
  induction n as [|n IH]; intros [s|fs] H; cbn [json_size] in *; try lia.
  - apply string_length.
  - fold (fields_size fs) in *.
    change (json_text (JObj fs)) with ("{" +:+ join_with "," (map field_text fs) +:+ "}")%string.
    rewrite !str_length_app. cbn [String.length].
    assert (F : (fields_size fs <= S (String.length (join_with "," (map field_text fs))))%nat); [|lia].
    revert H. induction fs as [|[k v] fs IHf]; [cbn; lia|]. intros H.
    cbn [fields_size foldr fst snd] in *. fold (fields_size fs) in *.
    assert (V : (json_size v <= String.length (json_text v))%nat) by (apply IH; lia).
    assert (T : (String.length k + json_size v + 3 <= String.length (field_text (k, v)))%nat).
    { unfold field_text. cbn [fst snd]. rewrite !str_length_app. pose proof (string_length k). cbn. lia. }
    destruct fs as [|kv fs].
    + change (join_with "," (map field_text [(k, v)])) with (field_text (k, v)). cbn. lia.
    + change (join_with "," (map field_text ((k, v) :: kv :: fs)))
        with (field_text (k, v) +:+ "," +:+ join_with "," (map field_text (kv :: fs)))%string.
      rewrite !str_length_app. specialize (IHf ltac:(lia)). cbn [String.length]. lia.
Qed.

Definition json_of (s : string) : option json :=
  match par_json (S (String.length s)) s with Some (v, EmptyString) => Some v | _ => None end.

Lemma json_of_text v : json_of (json_text v) = Some v.
Proof.
  unfold json_of. rewrite <- (append_nil_r (json_text v)) at 2. rewrite par_json_text; [done|].
  pose proof (json_size_text (json_size v) v (le_n _)). lia.
Qed.

(** A key service that keeps plaintext and context in the ciphertext, and a vault. *)
Definition json_answer (j : jsval) : res HttpResponse :=
  Ok {| rs_ok := true; rs_status := Int 200; rs_json := Ok j |}.
Definition refuse (type_ : string) : res HttpResponse :=
  Ok {| rs_ok := false; rs_status := Int 400; rs_json := Ok (VObj [("__type", VStr type_)]) |}.
Definition text_of (b : bytes) : string := string_of_list_byte b.

Definition toy_encrypt (body : string) : res HttpResponse :=
  match json_of body with
  | Some (JObj fs) =>
      match field_of fs "Plaintext" with
      | Some (JStr p) => json_answer (VObj [("CiphertextBlob",
          VStr (to_hex (utf8 (json_text (JObj [("p", JStr p); ("c", JObj (context_of fs))])))))])
      | _ => refuse "ValidationException"
      end
  | _ => refuse "SerializationException"
  end.
Definition toy_decrypt (body : string) : res HttpResponse :=
  match json_of body with
  | Some (JObj fs) =>
      match field_of fs "CiphertextBlob" with
      | Some (JStr b) =>
          match json_of (text_of (hexToBytesLocal b)) with
          | Some (JObj [("p", JStr p); ("c", JObj c)]) =>
              if String.eqb (json_text (JObj c)) (json_text (JObj (context_of fs)))
              then json_answer (VObj [("Plaintext", VStr p)]) else refuse "InvalidCiphertextException"
          | _ => refuse "InvalidCiphertextException"
          end
      | _ => refuse "ValidationException"
      end
  | _ => refuse "SerializationException"
  end.
Definition toy_vault (url : string) : res HttpResponse :=
  if contains url "/oauth2/"
  then json_answer (VObj [("access_token", VStr "tok"); ("expires_in", VNum (Int 3600))]) else
  if contains url "/wrapkey?" || contains url "/unwrapkey?"
  then json_answer (VObj [("value", VStr "0102")]) else
  json_answer (VObj [("key", VObj [("kid", VStr "https://v/keys/k/1")])]).

Definition toy_fetch (r : HttpRequest) : res HttpResponse :=
  let target := header_value (rq_headers r) "x-amz-target" in
  match rq_body r with
  | Some body =>
      if bool_decide (target = "TrentService.Encrypt") then toy_encrypt body else
      if bool_decide (target = "TrentService.Decrypt") then toy_decrypt body else toy_vault (rq_url r)
  | None => toy_vault (rq_url r)
  end.

#[export] Instance toy_platform : Platform := {|
  fetch := toy_fetch; sha256 := toy_hash; hmac_sha256 := fun k m => k ++ x00 :: m;
  b64Encode := to_hex; b64Decode := hexToBytesLocal; b64uEncode := to_hex; b64uDecode := hexToBytesLocal;
  url_host := fun s => Ok s; Number_of := fun _ => NaN |}.

#[export] Instance toy_platform_laws : PlatformLaws.
Proof. split. apply hexToBytesLocal_to_hex. Qed.

Definition toy_aws : AwsKmsSealer := {|
  as_config := {| ak_region := "us-east-2"; ak_accessKeyId := "AKID"; ak_secretAccessKey := "secret";
                  ak_keyId := "k1"; ak_sessionToken := None; ak_endpoint := None |};
  as_endpoint := "https://kms"; as_host := "kms" |}.

Lemma header_value_one l1 l2 k v : k ∉ map fst (l1 ++ l2) -> header_value (l1 ++ (k, v) :: l2) k = v.
Proof.
  unfold header_value. induction l1 as [|[k' v'] l1 IH]; cbn [app map fst find]; intros N.
  - by rewrite bool_decide_true.
  - apply not_elem_of_cons in N as [N N']. rewrite bool_decide_false by (by symmetry). by apply IH.
Qed.

Lemma toy_answers r target fs k v : kms_request r target fs -> answers r k v ->
  exists rs j, (if bool_decide (target = "TrentService.Encrypt") then toy_encrypt (json_text (JObj fs)) else
      if bool_decide (target = "TrentService.Decrypt") then toy_decrypt (json_text (JObj fs))
      else toy_vault (rq_url r)) = Ok rs /\ rs_ok rs = true /\ rs_json rs = Ok j /\ str_field j k = Some v.
Proof.
  intros [_ (l1 & l2 & H & N) B] (rs & j & F & A). exists rs, j. split; [|done].
  change (toy_fetch r = Ok rs) in F. unfold toy_fetch in F. rewrite B, H, header_value_one in F; done.
Qed.

Lemma json_text_inj v w : json_text v = json_text w -> v = w.
Proof. intros E. apply (f_equal json_of) in E. rewrite !json_of_text in E. congruence. Qed.

#[export] Instance toy_kms : KmsService.
Proof.
  split. intros re fe rd fd plain ct blob pt Re Pe Ae Rd Bd Eb Ad.
  apply (toy_answers _ _ _ _ _ Re) in Ae as (rs & j & Fe & _ & Je & Se).
  apply (toy_answers _ _ _ _ _ Rd) in Ad as (rs' & j' & Fd & Od & Jd & Sd).
  rewrite bool_decide_true in Fe by done.
  rewrite bool_decide_false, bool_decide_true in Fd by done.
  unfold toy_encrypt in Fe. rewrite json_of_text, Pe in Fe. injection Fe as <-. injection Je as <-.
  injection Se as <-. unfold toy_decrypt in Fd. rewrite json_of_text, Bd in Fd.
  change (hexToBytesLocal blob = hexToBytesLocal (to_hex (utf8 (json_text (JObj
    [("p", JStr plain); ("c", JObj (context_of fe))]))))) in Eb.
  rewrite Eb, hexToBytesLocal_to_hex in Fd. unfold text_of, utf8 in Fd.
  rewrite string_of_list_byte_of_string, json_of_text in Fd.
  destruct (String.eqb_spec (json_text (JObj (context_of fe))) (json_text (JObj (context_of fd)))) as [T|];
    injection Fd as <-; [|done].
  apply json_text_inj in T. injection T as ->. injection Jd as <-. injection Sd as <-. done.
Qed.

Definition toy_time := "2020-01-01T00:00:00.000Z".
Definition toy_input (body : string) : SigV4Input := {|
  sv_host := "kms"; sv_region := "us-east-2"; sv_service := "kms"; sv_target := "TrentService.Encrypt";
  sv_body := body; sv_accessKeyId := "AKID"; sv_secretAccessKey := "secret"; sv_sessionToken := None;
  sv_amzDate := amzDate toy_time |}.

Example custody_runs :
  amzDate toy_time = "20200101T000000Z" /\
  signedHeaders (toy_input "{}") = "content-type;host;x-amz-date;x-amz-target" /\
  strip_slashes "https://v//" = "https://v" /\
  json_text (JObj [("a", JStr (nl +:+ quoted "x"))]) =
    "{" +:+ quoted "a" +:+ ":" +:+ quoted ("\n\" +:+ quoted "x\") +:+ "}" /\
  is_ok (awsKmsSealerFromEnv ∅) = false /\ is_ok (pkcs11SealerFromEnv ∅ true) = false /\
  (w ← aws_wrap toy_aws toy_time [x01; xff] (Some [x02]); aws_unwrap toy_aws toy_time w (Some [x02])) = Ok [x01; xff] /\
  is_ok (w ← aws_wrap toy_aws toy_time [x01; xff] (Some [x02]); aws_unwrap toy_aws toy_time w (Some [x03])) = false.
Proof. vm_compute. repeat split; reflexivity. Qed.

Lemma one_line_toy body : one_line (toy_input body).
Proof. constructor; first [apply free_literal; vm_compute; reflexivity | intros t H; discriminate H]. Qed.

(** The access key id is not part of what is signed, and an empty session token
    is none. *)
Definition other_input (body : string) : SigV4Input := {|
  sv_host := "kms"; sv_region := "us-east-2"; sv_service := "kms"; sv_target := "TrentService.Encrypt";
  sv_body := body; sv_accessKeyId := "AKID2"; sv_secretAccessKey := "secret"; sv_sessionToken := Some "";
  sv_amzDate := amzDate toy_time |}.

Lemma one_line_other body : one_line (other_input body).
Proof.
  constructor; try (apply free_literal; vm_compute; reflexivity).
  intros t H. injection H as <-. apply free_literal. vm_compute. reflexivity.
Qed.

Definition toy_macs : list (bytes * bytes) := mac_inputs (toy_input "{}") ++ mac_inputs (other_input "{}").
Definition toy_shas : list bytes := sha_inputs (toy_input "{}") ++ sha_inputs (other_input "{}").

Lemma toy_no_collision : ~ mac_collision toy_macs /\ ~ sha_collision toy_shas.
Proof.
  assert (M : forallb (fun a => forallb (fun b => implb (bool_decide (hmac_sha256 a.1 a.2 = hmac_sha256 b.1 b.2))
    (bool_decide (a = b))) toy_macs) toy_macs = true) by (vm_compute; reflexivity).
  assert (S : forallb (fun a => forallb (fun b => implb (bool_decide (sha256 a = sha256 b))
    (bool_decide (a = b))) toy_shas) toy_shas = true) by (vm_compute; reflexivity).
  rewrite forallb_forall in M, S. split.
  - intros (a & b & A%list_elem_of_In & B%list_elem_of_In & N & E). apply N.
    pose proof (proj1 (forallb_forall _ _) (M a A) b B) as Q. cbv beta in Q.
    rewrite implb_true_iff, !bool_decide_eq_true in Q. by apply Q.
  - intros (a & b & A%list_elem_of_In & B%list_elem_of_In & N & E). apply N.
    pose proof (proj1 (forallb_forall _ _) (S a A) b B) as Q. cbv beta in Q.
    rewrite implb_true_iff, !bool_decide_eq_true in Q. by apply Q.
Qed.

Lemma sigv4_binding_witness :
  toy_input "{}" <> other_input "{}" /\ sv_body (toy_input "{}") = sv_body (other_input "{}") /\
  date_key (toy_input "{}") = date_key (other_input "{}").
Proof.
  split; [discriminate|].
  destruct (sigv4_binding (toy_input "{}") (other_input "{}") (one_line_toy _) (one_line_other _))
    as [(K & _ & _ & _ & _ & _ & _ & B)|[B|B]].
  - vm_compute. reflexivity.
  - exact (conj B K).
  - destruct (proj1 toy_no_collision B).
  - destruct (proj2 toy_no_collision B).
Defined.

Definition toy_blob : bytes := Eval vm_compute in
  match aws_wrap toy_aws toy_time [x01; xff] (Some [x02]) with Ok w => w | _ => [] end.

Lemma aws_authenticates_witness : Some [x02] = Some [x02] /\ [x01; xff] = [x01; xff].
Proof.
  apply (aws_authenticates toy_aws toy_time toy_time [x01; xff] (Some [x02]) toy_blob); vm_compute; reflexivity.
Defined.

Definition toy_azure : ResolvedConfig := {|
  rc_tenantId := "t"; rc_clientId := "c"; rc_clientSecret := "s"; rc_vaultUrl := "https://v";
  rc_keyName := "k"; rc_apiVersion := "7.4"; rc_authHost := "https://login" |}.
Definition no_form (l : list (string * string)) : string := "form".
Definition warm : AzureCaches := (az_wrap toy_azure no_form (Int 0) (Int 0) [x01] no_caches).1.

Example azure_runs :
  warm = {| az_token := Some ("tok", Int 3600000); az_kid := Some "https://v/keys/k/1" |} /\
  (az_unwrap toy_azure no_form (Int 5) (Int 5) [x01] warm) = (warm, Ok [x01; x02]).
Proof. vm_compute. split; reflexivity. Qed.

Lemma key_version_pinned_witness : az_kid warm = Some "https://v/keys/k/1" /\
  exists s' r, op toy_azure no_form (Int 5) (Int 5) "unwrapkey" [x01] warm = (s', r) /\ az_kid s' = az_kid warm.
Proof.
  split; [vm_compute; reflexivity|].
  destruct (op toy_azure no_form (Int 5) (Int 5) "unwrapkey" [x01] warm) as [s' r] eqn:E.
  exists s', r. split; [reflexivity|].
  destruct (key_version_pinned toy_azure no_form _ _ _ _ _ _ _ E) as [_ H].
  destruct (H "https://v/keys/k/1") as [A _]; [vm_compute; reflexivity|].
  rewrite A. vm_compute. reflexivity.
Defined.

Definition azure_started : Vault * outcome := Eval vm_compute in
  azure_load toy_sealed (Some (sl_publicKey toy_sealed)) (run "azure-kv" false []).
Definition awaited (o : outcome) : sealer_call := match o with waits _ c => c | _ => call_wrap [] [] end.
Definition azure_finished : Vault * outcome := Eval vm_compute in
  resume "azure-kv" false 0 (Ok (toy_rnd x07 (Int 32))) azure_started.1.

Lemma azure_key_authentic_witness : exists t e, Some (sl_publicKey toy_sealed) = Some t /\
  unlocked azure_finished.1 !! "issuer" = Some e /\ e_public e = t /\
  {| ref_provider := "azure-kv"; ref_id := "issuer" |} = {| ref_provider := "azure-kv"; ref_id := "issuer" |}.
Proof.
  apply (azure_key_authentic "azure-kv" false [] toy_sealed (Some (sl_publicKey toy_sealed)) azure_started.1 0
    (awaited azure_started.2) (Ok (toy_rnd x07 (Int 32))) azure_finished.1); vm_compute; reflexivity.
Defined.
