(* ===== verification/Negative.v ===== *)
(** * conformance/: the negative oracle

    src/conformance/src/negative.ts: side data injected into the [params] of an
    intent must not change the decision.  The function under test is a
    parameter, as in the source; the vectors file is its argument. *)
From S2P Require Import Prelude JsNum JsVal Crypto Concrete Grant Capability Kernel.
Open Scope string_scope.
Open Scope Z_scope.
Open Scope list_scope.

Record Divergence := { div_field : string; div_got : string }.
Record NegativeVerdict := {
  invariant : bool;
  fieldsTested : Z;
  divergences : list Divergence }.

(** [o[k] = v] on the entries of an object: an existing key keeps its place. *)
Fixpoint obj_set (fs : list (string * jsval)) (k : string) (v : jsval) : list (string * jsval) :=
  match fs with
  | [] => [(k, v)]
  | (k', w) :: fs' => if bool_decide (k' = k) then (k', v) :: fs' else (k', w) :: obj_set fs' k v
  end.

(** The entries [...x] copies from a params object, or from nothing. *)
Definition entries_of (p : option jsval) : list (string * jsval) :=
  match p with Some (VObj fs) => fs | _ => [] end.

Definition with_params (base : KernelInput) (p : jsval) : KernelInput :=
  let i := intent base in
  {| intent := {| type_ := type_ i; resource := resource i; counterparty := counterparty i;
                  amount := amount i; params := Some p |};
     capabilities := capabilities base; policy := policy base; trustedRoots := trustedRoots base;
     in_now := in_now base; in_observedAggregate := in_observedAggregate base;
     in_holder := in_holder base; in_revoked := in_revoked base |}.

Definition inject (base : KernelInput) (extra : list (string * jsval)) : KernelInput :=
  with_params base
    (VObj (fold_left (fun fs kv => obj_set fs kv.1 kv.2) extra (entries_of (params (intent base))))).

Section oracle.
Context {L : Lib}.

Definition fingerprint_val (d : Decision) : jsval :=
  VArr [VStr (effect_str (effect d)); tier_val (dec_tier d); VStrs (reasons d); VStrs (obligations d);
        VStr (dec_evaluatorVersion d)].

Definition fingerprint (d : Decision) : res string :=
  b ← encodeCanonical (fingerprint_val d); Ok (bytesToHex b).

Section run.
Context (decideFn : KernelInput -> Decision).

(** The loop over the fields. *)
Fixpoint oracle_loop (base : KernelInput) (baseline : string) (fields : list (string * jsval))
  : res (list Divergence) :=
  match fields with
  | [] => Ok []
  | (name, value) :: fields' =>
      got ← fingerprint (decideFn (inject base [(name, value)]));
      rest ← oracle_loop base baseline fields';
      Ok ((if bool_decide (got = baseline) then [] else [{| div_field := name; div_got := got |}]) ++ rest)
  end.

Definition runNegativeOracle (base : KernelInput) (fields : list (string * jsval)) : res NegativeVerdict :=
  baseline ← fingerprint (decideFn base);
  single ← oracle_loop base baseline fields;
  all ← fingerprint (decideFn (inject base fields));
  let ds := single ++ (if bool_decide (all = baseline) then []
                       else [{| div_field := "<all-fields>"; div_got := all |}]) in
  Ok {| invariant := bool_decide (ds = []); fieldsTested := Z.of_nat (length fields) + 1;
        divergences := ds |}.

(** ** Lemmas *)
Lemma fingerprint_inj {CL : CborLaws L} {HL : HexLaws L} d d' f :
  fingerprint d = Ok f -> fingerprint d' = Ok f -> d = d'.
Proof.
  unfold fingerprint. intros (b & Eb & E)%bind_ok (b' & Eb' & E')%bind_ok.
  apply Ok_inj in E as <-. apply Ok_inj in E'. apply bytesToHex_inj in E' as ->.
  assert (S : same_enc (fingerprint_val d) (fingerprint_val d')) by by exists b.
  apply cbor_arr in S. split_fields S. destruct d as [e t r o v], d' as [e' t' r' o' v']; cbn in *.
  repeat match goal with
  | H : same_enc (VStr _) (VStr _) |- _ => apply cbor_str in H
  | H : same_enc (VStrs _) (VStrs _) |- _ => apply same_strs in H
  | H : same_enc (tier_val _) (tier_val _) |- _ => apply cbor_num in H; [|by destruct t | by destruct t'] end.
  subst. assert (e = e') as -> by by destruct e, e'. assert (t = t') as -> by by destruct t, t'. done.
Qed.

Lemma oracle_loop_ok base baseline fields ds : oracle_loop base baseline fields = Ok ds ->
  ds = [] <-> forall k v, (k, v) ∈ fields -> fingerprint (decideFn (inject base [(k, v)])) = Ok baseline.
Proof.
  revert ds. induction fields as [|[k v] fields IH]; intros ds E; cbn [oracle_loop] in E.
  - apply Ok_inj in E as <-. split; [by intros _ ? ? ?%elem_of_nil | done].
  - apply bind_ok in E as (got & Eg & E). apply bind_ok in E as (rest & Er & E). apply Ok_inj in E as <-.
    specialize (IH _ Er). case_bool_decide as D; cbn [app].
    + subst got. rewrite IH. split.
      * intros H k' v' [[= -> ->]|Hk]%elem_of_cons; [done | by apply H].
      * intros H k' v' Hk. apply H. by right.
    + split; [done|]. intros H. specialize (H k v (list_elem_of_here _ _)). congruence.
Qed.

Lemma oracle_loop_total base baseline fields :
  (forall k v, (k, v) ∈ fields -> is_ok (fingerprint (decideFn (inject base [(k, v)]))) = true) ->
  exists ds, oracle_loop base baseline fields = Ok ds.
Proof.
  induction fields as [|[k v] fields IH]; intros H; cbn [oracle_loop]; [by eexists|].
  specialize (H k v (list_elem_of_here _ _)) as Hk. destruct (fingerprint _) as [got|]; [|done].
  cbn [mbind res_bind]. destruct IH as [ds ->]; [intros k' v' Hk'; apply H; by right|]. by eexists.
Qed.

Lemma runNegativeOracle_ok {CL : CborLaws L} {HL : HexLaws L} base fields v :
  runNegativeOracle base fields = Ok v -> fieldsTested v = Z.of_nat (length fields) + 1 /\
  (invariant v = true <-> divergences v = []) /\
  (invariant v = true <-> decideFn (inject base fields) = decideFn base /\
     forall k x, (k, x) ∈ fields -> decideFn (inject base [(k, x)]) = decideFn base).
Proof.
  unfold runNegativeOracle. intros (bl & Eb & E)%bind_ok. apply bind_ok in E as (ds & Ed & E).
  apply bind_ok in E as (al & Ea & E). apply Ok_inj in E as <-. cbn [fieldsTested invariant divergences].
  split; [done|]. split; [by rewrite bool_decide_eq_true|].
  pose proof (oracle_loop_ok _ _ _ _ Ed) as Hd.
  rewrite bool_decide_eq_true. assert (X : ds ++ (if bool_decide (al = bl) then []
    else [{| div_field := "<all-fields>"; div_got := al |}]) = [] <-> ds = [] /\ al = bl).
  { case_bool_decide as D; [rewrite app_nil_r; tauto|]. split; [by intros [_ ?]%app_eq_nil | by intros [_ ?]]. }
  rewrite X, Hd. split.
  - intros [H ->]. split; [by eapply fingerprint_inj|]. intros k x Hk. eapply fingerprint_inj; [by apply H | done].
  - intros [A B]. rewrite A in Ea. split; [|congruence]. intros k x Hk. by rewrite B.
Qed.
End run.

(** ** Properties *)
(** The oracle decides what it tests: when it returns, it reports [invariant],
    and no divergence, exactly when the function under test gives the same
    decision, in every field, for the baseline, for each vector injected alone and for
    all of them together. *)
Theorem negative_oracle_exact {CL : CborLaws L} {HL : HexLaws L} decideFn base fields v :
  runNegativeOracle decideFn base fields = Ok v -> fieldsTested v = Z.of_nat (length fields) + 1 /\
  (invariant v = true <-> divergences v = []) /\
  (invariant v = true <-> decideFn (inject base fields) = decideFn base /\
     forall k x, (k, x) ∈ fields -> decideFn (inject base [(k, x)]) = decideFn base).
Proof. exact (runNegativeOracle_ok _ _ _ _). Qed.

Lemma decide_params base p : decide (with_params base p) = decide base.
Proof. done. Qed.

Lemma oracle_passes base fields f : fingerprint (decide base) = Ok f ->
  runNegativeOracle decide base fields =
    Ok {| invariant := true; fieldsTested := Z.of_nat (length fields) + 1; divergences := [] |}.
Proof.
  intros E. unfold runNegativeOracle. rewrite E. cbn [mbind res_bind].
  assert (oracle_loop decide base f fields = Ok []) as ->.
  { induction fields as [|[k v] fields IH]; [done|]. cbn [oracle_loop]. unfold inject.
    rewrite decide_params, E. cbn [mbind res_bind]. rewrite IH. cbn [mbind res_bind].
    by rewrite bool_decide_true. }
  unfold inject. rewrite decide_params. cbn [mbind res_bind]. rewrite E. cbn [mbind res_bind].
  by rewrite (bool_decide_true (f = f)).
Qed.

(** The kernel passes it, whatever the vectors: its decision does not read the
    params of an intent, so whenever the baseline's fingerprint can be computed
    the oracle returns, and reports no divergence. *)
Theorem kernel_passes_oracle base fields f : fingerprint (decide base) = Ok f ->
  runNegativeOracle decide base fields =
    Ok {| invariant := true; fieldsTested := Z.of_nat (length fields) + 1; divergences := [] |}.
Proof. apply oracle_passes. Qed.
End oracle.

(** ** Runs *)
Definition side_data : list (string * jsval) := [("gaze", VNum (Int 1)); ("image", VBytes [x01; x02])].
(** A kernel that looks at the params. *)
Definition peeking (i : KernelInput) : Decision :=
  match get (default VNull (params (intent i))) "gaze" with
  | Some _ => decision (safeFallbackDeny "" "")
  | None => decide i
  end.

Example oracle_runs :
  runNegativeOracle decide sample_delete side_data =
    Ok {| invariant := true; fieldsTested := 3; divergences := [] |} /\
  match runNegativeOracle peeking sample_delete side_data with
  | Ok v => map div_field (divergences v) = ["gaze"; "<all-fields>"] /\ invariant v = false
  | _ => False end.
Proof. vm_compute. repeat split; reflexivity. Qed.

Lemma negative_oracle_exact_witness : exists v, runNegativeOracle peeking sample_delete side_data = Ok v /\
  (invariant v = true <-> divergences v = []).
Proof.
  destruct (runNegativeOracle peeking sample_delete side_data) as [v|] eqn:E; [|vm_compute in E; discriminate E].
  exists v. split; [reflexivity|]. apply (negative_oracle_exact peeking sample_delete side_data v E).
Defined.

Lemma kernel_passes_oracle_witness :
  runNegativeOracle decide sample_delete side_data =
    Ok {| invariant := true; fieldsTested := Z.of_nat (length side_data) + 1; divergences := [] |}.
Proof.
  destruct (fingerprint (decide sample_delete)) as [f|] eqn:E; [|vm_compute in E; discriminate E].
  exact (kernel_passes_oracle sample_delete side_data f E).
Defined.
