(* ===== verification/Cnsa.v ===== *)
(** * CNSA 2.0: classification of a suite, signed verdicts, code-signer ids

    src/crypto/src/cnsa.ts (the classifier), src/conformance/src/cnsa-oracle.ts
    (the verdict and its envelope) and the id registry of
    src/crypto/src/code-sign.ts. *)
From S2P Require Import Prelude JsNum JsVal Crypto Concrete HbsState.
Open Scope string_scope.
Open Scope Z_scope.
Open Scope list_scope.

(** ** cnsa.ts *)
Inductive CnsaStatus := conformant | transitional | non_conformant.
Inductive CnsaComponent := c_signature | c_kem | c_symmetric | c_mac | c_hash.

#[export] Instance CnsaStatus_eq_dec : EqDecision CnsaStatus.
Proof. solve_decision. Defined.
#[export] Instance CnsaComponent_eq_dec : EqDecision CnsaComponent.
Proof. solve_decision. Defined.

Record CnsaFinding := {
  component : CnsaComponent;
  algorithm : string;
  cf_status : CnsaStatus;
  note : string }.

Record CnsaAssessment := {
  ca_suiteId : string;
  ca_conformant : bool;
  pureCnsa : bool;
  ca_findings : list CnsaFinding }.

Definition has (s sub : string) : bool := contains (to_upper s) (to_upper sub).

Definition classifySignature (sigId : string) : CnsaFinding :=
  let c st n := {| component := c_signature; algorithm := sigId; cf_status := st; note := n |} in
  if has sigId "ML-DSA-87"
  then c conformant "ML-DSA-87 (FIPS 204, Cat-5) — CNSA 2.0 signature." else
  if has sigId "SLH-DSA" || has sigId "SPHINCS"
  then c non_conformant "SLH-DSA / SPHINCS+ (FIPS 205) is EXCLUDED from CNSA 2.0." else
  if has sigId "FN-DSA" || has sigId "FALCON"
  then c non_conformant "Falcon / FN-DSA is not a CNSA 2.0 algorithm." else
  if has sigId "HSS" || has sigId "XMSSMT" || has sigId "_MT_" || has sigId "MT-"
  then c non_conformant "HSS / XMSS^MT multi-tree is EXCLUDED by CNSA 2.0; single-tree only." else
  if has sigId "LMS" || has sigId "XMSS"
  then c conformant "single-tree LMS/XMSS (SP 800-208) — CNSA 2.0 code/firmware signing." else
  c non_conformant "Not a CNSA 2.0 signature (CNSA 2.0 = ML-DSA-87, or LMS/XMSS for code signing).".

Definition classifyKem (kemId : string) : CnsaFinding :=
  let c st n := {| component := c_kem; algorithm := kemId; cf_status := st; note := n |} in
  let ml1024 := has kemId "MLKEM1024" || has kemId "ML-KEM-1024" in
  let classical := has kemId "P384" || has kemId "P-384" || has kemId "X25519" || has kemId "X448" in
  if ml1024 && classical
  then c transitional "ML-KEM-1024 (CNSA 2.0) in a classical hybrid; the CNSA 2.0 target is pure ML-KEM-1024." else
  if ml1024 then c conformant "ML-KEM-1024 (FIPS 203, Cat-5) — CNSA 2.0 KEM." else
  if has kemId "MLKEM768" || has kemId "ML-KEM-768"
  then c non_conformant "ML-KEM-768 is not approved; CNSA 2.0 requires ML-KEM-1024." else
  if has kemId "HQC" then c non_conformant "HQC is not a CNSA 2.0 algorithm." else
  c non_conformant "Not a CNSA 2.0 KEM (CNSA 2.0 = ML-KEM-1024).".

Definition classifySymmetric (aeadId : string) : CnsaFinding :=
  if has aeadId "AES-256" || has aeadId "AES256"
  then {| component := c_symmetric; algorithm := aeadId; cf_status := conformant;
          note := "AES-256 (FIPS 197) — CNSA 2.0 symmetric." |}
  else {| component := c_symmetric; algorithm := aeadId; cf_status := non_conformant;
          note := "CNSA 2.0 requires AES-256." |}.

Definition classifyHashLike (id : string) (comp : CnsaComponent) : CnsaFinding :=
  let c st n := {| component := comp; algorithm := id; cf_status := st; note := n |} in
  if has id "SHA-384" || has id "SHA384" || has id "SHA-512" || has id "SHA512"
  then c conformant "SHA-384/512 (FIPS 180-4) — CNSA 2.0 hash." else
  if has id "SHA3" || has id "SHAKE"
  then c transitional "SHA3/SHAKE is FIPS 202 but CNSA 2.0 general-purpose hashing is SHA-384/512 (SHA3 only for internal hardware integrity)." else
  c non_conformant "Not a CNSA 2.0 hash (CNSA 2.0 general hashing = SHA-384/512).".

Definition assessCnsa20 (suite : Suite) : CnsaAssessment :=
  let findings := [
    classifySignature (sigId suite); classifyKem (kemId suite); classifySymmetric (aeadId suite);
    classifyHashLike (macId suite) c_mac; classifyHashLike (hashId suite) c_hash] in
  {| ca_suiteId := suite_id suite;
     ca_conformant := forallb (fun f => negb (bool_decide (cf_status f = non_conformant))) findings;
     pureCnsa := forallb (fun f => bool_decide (cf_status f = conformant)) findings;
     ca_findings := findings |}.

(** ** cnsa-oracle.ts *)
Inductive Severity := HARD | WARN.
#[export] Instance Severity_eq_dec : EqDecision Severity.
Proof. solve_decision. Defined.

Record CnsaVerdictFinding := {
  fieldPath : string;
  value : string;
  severity : Severity;
  reason : string }.

Record CnsaVerdict := {
  target : string;
  cv_suiteId : string;
  cv_conformant : bool;
  level : string;
  cv_findings : list CnsaVerdictFinding;
  ts : num }.

Definition COMPONENT_FIELD (c : CnsaComponent) : string :=
  match c with
  | c_signature => "sigId" | c_kem => "kemId" | c_symmetric => "aeadId"
  | c_mac => "macId" | c_hash => "hashId"
  end.

Definition verdict_finding (f : CnsaFinding) : CnsaVerdictFinding := {|
  fieldPath := COMPONENT_FIELD (component f);
  value := algorithm f;
  severity := if bool_decide (cf_status f = non_conformant) then HARD else WARN;
  reason := note f |}.

(** [assertCnsa] of a suite object; [target_] is the id it was called with, or
    the suite's. *)
Definition assertCnsa (suite : Suite) (target_ : string) (now : num) : CnsaVerdict :=
  let findings := map verdict_finding
    (filter (fun f => cf_status f <> conformant) (ca_findings (assessCnsa20 suite))) in
  let hard := existsb (fun f => bool_decide (severity f = HARD)) findings in
  let warn := existsb (fun f => bool_decide (severity f = WARN)) findings in
  {| target := target_; cv_suiteId := suite_id suite; cv_conformant := negb hard;
     level := if hard then "non-conformant" else
              if warn then "CNSA-2.0-Cat5-transitional" else "CNSA-2.0-Cat5-pure";
     cv_findings := findings; ts := now |}.

(** [assertCnsa] of a suite id; on an inherited member of the registry object
    the classifier throws, reading the fields of what is no suite. *)
Definition assertCnsa_id (id : string) (now : num) : res CnsaVerdict :=
  suite ← getSuite id;
  match suite with
  | Some s => Ok (assertCnsa s id now)
  | None => Throw "Cannot read properties of undefined (reading 'toUpperCase')"
  end.

Definition CNSA_VERDICT_CONTEXT : string := tag "CNSA_VERDICT".

Definition severity_str (s : Severity) : string := match s with HARD => "HARD" | WARN => "WARN" end.
Definition verdict_finding_val (f : CnsaVerdictFinding) : jsval := VObj [
  ("fieldPath", VStr (fieldPath f)); ("value", VStr (value f));
  ("severity", VStr (severity_str (severity f))); ("reason", VStr (reason f))].
Definition verdict_val (v : CnsaVerdict) : jsval := VObj [
  ("target", VStr (target v)); ("suiteId", VStr (cv_suiteId v)); ("conformant", VBool (cv_conformant v));
  ("level", VStr (level v)); ("findings", VArr (map verdict_finding_val (cv_findings v)));
  ("ts", VNum (ts v))].

Section verdicts.
Context {L : Lib}.

Definition signCnsaVerdict (v : CnsaVerdict) (suite : string) (sk : bytes) : res SignedEnvelope :=
  signEnvelope (verdict_val v) suite sk CNSA_VERDICT_CONTEXT.

Definition verifyCnsaVerdict (env : SignedEnvelope) (pk : bytes) (allowed : option (list string)) : bool :=
  bool_decide (env_context env = CNSA_VERDICT_CONTEXT) && verifyEnvelope env pk allowed.

(** An envelope as the object it is. *)
Definition envelope_val (env : SignedEnvelope) : jsval := VObj [
  ("suite", VStr (env_suite env)); ("context", VStr (env_context env));
  ("payload", VBytes (env_payload env)); ("sig", VBytes (env_sig env))].

Definition cnsaVerdictLeaf (env : SignedEnvelope) : res bytes := encodeCanonical (envelope_val env).

(** *** Lemmas on signed envelopes *)
Lemma signEnvelope_ok v suite sk ctx env : signEnvelope v suite sk ctx = Ok env ->
  env_suite env = suite /\ env_context env = ctx /\ encodeCanonical v = Ok (env_payload env) /\
  exists tbs, toBeSigned suite ctx (env_payload env) = Ok tbs /\ suite_sign suite tbs sk = Ok (env_sig env).
Proof.
  unfold signEnvelope, signEnvelopeWith. intros (b & Eb & E)%bind_ok.
  apply bind_ok in E as (tbs & Et & E). apply bind_ok in E as (sg & Es & E).
  apply Ok_inj in E as <-. split_and!; [done..|]. by exists tbs.
Qed.

Definition suite_allowed (allowed : option (list string)) (suite : string) : Prop :=
  match allowed with Some ss => suite ∈ ss | None => True end.

(** The allow-list test of [verifyEnvelope] *)
Definition blocked (allowed : option (list string)) (suite : string) : bool :=
  match allowed with Some ss => negb (includes ss suite) | None => false end.
Lemma blocked_false allowed suite : blocked allowed suite = false <-> suite_allowed allowed suite.
Proof. destruct allowed; [|done]. cbn. by rewrite negb_false_iff, includes_spec. Qed.

Lemma verifyEnvelope_true env pk allowed : verifyEnvelope env pk allowed = true <->
  suite_allowed allowed (env_suite env) /\
  exists tbs, toBeSigned (env_suite env) (env_context env) (env_payload env) = Ok tbs /\
    suite_verify (env_suite env) (env_sig env) tbs pk = Ok true.
Proof.
  unfold verifyEnvelope, suite_verify. rewrite <- blocked_false.
  destruct (blocked allowed (env_suite env)) eqn:B; unfold blocked in B; rewrite B;
    [by split; [|intros [? _]]|]. rewrite try_catch_true.
  transitivity (false = false /\
    (signer ← signerFor (env_suite env);
     tbs ← toBeSigned (env_suite env) (env_context env) (env_payload env);
     scheme_verify signer (env_sig env) tbs pk None) = Ok true); [tauto|].
  apply and_iff_compat_l. split.
  - intros (s & -> & E)%bind_ok. apply bind_ok in E as (tbs & Et & E). by exists tbs.
  - intros (tbs & Et & (s & -> & E)%bind_ok). cbn [mbind res_bind]. by rewrite Et.
Qed.

(** What is signed for a context verifies in it, and its payload is the signed
    value. *)
Lemma signEnvelope_verifies `{!SigLaws L kpr} v suite pk sk ctx env allowed :
  suite ∈ activeSuiteIds -> kpr pk sk -> suite_allowed allowed suite ->
  signEnvelope v suite sk ctx = Ok env ->
  env_context env = ctx /\ encodeCanonical v = Ok (env_payload env) /\ verifyEnvelope env pk allowed = true.
Proof.
  intros A K Ha (<- & <- & Ep & tbs & Et & Es)%signEnvelope_ok. split_and!; [done..|].
  apply verifyEnvelope_true. split; [done|]. exists tbs. split; [done|].
  by apply (suite_sign_verify (kpr := kpr) _ _ _ _ _ A K Es).
Qed.

Lemma envelope_tbs_inj {CL : CborLaws L} s c p s' c' p' b :
  toBeSigned s c p = Ok b -> toBeSigned s' c' p' = Ok b -> s = s' /\ c = c' /\ p = p'.
Proof.
  unfold toBeSigned, encodeCanonical. intros E F.
  assert (S : same_enc (VArr [VStr (tag "ENVELOPE_SIGNED"); VStr s; VStr c; VBytes p])
    (VArr [VStr (tag "ENVELOPE_SIGNED"); VStr s'; VStr c'; VBytes p'])) by by exists b.
  apply cbor_arr in S. split_fields S.
  repeat match goal with
  | H : same_enc (VStr _) (VStr _) |- _ => apply cbor_str in H
  | H : same_enc (VBytes _) (VBytes _) |- _ => apply cbor_bytes in H end. done.
Qed.

(** Two envelopes with one signature that verify under a key are equal, or the
    scheme accepts the signature for two byte strings. *)
Lemma envelope_accept_twice {CL : CborLaws L} env env' pk allowed allowed' :
  verifyEnvelope env pk allowed = true -> verifyEnvelope env' pk allowed' = true ->
  env_sig env' = env_sig env ->
  env' = env \/ exists m m', m <> m' /\ suite_verify (env_suite env) (env_sig env) m pk = Ok true /\
    suite_verify (env_suite env') (env_sig env) m' pk = Ok true.
Proof.
  intros (_ & t & Et & V)%verifyEnvelope_true (_ & t' & Et' & V')%verifyEnvelope_true S.
  rewrite S in V'. destruct (base.decide (t = t')) as [<-|N]; [left | right; by exists t, t'].
  destruct (envelope_tbs_inj _ _ _ _ _ _ _ Et Et') as (? & ? & ?).
  destruct env, env'; cbn in *; congruence.
Qed.
End verdicts.

(** ** code-sign.ts: the id registry *)
Definition CODE_SIG_IDS : list string := ["LMS-SHA256-M24"; "XMSS-SHA2-192"].

(** [getCodeSigner] throws for every id. *)
Definition getCodeSigner (id : string) : string :=
  if MULTI_TREE_ID id then
    id +:+ ": HSS/XMSS^MT multi-tree is EXCLUDED by CNSA 2.0; single-tree LMS/XMSS only"
  else NotImplementedError ("LMS/XMSS code-signer " +:+ id)
    "a FIPS 140-3 L3+ SP 800-208 module wired through the keystore HbsKeyProvider + HbsSignEngine".

Definition implementedCodeSigIds : list string := [].

(** ** What the classifier decides *)
(** The id, its letters in upper case, has one of the names in it. *)
Definition occurs (id n : string) : Prop := exists a b, to_upper id = (a +:+ n +:+ b)%string.
Definition one_of (id : string) (names : list string) : Prop := Exists (occurs id) names.

Definition sig_approved (id : string) : Prop :=
  occurs id "ML-DSA-87" \/
  one_of id ["LMS"; "XMSS"] /\
  ~ one_of id ["SLH-DSA"; "SPHINCS"; "FN-DSA"; "FALCON"; "HSS"; "XMSSMT"; "_MT_"; "MT-"].
Definition kem_approved (id : string) : Prop := one_of id ["MLKEM1024"; "ML-KEM-1024"].
Definition kem_hybrid (id : string) : Prop := one_of id ["P384"; "P-384"; "X25519"; "X448"].
Definition aead_approved (id : string) : Prop := one_of id ["AES-256"; "AES256"].
Definition sha2 (id : string) : Prop := one_of id ["SHA-384"; "SHA384"; "SHA-512"; "SHA512"].
Definition sha3 (id : string) : Prop := one_of id ["SHA3"; "SHAKE"].

Lemma has_occurs id n : to_upper n = n -> has id n = true <-> occurs id n.
Proof. intros E. unfold has. by rewrite E, contains_iff. Qed.

Lemma existsb_one_of id names : Forall (fun n => to_upper n = n) names ->
  existsb (has id) names = true <-> one_of id names.
Proof.
  intros U. unfold one_of. rewrite existsb_exists, Exists_exists. rewrite Forall_forall in U.
  split; intros (n & Hn & E); exists n.
  - apply list_elem_of_In in Hn. split; [done|]. apply has_occurs; auto.
  - split; [by apply list_elem_of_In|]. apply has_occurs; auto.
Qed.

(** Turns the names of a statement into the tests of the code. *)
Ltac by_names :=
  rewrite <- ?(fun id n => has_occurs id n) by reflexivity;
  rewrite <- ?existsb_one_of by (repeat constructor);
  cbn [existsb]; rewrite ?orb_false_r, ?orb_assoc.

(** The status of each component, as the names decide it. *)
Lemma signature_status id :
  cf_status (classifySignature id) = conformant <-> sig_approved id.
Proof.
  unfold sig_approved. by_names. unfold classifySignature.
  destruct (has id "ML-DSA-87"); [cbn; tauto|].
  destruct (has id "SLH-DSA" || has id "SPHINCS"); [by split; [|intros [|[_ []]]]|].
  cbn [orb].
  destruct (has id "FN-DSA" || has id "FALCON"); [by split; [|intros [|[_ []]]]|]. cbn [orb].
  destruct (has id "HSS" || has id "XMSSMT" || has id "_MT_" || has id "MT-");
    [by split; [|intros [|[_ []]]]|].
  destruct (has id "LMS" || has id "XMSS"); split; try done; [by right; split | by intros [|[? _]]].
Qed.

Lemma kem_status id :
  (cf_status (classifyKem id) <> non_conformant <-> kem_approved id) /\
  (cf_status (classifyKem id) = conformant <-> kem_approved id /\ ~ kem_hybrid id).
Proof.
  unfold kem_approved, kem_hybrid. by_names. unfold classifyKem.
  destruct (has id "MLKEM1024" || has id "ML-KEM-1024"); cbn [andb].
  - destruct (has id "P384" || has id "P-384" || has id "X25519" || has id "X448");
      (split; split; try done; by intros [_ []]).
  - repeat case_match; split; split; try done; try (intros []; done); by intros [? _].
Qed.

Lemma symmetric_status id :
  (cf_status (classifySymmetric id) <> non_conformant <-> aead_approved id) /\
  (cf_status (classifySymmetric id) = conformant <-> aead_approved id).
Proof.
  unfold aead_approved. by_names. unfold classifySymmetric.
  destruct (has id "AES-256" || has id "AES256"); split; split; try done; intros []; done.
Qed.

Lemma hash_status id c :
  (cf_status (classifyHashLike id c) <> non_conformant <-> sha2 id \/ sha3 id) /\
  (cf_status (classifyHashLike id c) = conformant <-> sha2 id).
Proof.
  unfold sha2, sha3. by_names. unfold classifyHashLike.
  destruct (has id "SHA-384" || has id "SHA384" || has id "SHA-512" || has id "SHA512").
  - split; split; try done. by left.
  - destruct (has id "SHA3" || has id "SHAKE"); split; split; try done; first [by right | by intros [|] | by intros []].
Qed.

Definition suite_conformant (s : Suite) : Prop :=
  sig_approved (sigId s) /\ kem_approved (kemId s) /\ aead_approved (aeadId s) /\
  (sha2 (macId s) \/ sha3 (macId s)) /\ (sha2 (hashId s) \/ sha3 (hashId s)).
Definition suite_pure (s : Suite) : Prop :=
  sig_approved (sigId s) /\ (kem_approved (kemId s) /\ ~ kem_hybrid (kemId s)) /\
  aead_approved (aeadId s) /\ sha2 (macId s) /\ sha2 (hashId s).

Lemma signature_binary id : cf_status (classifySignature id) <> non_conformant <->
  cf_status (classifySignature id) = conformant.
Proof. unfold classifySignature. repeat case_match; cbn; split; congruence. Qed.

Lemma assess_conformant s : ca_conformant (assessCnsa20 s) = true <-> suite_conformant s.
Proof.
  unfold assessCnsa20, suite_conformant. cbn [ca_conformant forallb].
  rewrite !andb_true_iff, !negb_true_iff, !bool_decide_eq_false.
  rewrite signature_binary, signature_status, (proj1 (kem_status _)), (proj1 (symmetric_status _)).
  rewrite !(proj1 (hash_status _ _)). tauto.
Qed.

Lemma assess_pure s : pureCnsa (assessCnsa20 s) = true <-> suite_pure s.
Proof.
  unfold assessCnsa20, suite_pure. cbn [pureCnsa forallb].
  rewrite !andb_true_iff, !bool_decide_eq_true.
  rewrite signature_status, (proj2 (kem_status _)), (proj2 (symmetric_status _)).
  rewrite !(proj2 (hash_status _ _)). tauto.
Qed.

(** *** Verdicts *)
Lemma severity_hard f : severity (verdict_finding f) = HARD <-> cf_status f = non_conformant.
Proof. unfold verdict_finding; cbn. case_bool_decide; by split. Qed.

Lemma hard_iff s : existsb (fun f => bool_decide (severity f = HARD))
    (map verdict_finding (filter (fun f => cf_status f <> conformant) (ca_findings (assessCnsa20 s)))) = false <->
  suite_conformant s.
Proof.
  rewrite <- assess_conformant. change (ca_conformant (assessCnsa20 s)) with
    (forallb (fun f => negb (bool_decide (cf_status f = non_conformant))) (ca_findings (assessCnsa20 s))).
  rewrite forallb_forall, <- not_true_iff_false, existsb_exists. split.
  - intros N f Hf. apply negb_true_iff, bool_decide_eq_false. intros E. apply N.
    exists (verdict_finding f). split; [|by apply bool_decide_eq_true, severity_hard].
    apply in_map, list_elem_of_In, list_elem_of_filter. rewrite E. split; [done | by apply list_elem_of_In].
  - intros A (v & Hv & E). apply bool_decide_eq_true in E. apply in_map_iff in Hv as (f & <- & Hf).
    apply severity_hard in E. apply list_elem_of_In, list_elem_of_filter in Hf as [_ Hf].
    apply list_elem_of_In, A in Hf. by rewrite E in Hf.
Qed.

(** The field of a suite a finding points to. *)
Definition suite_field (s : Suite) (path : string) : option string :=
  if bool_decide (path = "sigId") then Some (sigId s) else
  if bool_decide (path = "kemId") then Some (kemId s) else
  if bool_decide (path = "aeadId") then Some (aeadId s) else
  if bool_decide (path = "macId") then Some (macId s) else
  if bool_decide (path = "hashId") then Some (hashId s) else None.

Lemma verdict_findings s t now f : f ∈ cv_findings (assertCnsa s t now) <->
  exists g, g ∈ ca_findings (assessCnsa20 s) /\ cf_status g <> conformant /\ f = verdict_finding g.
Proof.
  cbn [assertCnsa cv_findings]. rewrite list_elem_of_In, in_map_iff. split.
  - intros (g & <- & Hg). apply list_elem_of_In, list_elem_of_filter in Hg as [? ?]. by exists g.
  - intros (g & Hg & N & ->). exists g. split; [done|].
    by apply list_elem_of_In, list_elem_of_filter.
Qed.

Lemma no_findings s t now : cv_findings (assertCnsa s t now) = [] <-> suite_pure s.
Proof.
  rewrite <- assess_pure. change (pureCnsa (assessCnsa20 s)) with
    (forallb (fun f => bool_decide (cf_status f = conformant)) (ca_findings (assessCnsa20 s))).
  rewrite forallb_forall. split.
  - intros E g Hg. apply bool_decide_eq_true. destruct (base.decide (cf_status g = conformant)) as [|N]; [done|].
    assert (H : verdict_finding g ∈ cv_findings (assertCnsa s t now)).
    { apply verdict_findings. exists g. split; [by apply list_elem_of_In | done]. }
    by rewrite E in H; apply elem_of_nil in H.
  - intros A. destruct (cv_findings _) as [|f fs] eqn:E; [done|]. exfalso.
    assert (H : f ∈ cv_findings (assertCnsa s t now)) by (rewrite E; left).
    apply verdict_findings in H as (g & Hg & N & _). apply list_elem_of_In, A, bool_decide_eq_true in Hg. done.
Qed.

Lemma no_warn fs : existsb (fun f => bool_decide (severity f = HARD)) fs = false ->
  existsb (fun f => bool_decide (severity f = WARN)) fs = false <-> fs = [].
Proof.
  destruct fs as [|f l]; [done|]. cbn. intros [H _]%orb_false_iff. split; [|done].
  intros [W _]%orb_false_iff. by destruct (severity f).
Qed.

(** How the level is read off the findings. *)
Lemma level_cases (hard warn : bool) (C P : Prop) :
  (hard = false <-> C) -> (P -> C) -> (hard = false -> warn = false <-> P) ->
  let lev := if hard then "non-conformant" else
             if warn then "CNSA-2.0-Cat5-transitional" else "CNSA-2.0-Cat5-pure" in
  (negb hard = true <-> C) /\ (lev = "CNSA-2.0-Cat5-pure" <-> P) /\
  (lev = "CNSA-2.0-Cat5-transitional" <-> C /\ ~ P) /\ (lev = "non-conformant" <-> negb hard = false).
Proof.
  intros HC HP HW. destruct hard, warn; cbn; rewrite <- HC; split_and!; try (by split; [|intros []]);
    try (specialize (HW eq_refl); rewrite <- HW; by split; [|intros []]); try tauto; naive_solver.
Qed.

(** ** Properties *)
(** What a verdict certifies.  It is conformant exactly when the signature id
    names ML-DSA-87, or LMS or XMSS and none of the excluded schemes, the KEM id
    names ML-KEM-1024, the AEAD id AES-256 and the MAC and hash ids a SHA-2 of 384
    or 512 bits or SHA-3; its level is pure exactly when moreover the KEM is no
    classical hybrid and the hashes are SHA-2, transitional when it is
    conformant and not pure; and a finding names a field of the suite with its
    value, there being none exactly at the pure level. *)
Theorem cnsa_verdict_spec s t now : let v := assertCnsa s t now in
  (cv_conformant v = true <-> suite_conformant s) /\
  (level v = "CNSA-2.0-Cat5-pure" <-> suite_pure s) /\
  (level v = "CNSA-2.0-Cat5-transitional" <-> suite_conformant s /\ ~ suite_pure s) /\
  (level v = "non-conformant" <-> cv_conformant v = false) /\
  (cv_findings v = [] <-> suite_pure s) /\
  forall f, f ∈ cv_findings v -> suite_field s (fieldPath f) = Some (value f).
Proof.
  intros v. pose proof (no_findings s t now) as NF. fold v in NF.
  destruct (level_cases (existsb (fun f => bool_decide (severity f = HARD)) (cv_findings v))
    (existsb (fun f => bool_decide (severity f = WARN)) (cv_findings v)) _ (suite_pure s) (hard_iff s))
    as (A & B & C & D).
  - unfold suite_pure, suite_conformant. tauto.
  - intros H. rewrite <- NF. by apply no_warn.
  - split; [exact A|]. split; [exact B|]. split; [exact C|]. split; [exact D|]. split; [exact NF|].
    intros f (g & Hg & _ & ->)%verdict_findings. cbn [assessCnsa20 ca_findings] in Hg.
    rewrite !elem_of_cons, elem_of_nil in Hg.
    destruct Hg as [->|[->|[->|[->|[->|[]]]]]]; unfold classifySignature, classifyKem, classifySymmetric,
      classifyHashLike; cbv zeta; repeat case_match; done.
Qed.

(** A signed verdict is evidence: it verifies under the issuer's key wherever the
    suite is allowed, its payload decodes to a value that encodes like the
    verdict, and no envelope of another context passes for a verdict. *)
Theorem verdict_evidence {L : Lib} {CL : CborLaws L} `{!SigLaws L kpr} v suite pk sk env allowed :
  suite ∈ activeSuiteIds -> kpr pk sk -> suite_allowed allowed suite ->
  signCnsaVerdict v suite sk = Ok env ->
  verifyCnsaVerdict env pk allowed = true /\
  (exists w, openEnvelope env = Ok w /\ same_enc (verdict_val v) w) /\
  forall env', verifyCnsaVerdict env' pk allowed = true -> env_sig env' = env_sig env ->
    env' = env \/ exists m m', m <> m' /\ suite_verify suite (env_sig env) m pk = Ok true /\
      suite_verify (env_suite env') (env_sig env) m' pk = Ok true.
Proof.
  intros A K Ha E. pose proof (proj1 (signEnvelope_ok _ _ _ _ _ E)) as Hs.
  destruct (signEnvelope_verifies _ _ _ _ _ _ _ A K Ha E) as (Hc & Ep & V).
  split_and!.
  - unfold verifyCnsaVerdict. by rewrite bool_decide_true, V.
  - destruct (cbor_decode_encode _ _ Ep) as (w & Ew & F). exists w. split; [done|]. by exists (env_payload env).
  - intros env' [_ V']%andb_true_iff S. rewrite <- Hs. by apply (envelope_accept_twice env env' pk allowed allowed).
Qed.

(** The multi-tree spelling with a caret, the one the messages use, passes both
    tests for multi-tree schemes: the classifier takes it for single-tree XMSS. *)
Theorem caret_multi_tree_accepted :
  cf_status (classifySignature "XMSS^MT_20") = conformant /\ MULTI_TREE_ID "XMSS^MT_20" = false /\
  cf_status (classifySignature "XMSSMT_20") = non_conformant /\ MULTI_TREE_ID "XMSSMT_20" = true.
Proof. vm_compute. repeat split; reflexivity. Qed.

(** ** Runs on the registry *)
Definition level_of (id : string) : string :=
  match assertCnsa_id id (Int 0) with Ok v => level v | Throw e => e end.

Example registry_levels : map level_of [PS_1; PS_5; PS_5_HQC; PS_5_FN] =
  ["non-conformant"; "CNSA-2.0-Cat5-transitional"; "non-conformant"; "non-conformant"] /\
  is_ok (assertCnsa_id "PS-9" (Int 0)) = false /\ is_ok (assertCnsa_id "constructor" (Int 0)) = false.
Proof. vm_compute. repeat split; reflexivity. Qed.

Definition no_envelope : SignedEnvelope :=
  {| env_suite := ""; env_context := ""; env_payload := []; env_sig := [] |}.
Definition envelope_of (r : res SignedEnvelope) : SignedEnvelope :=
  match r with Ok e => e | _ => no_envelope end.
Definition toy_verdict : CnsaVerdict := assertCnsa (hd (Build_Suite "" active 0 0 "" "" "" "" "") SUITES) PS_1 (Int 5).
Definition toy_verdict_env : SignedEnvelope := Eval vm_compute in
  envelope_of (signCnsaVerdict toy_verdict PS_5 (secretKey (kp "a"))).

Lemma toy_verdict_signed : signCnsaVerdict toy_verdict PS_5 (secretKey (kp "a")) = Ok toy_verdict_env.
Proof. vm_compute. reflexivity. Qed.

Lemma verdict_evidence_witness :
  verifyCnsaVerdict toy_verdict_env (publicKey (kp "a")) (Some [PS_5]) = true.
Proof.
  apply (verdict_evidence (kpr := eq) toy_verdict PS_5 (publicKey (kp "a")) (secretKey (kp "a"))).
  - by left.
  - reflexivity.
  - by left.
  - exact toy_verdict_signed.
Defined.
