(* ===== verification/Cbom.v ===== *)
(** * conformance/: the cryptographic bill of materials

    src/conformance/src/cbom.ts (the inventory of the suite registry, its signed
    form) and cbom-cyclonedx.ts (its rendering as a CycloneDX document). *)
From stdpp Require Import pretty.
From S2P Require Import Prelude JsNum JsVal Crypto Concrete SupplyChain HbsState Cnsa.
Open Scope string_scope.
Open Scope Z_scope.
Open Scope list_scope.

(** ** Assets *)
Inductive Primitive := kem | kex | p_signature | ae | mac | hash.
Inductive QuantumClass :=
  | pq_cat5 | pq_cat3 | pq_other | quantum_resistant_symmetric | quantum_vulnerable.

#[export] Instance QuantumClass_eq_dec : EqDecision QuantumClass.
Proof. solve_decision. Defined.

Record CryptoAsset := {
  name : string;
  primitive : Primitive;
  parameterSet : string;
  nistStandard : string;
  nistLevel : Z;
  quantum : QuantumClass;
  sizesBytes : list (string * Z);
  as_status : SuiteStatus;
  deprecation : string }.

Definition kemLegs (kemId : string) : list string :=
  if has kemId "XWING" then ["ML-KEM-768"; "X25519"] else
  if has kemId "MLKEM1024" || has kemId "ML-KEM-1024"
  then if has kemId "P384" || has kemId "P-384" then ["ML-KEM-1024"; "P-384"] else ["ML-KEM-1024"] else
  if has kemId "HQC" then ["HQC-256"] else
  [kemId].

Definition shor_broken : string :=
  "Shor-broken; deprecate ~2030 / disallow ~2035 (NSA CNSA 2.0 + NIST PQC transition).".

Definition classify (id : string) : CryptoAsset :=
  let a p ps std lev q sizes st dep := {| name := id; primitive := p; parameterSet := ps;
    nistStandard := std; nistLevel := lev; quantum := q; sizesBytes := sizes; as_status := st;
    deprecation := dep |} in
  if has id "ML-DSA-87" then
    a p_signature "ML-DSA-87" "FIPS 204" 5 pq_cat5
      [("publicKey", 2592); ("secretKey", 4896); ("signature", 4627)] active "current (CNSA 2.0)." else
  if has id "SLH-DSA" || has id "SPHINCS" then
    a p_signature "SLH-DSA-SHAKE-256f" "FIPS 205" 5 pq_cat5
      [("publicKey", 64); ("secretKey", 128); ("signature", 49856)] active
      "current (FIPS 205; EXCLUDED from CNSA 2.0)." else
  if has id "FN-DSA" || has id "FALCON" then
    a p_signature "FN-DSA-1024" "FIPS 206 (draft)" 5 pq_cat5
      [("publicKey", 1793); ("signature", 1280)] pending_standardization "pending standardization." else
  if has id "ML-KEM-1024" || has id "MLKEM1024" then
    a kem "ML-KEM-1024" "FIPS 203" 5 pq_cat5
      [("publicKey", 1568); ("secretKey", 3168); ("ciphertext", 1568); ("sharedSecret", 32)] active
      "current (CNSA 2.0)." else
  if has id "ML-KEM-768" || has id "MLKEM768" then
    a kem "ML-KEM-768" "FIPS 203" 3 pq_cat3
      [("publicKey", 1184); ("secretKey", 2400); ("ciphertext", 1088); ("sharedSecret", 32)] active
      "current (Cat-3; below CNSA 2.0 Cat-5)." else
  if has id "HQC" then
    a kem "HQC-256" "FIPS 207 (draft)" 5 pq_other
      [("publicKey", 7245); ("ciphertext", 14469); ("sharedSecret", 64)] pending_standardization
      "pending standardization." else
  if has id "P-384" || has id "P384" then
    a kex "ECDH P-384" "SP 800-186" 0 quantum_vulnerable
      [("publicKey", 97); ("sharedSecret", 48)] active shor_broken else
  if has id "X25519" then
    a kex "X25519" "SP 800-186 / RFC 7748" 0 quantum_vulnerable
      [("publicKey", 32); ("sharedSecret", 32)] active shor_broken else
  if has id "AES-256" || has id "AES256" then
    a ae "AES-256-GCM" "FIPS 197 / SP 800-38D" 5 quantum_resistant_symmetric
      [("key", 32); ("nonce", 12); ("tag", 16)] active
      "current (CNSA 2.0; 256-bit is Grover-resistant)." else
  if has id "SHA-384" || has id "SHA384" then
    a mac "HMAC-SHA-384" "FIPS 198-1 / 180-4" 5 quantum_resistant_symmetric
      [("key", 48); ("output", 48)] active "current (CNSA 2.0)." else
  if has id "SHA3" || has id "SHAKE" then
    a hash "SHA3-256 / SHAKE256" "FIPS 202" 5 quantum_resistant_symmetric
      [("output", 32)] active "current (FIPS 202; CNSA 2.0 prefers SHA-2 for general hashing)." else
  a hash id "unknown" 0 quantum_resistant_symmetric [] active "unclassified algorithm id.".

(** ** The inventory *)
Record CbomSuiteEntry := {
  ce_suiteId : string;
  ce_status : SuiteStatus;
  cnsaLevel : string;
  ce_assets : list string }.

Record Cbom := {
  cb_generatedAt : num;
  cb_subject : string;
  cb_suites : list CbomSuiteEntry;
  cb_assets : list CryptoAsset;
  quantumVulnerable : list string;
  advisories : list string }.

Definition suite_algorithms (s : Suite) : list string :=
  kemLegs (kemId s) ++ [sigId s; aeadId s; macId s; hashId s].

(** The loop over the ids of a suite: the map of assets (in insertion order) and
    the names met so far. *)
Fixpoint add_ids (ids : list string) (byName : list CryptoAsset) (names : list string)
  : list CryptoAsset * list string :=
  match ids with
  | [] => (byName, names)
  | id :: ids' =>
      let asset := classify id in
      add_ids ids'
        (if includes (map name byName) (name asset) then byName else byName ++ [asset])
        (if includes names (name asset) then names else names ++ [name asset])
  end.

Definition suite_entry (s : Suite) (names : list string) : CbomSuiteEntry := {|
  ce_suiteId := suite_id s; ce_status := status s;
  cnsaLevel := level (assertCnsa s (suite_id s) (Int 0));
  ce_assets := js_sort str_ltb names |}.

(** [active.map(...)] *)
Fixpoint add_suites (ss : list Suite) (byName : list CryptoAsset)
  : list CryptoAsset * list CbomSuiteEntry :=
  match ss with
  | [] => (byName, [])
  | s :: ss' =>
      let r := add_ids (suite_algorithms s) byName [] in
      let r' := add_suites ss' r.1 in
      (r'.1, suite_entry s r.2 :: r'.2)
  end.

Definition zk_advisory : string :=
  "ZK layer: the disclosure-layer range/policy proofs use classical ristretto255 Pedersen " +:+
  "commitments (discrete-log generators) which are NOT post-quantum (broken by a CRQC). " +:+
  "PQ-binding migration is design-gated (ADR-0022); see docs/FRONTIER.md.".
Definition scope_advisory : string :=
  "Scope: this CBOM inventories the negotiable SUITE algorithms only. Primitives are the " +:+
  "audited @noble libraries; the Nerion compositions on top are UNAUDITED and pre-FTO.".

(** [buildCbom], of any registry; the code's is [allSuites]. *)
Definition cbom_of (registry : list Suite) (now : num) : Cbom :=
  let active_ := js_sort (by_key suite_id) (filter (fun s => status s = active) registry) in
  let r := add_suites active_ [] in
  let assets := js_sort (by_key name) r.1 in
  {| cb_generatedAt := now; cb_subject := "PolarSeek active cryptographic suites";
     cb_suites := r.2; cb_assets := assets;
     quantumVulnerable := map name (filter (fun a => quantum a = quantum_vulnerable) assets);
     advisories := [zk_advisory; scope_advisory] |}.

Definition buildCbom (now : num) : Cbom := cbom_of allSuites now.

(** *** The objects they are *)
Definition primitive_str (p : Primitive) : string :=
  match p with
  | kem => "kem" | kex => "kex" | p_signature => "signature" | ae => "ae" | mac => "mac" | hash => "hash"
  end.
Definition quantum_str (q : QuantumClass) : string :=
  match q with
  | pq_cat5 => "pq-cat5" | pq_cat3 => "pq-cat3" | pq_other => "pq-other"
  | quantum_resistant_symmetric => "quantum-resistant-symmetric"
  | quantum_vulnerable => "quantum-vulnerable"
  end.
Definition status_str (s : SuiteStatus) : string :=
  match s with
  | active => "active" | pending_standardization => "pending-standardization"
  | not_load_bearing => "not-load-bearing" | deprecated => "deprecated"
  end.
Definition asset_val (a : CryptoAsset) : jsval := VObj [
  ("name", VStr (name a)); ("primitive", VStr (primitive_str (primitive a)));
  ("parameterSet", VStr (parameterSet a)); ("nistStandard", VStr (nistStandard a));
  ("nistLevel", VNum (Int (nistLevel a))); ("quantum", VStr (quantum_str (quantum a)));
  ("sizesBytes", VObj (map (fun kv => (kv.1, VNum (Int kv.2))) (sizesBytes a)));
  ("status", VStr (status_str (as_status a))); ("deprecation", VStr (deprecation a))].
Definition entry_val (e : CbomSuiteEntry) : jsval := VObj [
  ("suiteId", VStr (ce_suiteId e)); ("status", VStr (status_str (ce_status e)));
  ("cnsaLevel", VStr (cnsaLevel e)); ("assets", VStrs (ce_assets e))].
Definition cbom_val (c : Cbom) : jsval := VObj [
  ("bomFormat", VStr "PolarSeek-CBOM"); ("specVersion", VStr "1.0");
  ("generatedAt", VNum (cb_generatedAt c)); ("subject", VStr (cb_subject c));
  ("suites", VArr (map entry_val (cb_suites c))); ("assets", VArr (map asset_val (cb_assets c)));
  ("quantumVulnerable", VStrs (quantumVulnerable c)); ("advisories", VStrs (advisories c))].

Definition CBOM_CONTEXT : string := tag "CBOM".

Section envelopes.
Context {L : Lib}.

Definition signCbom (c : Cbom) (suite : string) (sk : bytes) : res SignedEnvelope :=
  signEnvelope (cbom_val c) suite sk CBOM_CONTEXT.

Definition verifyCbom (env : SignedEnvelope) (pk : bytes) (allowed : option (list string)) : bool :=
  bool_decide (env_context env = CBOM_CONTEXT) && verifyEnvelope env pk allowed.

Definition cbomLeaf (env : SignedEnvelope) : res bytes := encodeCanonical (envelope_val env).
End envelopes.

(** ** CycloneDX *)
Definition PRIMITIVE_MAP (p : Primitive) : string :=
  match p with
  | kem => "kem" | kex => "keyagree" | p_signature => "signature" | ae => "ae" | mac => "mac"
  | hash => "hash"
  end.
Definition FUNCTIONS_MAP (p : Primitive) : list string :=
  match p with
  | kem => ["encapsulate"; "decapsulate"]
  | kex => ["keygen"; "keyderive"]
  | p_signature => ["keygen"; "sign"; "verify"]
  | ae => ["encrypt"; "decrypt"; "tag"]
  | mac => ["tag"; "verify"]
  | hash => ["digest"]
  end.

Record CycloneDxComponent := {
  cx_name : string;
  cx_bom_ref : string;
  cx_primitive : string;
  parameterSetIdentifier : string;
  cryptoFunctions : list string;
  nistQuantumSecurityLevel : Z;
  cx_properties : list (string * string) }.

Record CycloneDxLibraryComponent := {
  lib_name : string;
  lib_version : string;
  lib_bom_ref : string;
  purl : string }.

Record CycloneDxDependency := { dep_ref : string; dependsOn : list string }.

Record CycloneDxBom := {
  cx_timestamp : num;
  app_ref : string;
  meta_properties : list (string * string);
  cryptoComponents : list CycloneDxComponent;
  libComponents : list CycloneDxLibraryComponent;
  dependencies : list CycloneDxDependency }.

Definition crypto_ref (n : string) : string := "crypto/" +:+ n.
Definition lib_ref (n : string) : string := "lib/" +:+ n.

Definition toComponent (asset : CryptoAsset) : CycloneDxComponent := {|
  cx_name := name asset;
  cx_bom_ref := crypto_ref (name asset);
  cx_primitive := PRIMITIVE_MAP (primitive asset);
  parameterSetIdentifier := parameterSet asset;
  cryptoFunctions := FUNCTIONS_MAP (primitive asset);
  nistQuantumSecurityLevel := nistLevel asset;
  cx_properties :=
    [("nerion:nistStandard", nistStandard asset); ("nerion:quantumClass", quantum_str (quantum asset));
     ("nerion:status", status_str (as_status asset)); ("nerion:deprecation", deprecation asset)] ++
    map (fun kv => ("nerion:size:" +:+ kv.1 +:+ "Bytes", pretty kv.2)) (sizesBytes asset) |}.

Definition APP_REF : string := "nerion".

Definition assetLibrary (asset : CryptoAsset) : option string :=
  let n := to_upper (name asset) in
  if existsb (contains n) ["ML-KEM"; "ML-DSA"; "SLH-DSA"; "HQC"; "FN-DSA"; "FALCON"]
  then Some "@noble/post-quantum" else
  if contains n "P-384" || contains n "X25519" then Some "@noble/curves" else
  if contains n "AES" then Some "@noble/ciphers" else
  if contains n "SHA" then Some "@noble/hashes" else None.

(** [versionOf.get(name) ?? 'unknown'] *)
Definition versionOf (n : string) : string :=
  match find (fun d => bool_decide (sc_name d = n)) (rev NERION_DEPENDENCIES) with
  | Some d => sc_version d
  | None => "unknown"
  end.

Definition toCycloneDx (cbom : Cbom) : CycloneDxBom :=
  let assetToLib := fold_left (fun (m : gmap string string) a =>
    match assetLibrary a with Some lib => <[name a := lib]> m | None => m end) (cb_assets cbom) ∅ in
  let usedLibs := fold_left (fun (s : gset string) a =>
    match assetLibrary a with Some lib => {[lib]} ∪ s | None => s end) (cb_assets cbom) ∅ in
  let components := map toComponent (cb_assets cbom) in
  {| cx_timestamp := cb_generatedAt cbom;
     app_ref := APP_REF;
     meta_properties := [("nerion:source", "PolarSeek-CBOM");
                         ("nerion:quantumVulnerable", join_with "," (quantumVulnerable cbom))];
     cryptoComponents := components;
     libComponents := map (fun n => {| lib_name := n; lib_version := versionOf n; lib_bom_ref := lib_ref n;
         purl := "pkg:npm/" +:+ n +:+ "@" +:+ versionOf n |}) (js_sort str_ltb (elements usedLibs));
     dependencies :=
       {| dep_ref := APP_REF; dependsOn := map cx_bom_ref components |} ::
       map (fun a => {| dep_ref := crypto_ref (name a);
                        dependsOn := match assetToLib !! name a with
                                     | Some lib => [lib_ref lib] | None => [] end |}) (cb_assets cbom) |}.

(** ** Lemmas *)
Lemma name_classify id : name (classify id) = id.
Proof. unfold classify. repeat case_match; done. Qed.

(** What the map of assets keeps: one asset per name, the one [classify] gives. *)
Definition inventory (byName : list CryptoAsset) : Prop :=
  NoDup (map name byName) /\ forall a, a ∈ byName -> a = classify (name a).

Lemma inventory_nil : inventory [].
Proof. split; [constructor | by intros a ?%elem_of_nil]. Qed.

Lemma inventory_add byName id : inventory byName ->
  let byName' := if includes (map name byName) (name (classify id)) then byName
                 else byName ++ [classify id] in
  inventory byName' /\ forall n, n ∈ map name byName' <-> n ∈ map name byName \/ n = id.
Proof.
  intros [N C]. cbv zeta. rewrite name_classify. destruct (includes _ id) eqn:I.
  - apply includes_spec in I. split; [done|]. intros n. split; [by left|]. by intros [| ->].
  - assert (NI : id ∉ map name byName) by (intros H; apply includes_spec in H; congruence).
    split; [split|].
    + rewrite map_app. cbn [map]. rewrite name_classify. apply NoDup_app.
      split; [done|]. split; [|apply NoDup_singleton]. by intros x Hx ->%list_elem_of_singleton.
    + intros a [H| ->%list_elem_of_singleton]%elem_of_app; [by apply C | by rewrite name_classify].
    + intros n. rewrite map_app, elem_of_app. cbn [map]. rewrite name_classify, list_elem_of_singleton. done.
Qed.

Lemma add_ids_spec ids : forall byName names, inventory byName -> NoDup names ->
  let r := add_ids ids byName names in
  inventory r.1 /\ NoDup r.2 /\ (forall n, n ∈ map name r.1 <-> n ∈ map name byName \/ n ∈ ids) /\
  (forall n, n ∈ r.2 <-> n ∈ names \/ n ∈ ids).
Proof.
  induction ids as [|id ids IH]; intros byName names I N; cbn [add_ids]; cbv zeta.
  - cbn [fst snd]. split_and!; [done..| |]; intros n; rewrite elem_of_nil; tauto.
  - destruct (inventory_add byName id I) as [I' M]. cbv zeta in M.
    set (names' := if includes names _ then names else _).
    assert (N' : NoDup names' /\ forall n, n ∈ names' <-> n ∈ names \/ n = id).
    { subst names'. rewrite name_classify. destruct (includes names id) eqn:J.
      - apply includes_spec in J. split; [done|]. intros n. split; [by left | by intros [| ->]].
      - assert (id ∉ names) by (intros H; apply includes_spec in H; congruence). split.
        + apply NoDup_app. split; [done|]. split; [|apply NoDup_singleton].
          by intros x Hx ->%list_elem_of_singleton.
        + intros n. by rewrite elem_of_app, list_elem_of_singleton. }
    destruct N' as [N' M']. destruct (IH _ names' I' N') as (A & B & C & D).
    split; [exact A|]. split; [exact B|]. split; intros n.
    + rewrite C, M, elem_of_cons. tauto.
    + rewrite D, M', elem_of_cons. tauto.
Qed.

(** What an entry says of its suite. *)
Definition entry_ok (s : Suite) (e : CbomSuiteEntry) : Prop :=
  ce_suiteId e = suite_id s /\ ce_status e = status s /\
  cnsaLevel e = level (assertCnsa s (suite_id s) (Int 0)) /\
  NoDup (ce_assets e) /\ forall n, n ∈ ce_assets e <-> n ∈ suite_algorithms s.

Lemma add_suites_spec ss : forall byName, inventory byName ->
  let r := add_suites ss byName in
  inventory r.1 /\ Forall2 entry_ok ss r.2 /\
  forall n, n ∈ map name r.1 <-> n ∈ map name byName \/ exists s, s ∈ ss /\ n ∈ suite_algorithms s.
Proof.
  induction ss as [|s ss IH]; intros byName I; cbn [add_suites]; cbv zeta.
  - cbn [fst snd]. split; [done|]. split; [constructor|]. intros n. split; [by left|].
    intros [|(s & H%elem_of_nil & _)]; done.
  - destruct (add_ids_spec (suite_algorithms s) byName [] I) as (A & B & C & D); [constructor|].
    destruct (IH _ A) as (A' & B' & C'). cbn [fst snd]. split; [exact A'|]. split.
    + constructor; [|exact B']. unfold entry_ok, suite_entry; cbn [ce_suiteId ce_status cnsaLevel ce_assets].
      split_and!; [done..| |].
      * by rewrite js_sort_perm.
      * intros n. rewrite js_sort_perm, D, elem_of_nil. tauto.
    + intros n. rewrite C', C. setoid_rewrite elem_of_cons. split.
      * intros [[H|H]|(s' & Hs & H)]; [by left | right; exists s; auto | right; exists s'; auto].
      * intros [H|(s' & [->|Hs] & H)]; [by left; left | by left; right | right; by exists s'].
Qed.

(** An active suite of the registry uses the algorithm. *)
Definition used (registry : list Suite) (id : string) : Prop :=
  exists s, s ∈ registry /\ status s = active /\ id ∈ suite_algorithms s.

Lemma cbom_assets registry now a : a ∈ cb_assets (cbom_of registry now) <->
  exists id, used registry id /\ a = classify id.
Proof.
  cbn [cbom_of cb_assets]. rewrite js_sort_perm.
  destruct (add_suites_spec (js_sort (by_key suite_id) (filter (fun s => status s = active) registry)) []
    inventory_nil) as ([N C] & _ & M).
  assert (U : forall n, n ∈ map name (add_suites (js_sort (by_key suite_id)
      (filter (fun s => status s = active) registry)) []).1 <-> used registry n).
  { intros n. rewrite M. cbn [map]. rewrite elem_of_nil. unfold used. split.
    - intros [[]|(s & Hs & H)]. rewrite js_sort_perm in Hs. apply list_elem_of_filter in Hs as [? ?]. by exists s.
    - intros (s & Hs & E & H). right. exists s. split; [|done]. rewrite js_sort_perm.
      by apply list_elem_of_filter. }
  split.
  - intros H. exists (name a). split; [|by apply C]. apply U. by apply (list_elem_of_fmap_2 name).
  - intros (id & H%U & ->). apply list_elem_of_fmap_1 in H as (b & -> & Hb).
    by rewrite <- (C b Hb).
Qed.

Lemma cbom_names registry now : NoDup (map name (cb_assets (cbom_of registry now))) /\
  StronglySorted (sorted_ltb (by_key name)) (cb_assets (cbom_of registry now)).
Proof.
  split; [|apply sort_by_sorted]. cbn [cbom_of cb_assets].
  destruct (add_suites_spec (js_sort (by_key suite_id) (filter (fun s => status s = active) registry)) []
    inventory_nil) as ([N _] & _). eapply NoDup_Permutation_proper; [|exact N].
  apply Permutation_map. apply js_sort_perm.
Qed.

Lemma quantumVulnerable_used registry now n : n ∈ quantumVulnerable (cbom_of registry now) <->
  used registry n /\ quantum (classify n) = quantum_vulnerable.
Proof.
  change (n ∈ map name (filter (fun a => quantum a = quantum_vulnerable) (cb_assets (cbom_of registry now))) <->
    used registry n /\ quantum (classify n) = quantum_vulnerable). split.
  - intros (a & -> & Ha)%list_elem_of_fmap_1. apply list_elem_of_filter in Ha as [Q Ha].
    apply cbom_assets in Ha as (id & U & ->). by rewrite name_classify.
  - intros [U Q]. rewrite <- (name_classify n). apply (list_elem_of_fmap_2 name).
    apply list_elem_of_filter. split; [done|]. apply cbom_assets. by exists n.
Qed.

Lemma cbom_entries registry now :
  Forall2 entry_ok (js_sort (by_key suite_id) (filter (fun s => status s = active) registry))
    (cb_suites (cbom_of registry now)).
Proof.
  cbn [cbom_of cb_suites].
  by destruct (add_suites_spec (js_sort (by_key suite_id) (filter (fun s => status s = active) registry)) []
    inventory_nil) as (_ & F & _).
Qed.

(** ** Properties *)
(** The inventory is exact, for any registry of suites: the entries are those of
    the active suites in the order of their ids, each with the suite's CNSA
    level and exactly its algorithms (a hybrid KEM as its legs); the assets are the
    algorithms of the active suites, each once and under its classification, in
    the order of their names; and the algorithms listed as quantum-vulnerable
    are those of them that are classified so. *)
Theorem cbom_inventory registry now : let c := cbom_of registry now in
  Forall2 entry_ok (js_sort (by_key suite_id) (filter (fun s => status s = active) registry)) (cb_suites c) /\
  (forall a, a ∈ cb_assets c <-> exists id, used registry id /\ a = classify id) /\
  NoDup (map name (cb_assets c)) /\ StronglySorted (sorted_ltb (by_key name)) (cb_assets c) /\
  forall n, n ∈ quantumVulnerable c <-> used registry n /\ quantum (classify n) = quantum_vulnerable.
Proof.
  intros c. split; [apply cbom_entries|]. split; [intros a; apply cbom_assets|].
  destruct (cbom_names registry now) as [N S]. split; [exact N|]. split; [exact S|].
  intros n. apply quantumVulnerable_used.
Qed.

(** The classical legs of the hybrids the registry names are flagged. *)
Theorem hybrid_leg_flagged registry now s : s ∈ registry -> status s = active ->
  (has (kemId s) "XWING" = true -> "X25519" ∈ quantumVulnerable (cbom_of registry now)) /\
  (has (kemId s) "XWING" = false -> kem_approved (kemId s) -> one_of (kemId s) ["P384"; "P-384"] ->
   "P-384" ∈ quantumVulnerable (cbom_of registry now)).
Proof.
  intros Hs Ha. split.
  - intros X. apply quantumVulnerable_used. split; [|by vm_compute]. exists s. split_and!; [done..|].
    unfold suite_algorithms, kemLegs. rewrite X. right; left.
  - intros X K P. apply quantumVulnerable_used. split; [|by vm_compute]. exists s. split_and!; [done..|].
    unfold kem_approved in K. apply existsb_one_of in K; [|repeat constructor].
    apply existsb_one_of in P; [|repeat constructor]. cbn [existsb] in K, P. rewrite orb_false_r in K, P.
    unfold suite_algorithms, kemLegs. rewrite X, K, P. right; left.
Qed.

(** Where the flag fails open: an id the classifier does not know is a
    quantum-resistant hash, whatever it names, and a classical leg that is not
    one of the two known hybrids is dropped. *)
Theorem unknown_algorithm_resistant :
  map (fun id => quantum (classify id)) ["RSA-2048"; "ECDSA-P256"; "X448"; "ECDH-P-521"] =
    repeat quantum_resistant_symmetric 4 /\
  kemLegs "MLKEM768-X25519" = ["MLKEM768-X25519"] /\
  quantum (classify "MLKEM768-X25519") = pq_cat3 /\
  kemLegs "MLKEM1024-X448" = ["ML-KEM-1024"].
Proof. vm_compute. repeat split; reflexivity. Qed.

(** *** The rendering *)
Lemma lib_of_known a l : assetLibrary a = Some l -> l ∈ map sc_name NERION_DEPENDENCIES.
Proof.
  unfold assetLibrary. cbv zeta.
  repeat match goal with |- context [if ?b then _ else _] => destruct b end; intros E; inversion E; subst;
    apply includes_spec; reflexivity.
Qed.

Lemma elem_of_rev {A} (l : list A) x : x ∈ rev l <-> x ∈ l.
Proof. by rewrite !list_elem_of_In, <- in_rev. Qed.

Lemma version_known n : n ∈ map sc_name NERION_DEPENDENCIES ->
  exists d, d ∈ NERION_DEPENDENCIES /\ sc_name d = n /\ versionOf n = sc_version d.
Proof.
  intros H. unfold versionOf. destruct (find _ _) as [d|] eqn:F.
  - apply find_some in F as [Hd E]. apply bool_decide_eq_true in E. exists d.
    split; [|done]. exact (proj1 (elem_of_rev _ _) Hd).
  - apply list_elem_of_fmap_1 in H as (d & -> & Hd).
    assert (Hr : d ∈ rev NERION_DEPENDENCIES) by exact (proj2 (elem_of_rev _ _) Hd).
    pose proof (proj1 (find_none _ _) F d Hr) as E. by apply bool_decide_eq_false in E.
Qed.

Definition lib_map (assets : list CryptoAsset) : gmap string string :=
  fold_left (fun (m : gmap string string) a =>
    match assetLibrary a with Some lib => <[name a := lib]> m | None => m end) assets ∅.
Definition lib_set (assets : list CryptoAsset) : gset string :=
  fold_left (fun (s : gset string) a =>
    match assetLibrary a with Some lib => {[lib]} ∪ s | None => s end) assets ∅.

Lemma assetLibrary_name a b : name a = name b -> assetLibrary a = assetLibrary b.
Proof. unfold assetLibrary. by intros ->. Qed.

Lemma lib_map_lookup assets a : a ∈ assets -> lib_map assets !! name a = assetLibrary a.
Proof.
  unfold lib_map. assert (G : forall (m : gmap string string),
    (forall l, m !! name a = Some l -> assetLibrary a = Some l) ->
    (a ∈ assets \/ m !! name a = assetLibrary a) ->
    fold_left (fun (m : gmap string string) a =>
      match assetLibrary a with Some lib => <[name a := lib]> m | None => m end) assets m !! name a =
    assetLibrary a); [|intros H; apply G; [by intros l ?%lookup_empty_Some | by left]].
  induction assets as [|b assets IH]; intros m K H; cbn [fold_left].
  - by destruct H as [?%elem_of_nil|].
  - apply IH.
    + destruct (assetLibrary b) as [lb|] eqn:Eb; [|done]. intros l.
      destruct (base.decide (name b = name a)) as [E|E].
      * rewrite E, lookup_insert_eq. intros [= <-]. by rewrite <- Eb; apply assetLibrary_name.
      * rewrite lookup_insert_ne by done. apply K.
    + destruct H as [[<-|H]%elem_of_cons|H]; [right | by left | right].
      * destruct (assetLibrary a) as [la|] eqn:Ea; [by rewrite lookup_insert_eq|].
        destruct (m !! name a) eqn:Em; [|done]. by specialize (K _ eq_refl).
      * destruct (assetLibrary b) as [lb|] eqn:Eb; [|done].
        destruct (base.decide (name b = name a)) as [E|E]; [|by rewrite lookup_insert_ne].
        rewrite E, lookup_insert_eq, <- Eb. by apply assetLibrary_name.
Qed.

Lemma lib_set_spec assets l : l ∈ lib_set assets <-> exists a, a ∈ assets /\ assetLibrary a = Some l.
Proof.
  unfold lib_set. assert (G : forall s : gset string,
    l ∈ fold_left (fun (s : gset string) a =>
      match assetLibrary a with Some lib => {[lib]} ∪ s | None => s end) assets s <->
    l ∈ s \/ exists a, a ∈ assets /\ assetLibrary a = Some l).
  { induction assets as [|b assets IH]; intros s; cbn [fold_left].
    - split; [by left|]. by intros [|(a & ?%elem_of_nil & _)].
    - rewrite IH. setoid_rewrite elem_of_cons.
      destruct (assetLibrary b) as [lb|] eqn:Eb; [rewrite elem_of_union, elem_of_singleton|]; naive_solver. }
  rewrite G, elem_of_empty. tauto.
Qed.

#[local] Instance crypto_ref_inj : Inj (=) (=) crypto_ref.
Proof. intros x y E. by injection E. Qed.
#[local] Instance lib_ref_inj : Inj (=) (=) lib_ref.
Proof. intros x y E. by injection E. Qed.

(** The dependency graph of the rendering is closed: the application depends on
    every algorithm of the inventory and each algorithm on the library that
    implements it, if there is one; every reference is to a component that is
    listed, no two components share a reference when the assets have distinct
    names, and every library is listed in its pinned version. *)
Theorem cyclonedx_closed cbom : let d := toCycloneDx cbom in
  let refs := map cx_bom_ref (cryptoComponents d) ++ map lib_bom_ref (libComponents d) in
  map dep_ref (dependencies d) = app_ref d :: map cx_bom_ref (cryptoComponents d) /\
  (forall dep r, dep ∈ dependencies d -> r ∈ dependsOn dep -> r ∈ refs) /\
  (forall a l, a ∈ cb_assets cbom -> assetLibrary a = Some l ->
     {| dep_ref := crypto_ref (name a); dependsOn := [lib_ref l] |} ∈ dependencies d) /\
  (NoDup (map name (cb_assets cbom)) -> NoDup refs) /\
  forall c, c ∈ libComponents d -> exists dep, dep ∈ NERION_DEPENDENCIES /\
    sc_name dep = lib_name c /\ lib_version c = sc_version dep.
Proof.
  intros d refs. subst d refs. cbn [toCycloneDx dependencies cryptoComponents libComponents app_ref].
  fold (lib_map (cb_assets cbom)) (lib_set (cb_assets cbom)).
  assert (EL : forall l, l ∈ js_sort str_ltb (elements (lib_set (cb_assets cbom))) <-> l ∈ lib_set (cb_assets cbom)).
  { intros l. by rewrite js_sort_perm, elem_of_elements. }
  rewrite !map_map. cbn [dep_ref cx_bom_ref toComponent lib_bom_ref map]. split_and!.
  - by rewrite map_map.
  - intros dep r [->|H]%elem_of_cons; cbn [dependsOn].
    + intros H. apply elem_of_app. by left.
    + apply list_elem_of_fmap_1 in H as (a & -> & Ha). cbn [dependsOn].
      rewrite lib_map_lookup by done. destruct (assetLibrary a) as [l|] eqn:E; [|by intros ?%elem_of_nil].
      intros ->%list_elem_of_singleton. apply elem_of_app. right.
      apply (list_elem_of_fmap_2 lib_ref), EL, lib_set_spec. by exists a.
  - intros a l Ha E. right. apply list_elem_of_fmap. exists a. split; [|done].
    by rewrite lib_map_lookup, E.
  - intros N. apply NoDup_app. split_and!.
    + rewrite <- (map_map name crypto_ref). by apply (NoDup_fmap_2 crypto_ref).
    + intros r (a & -> & _)%list_elem_of_fmap_1 (l & E & _)%list_elem_of_fmap_1. done.
    + apply (NoDup_fmap_2 lib_ref).
      eapply NoDup_Permutation_proper; [apply js_sort_perm | apply NoDup_elements].
  - intros c (l & -> & Hl)%list_elem_of_fmap_1. cbn [lib_name lib_version].
    apply EL, lib_set_spec in Hl as (a & _ & Hk%lib_of_known).
    destruct (version_known l Hk) as (dep & A & B & C). by exists dep.
Qed.

(** ** Runs on the registry *)
Example cbom_runs : let c := buildCbom (Int 0) in
  map ce_suiteId (cb_suites c) = [PS_1; PS_5] /\
  map name (cb_assets c) = ["AES-256-GCM"; "HMAC-SHA-384"; "ML-DSA-87"; "ML-KEM-1024"; "ML-KEM-768"; "P-384";
                            "SHA3-256/SHAKE256"; "X25519"] /\
  quantumVulnerable c = ["P-384"; "X25519"] /\
  map lib_name (libComponents (toCycloneDx c)) =
    ["@noble/ciphers"; "@noble/curves"; "@noble/hashes"; "@noble/post-quantum"] /\
  map cx_properties (filter (fun x => cx_name x = "P-384") (cryptoComponents (toCycloneDx c))) =
    [[("nerion:nistStandard", "SP 800-186"); ("nerion:quantumClass", "quantum-vulnerable");
      ("nerion:status", "active"); ("nerion:deprecation", shor_broken);
      ("nerion:size:publicKeyBytes", "97"); ("nerion:size:sharedSecretBytes", "48")]].
Proof. vm_compute. repeat split; reflexivity. Qed.

(** The hybrid of the suite PS-1 *)
Lemma hybrid_leg_flagged_witness : "X25519" ∈ quantumVulnerable (buildCbom (Int 0)).
Proof.
  apply (hybrid_leg_flagged allSuites (Int 0) (hd (Build_Suite "" active 0 0 "" "" "" "" "") SUITES)).
  - left.
  - reflexivity.
  - vm_compute. reflexivity.
Defined.

Lemma cyclonedx_closed_witness :
  NoDup (map cx_bom_ref (cryptoComponents (toCycloneDx (buildCbom (Int 0)))) ++
         map lib_bom_ref (libComponents (toCycloneDx (buildCbom (Int 0))))).
Proof.
  destruct (cyclonedx_closed (buildCbom (Int 0))) as (_ & _ & _ & N & _). apply N.
  apply (proj1 (cbom_names allSuites (Int 0))).
Defined.
