(* ===== verification/Receipts.v ===== *)
(** * receipts/: signed receipts and quorum receipts

    src/receipts/src/receipt.ts and quorum.ts, with the salted commitments of
    src/disclosure/src/selective.ts.  The random salt [buildReceipt] draws when
    none is given is an argument. *)
From S2P Require Import Prelude JsNum JsVal Crypto Concrete Merkle TransLog Sortition.
Open Scope string_scope.
Open Scope Z_scope.
Open Scope list_scope.

(** ** disclosure/src/selective.ts *)
Section selective.
Context {L : Lib}.

Definition salted_val (salt : bytes) (value : jsval) : jsval :=
  VObj [("d", VStr (tag "SALTED_COMMIT")); ("salt", VBytes salt); ("value", value)].

Definition commitField (value : jsval) (salt : option bytes) : res string :=
  preimage ← match salt with
             | None => encodeCanonical value
             | Some s => encodeCanonical (salted_val s value)
             end;
  Ok (bytesToHex (sha3_256 preimage)).

Definition verifyDisclosure (committedHashHex : string) (revealed : jsval) (salt : option bytes)
  : res bool :=
  c ← commitField revealed salt; Ok (bool_decide (c = committedHashHex)).
End selective.

(** ** receipt.ts *)
Definition INTENT_SALT_BYTES : nat := 32.

Record ReceiptCommitments := {
  c_intent : string; c_capability : string; c_policy : string; c_inputHash : string;
  c_decisionHash : string }.

Record ReceiptBody := {
  rb_suite : string;
  rb_evaluator : string;
  rb_effect : string;
  rb_tier : num;
  rb_jurisdiction : string;
  rb_timestamp : num;
  rb_commitments : ReceiptCommitments }.

Record Receipt := {
  body : ReceiptBody; r_sig : bytes; r_signerPublicKey : bytes; intentSalt : bytes }.

Definition commitments_val (c : ReceiptCommitments) : jsval := VObj [
  ("intent", VStr (c_intent c)); ("capability", VStr (c_capability c));
  ("policy", VStr (c_policy c)); ("inputHash", VStr (c_inputHash c));
  ("decisionHash", VStr (c_decisionHash c))].
Definition body_val (b : ReceiptBody) : jsval := VObj [
  ("v", VNum (Int 1)); ("suite", VStr (rb_suite b)); ("evaluatorVersion", VStr (rb_evaluator b));
  ("effect", VStr (rb_effect b)); ("tier", VNum (rb_tier b));
  ("jurisdiction", VStr (rb_jurisdiction b)); ("timestamp", VNum (rb_timestamp b));
  ("commitments", commitments_val (rb_commitments b))].

Record BuildReceiptParams := {
  bp_suite : string;
  bp_evaluator : string;
  bp_effect : string;
  bp_tier : num;
  bp_jurisdiction : string;
  bp_timestamp : num;
  bp_intent : jsval;
  bp_capability : option jsval;
  bp_policy : jsval;
  bp_inputHash : string;
  bp_decisionHash : string;
  issuerSecretKey : bytes;
  issuerPublicKey : bytes;
  bp_intentSalt : option bytes }.

Record ExternalVerdict := { ev_ok : bool; ev_reasons : list string }.

Section receipt.
Context {L : Lib}.

Definition receiptMessage (b : ReceiptBody) : res bytes :=
  encodeCanonical (VArr [VStr (tag "RECEIPT"); body_val b]).

Definition buildReceipt (p : BuildReceiptParams) (random : bytes) : res Receipt :=
  let salt := default random (bp_intentSalt p) in
  ci ← commitField (bp_intent p) (Some salt);
  cc ← match bp_capability p with None => Ok "none" | Some c => commitField c (Some salt) end;
  cp ← commitField (bp_policy p) (Some salt);
  ch ← commitField (VStr (bp_inputHash p)) (Some salt);
  cd ← commitField (VStr (bp_decisionHash p)) (Some salt);
  let b := {| rb_suite := bp_suite p; rb_evaluator := bp_evaluator p; rb_effect := bp_effect p;
    rb_tier := bp_tier p; rb_jurisdiction := bp_jurisdiction p; rb_timestamp := bp_timestamp p;
    rb_commitments := {| c_intent := ci; c_capability := cc; c_policy := cp; c_inputHash := ch;
                         c_decisionHash := cd |} |} in
  signer ← signerFor (bp_suite p);
  msg ← receiptMessage b;
  sg ← scheme_sign signer msg (issuerSecretKey p) None;
  Ok {| body := b; r_sig := sg; r_signerPublicKey := issuerPublicKey p; intentSalt := salt |}.

Definition receiptLeaf (r : Receipt) : res bytes := encodeCanonical (body_val (body r)).

Definition verifyReceipt (r : Receipt) : bool :=
  if negb (includes activeSuiteIds (rb_suite (body r))) then false else
  try_catch
    (signer ← signerFor (rb_suite (body r));
     msg ← receiptMessage (body r);
     scheme_verify signer (r_sig r) msg (r_signerPublicKey r) None)
    (fun _ => false).

Definition verifyIntentDisclosure (r : Receipt) (revealedIntent : jsval) : res bool :=
  verifyDisclosure (c_intent (rb_commitments (body r))) revealedIntent (Some (intentSalt r)).

Definition verifyReceiptInclusion (r : Receipt) (witness : InclusionWitness)
    (gossipedRoot trustedIssuerKey : bytes) : res ExternalVerdict :=
  let r1 := if verifyReceipt r then [] else ["receipt signature invalid"] in
  let r2 := if bytesEqual (r_signerPublicKey r) trustedIssuerKey then []
            else ["receipt not signed by the expected issuer key"] in
  leaf ← receiptLeaf r;
  let r3 := if bytesEqual (iw_leaf witness) leaf then []
            else ["witness leaf does not match the receipt body"] in
  let r4 := if checkInclusion witness gossipedRoot then []
            else ["inclusion proof does not verify against the gossiped root"] in
  let rs := r1 ++ r2 ++ r3 ++ r4 in
  Ok {| ev_ok := (length rs =? 0)%nat; ev_reasons := rs |}.
End receipt.

(** ** quorum.ts *)
Record QuorumAttestation := { qa_validator : string; qa_suite : string; qa_sig : bytes }.
Record QuorumBinding := { qb_setId : string; qb_k : num; qb_epoch : num; qb_suite : string }.
Record QuorumReceiptBody := { q_receipt : ReceiptBody; q_quorum : QuorumBinding }.
Record QuorumReceipt := { q_body : QuorumReceiptBody; q_attestations : list QuorumAttestation }.

(** The reasons of a verdict; the texts that print numbers keep them. *)
Inductive QReason :=
| bad_threshold
| committed_k (k expected : num)
| committed_epoch (e expected : num)
| set_substituted
| too_many (n bound : nat)
| too_few (distinct : nat) (k : num)
| bad_stake_threshold
| malformed_set
| too_little_stake (stake threshold : Z).

Record QuorumVerdict (T : Type) := {
  qv_ok : bool; distinctValid : nat; qv_threshold : T; qv_reasons : list QReason }.
Arguments qv_ok {T} _.
Arguments distinctValid {T} _.
Arguments qv_threshold {T} _.
Arguments qv_reasons {T} _.

Definition q_if (b : bool) (r : QReason) : list QReason := if b then [r] else [].

Definition quorum_body_val (b : QuorumReceiptBody) : jsval := VObj [
  ("receipt", body_val (q_receipt b));
  ("quorum", VObj [("setId", VStr (qb_setId (q_quorum b))); ("k", VNum (qb_k (q_quorum b)));
     ("epoch", VNum (qb_epoch (q_quorum b))); ("suite", VStr (qb_suite (q_quorum b)))])].

Section quorum.
Context {L : Lib}.

Definition quorumSetId (set : ValidatorSet) (k epoch : num) : res string :=
  let sorted := map (fun v => VArr [VStr (pubkey v); stake v])
                  (js_sort by_pubkey (validators set)) in
  b ← encodeCanonical (VArr [VStr (tag "QUORUM_RECEIPT"); VArr sorted; VNum k; VNum epoch]);
  Ok (bytesToHex (sha3_256 b)).

Definition quorumMessage (b : QuorumReceiptBody) : res bytes :=
  encodeCanonical (VArr [VStr (tag "QUORUM_RECEIPT"); quorum_body_val b]).

Definition buildQuorumReceipt (receipt : ReceiptBody) (set : ValidatorSet) (k epoch : num)
    (signers : list KeyPair) (suite : string) : res QuorumReceipt :=
  setId ← quorumSetId set k epoch;
  let b := {| q_receipt := receipt; q_quorum := {| qb_setId := setId; qb_k := k;
              qb_epoch := epoch; qb_suite := suite |} |} in
  msg ← quorumMessage b;
  signer ← signerFor suite;
  atts ← mapM (fun s => sg ← scheme_sign signer msg (secretKey s) None;
                        Ok {| qa_validator := bytesToHex (publicKey s); qa_suite := suite;
                              qa_sig := sg |}) signers;
  Ok {| q_body := b; q_attestations := atts |}.

(** The loop of [countDistinctValid]: the members counted, in order; the
    callbacks of the two callers fold over them. *)
Fixpoint count_loop (q : QuorumBinding) (msg : bytes) (isMember : string -> bool)
    (seen : list string) (atts : list QuorumAttestation) : list string :=
  match atts with
  | [] => seen
  | a :: rest =>
      if negb (bool_decide (qa_suite a = qb_suite q)) then count_loop q msg isMember seen rest else
      if negb (isMember (qa_validator a)) || includes seen (qa_validator a)
      then count_loop q msg isMember seen rest else
      let valid := try_catch
        (signer ← signerFor (qa_suite a);
         pub ← hexToBytes (qa_validator a);
         scheme_verify signer (qa_sig a) msg pub None) (fun _ => false) in
      count_loop q msg isMember (if valid then seen ++ [qa_validator a] else seen) rest
  end.

Definition countDistinctValid (r : QuorumReceipt) (isMember : string -> bool) : res (list string) :=
  msg ← quorumMessage (q_body r);
  Ok (count_loop (q_quorum (q_body r)) msg isMember [] (q_attestations r)).

Definition maxAttestations (set : ValidatorSet) : nat := Nat.max (length (validators set) * 4) 256.

Definition verifyQuorumReceipt (r : QuorumReceipt) (set : ValidatorSet) (k epoch : num)
  : res (QuorumVerdict num) :=
  let q := q_quorum (q_body r) in
  setId ← quorumSetId set k epoch;
  let over := (maxAttestations set <? length (q_attestations r))%nat in
  counted ← (if over then Ok []
             else countDistinctValid r (includes (map pubkey (validators set))));
  let distinct := length counted in
  let rs :=
    q_if (negb (isInteger k) || num_ltb k (Int 1)) bad_threshold ++
    q_if (negb (num_eqb (qb_k q) k)) (committed_k (qb_k q) k) ++
    q_if (negb (num_eqb (qb_epoch q) epoch)) (committed_epoch (qb_epoch q) epoch) ++
    q_if (negb (bool_decide (qb_setId q = setId))) set_substituted ++
    q_if over (too_many (length (q_attestations r)) (maxAttestations set)) ++
    q_if (num_ltb (Int (Z.of_nat distinct)) k) (too_few distinct k) in
  Ok {| qv_ok := (length rs =? 0)%nat; distinctValid := distinct; qv_threshold := k;
        qv_reasons := rs |}.

(** [new Map(set.validators.map((v) => [v.pubkey, v.stake]))]: the last entry
    of a key stays. *)
Definition stake_map (set : ValidatorSet) : gmap string jsval :=
  fold_left (fun m v => <[pubkey v := stake v]> m) (validators set) ∅.

Definition verifyQuorumReceiptByStake (r : QuorumReceipt) (set : ValidatorSet)
    (stakeThreshold : Z) (epoch : num) : res (QuorumVerdict Z) :=
  let q := q_quorum (q_body r) in
  setId ← quorumSetId set (qb_k q) epoch;
  let over := (maxAttestations set <? length (q_attestations r))%nat in
  counted ← (if over then Ok []
             else countDistinctValid r (fun v => bool_decide (is_Some (stake_map set !! v))));
  let stake_sum := fold_left (fun s v => s + safeStake (default VUndef (stake_map set !! v)))
                     counted 0 in
  let rs :=
    q_if (stakeThreshold <=? 0) bad_stake_threshold ++
    q_if (existsb (fun v => negb (is_stake (stake v))) (validators set)) malformed_set ++
    q_if (negb (num_eqb (qb_epoch q) epoch)) (committed_epoch (qb_epoch q) epoch) ++
    q_if (negb (bool_decide (qb_setId q = setId))) set_substituted ++
    q_if over (too_many (length (q_attestations r)) (maxAttestations set)) ++
    q_if (stake_sum <? stakeThreshold) (too_little_stake stake_sum stakeThreshold) in
  Ok {| qv_ok := (length rs =? 0)%nat; distinctValid := length counted;
        qv_threshold := stakeThreshold; qv_reasons := rs |}.
End quorum.

(** ** Receipts *)
Section receipts.
Context {L : Lib}.

Definition receipt_collision (x y : bytes) : Prop := x <> y /\ sha3_256 x = sha3_256 y.

Lemma commitField_binds `{!CborLaws L} `{!HexLaws L} salt v w c :
  commitField v (Some salt) = Ok c -> commitField w (Some salt) = Ok c ->
  same_enc v w \/ exists x y, encodeCanonical (salted_val salt v) = Ok x /\
    encodeCanonical (salted_val salt w) = Ok y /\ receipt_collision x y.
Proof.
  unfold commitField. intros E F. apply bind_ok in E as (x & Ex & E), F as (y & Ey & F).
  apply Ok_inj in E, F. rewrite <- F in E. apply bytesToHex_inj in E.
  destruct (decide (x = y)) as [->|N]; [left | right; by exists x, y].
  assert (S : same_enc (salted_val salt v) (salted_val salt w)) by by exists y.
  apply cbor_obj in S; [|done|].
  - cbn in S. by repeat match goal with H : Forall2 _ (_ :: _) (_ :: _) |- _ =>
      apply Forall2_cons_1 in H as [? H] end.
  - cbn. repeat constructor; set_solver.
Qed.

(** A disclosed intent is the receipt's: two intents that both verify
    against one receipt have the same canonical encoding, unless their salted
    preimages collide under SHA3-256. *)
Theorem intent_disclosure_binding `{!CborLaws L} `{!HexLaws L} r v w :
  verifyIntentDisclosure r v = Ok true -> verifyIntentDisclosure r w = Ok true ->
  same_enc v w \/ exists x y, encodeCanonical (salted_val (intentSalt r) v) = Ok x /\
    encodeCanonical (salted_val (intentSalt r) w) = Ok y /\ receipt_collision x y.
Proof.
  unfold verifyIntentDisclosure, verifyDisclosure. intros E F.
  apply bind_ok in E as (c & Ec & E), F as (d & Ed & F).
  apply Ok_inj, bool_decide_eq_true in E as ->. apply Ok_inj, bool_decide_eq_true in F as ->.
  by eapply commitField_binds.
Qed.

Lemma buildReceipt_verifies `{!SigLaws L kpr} p random r : bp_suite p ∈ activeSuiteIds ->
  kpr (issuerPublicKey p) (issuerSecretKey p) -> buildReceipt p random = Ok r ->
  verifyReceipt r = true /\ r_signerPublicKey r = issuerPublicKey p /\
  verifyIntentDisclosure r (bp_intent p) = Ok true.
Proof.
  intros Hs Hk E. unfold buildReceipt in E.
  apply bind_ok in E as (ci & Ei & E). do 4 (apply bind_ok in E as (? & _ & E)).
  apply bind_ok in E as (signer & Es & E). apply bind_ok in E as (msg & Em & E).
  apply bind_ok in E as (sg & Eg & E). apply Ok_inj in E as <-.
  rewrite signerFor_active in Es by done. apply Ok_inj in Es as <-.
  unfold verifyReceipt, verifyIntentDisclosure, verifyDisclosure.
  cbn [body rb_suite r_sig r_signerPublicKey intentSalt rb_commitments c_intent].
  rewrite (proj2 (includes_spec _ _) Hs). cbn [negb]. rewrite signerFor_active by done.
  cbn [mbind res_bind]. rewrite Em. cbn [mbind res_bind scheme_verify] in *.
  rewrite (ml_dsa87_correct _ _ _ _ _ Hk Eg). split_and!; [done | done |].
  rewrite Ei. cbn [mbind res_bind]. by rewrite bool_decide_true.
Qed.

(** A receipt whose leaf was just appended is included in the log. *)
Lemma receipt_appended `{!SigLaws L kpr} p random r leaf l : bp_suite p ∈ activeSuiteIds ->
  kpr (issuerPublicKey p) (issuerSecretKey p) -> buildReceipt p random = Ok r ->
  receiptLeaf r = Ok leaf -> Z.of_nat (length (entries l)) + 1 <= MAX_TREE_SIZE ->
  exists w, proveInclusion (append l leaf).1 (Z.of_nat (length (entries l))) = Ok w /\
    verifyReceiptInclusion r w (log_root (append l leaf).1) (issuerPublicKey p)
      = Ok {| ev_ok := true; ev_reasons := [] |}.
Proof.
  intros Hs Hk E El Hn.
  destruct (buildReceipt_verifies p random r Hs Hk E) as (V & K & _).
  set (i := length (entries l)). cbn [append fst]. set (es := entries l ++ [leaf]).
  assert (Hlen : length es = S i) by (unfold es; rewrite length_app; cbn; lia).
  destruct (inclusion_verifies es (Z.of_nat i)) as (pf & e & Hp & He & Hv); [lia | lia |].
  assert (He' : es !! i = Some leaf) by (unfold es; by rewrite list_lookup_middle).
  rewrite Nat2Z.id, He' in He. injection He as <-. unfold proveInclusion. cbn [entries].
  rewrite (proj2 (Z.ltb_ge _ _)), Nat2Z.id, He' by lia. rewrite Hp. cbn [mbind res_bind].
  eexists. split; [done|]. unfold verifyReceiptInclusion. rewrite V, K, El.
  rewrite (proj2 (bytesEqual_iff _ _)) by done. cbn [mbind res_bind iw_leaf].
  rewrite (proj2 (bytesEqual_iff _ _)) by done. unfold checkInclusion, log_root, log_size.
  cbn [iw_index iw_size iw_leaf iw_proof entries]. by rewrite Hv.
Qed.

(** What an accepting external verdict rests on. *)
Lemma external_inv r w root key v : verifyReceiptInclusion r w root key = Ok v -> ev_ok v = true ->
  r_signerPublicKey r = key /\ rb_suite (body r) ∈ activeSuiteIds /\
  (exists msg, receiptMessage (body r) = Ok msg /\ ml_dsa87_verify (r_sig r) msg key None = Ok true) /\
  exists leaf, receiptLeaf r = Ok leaf /\ iw_leaf w = leaf /\ checkInclusion w root = true.
Proof.
  intros E Hv. unfold verifyReceiptInclusion in E.
  apply bind_ok in E as (leaf & El & E). apply Ok_inj in E as <-. cbn [ev_ok] in Hv.
  destruct (verifyReceipt r) eqn:V; [|done].
  destruct (bytesEqual (r_signerPublicKey r) key) eqn:K; [|done].
  destruct (bytesEqual (iw_leaf w) leaf) eqn:B; [|done].
  destruct (checkInclusion w root) eqn:C; [|done].
  apply bytesEqual_iff in K, B. split; [done|]. unfold verifyReceipt in V.
  destruct (includes _ _) eqn:I in V; [|done]. cbn [negb] in V. apply includes_spec in I.
  apply try_catch_true in V. rewrite signerFor_active in V by done. cbn [mbind res_bind] in V.
  apply bind_ok in V as (msg & Em & V). cbn [scheme_verify] in V. rewrite K in V.
  split; [done|]. split; [by exists msg|]. by exists leaf.
Qed.

(** A receipt is evidence.  One that was built, appended to a log and
    given with the log's inclusion witness passes the external check against
    the log's root and the issuer's key; and whatever passes that check
    against the root of a log (with a witness for a log of that size) is
    signed under the trusted key, over an active suite, and its body is the
    entry of the log at the witness's index, or two different inputs hashed
    for tree or proof collide. *)
Theorem receipt_external `{!HashLen L} `{!SigLaws L kpr} :
  (forall p random r leaf l, bp_suite p ∈ activeSuiteIds ->
     kpr (issuerPublicKey p) (issuerSecretKey p) -> buildReceipt p random = Ok r ->
     receiptLeaf r = Ok leaf -> Z.of_nat (length (entries l)) + 1 <= MAX_TREE_SIZE ->
     exists w, proveInclusion (append l leaf).1 (Z.of_nat (length (entries l))) = Ok w /\
       verifyReceiptInclusion r w (log_root (append l leaf).1) (issuerPublicKey p)
         = Ok {| ev_ok := true; ev_reasons := [] |}) /\
  (forall r w es key v, verifyReceiptInclusion r w (merkleRoot es) key = Ok v -> ev_ok v = true ->
     num_Z (iw_size w) = Z.of_nat (length es) ->
     r_signerPublicKey r = key /\ rb_suite (body r) ∈ activeSuiteIds /\
     (exists msg, receiptMessage (body r) = Ok msg /\
        ml_dsa87_verify (r_sig r) msg key None = Ok true) /\
     exists leaf, receiptLeaf r = Ok leaf /\
       (es !! Z.to_nat (num_Z (iw_index w)) = Some leaf \/
        collision_among (tree_inputs es ++
          inclusion_inputs (iw_index w) (iw_size w) leaf (iw_proof w)))).
Proof.
  split; [intros p random r leaf l; apply receipt_appended|].
  intros r w es key v E Hv Hsz. destruct (external_inv _ _ _ _ _ E Hv) as (K & A & M & leaf & El & B & C).
  do 3 (split; [done|]). exists leaf. split; [done|]. unfold checkInclusion in C. rewrite B in C.
  by destruct (inclusion_shows es (iw_index w) (iw_size w) leaf (iw_proof w) C Hsz) as [_ H].
Qed.
End receipts.

(** ** Quorum receipts *)
Section quorums.
Context {L : Lib}.

(** [v] attested the bound body under its committed suite. *)
Definition attested (q : QuorumBinding) (msg : bytes) (atts : list QuorumAttestation)
    (v : string) : Prop :=
  exists a pub, a ∈ atts /\ qa_validator a = v /\ qa_suite a = qb_suite q /\
    hexToBytes v = Ok pub /\ suite_verify (qa_suite a) (qa_sig a) msg pub = Ok true.

Lemma count_loop_spec q msg isMember atts : forall seen, NoDup seen ->
  NoDup (count_loop q msg isMember seen atts) /\
  forall v, v ∈ count_loop q msg isMember seen atts <->
    v ∈ seen \/ isMember v = true /\ attested q msg atts v.
Proof.
  induction atts as [|a atts IH]; intros seen Hn; cbn [count_loop].
  { split; [done|]. intros v. split; [by left|]. intros [H|(_ & a & pub & ?%elem_of_nil & _)]; done. }
  assert (Skip : forall v, ~ (qa_validator a = v /\ qa_suite a = qb_suite q /\ exists pub,
      hexToBytes v = Ok pub /\ suite_verify (qa_suite a) (qa_sig a) msg pub = Ok true) ->
    attested q msg (a :: atts) v <-> attested q msg atts v).
  { intros v N. split.
    - intros (b & pub & [->|Hb]%elem_of_cons & E1 & E2 & E3 & E4); [|by exists b, pub].
      exfalso. apply N. eauto.
    - intros (b & pub & Hb & ?). exists b, pub. split; [by right | done]. }
  case_bool_decide as ES; cbn [negb].
  2: { destruct (IH seen Hn) as [I1 I2]. split; [done|]. intros v. rewrite I2, Skip; [done|].
       by intros (_ & ? & _). }
  destruct (isMember (qa_validator a)) eqn:EM; cbn [negb orb].
  2: { destruct (IH seen Hn) as [I1 I2]. split; [done|]. intros v. rewrite I2.
       destruct (decide (qa_validator a = v)) as [<-|D]; [|rewrite Skip; [done|]; by intros (? & _)].
       rewrite EM. split; (intros [?|[? _]]; [by left | done]). }
  destruct (includes seen (qa_validator a)) eqn:EI.
  { apply includes_spec in EI. destruct (IH seen Hn) as [I1 I2]. split; [done|]. intros v. rewrite I2.
    destruct (decide (qa_validator a = v)) as [<-|D]; [|rewrite Skip; [done|]; by intros (? & _)].
    split; intros _; by left. }
  assert (Hni : qa_validator a ∉ seen).
  { intros H. apply includes_spec in H. congruence. }
  destruct (try_catch _ _) eqn:V.
  - apply try_catch_true in V. apply bind_ok in V as (s & Es & V). apply bind_ok in V as (pub & Ep & V).
    assert (SV : suite_verify (qa_suite a) (qa_sig a) msg pub = Ok true)
      by (unfold suite_verify; by rewrite Es).
    destruct (IH (seen ++ [qa_validator a])) as [I1 I2].
    { apply NoDup_app. split_and!; [done | | apply NoDup_singleton].
      by intros v Hv ->%list_elem_of_singleton. }
    split; [done|]. intros v. rewrite I2, elem_of_app, list_elem_of_singleton.
    destruct (decide (qa_validator a = v)) as [<-|D].
    + split; [|by intros _; left; right]. intros _. right. split; [done|].
      exists a, pub. split; [left | done].
    + rewrite Skip; [|by intros (? & _)]. split; [intros [[?|?]|?]; [by left | by subst | by right] |].
      intros [?|?]; [by left; left | by right].
  - destruct (IH seen Hn) as [I1 I2]. split; [done|]. intros v. rewrite I2, Skip; [done|].
    intros (<- & _ & pub & Ep & SV). apply not_true_iff_false in V. apply V, try_catch_true.
    unfold suite_verify in SV. apply bind_ok in SV as (s & -> & SV). cbn [mbind res_bind].
    by rewrite Ep.
Qed.

Lemma q_if_nil b r : q_if b r = [] <-> b = false.
Proof. by destruct b. Qed.

(** A set of validators that signed the bound body. *)
Definition signed_by (r : QuorumReceipt) (members : string -> Prop) (X : gset string) : Prop :=
  exists msg, quorumMessage (q_body r) = Ok msg /\
    forall v, v ∈ X -> members v /\ attested (q_quorum (q_body r)) msg (q_attestations r) v.

(** C36: A quorum receipt, exactly: it verifies for a set, threshold and epoch
    if and only if the threshold is a positive integer, the receipt commits to
    this threshold, epoch and set, it carries no more attestations than the
    bound, and at least [k] distinct members of the set each signed the bound
    body. *)
Theorem quorum_receipt_iff r set k epoch :
  (exists v, verifyQuorumReceipt r set k epoch = Ok v /\ qv_ok v = true) <->
  isInteger k = true /\ 1 <= num_Z k /\
  num_eqb (qb_k (q_quorum (q_body r))) k = true /\
  num_eqb (qb_epoch (q_quorum (q_body r))) epoch = true /\
  quorumSetId set k epoch = Ok (qb_setId (q_quorum (q_body r))) /\
  (length (q_attestations r) <= maxAttestations set)%nat /\
  exists X : gset string, num_Z k <= Z.of_nat (size X) /\
    signed_by r (fun v => v ∈ map pubkey (validators set)) X.
Proof.
  unfold verifyQuorumReceipt. split.
  - intros (v & E & V). apply bind_ok in E as (setId & Es & E). apply bind_ok in E as (cs & Ec & E).
    apply Ok_inj in E as <-. cbn [qv_ok] in V. apply Nat.eqb_eq, length_zero_iff_nil in V.
    apply app_eq_nil in V as [V1 V]. apply app_eq_nil in V as [V2 V].
    apply app_eq_nil in V as [V3 V]. apply app_eq_nil in V as [V4 V].
    apply app_eq_nil in V as [V5 V6]. apply q_if_nil in V1, V2, V3, V4, V5, V6.
    rewrite V5 in Ec. apply Nat.ltb_ge in V5. apply orb_false_iff in V1 as [I1 I2].
    apply negb_false_iff in I1, V2, V3, V4. apply bool_decide_eq_true in V4 as V4'.
    rewrite num_ltb_Z, ?num_Z_Int in I2, V6 by (done || apply isInteger_Int).
    apply Z.ltb_ge in I2, V6.
    split; [done|]. split; [exact I2|]. do 2 (split; [done|]). split; [by rewrite V4'|]. split; [done|].
    unfold countDistinctValid in Ec. apply bind_ok in Ec as (msg & Em & Ec). apply Ok_inj in Ec as <-.
    destruct (count_loop_spec (q_quorum (q_body r)) msg (includes (map pubkey (validators set)))
      (q_attestations r) [] (NoDup_nil_2)) as [C1 C2].
    exists (list_to_set (count_loop (q_quorum (q_body r)) msg (includes (map pubkey (validators set)))
      [] (q_attestations r))). split.
    + by rewrite size_list_to_set.
    + exists msg. split; [done|]. intros v [?%elem_of_nil|[Hm Ha]]%elem_of_list_to_set%C2; [done|].
      by apply includes_spec in Hm.
  - intros (I1 & I2 & K & Ep & Es & B & X & HX & msg & Em & HA). rewrite Es. cbn [mbind res_bind].
    rewrite (proj2 (Nat.ltb_ge _ _)) by done. unfold countDistinctValid. rewrite Em. cbn [mbind res_bind].
    destruct (count_loop_spec (q_quorum (q_body r)) msg (includes (map pubkey (validators set)))
      (q_attestations r) [] (NoDup_nil_2)) as [C1 C2].
    set (cs := count_loop _ _ _ _ _) in *. eexists. split; [done|]. cbn [qv_ok].
    assert (Hc : num_Z k <= Z.of_nat (length cs)).
    { etransitivity; [exact HX|]. rewrite <- (size_list_to_set (C := gset string) cs C1). apply Nat2Z.inj_le, subseteq_size.
      intros v Hv. apply elem_of_list_to_set, C2. right. destruct (HA v Hv) as [H1 H2].
      split; [by apply includes_spec | done]. }
    rewrite K, Ep, I1, bool_decide_true, !num_ltb_Z, !num_Z_Int by (done || apply isInteger_Int).
    rewrite (proj2 (Z.ltb_ge (num_Z k) 1)) by lia. by rewrite (proj2 (Z.ltb_ge _ _)).
Qed.

Lemma stake_map_lookup set v : NoDup (map pubkey (validators set)) ->
  safeStake (default VUndef (stake_map set !! v)) = stakeOf set v /\
  (is_Some (stake_map set !! v) <-> v ∈ map pubkey (validators set)).
Proof.
  unfold stake_map, stakeOf. intros Hn.
  assert (G : forall vs (m : gmap string jsval), NoDup (map pubkey vs) ->
    fold_left (fun m w => <[pubkey w := stake w]> m) vs m !! v =
    match find (fun w => bool_decide (pubkey w = v)) vs with Some w => Some (stake w) | None => m !! v end).
  { induction vs as [|w vs IH]; intros m Hw; cbn [fold_left find map]; [done|].
    cbn [map] in Hw. inversion_clear Hw as [|? ? Hw1 Hw2]. rewrite IH by done.
    case_bool_decide as D.
    - destruct (find _ vs) as [u|] eqn:F.
      + apply find_some in F as [F1 F2%bool_decide_eq_true]. exfalso. apply Hw1. rewrite D, <- F2.
        by apply (list_elem_of_fmap_2 pubkey).
      + by rewrite D, lookup_insert_eq.
    - destruct (find _ vs); [done|]. by rewrite lookup_insert_ne. }
  rewrite G, lookup_empty by done. destruct (find _ (validators set)) as [w|] eqn:F.
  - apply find_some in F as [F1 F2%bool_decide_eq_true]. split; [done|]. split; [|eauto].
    intros _. rewrite <- F2. by apply (list_elem_of_fmap_2 pubkey).
  - split; [done|]. split; [by intros [? ?]|]. intros (w & -> & Hw)%list_elem_of_fmap.
    rewrite find_none in F. specialize (F w Hw). by rewrite bool_decide_true in F.
Qed.

Lemma stake_sum_counted set cs : NoDup (map pubkey (validators set)) -> NoDup cs -> forall acc,
  fold_left (fun s v => s + safeStake (default VUndef (stake_map set !! v))) cs acc =
  acc + stake_in set (list_to_set cs).
Proof.
  intros Hn. induction 1 as [|v cs Hv _ IH]; intros acc; cbn [fold_left list_to_set].
  - rewrite stake_in_empty. lia.
  - rewrite IH, stake_in_insert by (done || by rewrite elem_of_list_to_set).
    rewrite (proj1 (stake_map_lookup set v Hn)). lia.
Qed.

(** A stake-weighted quorum receipt: when it verifies for a set with
    distinct keys, a positive threshold and an epoch, it commits to the set
    and the epoch, and distinct validators of the set that each signed the
    bound body hold at least the threshold of its stake. *)
Theorem quorum_stake_sound r set threshold epoch v :
  NoDup (map pubkey (validators set)) ->
  verifyQuorumReceiptByStake r set threshold epoch = Ok v -> qv_ok v = true ->
  0 < threshold /\ (forall w, w ∈ validators set -> is_stake (stake w) = true) /\
  num_eqb (qb_epoch (q_quorum (q_body r))) epoch = true /\
  quorumSetId set (qb_k (q_quorum (q_body r))) epoch = Ok (qb_setId (q_quorum (q_body r))) /\
  exists X : gset string, threshold <= stake_in set X /\
    signed_by r (fun v => v ∈ map pubkey (validators set)) X.
Proof.
  unfold verifyQuorumReceiptByStake. intros Hn E V.
  apply bind_ok in E as (setId & Es & E). apply bind_ok in E as (cs & Ec & E).
  apply Ok_inj in E as <-. cbn [qv_ok] in V. apply Nat.eqb_eq, length_zero_iff_nil in V.
  apply app_eq_nil in V as [V1 V]. apply app_eq_nil in V as [V2 V].
  apply app_eq_nil in V as [V3 V]. apply app_eq_nil in V as [V4 V].
  apply app_eq_nil in V as [V5 V6]. apply q_if_nil in V1, V2, V3, V4, V5, V6.
  rewrite V5 in Ec. apply Z.leb_gt in V1. apply negb_false_iff in V3, V4.
  apply bool_decide_eq_true in V4. apply Z.ltb_ge in V6.
  unfold countDistinctValid in Ec. apply bind_ok in Ec as (msg & Em & Ec). apply Ok_inj in Ec as <-.
  destruct (count_loop_spec (q_quorum (q_body r)) msg
    (fun v => bool_decide (is_Some (stake_map set !! v))) (q_attestations r) [] (NoDup_nil_2)) as [C1 C2].
  rewrite stake_sum_counted in V6 by done.
  split; [done|]. split.
  { intros w Hw. apply not_false_iff_true. intros F. apply not_true_iff_false in V2. apply V2.
    apply existsb_exists. exists w. split; [by apply list_elem_of_In | by rewrite F]. }
  split; [done|]. split; [by rewrite V4|]. eexists. split; [exact V6|]. exists msg. split; [done|].
  intros w [?%elem_of_nil|[Hm Ha]]%elem_of_list_to_set%C2; [done|].
  apply bool_decide_eq_true in Hm. split; [|done]. by apply (stake_map_lookup set w Hn).
Qed.
End quorums.

(** ** Concrete runs *)
Definition sample_build : BuildReceiptParams := {|
  bp_suite := "PS-5"; bp_evaluator := "e"; bp_effect := "allow"; bp_tier := Int 2;
  bp_jurisdiction := "EU"; bp_timestamp := Int 50;
  bp_intent := VObj [("type", VStr "payment.transfer"); ("amount", VNum (Int 250))];
  bp_capability := None; bp_policy := VNull; bp_inputHash := "aa"; bp_decisionHash := "bb";
  issuerSecretKey := secretKey (kp "node"); issuerPublicKey := publicKey (kp "node");
  bp_intentSalt := None |}.
Definition no_body : ReceiptBody := {|
  rb_suite := ""; rb_evaluator := ""; rb_effect := ""; rb_tier := NaN; rb_jurisdiction := "";
  rb_timestamp := NaN; rb_commitments := {| c_intent := ""; c_capability := ""; c_policy := "";
    c_inputHash := ""; c_decisionHash := "" |} |}.
Definition no_receipt : Receipt :=
  {| body := no_body; r_sig := []; r_signerPublicKey := []; intentSalt := [] |}.
Definition sample_receipt : Receipt :=
  try_catch (buildReceipt sample_build (repeat x09 32)) (fun _ => no_receipt).
Definition sample_leaf : bytes := try_catch (receiptLeaf sample_receipt) (fun _ => []).

Lemma receipt_external_witness : exists w,
  proveInclusion (append {| entries := [[x01]; [x02]] |} sample_leaf).1 2 = Ok w /\
  verifyReceiptInclusion sample_receipt w (log_root (append {| entries := [[x01]; [x02]] |} sample_leaf).1)
    (publicKey (kp "node")) = Ok {| ev_ok := true; ev_reasons := [] |}.
Proof.
  refine (proj1 (receipt_external (kpr := eq)) sample_build (repeat x09 32) sample_receipt sample_leaf
    {| entries := [[x01]; [x02]] |} _ _ _ _ _).
  - rewrite activeSuiteIds_eq. by left.
  - done.
  - by vm_compute.
  - by vm_compute.
  - apply Z.leb_le. by vm_compute.
Defined.

Lemma intent_disclosure_binding_witness :
  verifyIntentDisclosure sample_receipt (bp_intent sample_build) = Ok true /\
  (same_enc (bp_intent sample_build) (bp_intent sample_build) \/
   exists x y, encodeCanonical (salted_val (intentSalt sample_receipt) (bp_intent sample_build)) = Ok x /\
     encodeCanonical (salted_val (intentSalt sample_receipt) (bp_intent sample_build)) = Ok y /\
     receipt_collision x y).
Proof.
  split; [by vm_compute|]. apply intent_disclosure_binding; by vm_compute.
Defined.

Definition sample_quorum_receipt : QuorumReceipt :=
  try_catch (buildQuorumReceipt (body sample_receipt) sample_set (Int 2) (Int 0)
    [kp "v1"; kp "v2"; kp "v2"] "PS-5")
    (fun _ => {| q_body := {| q_receipt := no_body; q_quorum := {| qb_setId := ""; qb_k := NaN;
       qb_epoch := NaN; qb_suite := "" |} |}; q_attestations := [] |}).

(** Two signers of three suffice for [k = 2], not for [k = 3]. *)
Example quorum_receipt_counts :
  (v ← verifyQuorumReceipt sample_quorum_receipt sample_set (Int 2) (Int 0);
   Ok (qv_ok v, distinctValid v)) = Ok (true, 2%nat) /\
  (v ← verifyQuorumReceipt sample_quorum_receipt sample_set (Int 3) (Int 0); Ok (qv_ok v)) = Ok false.
Proof. by vm_compute. Qed.

Lemma quorum_stake_sound_witness : (0 < 70)%Z /\
  quorumSetId sample_set (Int 2) (Int 0) =
    Ok (qb_setId (q_quorum (q_body sample_quorum_receipt))).
Proof.
  assert (Hn : NoDup (map pubkey (validators sample_set))).
  { apply (bool_decide_eq_true _). by vm_compute. }
  assert (E : exists v, verifyQuorumReceiptByStake sample_quorum_receipt sample_set 70 (Int 0) = Ok v /\
    qv_ok v = true) by (eexists; split; [vm_compute; reflexivity | reflexivity]).
  destruct E as (v & E & V).
  destruct (quorum_stake_sound sample_quorum_receipt sample_set 70 (Int 0) v Hn E V)
    as (H1 & _ & _ & H2 & _). split; [exact H1 | exact H2].
Defined.
