(* ===== verification/Attest.v ===== *)
(** * attest/: software attestation, appraisal, n-of-m quorums

    src/attest/src/types.ts, software.ts and verifiers.ts.  Evidence comes from
    the wire: [malformed] stands for every value that fails the shape test in
    front of [appraise], [shaped] for a value of the declared type.  A hardware
    quote verifier is an adapter the code does not contain: its [verify] is a
    function of the registry entry and may throw. *)
From S2P Require Import Prelude JsNum JsVal Crypto Concrete Grant.
Open Scope string_scope.
Open Scope Z_scope.
Open Scope list_scope.

(** ** types.ts *)
Record AttestationClaims := {
  cl_format : string;
  cl_sessionId : string;
  sessionPublicKey : string;
  cl_nonce : string;
  cl_notAfter : num;
  measurement : option string }.

Definition attestation_val (c : AttestationClaims) : jsval := VObj (
  [("format", VStr (cl_format c)); ("sessionId", VStr (cl_sessionId c));
   ("sessionPublicKey", VStr (sessionPublicKey c)); ("nonce", VStr (cl_nonce c));
   ("notAfter", VNum (cl_notAfter c))] ++ field_if "measurement" VStr (measurement c)).

Record Evidence := {
  ev_claims : AttestationClaims;
  ev_format : string;
  attesterPublicKey : bytes;
  ev_sig : bytes;
  ev_suite : string }.

Inductive wire_evidence := malformed | shaped (e : Evidence).

Record AppraisalPolicy := {
  expectedNonce : string;
  ap_now : num;
  trustedAttesters : list bytes;
  acceptedFormats : list string;
  expectedMeasurements : option (list string);
  acceptedSuites : option (list string);
  minCategory : option num }.

Record QuoteVerdict := { quote_ok : bool; quote_reasons : list string }.
Record QuoteVerifier := {
  quote_format : string;
  quote_verify : Evidence -> list string -> res QuoteVerdict }.

(** A reason is a fixed text, or the template on the values it prints. *)
Inductive AReason :=
| because_of (s : string)
| format_not_accepted (format : string)
| quote_unimplemented (format : string)
| quote_rejected (s : string)
| suite_not_accepted (suite : string)
| category_below (suite : string) (category min : num)
| too_many_evidences (count bound : nat)
| too_few_attestations (n : num) (formats attesters : nat).

Record AppraisalResult := {
  ar_valid : bool; ar_reasons : list AReason; ar_claims : option AttestationClaims }.

(** ** verifiers.ts *)
Definition QuoteVerifierRegistry := gmap string QuoteVerifier.
Definition register (reg : QuoteVerifierRegistry) (v : QuoteVerifier) : QuoteVerifierRegistry :=
  <[quote_format v := v]> reg.
Definition get_verifier (reg : QuoteVerifierRegistry) (format : string) : option QuoteVerifier :=
  reg !! format.

(** ** software.ts *)
Definition HARDWARE_FORMATS : list string := ["tdx"; "sev-snp"; "cca"; "tpm"].
Definition MAX_EVIDENCES : nat := 256.

Definition a_if (b : bool) (r : AReason) : list AReason := if b then [r] else [].

Section attest.
Context {L : Lib}.

Definition attestSigningMessage (suite : string) (claims : AttestationClaims) : res bytes :=
  encodeCanonical (VArr [VStr (tag "ATTEST_EVIDENCE"); VStr suite; attestation_val claims]).

(** [SoftwareAttester.produce]; the attester is its suite and key. *)
Definition produce (suite : string) (key : KeyPair) (sessionId pk nonce : string) (notAfter : num)
  : res Evidence :=
  let claims := {| cl_format := "software-dev"; cl_sessionId := sessionId; sessionPublicKey := pk;
                   cl_nonce := nonce; cl_notAfter := notAfter; measurement := None |} in
  signer ← signerFor suite;
  msg ← attestSigningMessage suite claims;
  sg ← scheme_sign signer msg (secretKey key) None;
  Ok {| ev_claims := claims; ev_format := "software-dev"; attesterPublicKey := publicKey key;
        ev_sig := sg; ev_suite := suite |}.

(** [getSuite(suite).category]: an inherited member has no such field, and
    [undefined] compares like [NaN]. *)
Definition suite_category (suite : string) : num :=
  match getSuite suite with
  | Ok (Some s) => Int (category s)
  | Ok None => NaN
  | Throw _ => Int (-1)
  end.

(** The branch on hardware formats. *)
Definition quote_step (e : Evidence) (policy : AppraisalPolicy)
    (verifiers : option QuoteVerifierRegistry) : res (list AReason) :=
  let format := cl_format (ev_claims e) in
  if negb (includes HARDWARE_FORMATS format) then Ok [] else
  match verifiers ≫= fun reg => get_verifier reg format with
  | None => Ok [quote_unimplemented format]
  | Some v =>
      verdict ← quote_verify v e (default [] (expectedMeasurements policy));
      Ok (if quote_ok verdict then [] else map quote_rejected (quote_reasons verdict))
  end.

Definition appraise (evidence : wire_evidence) (policy : AppraisalPolicy)
    (verifiers : option QuoteVerifierRegistry) : res AppraisalResult :=
  match evidence with
  | malformed => Ok {| ar_valid := false; ar_claims := None; ar_reasons :=
      [because_of "evidence is malformed (missing/invalid claims, attester key, or suite)"] |}
  | shaped e =>
      let c := ev_claims e in
      let format := cl_format c in
      quote ← quote_step e policy verifiers;
      let category := suite_category (ev_suite e) in
      let sigValid := try_catch
        (signer ← signerFor (ev_suite e);
         msg ← attestSigningMessage (ev_suite e) c;
         scheme_verify signer (ev_sig e) msg (attesterPublicKey e) None) (fun _ => false) in
      let rs :=
        a_if (negb (bool_decide (ev_format e = format)))
          (because_of "format mismatch between unsigned envelope and signed claims") ++
        a_if (negb (includes (acceptedFormats policy) format)) (format_not_accepted format) ++
        quote ++
        a_if (negb (existsb (fun k => constantTimeEqual k (attesterPublicKey e))
                      (trustedAttesters policy)))
          (because_of "attester key is not in the trusted set") ++
        a_if (match acceptedSuites policy with
              | Some ss => negb (includes ss (ev_suite e)) | None => false end)
          (suite_not_accepted (ev_suite e)) ++
        match minCategory policy with
        | Some m => a_if (num_ltb category m) (category_below (ev_suite e) category m)
        | None => []
        end ++
        a_if (negb sigValid) (because_of "evidence signature is invalid (or unresolvable suite)") ++
        a_if (negb (bool_decide (cl_nonce c = expectedNonce policy)))
          (because_of "nonce mismatch (stale or replayed attestation)") ++
        (if negb (isSafeInteger (ap_now policy)) || negb (isSafeInteger (cl_notAfter c))
         then [because_of "attestation expiry uncheckable (non-safe-integer clock or notAfter)"]
         else a_if (num_ltb (cl_notAfter c) (ap_now policy))
                (because_of "attestation has expired")) in
      let valid := (length rs =? 0)%nat in
      Ok {| ar_valid := valid; ar_reasons := rs; ar_claims := if valid then Some c else None |}
  end.

Definition invalid (r : AReason) : AppraisalResult :=
  {| ar_valid := false; ar_reasons := [r]; ar_claims := None |}.

(** [evidences.map(appraise).filter(valid)]: the claims and attester keys left *)
Fixpoint valid_evidences (evidences : list wire_evidence) (policy : AppraisalPolicy)
    (verifiers : option QuoteVerifierRegistry) : res (list Evidence) :=
  match evidences with
  | [] => Ok []
  | w :: rest =>
      r ← appraise w policy verifiers;
      es ← valid_evidences rest policy verifiers;
      Ok (match w with shaped e => if ar_valid r then e :: es else es | malformed => es end)
  end.

Definition distinct_of (f : Evidence -> string) (es : list Evidence) : nat :=
  size (list_to_set (map f es) : gset string).

Definition with_notAfter (c : AttestationClaims) (n : num) : AttestationClaims :=
  {| cl_format := cl_format c; cl_sessionId := cl_sessionId c;
     sessionPublicKey := sessionPublicKey c; cl_nonce := cl_nonce c; cl_notAfter := n;
     measurement := measurement c |}.

Definition min_notAfter (es : list Evidence) : num :=
  fold_left (fun m e => num_min m (cl_notAfter (ev_claims e))) es (Inf false).

Definition appraiseNofM (evidences : list wire_evidence) (policy : AppraisalPolicy) (n : num)
    (verifiers : option QuoteVerifierRegistry) : res AppraisalResult :=
  if negb (isSafeInteger n) || num_ltb n (Int 1)
  then Ok (invalid (because_of "n-of-m threshold must be a positive integer")) else
  if (MAX_EVIDENCES <? length evidences)%nat
  then Ok (invalid (too_many_evidences (length evidences) MAX_EVIDENCES)) else
  valid ← valid_evidences evidences policy verifiers;
  let formats := distinct_of (fun e => cl_format (ev_claims e)) valid in
  let attesters := distinct_of (fun e => bytesToHex (attesterPublicKey e)) valid in
  if (1 <? distinct_of (fun e => sessionPublicKey (ev_claims e)) valid)%nat
  then Ok (invalid (because_of "n-of-m attestations corroborate different sessions (must agree on one)"))
  else
  if (1 <? distinct_of (fun e => cl_sessionId (ev_claims e)) valid)%nat
  then Ok (invalid (because_of
    "n-of-m attestations corroborate different session ids (must agree on one)")) else
  if num_leb n (Int (Z.of_nat formats)) && num_leb n (Int (Z.of_nat attesters)) then
    match valid with
    | [] => Throw "Cannot read properties of undefined (reading 'r')"
    | e :: _ => Ok {| ar_valid := true; ar_reasons := [];
        ar_claims := Some (with_notAfter (ev_claims e) (min_notAfter valid)) |}
    end
  else Ok (invalid (too_few_attestations n formats attesters)).
End attest.

(** ** What an appraisal means *)
Section spec.
Context {L : Lib}.

Record Appraised (e : Evidence) (p : AppraisalPolicy) (vs : option QuoteVerifierRegistry) : Prop := {
  apd_envelope : ev_format e = cl_format (ev_claims e);
  apd_format : cl_format (ev_claims e) ∈ acceptedFormats p;
  apd_quote : cl_format (ev_claims e) ∈ HARDWARE_FORMATS -> exists v verdict,
    (vs ≫= fun reg => get_verifier reg (cl_format (ev_claims e))) = Some v /\
    quote_verify v e (default [] (expectedMeasurements p)) = Ok verdict /\
    (quote_ok verdict = true \/ quote_reasons verdict = []);
  apd_trusted : attesterPublicKey e ∈ trustedAttesters p;
  apd_suites : forall ss, acceptedSuites p = Some ss -> ev_suite e ∈ ss;
  apd_category : forall m, minCategory p = Some m ->
    num_ltb (suite_category (ev_suite e)) m = false;
  apd_signed : exists msg, attestSigningMessage (ev_suite e) (ev_claims e) = Ok msg /\
    suite_verify (ev_suite e) (ev_sig e) msg (attesterPublicKey e) = Ok true;
  apd_nonce : cl_nonce (ev_claims e) = expectedNonce p;
  apd_time : isSafeInteger (ap_now p) = true /\ isSafeInteger (cl_notAfter (ev_claims e)) = true /\
    num_Z (ap_now p) <= num_Z (cl_notAfter (ev_claims e)) }.

Lemma a_if_nil b r : a_if b r = [] <-> b = false.
Proof. by destruct b. Qed.

Lemma quote_step_nil e p vs rs : quote_step e p vs = Ok rs -> rs = [] <->
  (cl_format (ev_claims e) ∈ HARDWARE_FORMATS -> exists v verdict,
    (vs ≫= fun reg => get_verifier reg (cl_format (ev_claims e))) = Some v /\
    quote_verify v e (default [] (expectedMeasurements p)) = Ok verdict /\
    (quote_ok verdict = true \/ quote_reasons verdict = [])).
Proof.
  unfold quote_step. destruct (includes HARDWARE_FORMATS _) eqn:I; cbn [negb].
  2: { intros E%Ok_inj. split; [|by subst]. intros _ H%includes_spec. congruence. }
  apply includes_spec in I. destruct (vs ≫= _) as [v|] eqn:V.
  - intros E. apply bind_ok in E as (d & Ed & E). apply Ok_inj in E as <-. split.
    + intros N _. exists v, d. split_and!; [done | done |]. destruct (quote_ok d); [by left | right].
      by apply map_eq_nil in N.
    + intros H. destruct (H I) as (v' & d' & [= <-] & Ed' & [O|O]);
        (assert (d' = d) as -> by congruence); [by rewrite O|]. rewrite O. by destruct (quote_ok d).
  - intros E%Ok_inj. split; [by subst|]. intros H. by destruct (H I) as (? & ? & [=] & _).
Qed.

Lemma trusted_spec l k : existsb (fun x => constantTimeEqual x k) l = true <-> k ∈ l.
Proof.
  rewrite existsb_exists. split.
  - intros (x & H & E). apply constantTimeEqual_true in E as ->. by apply list_elem_of_In.
  - intros H. exists k. split; [by apply list_elem_of_In | apply constantTimeEqual_refl].
Qed.

Lemma appraise_shaped e p vs r : appraise (shaped e) p vs = Ok r ->
  (ar_valid r = true <-> Appraised e p vs) /\
  ar_claims r = if ar_valid r then Some (ev_claims e) else None.
Proof.
  unfold appraise. intros E. apply bind_ok in E as (q & Eq & E). apply Ok_inj in E as <-.
  cbn [ar_valid ar_claims]. split; [|done]. rewrite Nat.eqb_eq, length_zero_iff_nil, !app_nil, !a_if_nil.
  rewrite (quote_step_nil _ _ _ _ Eq), !negb_false_iff, !bool_decide_eq_true, includes_spec, trusted_spec.
  split.
  - intros (H1 & H2 & H3 & H4 & H5 & H6 & H7 & H8 & H9). split; try done.
    + intros ss Hs. rewrite Hs in H5. by apply negb_false_iff, includes_spec in H5.
    + intros m Hm. rewrite Hm in H6. by apply a_if_nil in H6.
    + apply try_catch_true in H7. apply bind_ok in H7 as (s & Es & H7).
      apply bind_ok in H7 as (msg & Em & H7). exists msg. unfold suite_verify. by rewrite Es.
    + destruct (isSafeInteger (ap_now p)) eqn:A, (isSafeInteger (cl_notAfter (ev_claims e))) eqn:B;
        try done. cbn [negb orb] in H9. apply a_if_nil in H9.
      rewrite num_ltb_Z in H9 by (by apply safe_isInteger). split_and!; [done | done |].
      by apply Z.ltb_ge in H9.
  - intros [H1 H2 H3 H4 H5 H6 (msg & Em & H7) H8 (A & B & H9)]. split_and!; try done.
    + destruct (acceptedSuites p) as [ss|] eqn:Hs; [|done].
      apply negb_false_iff, includes_spec. by apply H5.
    + destruct (minCategory p) as [m|] eqn:Hm; [|done]. by apply a_if_nil, H6.
    + apply try_catch_true. unfold suite_verify in H7. apply bind_ok in H7 as (s & -> & H7).
      cbn [mbind res_bind]. by rewrite Em.
    + rewrite A, B. cbn [negb orb]. apply a_if_nil.
      rewrite num_ltb_Z by (by apply safe_isInteger). by apply Z.ltb_ge.
Qed.
End spec.

(** ** Appraisal *)
Section properties.
Context {L : Lib}.

Lemma appraise_spec w p vs r : appraise w p vs = Ok r ->
  ar_valid r = true <->
  exists e, w = shaped e /\ Appraised e p vs /\ ar_claims r = Some (ev_claims e).
Proof.
  intros E. destruct w as [|e].
  - apply Ok_inj in E as <-. cbn [ar_valid]. split; [done | by intros (? & ? & _)].
  - destruct (appraise_shaped _ _ _ _ E) as [V C]. rewrite V, C. split.
    + intros A. exists e. by rewrite (proj2 V A).
    + by intros (? & [= <-] & A & _).
Qed.

(** What a software attester signs is accepted by a verifier that trusts its
    key, accepts the format and the suite, expects the nonce and reads the clock
    no later than the expiry. *)
Theorem produced_evidence_appraises `{!SigLaws L kpr} suite key sid pk nonce na e p vs :
  produce suite key sid pk nonce na = Ok e -> kpr (publicKey key) (secretKey key) ->
  suite ∈ activeSuiteIds -> "software-dev" ∈ acceptedFormats p ->
  publicKey key ∈ trustedAttesters p -> expectedNonce p = nonce ->
  (forall ss, acceptedSuites p = Some ss -> suite ∈ ss) ->
  (forall m, minCategory p = Some m -> num_ltb (suite_category suite) m = false) ->
  isSafeInteger (ap_now p) = true -> isSafeInteger na = true -> num_Z (ap_now p) <= num_Z na ->
  appraise (shaped e) p vs =
    Ok {| ar_valid := true; ar_reasons := []; ar_claims := Some (ev_claims e) |}.
Proof.
  intros P Hk Hs Hf Ht Hn Hss Hc T1 T2 T3. unfold produce in P.
  apply bind_ok in P as (signer & Es & P). apply bind_ok in P as (msg & Em & P).
  apply bind_ok in P as (sg & Eg & P). apply Ok_inj in P as <-.
  assert (exists r, appraise (shaped {| ev_claims := {| cl_format := "software-dev";
    cl_sessionId := sid; sessionPublicKey := pk; cl_nonce := nonce; cl_notAfter := na;
    measurement := None |}; ev_format := "software-dev"; attesterPublicKey := publicKey key;
    ev_sig := sg; ev_suite := suite |}) p vs = Ok r) as [r E].
  { cbn [appraise]. by eexists. }
  destruct (appraise_shaped _ _ _ _ E) as [V C].
  assert (ar_valid r = true) as Hv.
  { apply V. split; cbn; try done.
    - by intros H%includes_spec.
    - exists msg. split; [done|]. eapply suite_sign_verify; [done | exact Hk |].
      unfold suite_sign. by rewrite Es. }
  rewrite E. f_equal. rewrite Hv in C. unfold appraise in E.
  apply bind_ok in E as (q & _ & E). apply Ok_inj in E as <-. cbn in Hv, C |- *.
  apply Nat.eqb_eq, length_zero_iff_nil in Hv. by rewrite Hv.
Qed.

Lemma valid_evidences_spec p vs ws : forall es, valid_evidences ws p vs = Ok es ->
  forall e, e ∈ es <-> shaped e ∈ ws /\ Appraised e p vs.
Proof.
  induction ws as [|w ws IH]; intros es E e; cbn [valid_evidences] in E.
  { apply Ok_inj in E as <-. split; [by intros ?%elem_of_nil | by intros [?%elem_of_nil _]]. }
  apply bind_ok in E as (r & Er & E). apply bind_ok in E as (es' & Ee & E).
  apply Ok_inj in E as <-. specialize (IH _ Ee e). rewrite elem_of_cons.
  pose proof (appraise_spec _ _ _ _ Er) as S. destruct w as [|e'].
  { rewrite IH. split; [by intros []; auto | by intros [[?|?] ?]]. }
  destruct (ar_valid r) eqn:V.
  - destruct (proj1 S eq_refl) as (? & [= <-] & A & _). rewrite elem_of_cons, IH. split.
    + intros [->|[]]; auto.
    + intros [[[= ->]|H] ?]; auto.
  - rewrite IH. split; [by intros []; auto|]. intros [[[= ->]|H] A]; [|done].
    destruct (appraise_shaped _ _ _ _ Er) as [V' _]. by rewrite (proj2 V' A) in V.
Qed.

Lemma distinct_le_1 f es : (distinct_of f es <= 1)%nat <->
  forall e e', e ∈ es -> e' ∈ es -> f e = f e'.
Proof.
  unfold distinct_of. set (X := list_to_set (map f es)). split.
  - intros H e e' He He'. destruct (decide (f e = f e')) as [|N]; [done|].
    assert (size ({[f e; f e']} : gset string) <= size X)%nat as S.
    { apply subseteq_size. intros x Hx. apply elem_of_union in Hx as [Hx|Hx]; apply elem_of_singleton in Hx as ->;
        apply elem_of_list_to_set, (list_elem_of_fmap_2 f); done. }
    rewrite size_union, !size_singleton in S by set_solver. lia.
  - intros H. destruct es as [|e es]; [unfold X; cbn [map list_to_set]; rewrite size_empty; lia|].
    transitivity (size ({[f e]} : gset string)); [|by rewrite size_singleton].
    apply subseteq_size. intros x (e' & -> & He')%elem_of_list_to_set%list_elem_of_fmap.
    apply elem_of_singleton, H; [done | left].
Qed.

Lemma min_notAfter_from es : forall m, isInteger m = true ->
  (forall e, e ∈ es -> isInteger (cl_notAfter (ev_claims e)) = true) ->
  let r := fold_left (fun m e => num_min m (cl_notAfter (ev_claims e))) es m in
  isInteger r = true /\ num_Z r <= num_Z m /\
  (forall e, e ∈ es -> num_Z r <= num_Z (cl_notAfter (ev_claims e))) /\
  (r = m \/ exists e, e ∈ es /\ r = cl_notAfter (ev_claims e)).
Proof.
  induction es as [|e es IH]; intros m Hm H; cbn [fold_left].
  { split_and!; [done | lia | by intros e ?%elem_of_nil | by left]. }
  destruct (num_min_cases m (cl_notAfter (ev_claims e))) as (I & Z & C); [done | apply H; left|].
  destruct (IH (num_min m (cl_notAfter (ev_claims e))) I) as (I1 & I2 & I3 & I4);
    [intros; apply H; by right|].
  cbn zeta in *. split; [done|]. split; [lia|]. split.
  - intros e' [->|He']%elem_of_cons; [lia | by apply I3].
  - destruct I4 as [->|(e' & He' & E)].
    + destruct C as [->| ->]; [by left | right; exists e; split; [left | done]].
    + right. exists e'. split; [by right | done].
Qed.

Lemma min_notAfter_spec e es :
  (forall e', e' ∈ e :: es -> isInteger (cl_notAfter (ev_claims e')) = true) ->
  (exists e', e' ∈ e :: es /\ min_notAfter (e :: es) = cl_notAfter (ev_claims e')) /\
  forall e', e' ∈ e :: es -> num_Z (min_notAfter (e :: es)) <= num_Z (cl_notAfter (ev_claims e')).
Proof.
  intros H. unfold min_notAfter. cbn [fold_left].
  assert (He : isInteger (cl_notAfter (ev_claims e)) = true) by (apply H; left).
  assert (num_min (Inf false) (cl_notAfter (ev_claims e)) = cl_notAfter (ev_claims e)) as ->
    by (by destruct (cl_notAfter (ev_claims e))).
  destruct (min_notAfter_from es _ He) as (_ & I2 & I3 & I4); [intros; apply H; by right|].
  cbn zeta in *. split.
  - destruct I4 as [->|(e' & He' & E)]; [exists e; split; [left | done] | exists e'; split; [by right | done]].
  - intros e' [->|He']%elem_of_cons; [lia | by apply I3].
Qed.

(** An n-of-m appraisal, exactly: under a positive threshold and with at most
    256 items, the quorum is valid if and only if the items that appraise
    individually agree on one session key and one session id and cover at least
    [n] formats and [n] attester keys; malformed or failing items change
    nothing.  The claims returned are that session's, and expire with the
    earliest of the items. *)
Theorem nofm_spec ws p n vs r : appraiseNofM ws p n vs = Ok r ->
  (ar_valid r = true -> isSafeInteger n = true /\ 1 <= num_Z n /\
     (length ws <= MAX_EVIDENCES)%nat) /\
  (isSafeInteger n = true -> 1 <= num_Z n -> (length ws <= MAX_EVIDENCES)%nat ->
   exists es, (forall e, e ∈ es <-> shaped e ∈ ws /\ Appraised e p vs) /\
   (ar_valid r = true <->
      (forall e e', e ∈ es -> e' ∈ es ->
         sessionPublicKey (ev_claims e) = sessionPublicKey (ev_claims e') /\
         cl_sessionId (ev_claims e) = cl_sessionId (ev_claims e')) /\
      num_Z n <= Z.of_nat (distinct_of (fun e => cl_format (ev_claims e)) es) /\
      num_Z n <= Z.of_nat (distinct_of (fun e => bytesToHex (attesterPublicKey e)) es)) /\
   (ar_valid r = true -> exists c, ar_claims r = Some c /\
      (forall e, e ∈ es -> sessionPublicKey c = sessionPublicKey (ev_claims e) /\
         cl_sessionId c = cl_sessionId (ev_claims e) /\
         num_Z (cl_notAfter c) <= num_Z (cl_notAfter (ev_claims e))) /\
      exists e, e ∈ es /\ cl_notAfter c = cl_notAfter (ev_claims e))).
Proof.
  unfold appraiseNofM. intros E.
  destruct (negb (isSafeInteger n) || num_ltb n (Int 1)) eqn:N.
  { apply Ok_inj in E as <-. split; [done|]. intros Hs Hn. exfalso.
    rewrite Hs, num_ltb_Z, num_Z_Int in N by (auto using isInteger_Int). cbn in N. lia. }
  apply orb_false_iff in N as [Hs%negb_false_iff N].
  rewrite num_ltb_Z, num_Z_Int in N by (auto using isInteger_Int). apply Z.ltb_ge in N.
  destruct (Nat.ltb_spec MAX_EVIDENCES (length ws)) as [B|B].
  { apply Ok_inj in E as <-. split; [done|]. intros _ _. lia. }
  split; [done|]. intros _ _ _. apply bind_ok in E as (es & Ee & E). exists es.
  pose proof (valid_evidences_spec _ _ _ _ Ee) as Hes. split; [done|].
  destruct (Nat.ltb_spec 1 (distinct_of (fun e => sessionPublicKey (ev_claims e)) es)) as [D1|D1].
  { apply Ok_inj in E as <-. split; [|done]. split; [done|]. intros [H _]. exfalso.
    apply Nat.lt_nge in D1. apply D1, distinct_le_1. intros e e' He He'. by apply (H e e' He He'). }
  destruct (Nat.ltb_spec 1 (distinct_of (fun e => cl_sessionId (ev_claims e)) es)) as [D2|D2].
  { apply Ok_inj in E as <-. split; [|done]. split; [done|]. intros [H _]. exfalso.
    apply Nat.lt_nge in D2. apply D2, distinct_le_1. intros e e' He He'. by apply (H e e' He He'). }
  rewrite distinct_le_1 in D1, D2. cbn zeta in E.
  rewrite !num_leb_Z, !num_Z_Int in E by (auto using isInteger_Int).
  destruct (_ && _) eqn:M in E.
  - apply andb_true_iff in M as [M1%Z.leb_le M2%Z.leb_le]. destruct es as [|e es]; [done|].
    apply Ok_inj in E as <-. cbn [ar_valid ar_claims]. split; [split; [|done]; intros _; split; [by auto | by split]|].
    intros _. eexists. split; [done|]. cbn [with_notAfter sessionPublicKey cl_sessionId cl_notAfter].
    destruct (min_notAfter_spec e es) as [(e' & He' & Hm) I3].
    { intros e' He'. apply Hes in He' as [_ A]. apply safe_isInteger, (apd_time _ _ _ A). }
    split; [|by exists e']. intros e'' He''.
    split_and!; [apply D1 | apply D2 | by apply I3]; (done || left).
  - apply Ok_inj in E as <-. cbn [invalid ar_valid]. split; [|done]. split; [done|].
    intros (_ & M1 & M2). by rewrite !(proj2 (Z.leb_le _ _)) in M.
Qed.
End properties.

(** ** Concrete runs *)
Definition sample_claims (format : string) (na : Z) : AttestationClaims := {|
  cl_format := format; cl_sessionId := "s1"; sessionPublicKey := kp_hex "agent";
  cl_nonce := "n1"; cl_notAfter := Int na; measurement := None |}.
Definition sample_evidence (format attester : string) (na : Z) : Evidence :=
  let c := sample_claims format na in
  {| ev_claims := c; ev_format := format; attesterPublicKey := publicKey (kp attester);
     ev_sig := try_catch (msg ← attestSigningMessage "PS-5" c;
                          suite_sign "PS-5" msg (secretKey (kp attester))) (fun _ => []);
     ev_suite := "PS-5" |}.
Definition sample_policy : AppraisalPolicy := {|
  expectedNonce := "n1"; ap_now := Int 50;
  trustedAttesters := [publicKey (kp "root1"); publicKey (kp "root2")];
  acceptedFormats := ["software-dev"; "tpm"]; expectedMeasurements := None;
  acceptedSuites := Some ["PS-5"]; minCategory := Some (Int 5) |}.
Definition sample_registry (v : QuoteVerdict) : QuoteVerifierRegistry :=
  register ∅ {| quote_format := "tpm"; quote_verify := fun _ _ => Ok v |}.
Definition sample_quorum : list wire_evidence := [
  malformed; shaped (sample_evidence "software-dev" "root1" 200);
  shaped (sample_evidence "software-dev" "stranger" 90);
  shaped (sample_evidence "tpm" "root2" 100)].

Definition trusting : option QuoteVerifierRegistry :=
  Some (sample_registry {| quote_ok := true; quote_reasons := [] |}).
Definition sample_result : AppraisalResult :=
  try_catch (appraiseNofM sample_quorum sample_policy (Int 2) trusting)
    (fun e => invalid (because_of e)).

Lemma nofm_spec_witness : exists c,
  appraiseNofM sample_quorum sample_policy (Int 2) trusting = Ok sample_result /\
  ar_claims sample_result = Some c /\
  exists e, shaped e ∈ sample_quorum /\ cl_notAfter c = cl_notAfter (ev_claims e).
Proof.
  assert (E : appraiseNofM sample_quorum sample_policy (Int 2) trusting = Ok sample_result)
    by (vm_compute; reflexivity).
  assert (V : ar_valid sample_result = true) by (vm_compute; reflexivity).
  destruct (nofm_spec _ _ _ _ _ E) as [_ H].
  destruct H as (es & Hes & _ & H);
    [reflexivity | apply Z.leb_le; reflexivity | apply Nat.leb_le; reflexivity|].
  destruct (H V) as (c & Hc & _ & e & He & Hm). exists c. split; [exact E|]. split; [exact Hc|].
  exists e. split; [exact (proj1 (proj1 (Hes e) He)) | exact Hm].
Defined.

(** The quorum's session expires with its earliest item. *)
Example sample_result_expiry : cl_notAfter <$> ar_claims sample_result = Some (Int 100).
Proof. by vm_compute. Qed.

(** A quote verifier that answers [ok: false] without a reason rejects nothing:
    [appraise] pushes the verdict's reasons and counts what was pushed. *)
Theorem silent_rejection_accepted :
  (r ← appraise (shaped (sample_evidence "tpm" "root2" 100)) sample_policy
         (Some (sample_registry {| quote_ok := false; quote_reasons := [] |}));
   Ok (ar_valid r)) = Ok true.
Proof. by vm_compute. Qed.
