(* ===== verification/Separation.v ===== *)
(** * Across the packages: what is signed where

    The messages the packages under src/ sign or MAC as a tagged array in canonical
    CBOR, as one type: the domain tags of crypto/src/domains.ts keep these message
    spaces apart, under one generation of tags and between the two.  Outside
    [message] is what is signed or MACed in another form: EVM attestations (a
    validator signs a 32-byte Keccak digest, ledger/src/evmprofile.ts), the HMACs
    of AWS Signature Version 4 (keystore/src/aws-kms.ts), the bytes a caller hands
    to a key provider's [sign], and the labs' prototypes. *)
From S2P Require Import Prelude JsNum JsVal Crypto Concrete Cose Grant Capability TransLog Sortition Leader Chain Governance Permit Settlement Receipts Attest.
Open Scope string_scope.
Open Scope Z_scope.
Open Scope list_scope.

(** The message spaces of tagged CBOR.  Those of COSE are one space to the signer (the context
    string of RFC 9052); their profiles are told apart by the external AAD. *)
Inductive Space :=
| envelope | permit | permit_caveat | capability_grant | governance_proposal
| receipt | quorum_receipt | sth | evidence | credit_grant | block_sig | block_att | timeout | cose.
#[export] Instance Space_eq : EqDecision Space.
Proof. solve_decision. Defined.

Definition head (s : Space) : string :=
  match s with
  | envelope => tag "ENVELOPE_SIGNED"
  | permit => tag "PERMIT_MAC"
  | permit_caveat => tag "PERMIT_CAVEAT"
  | capability_grant => tag "CAPABILITY_GRANT"
  | governance_proposal => tag "GOVERNANCE_PROPOSAL"
  | receipt => tag "RECEIPT"
  | quorum_receipt => tag "QUORUM_RECEIPT"
  | sth => tag "STH"
  | evidence => tag "ATTEST_EVIDENCE"
  | credit_grant => tag "CREDIT_GRANT"
  | block_sig => tag "BLOCK_SIG"
  | block_att => tag "ATTESTATION"
  | timeout => tag "TIMEOUT"
  | cose => Cose.SIG_CONTEXT
  end.

#[export] Instance head_inj : Inj (=) (=) head.
Proof. intros [] [] E; vm_compute in E; (reflexivity || discriminate E). Qed.

(** A message signed or MACed as a tagged CBOR array. *)
Inductive message :=
| MEnvelope (suite context : string) (payload : bytes)
| MPermit (suite : string) (body : bytes)
| MCaveat (c : Caveat)
| MGrant (suite : string) (g : CapabilityGrant)
| MProposal (p : Proposal) (quorumId suite : string)
| MReceipt (b : ReceiptBody)
| MQuorumReceipt (b : QuorumReceiptBody)
| MTreeHead (op suite : string) (size : num) (rootHex : string)
| MEvidence (suite : string) (claims : AttestationClaims)
| MCredit (suite account : string) (amount : num) (nonce : string)
| MBlock (suite hash : string)
| MAttest (suite : string) (height : num) (hash setId : string)
| MTimeout (suite : string) (height : num) (prev : string) (round : num) (setId : string)
| MCose (prot payload externalAad : bytes).

Definition space (m : message) : Space :=
  match m with
  | MEnvelope _ _ _ => envelope | MPermit _ _ => permit | MCaveat _ => permit_caveat
  | MGrant _ _ => capability_grant | MProposal _ _ _ => governance_proposal
  | MReceipt _ => receipt | MQuorumReceipt _ => quorum_receipt | MTreeHead _ _ _ _ => sth
  | MEvidence _ _ => evidence | MCredit _ _ _ _ => credit_grant | MBlock _ _ => block_sig
  | MAttest _ _ _ _ => block_att | MTimeout _ _ _ _ _ => timeout | MCose _ _ _ => cose
  end.

Section separation.
Context {L : Lib}.

(** The bytes that are signed or MACed, by the function of each package. *)
Definition preimage (m : message) : res bytes :=
  match m with
  | MEnvelope s c p => Crypto.toBeSigned s c p
  | MPermit s b => toBeMaced s b
  | MCaveat c => caveatChainMessage c
  | MGrant s g => grantSigningMessage s g
  | MProposal p q s => proposalBytes p q s
  | MReceipt b => receiptMessage b
  | MQuorumReceipt b => quorumMessage b
  | MTreeHead o s n r => sthMessage o s n r
  | MEvidence s c => attestSigningMessage s c
  | MCredit s a x n => Settlement.grantMessage s a x n
  | MBlock s h => blockSignMessage s h
  | MAttest s k h i => attestMessage s k h i
  | MTimeout s k p r i => viewChangeMessage s k p r i
  | MCose pr pl a => Cose.toBeSigned pr pl a
  end.

(** What a message says, after its tag. *)
Definition fields (m : message) : list jsval :=
  match m with
  | MEnvelope s c p => [VStr s; VStr c; VBytes p]
  | MPermit s b => [VStr s; VBytes b]
  | MCaveat c => [VStr (c_kind c); c_value c]
  | MGrant s g => [VStr s; grant_val g]
  | MProposal p q s => [VStr (p_id p); VStr (kind_str (kind p)); VStr (target p);
      VStr (Governance.payload p); VNum (Governance.notBefore p); VNum (Governance.notAfter p);
      VStr (Governance.nonce p); VStr q; VStr s]
  | MReceipt b => [Receipts.body_val b]
  | MQuorumReceipt b => [quorum_body_val b]
  | MTreeHead o s n r => [VStr o; VStr s; VNum n; VStr r]
  | MEvidence s c => [VStr s; attestation_val c]
  | MCredit s a x n => [VStr s; VStr a; VNum x; VStr n]
  | MBlock s h => [VStr s; VStr h]
  | MAttest s k h i => [VStr s; VNum k; VStr h; VStr i]
  | MTimeout s k p r i => [VStr s; VNum k; VStr p; VNum r; VStr i]
  | MCose pr pl a => [VBytes pr; VBytes a; VBytes pl]
  end.

Lemma preimage_eq m : preimage m = encodeCanonical (VArr (VStr (head (space m)) :: fields m)).
Proof. by destruct m. Qed.

Lemma preimage_inj {CL : CborLaws L} m m' b : preimage m = Ok b -> preimage m' = Ok b ->
  space m = space m' /\ Forall2 same_enc (fields m) (fields m').
Proof.
  rewrite !preimage_eq. intros E E'. assert (S : same_enc (VArr (VStr (head (space m)) :: fields m))
    (VArr (VStr (head (space m')) :: fields m'))) by by exists b.
  apply cbor_arr, Forall2_cons_1 in S as [S%cbor_str F]. split; [by apply (inj head) | exact F].
Qed.

(** C13: Domain separation of the messages that are signed or MACed as a tagged
    canonical CBOR array: envelopes, permits, caveats, grants, proposals,
    receipts, quorum receipts, tree heads, evidence, credits, block proposals,
    attestations, timeout votes and COSE structures.  If two of them have the
    same bytes then they are messages of one space with, field by field, the same
    encodings.  (EVM attestations, which sign a Keccak digest, the HMACs of
    Signature Version 4, and bytes a caller gives to a key provider are not such
    messages and are not covered.) *)
Theorem spaces_separated {CL : CborLaws L} m m' b : preimage m = Ok b -> preimage m' = Ok b ->
  space m = space m' /\ Forall2 same_enc (fields m) (fields m').
Proof. apply preimage_inj. Qed.
End separation.

(** The two generations of tags have the same keys, each tag of a generation
    names one space, and no space of one generation has the tag another space
    has in the other: during a migration, a message of either generation is
    in one space only. *)
Theorem generations_separated :
  map fst (domainTagsFor v2) = map fst (domainTagsFor v3) /\ NoDup (map fst (domainTagsFor v2)) /\
  (forall g g' k k' t, (k, t) ∈ domainTagsFor g -> (k', t) ∈ domainTagsFor g' -> k = k').
Proof.
  split; [done|]. split; [by apply (bool_decide_unpack _); vm_compute|].
  assert (T : forall g g', forallb (fun a => forallb (fun b =>
    implb (String.eqb a.2 b.2) (String.eqb a.1 b.1)) (domainTagsFor g')) (domainTagsFor g) = true)
    by (intros [] []; by vm_compute).
  intros g g' k k' t H%list_elem_of_In H'%list_elem_of_In.
  pose proof (proj1 (forallb_forall _ _) (proj1 (forallb_forall _ _) (T g g') _ H) _ H') as E.
  cbn in E. rewrite String.eqb_refl in E. by apply String.eqb_eq.
Qed.

Definition sample_message : message := MAttest "PS-5" (Int 3) "aa" "bb".
Definition sample_bytes : bytes := Eval vm_compute in try_catch (preimage sample_message) (fun _ => []).

(** Two representations of the number 3 are one message. *)
Lemma spaces_separated_witness :
  Forall2 same_enc (fields sample_message) (fields (MAttest "PS-5" (Fin 12 2) "aa" "bb")).
Proof.
  refine (proj2 (spaces_separated sample_message (MAttest "PS-5" (Fin 12 2) "aa" "bb") sample_bytes _ _));
    by vm_compute.
Defined.
