(* ===== verification/Node.v ===== *)
(** * planes/: the node

    src/planes/src/node.ts: [NerionNode], which runs one admission through the
    kernel, mints the permit and, where the tier asks for it, anchors a receipt
    in the log.  The log is the only state; the CSPRNG's salt is an argument of
    [admit].  [admit] is [None] only when [replay] is given bytes that decode to
    no KernelInput (what the untyped code would then do is not modelled; it does
    not happen to the node's own input, see [admit_total]).  A session has its
    declared type, so the shape test of [checkAttestedSession] passes. *)
From S2P Require Import Prelude JsNum JsVal Crypto Concrete Grant Capability Kernel Merkle TransLog Permit Receipts Attest.
Open Scope string_scope.
Open Scope Z_scope.
Open Scope list_scope.

Record Session := {
  s_sessionId : string;
  sessionKey : bytes;
  s_claims : AttestationClaims }.

(** The configuration; the log it refers to is the state. *)
Record NodeConfig := {
  cfg_suite : string;
  cfg_policy : Policy;
  cfg_trustedRoots : list bytes;
  cfg_issuer : KeyPair;
  cfg_jurisdiction : string;
  permitTtlSeconds : num;
  sessionRootSecret : option bytes;
  requireAttestedSession : bool }.

Record AdmissionRequest := {
  rq_intent : ActionIntent;
  rq_capabilities : list Capability;
  rq_session : Session;
  rq_audience : string;
  rq_now : num;
  rq_observedAggregate : num;
  rq_revoked : option (list string) }.

Record AdmissionOutcome := {
  o_decision : Decision;
  o_permit : option PermitToken;
  o_receipt : option Receipt;
  o_inclusion : option InclusionWitness;
  o_logRoot : option bytes }.

Definition no_admission (d : Decision) : AdmissionOutcome := {|
  o_decision := d; o_permit := None; o_receipt := None; o_inclusion := None; o_logRoot := None |}.

(** The kernel input of a request; an empty revocation list is left out. *)
Definition kernel_input (cfg : NodeConfig) (req : AdmissionRequest) : KernelInput := {|
  intent := rq_intent req;
  capabilities := rq_capabilities req;
  policy := cfg_policy cfg;
  trustedRoots := cfg_trustedRoots cfg;
  in_now := rq_now req;
  in_observedAggregate := rq_observedAggregate req;
  in_holder := Some (sessionPublicKey (s_claims (rq_session req)));
  in_revoked := match rq_revoked req with
                | Some (_ :: _) as r => r
                | _ => None
                end |}.

(** The permit's expiry: the time to live, clamped to the attestation's. *)
Definition permit_exp (cfg : NodeConfig) (req : AdmissionRequest) : num :=
  let notAfter := cl_notAfter (s_claims (rq_session req)) in
  if isSafeInteger notAfter
  then num_min (num_add (rq_now req) (permitTtlSeconds cfg)) notAfter
  else rq_now req.

Section node.
Context {L : Lib}.

Definition deriveSessionKey (rootSecret : bytes) (claims : AttestationClaims) : res bytes :=
  info ← encodeCanonical (VArr [VStr (tag "SESSION_KDF"); attestation_val claims]);
  Ok (hkdf_sha384 rootSecret [] info 48).

(** The two [if]s of [checkAttestedSession]: the first failure's reason. *)
Definition attested_reason (cfg : NodeConfig) (session : Session) (now : num)
  : res (option string) :=
  bound ← match sessionRootSecret cfg with
          | None => Ok (Some "requireAttestedSession is set but the node has no sessionRootSecret")
          | Some root =>
              expected ← deriveSessionKey root (s_claims session);
              Ok (if negb (constantTimeEqual (sessionKey session) expected)
                  then Some "session is not bound to a verified attestation (ATTEST-BIND-001)"
                  else None)
          end;
  Ok (match bound with
      | Some r => Some r
      | None =>
          let notAfter := cl_notAfter (s_claims session) in
          if negb (isSafeInteger now) || negb (isSafeInteger notAfter)
          then Some "attested session freshness uncheckable: non-safe-integer admit clock or notAfter (ATTEST-EXP-001)"
          else if num_ltb notAfter now
          then Some "attested session expired: admit time is past the attestation notAfter (ATTEST-EXP-001)"
          else None
      end).

Definition checkAttestedSession (cfg : NodeConfig) (session : Session) (now : num)
  : res (option AdmissionOutcome) :=
  reason ← attested_reason cfg session now;
  match reason with
  | None => Ok None
  | Some r =>
      ev ← evaluatorVersion (cfg_policy cfg);
      Ok (Some (no_admission {| effect := deny; dec_tier := T3; reasons := [r];
                                obligations := []; dec_evaluatorVersion := ev |}))
  end.

(** The claims [admit] binds into the permit. *)
Definition permit_claims (cfg : NodeConfig) (req : AdmissionRequest) (d : Decision)
  : res PermitClaims :=
  h ← actionHash (rq_intent req);
  Ok {| pc_sessionId := s_sessionId (rq_session req);
        pc_nonce := cl_nonce (s_claims (rq_session req));
        pc_audience := rq_audience req; pc_actionHash := h;
        pc_tier := Int (tier_Z (dec_tier d)); pc_exp := permit_exp cfg req;
        pc_evaluator := dec_evaluatorVersion d; pc_effect := effect_str (effect d) |}.

(** The arguments of [buildReceipt]. *)
Definition receipt_params (cfg : NodeConfig) (req : AdmissionRequest) (d : Decision)
    (cap : option Capability) (rr : ReplayResult) (salt : bytes) : BuildReceiptParams := {|
  bp_suite := cfg_suite cfg; bp_evaluator := dec_evaluatorVersion d;
  bp_effect := effect_str (effect d); bp_tier := Int (tier_Z (dec_tier d));
  bp_jurisdiction := cfg_jurisdiction cfg; bp_timestamp := rq_now req;
  bp_intent := intent_val (rq_intent req); bp_capability := capability_val <$> cap;
  bp_policy := policy_val (cfg_policy cfg); bp_inputHash := inputHash rr;
  bp_decisionHash := receiptHash rr; issuerSecretKey := secretKey (cfg_issuer cfg);
  issuerPublicKey := publicKey (cfg_issuer cfg); bp_intentSalt := Some salt |}.

(** The nearline part: build the receipt, append its leaf, prove its inclusion. *)
Definition anchor (log : TransparencyLog) (p : BuildReceiptParams)
  : TransparencyLog * res (Receipt * InclusionWitness * bytes) :=
  match receipt ← buildReceipt p []; leaf ← receiptLeaf receipt; Ok (receipt, leaf) with
  | Throw e => (log, Throw e)
  | Ok (receipt, leaf) =>
      let (log', _) := append log leaf in
      (log', w ← proveInclusion log' (Z.of_nat (length (entries log)));
             Ok (receipt, w, log_root log'))
  end.

(** [admit] past the session check. *)
Definition admit_body (cfg : NodeConfig) (log : TransparencyLog) (req : AdmissionRequest)
    (salt : bytes) : option (TransparencyLog * res AdmissionOutcome) :=
  let input := kernel_input cfg req in
  let da := decideWithAuthorizer input in
  let d := decision da in
  if bool_decide (effect d = deny) then Some (log, Ok (no_admission d)) else
  match claims ← permit_claims cfg req d;
        issueBoundPermit claims (cfg_suite cfg) (sessionKey (rq_session req)) with
  | Throw e => Some (log, Throw e)
  | Ok permit =>
      if negb (includes (obligations d) "nearline-receipt")
      then Some (log, Ok {| o_decision := d; o_permit := Some permit; o_receipt := None;
                            o_inclusion := None; o_logRoot := None |}) else
      match buildReplayBundle input with
      | Throw e => Some (log, Throw e)
      | Ok bundle =>
          r ← replay bundle;
          Some (match r with
          | Throw e => (log, Throw e)
          | Ok rr =>
              let (log', a) := anchor log (receipt_params cfg req d (authorizingCapability da) rr salt) in
              (log', x ← a;
                     Ok {| o_decision := d; o_permit := Some permit; o_receipt := Some x.1.1;
                           o_inclusion := Some x.1.2; o_logRoot := Some x.2 |})
          end)
      end
  end.

(** [NerionNode.admit]. *)
Definition nodeAdmit (cfg : NodeConfig) (log : TransparencyLog) (req : AdmissionRequest)
    (salt : bytes) : option (TransparencyLog * res AdmissionOutcome) :=
  match (if requireAttestedSession cfg
         then checkAttestedSession cfg (rq_session req) (rq_now req) else Ok None) with
  | Throw e => Some (log, Throw e)
  | Ok (Some denied) => Some (log, Ok denied)
  | Ok None => admit_body cfg log req salt
  end.

(** [establishSession]; [sessionId] is the optional override.  The error's text
    goes on with the reasons of the appraisal. *)
Definition establishSession (cfg : NodeConfig) (evidence : wire_evidence) (ap : AppraisalPolicy)
    (sessionId : option string) : res Session :=
  match sessionRootSecret cfg with
  | None => Throw "establishSession requires NodeConfig.sessionRootSecret"
  | Some root =>
      appraised ← appraise evidence ap None;
      match ar_valid appraised, ar_claims appraised with
      | true, Some claims =>
          k ← deriveSessionKey root claims;
          Ok {| s_sessionId := default (cl_sessionId claims) sessionId; sessionKey := k;
                s_claims := claims |}
      | _, _ => Throw "attestation appraisal failed"
      end
  end.
End node.

(** ** What an admission is *)
Section spec.
Context {L : Lib}.

(** A session the node itself derived from claims, still fresh at [now]: its key
    is HKDF-SHA-384 of the node's root secret over the tagged claims. *)
Definition session_attested (cfg : NodeConfig) (s : Session) (now : num) : Prop :=
  exists root info, sessionRootSecret cfg = Some root /\
    cbor_encode (VArr [VStr "polarseek/session-key/v1"; attestation_val (s_claims s)]) = Ok info /\
    sessionKey s = hkdf_sha384 root [] info 48 /\
    isSafeInteger now = true /\ isSafeInteger (cl_notAfter (s_claims s)) = true /\
    num_Z now <= num_Z (cl_notAfter (s_claims s)).

Lemma deriveSessionKey_iff root claims k : deriveSessionKey root claims = Ok k <->
  exists info, cbor_encode (VArr [VStr "polarseek/session-key/v1"; attestation_val claims]) = Ok info /\
    k = hkdf_sha384 root [] info 48.
Proof.
  change (cbor_encode (VArr [VStr "polarseek/session-key/v1"; attestation_val claims]))
    with (encodeCanonical (VArr [VStr (tag "SESSION_KDF"); attestation_val claims])).
  unfold deriveSessionKey. split.
  - intros E. apply bind_ok in E as (b & Eb & E). apply Ok_inj in E as <-. by exists b.
  - intros (b & -> & ->). done.
Qed.

(** The permit the code mints. *)
Definition minted_for (cfg : NodeConfig) (req : AdmissionRequest) (d : Decision)
    (tok : PermitToken) : Prop :=
  exists claims, permit_claims cfg req d = Ok claims /\
    issueBoundPermit claims (cfg_suite cfg) (sessionKey (rq_session req)) = Ok tok.

(** The expiry a permit gets: the time to live, but never past a [notAfter] that
    is a safe integer; the time of the request itself when it is not one. *)
Definition expiry_for (cfg : NodeConfig) (req : AdmissionRequest) (exp : num) : Prop :=
  let notAfter := cl_notAfter (s_claims (rq_session req)) in
  if isSafeInteger notAfter
  then exp = num_min (num_add (rq_now req) (permitTtlSeconds cfg)) notAfter /\
       num_ltb notAfter exp = false
  else exp = rq_now req.

(** A permit for a request, written out: its body encodes the request's session,
    nonce, audience and action hash with the decision's tier, evaluator and
    effect; its MAC is under the key HKDF derives from the session's for that
    audience. *)
Definition permit_for (cfg : NodeConfig) (req : AdmissionRequest) (d : Decision)
    (tok : PermitToken) : Prop :=
  exists info h exp,
    cbor_encode (VArr [VStr "PolarSeek-Permit-AudienceKDF-v1"; VStr (rq_audience req)]) = Ok info /\
    action_digest (rq_intent req) h /\ expiry_for cfg req exp /\
    tok_suite tok = cfg_suite cfg /\
    cbor_encode (VObj [
      ("sessionId", VStr (s_sessionId (rq_session req)));
      ("nonce", VStr (cl_nonce (s_claims (rq_session req))));
      ("audience", VStr (rq_audience req)); ("actionHash", VStr h);
      ("tier", VNum (Int (match dec_tier d with T0 => 0 | T1 => 1 | T2 => 2 | T3 => 3 end)));
      ("exp", VNum exp); ("evaluator", VStr (dec_evaluatorVersion d));
      ("effect", VStr (match effect d with
                       | allow => "allow" | deny => "deny" | transform => "transform" end))])
      = Ok (tok_body tok) /\
    token_mac (tok_suite tok) (tok_body tok)
      (hkdf_sha384 (sessionKey (rq_session req)) [] info 48) (tok_mac tok).

(** What the kernel is asked. *)
Record Asks (cfg : NodeConfig) (req : AdmissionRequest) (k : KernelInput) : Prop := {
  ask_intent : intent k = rq_intent req;
  ask_capabilities : capabilities k = rq_capabilities req;
  ask_policy : policy k = cfg_policy cfg;
  ask_roots : trustedRoots k = cfg_trustedRoots cfg;
  ask_now : in_now k = rq_now req;
  ask_aggregate : in_observedAggregate k = rq_observedAggregate req;
  ask_holder : in_holder k = Some (sessionPublicKey (s_claims (rq_session req)));
  ask_revoked : default [] (in_revoked k) = default [] (rq_revoked req) }.

Lemma kernel_input_asks cfg req : Asks cfg req (kernel_input cfg req).
Proof. constructor; try done. cbn. by destruct (rq_revoked req) as [[|]|]. Qed.

Definition needs_receipt (d : Decision) : bool := includes (obligations d) "nearline-receipt".

(** The receipt the node anchored: its leaf is the one entry the log grew by. *)
Definition receipt_for (cfg : NodeConfig) (log log' : TransparencyLog) (req : AdmissionRequest)
    (salt : bytes) (o : AdmissionOutcome) (r : Receipt) : Prop :=
  exists rr leaf w, buildReceipt (receipt_params cfg req (o_decision o)
      (authorizingCapability (decideWithAuthorizer (kernel_input cfg req))) rr salt) [] = Ok r /\
    receiptLeaf r = Ok leaf /\ log' = (append log leaf).1 /\
    proveInclusion log' (Z.of_nat (length (entries log))) = Ok w /\
    o_inclusion o = Some w /\ o_logRoot o = Some (log_root log').

Lemma num_min_ltb a b : num_ltb b (num_min a b) = false.
Proof.
  assert (R : forall x, num_ltb x x = false) by (intros [|[]|m k]; cbn; auto; apply Z.ltb_irrefl).
  assert (num_min a b = (if num_ltb b a then b else a) \/ num_min a b = NaN) as [->| ->]
    by (destruct a, b; cbn; auto).
  - destruct (num_ltb b a) eqn:E; [apply R | done].
  - by destruct b.
Qed.

Lemma permit_exp_for cfg req : expiry_for cfg req (permit_exp cfg req).
Proof.
  unfold expiry_for, permit_exp. destruct (isSafeInteger _); [|done].
  split; [done | apply num_min_ltb].
Qed.

Lemma minted_for_spelled cfg req d tok : minted_for cfg req d tok -> permit_for cfg req d tok.
Proof.
  intros (claims & C & I). unfold permit_claims in C. apply bind_ok in C as (h & H & C).
  apply Ok_inj in C as <-. apply action_digest_iff in H.
  unfold issueBoundPermit in I. cbn [pc_audience] in I. apply bind_ok in I as (key & K & I).
  unfold deriveAudiencePermitKey in K. apply bind_ok in K as (info & N & K). apply Ok_inj in K as <-.
  unfold issuePermit in I. apply bind_ok in I as (body & B & I). apply bind_ok in I as (tbm & T & I).
  apply Ok_inj in I as <-. exists info, h, (permit_exp cfg req).
  cbn [tok_suite tok_body tok_mac]. split_and!; [exact N | exact H | apply permit_exp_for | done | |].
  - rewrite <- B. unfold claims_val, encodeCanonical. cbn [pc_sessionId pc_nonce pc_audience
      pc_actionHash pc_tier pc_exp pc_evaluator pc_effect].
    destruct (dec_tier d), (effect d); reflexivity.
  - by exists tbm.
Qed.

Lemma attested_reason_none cfg s now :
  attested_reason cfg s now = Ok None <-> session_attested cfg s now.
Proof.
  unfold attested_reason, session_attested. split.
  - destruct (sessionRootSecret cfg) as [root|]; [|by intros [=]].
    intros E. apply bind_ok in E as (b & Eb & E). apply bind_ok in Eb as (k & Ek & Eb).
    destruct (constantTimeEqual _ _) eqn:C in Eb; cbn [negb] in Eb; apply Ok_inj in Eb as <-;
      [|by apply Ok_inj in E].
    apply constantTimeEqual_true in C. apply Ok_inj in E.
    apply deriveSessionKey_iff in Ek as (info & Ei & Ek). exists root, info.
    destruct (isSafeInteger now) eqn:A, (isSafeInteger (cl_notAfter (s_claims s))) eqn:B; try done.
    cbn [negb orb] in E. rewrite num_ltb_Z in E by (by apply safe_isInteger).
    destruct (Z.ltb_spec (num_Z (cl_notAfter (s_claims s))) (num_Z now)); [done|].
    rewrite C, Ek. split_and!; done || lia.
  - intros (root & info & -> & Ei & Ek & A & B & T).
    rewrite (proj2 (deriveSessionKey_iff root (s_claims s) (sessionKey s))) by (by exists info). cbn [mbind res_bind].
    rewrite constantTimeEqual_refl, A, B. cbn [negb orb].
    rewrite num_ltb_Z by (by apply safe_isInteger). by rewrite (proj2 (Z.ltb_ge _ _)).
Qed.

(** What a run of [admit] that returns has done. *)
Lemma admit_inv cfg log req salt log' o : nodeAdmit cfg log req salt = Some (log', Ok o) ->
  (effect (o_decision o) = deny /\ log' = log /\ o = no_admission (o_decision o)) \/
  (effect (o_decision o) <> deny /\ o_decision o = decide (kernel_input cfg req) /\
   (requireAttestedSession cfg = true -> session_attested cfg (rq_session req) (rq_now req)) /\
   (exists tok, o_permit o = Some tok /\ minted_for cfg req (o_decision o) tok) /\
   if needs_receipt (o_decision o)
   then exists r, o_receipt o = Some r /\ receipt_for cfg log log' req salt o r
   else log' = log /\ o_receipt o = None).
Proof.
  unfold nodeAdmit. intros E.
  destruct (if requireAttestedSession cfg then _ else _) as [[d|]|e] eqn:S; [| |done].
  { injection E as <- <-. destruct (requireAttestedSession cfg); [|done].
    apply bind_ok in S as ([r|] & _ & S); [|done]. apply bind_ok in S as (ev & _ & S).
    apply Ok_inj in S as [= <-]. by left. }
  assert (HS : requireAttestedSession cfg = true -> session_attested cfg (rq_session req) (rq_now req)).
  { intros R. rewrite R in S. apply bind_ok in S as ([r|] & A & S); [|by apply attested_reason_none].
    by apply bind_ok in S as (ev & _ & [=]). }
  unfold admit_body in E. fold (decide (kernel_input cfg req)) in E.
  case_bool_decide as D; [injection E as <- <-; by left|].
  destruct (_ ≫= _) as [tok|e] eqn:P in E; [|done].
  apply bind_ok in P as (claims & Pc & Pi). unfold needs_receipt.
  destruct (includes _ _) eqn:I in E; cbn [negb] in E.
  2: { injection E as <- <-. right. cbn [o_decision o_permit o_receipt]. rewrite I.
       split_and!; try done. exists tok. split; [done|]. by exists claims. }
  destruct (buildReplayBundle _) as [bundle|e] eqn:B; [|done].
  destruct (replay bundle) as [[rr|e]|]; cbn [mbind option_bind] in E; try done.
  set (da := decideWithAuthorizer (kernel_input cfg req)) in *.
  destruct (anchor log _) as [log1 [[[r w] root]|e]] eqn:A in E; [|done].
  injection E as <- <-. right. cbn [o_decision o_permit o_receipt o_inclusion fst snd]. rewrite I.
  split_and!; try done; [exists tok; split; [done|]; by exists claims|].
  exists r. split; [done|]. unfold anchor in A.
  destruct (_ ≫= _) as [[r' leaf]|] eqn:C in A; [|done].
  apply bind_ok in C as (r'' & Er & C). apply bind_ok in C as (leaf' & El & C).
  injection C as -> ->. destruct (append log leaf) as [log2 ar] eqn:Ap.
  injection A as <- A. apply bind_ok in A as (w' & Ew & A). injection A as -> -> <-.
  exists rr, leaf, w. rewrite Ap. cbn [fst o_inclusion o_logRoot o_decision]. by split_and!.
Qed.
End spec.

(** ** Properties *)
Section properties.
Context {L : Lib}.

(** C9: What the node admits.  A permit is issued exactly when the decision is not
    deny, and then the kernel, asked about the request's own intent,
    capabilities, time, holder and revocations under the node's policy and
    roots, admits it (default deny); where the node requires it, the session's
    key is the one derived from the node's root secret and the session's
    attestation claims, and those are unexpired.  The permit's body is the
    encoding of the request's session, nonce, audience and action hash with the
    decision's tier, evaluator and effect, MACed under the key derived from the
    session's for that audience; it expires no later than the attestation where
    the attestation's notAfter is a safe integer, and at the time of the request
    where it is not.  Without a permit there is no receipt and the log is
    unchanged; with one, a receipt is anchored exactly when the decision's
    obligations ask for it, and the log grows by that receipt's leaf alone. *)
Theorem admit_safe cfg log req salt log' o : nodeAdmit cfg log req salt = Some (log', Ok o) ->
  (o_permit o = None <-> effect (o_decision o) = deny) /\
  (o_permit o = None -> o_receipt o = None /\ log' = log) /\
  forall tok, o_permit o = Some tok ->
    (exists k, Asks cfg req k /\ Admissible k /\ o_decision o = decide k) /\
    (requireAttestedSession cfg = true -> session_attested cfg (rq_session req) (rq_now req)) /\
    permit_for cfg req (o_decision o) tok /\
    ("nearline-receipt" ∈ obligations (o_decision o) ->
      exists r leaf, o_receipt o = Some r /\ receiptLeaf r = Ok leaf /\
      entries log' = entries log ++ [leaf]) /\
    ("nearline-receipt" ∉ obligations (o_decision o) -> o_receipt o = None /\ log' = log).
Proof.
  intros E. destruct (admit_inv _ _ _ _ _ _ E) as [(D & -> & ->)|(D & Hd & Hs & (tok & Hp & P) & R)].
  { cbn [o_permit o_receipt no_admission o_decision]. by split_and!. }
  rewrite Hp. split; [split; [done | intros H; by destruct D]|]. split; [done|].
  intros t [= <-]. split.
  { exists (kernel_input cfg req). split; [apply kernel_input_asks|]. split; [|done].
    destruct (decide_cases (kernel_input cfg req)) as [[A _]|(_ & D' & _)]; [done|].
    destruct D. by rewrite Hd. }
  unfold needs_receipt in R.
  split_and!; [done | by apply minted_for_spelled | intros Ob | intros Ob].
  - rewrite (proj2 (includes_spec _ _) Ob) in R.
    destruct R as (r & Hr & rr & leaf & w & _ & El & -> & _). by exists r, leaf.
  - destruct (includes _ _) eqn:I in R; [by apply includes_spec in I | by destruct R].
Qed.

(** C35: The receipt the node hands out is evidence: when the node's suite is
    active and its issuer keys belong together, the receipt and the witness
    verify against the root handed out with them and the issuer's key, and the
    intent of the request is the one the receipt discloses. *)
Theorem admitted_receipt_verifies `{!SigLaws L kpr} cfg log req salt log' o r :
  cfg_suite cfg ∈ activeSuiteIds ->
  kpr (publicKey (cfg_issuer cfg)) (secretKey (cfg_issuer cfg)) ->
  Z.of_nat (length (entries log)) + 1 <= MAX_TREE_SIZE ->
  nodeAdmit cfg log req salt = Some (log', Ok o) -> o_receipt o = Some r ->
  exists w root, o_inclusion o = Some w /\ o_logRoot o = Some root /\ root = log_root log' /\
    verifyReceiptInclusion r w root (publicKey (cfg_issuer cfg)) =
      Ok {| ev_ok := true; ev_reasons := [] |} /\
    verifyIntentDisclosure r (intent_val (rq_intent req)) = Ok true.
Proof.
  intros Hs Hk Hn E Hr.
  destruct (admit_inv _ _ _ _ _ _ E) as [(_ & _ & Ho)|(_ & _ & _ & _ & R)];
    [by rewrite Ho in Hr|].
  destruct (needs_receipt _); [|destruct R; congruence].
  destruct R as (r' & Hr' & rr & leaf & w & B & El & -> & Hw & Hi & Hl).
  assert (r' = r) as -> by congruence.
  match type of B with buildReceipt ?q _ = _ => set (p := q) in * end.
  destruct (receipt_appended p [] r leaf log Hs Hk B El Hn) as (w' & Hw' & V).
  assert (w' = w) as -> by congruence.
  destruct (buildReceipt_verifies p [] r Hs Hk B) as (_ & _ & D).
  exists w, (log_root (append log leaf).1). by split_and!.
Qed.

(** The node's own inputs replay: [admit] has an outcome for every request whose
    kernel input the codec reads back. *)
Theorem admit_total cfg log req salt :
  (forall b, cbor_encode (input_val (kernel_input cfg req)) = Ok b ->
     reads_back (kernel_input cfg req) b) ->
  exists log' r, nodeAdmit cfg log req salt = Some (log', r).
Proof.
  intros H. unfold nodeAdmit. destruct (if requireAttestedSession cfg then _ else _) as [[d|]|e]; eauto.
  unfold admit_body. case_bool_decide; [eauto|]. destruct (_ ≫= _); [|eauto].
  destruct (negb _); [eauto|]. destruct (buildReplayBundle _) as [bundle|] eqn:B; [|eauto].
  assert (Hb : exists d, replay_decision bundle = Some d).
  { unfold buildReplayBundle in B. apply bind_ok in B as (b & Eb & B).
    apply bind_ok in B as (ev & _ & [= <-]). unfold replay_decision. cbn [inputBytes].
    destruct (H b Eb) as (v & -> & Hv). rewrite Hv. cbn [mbind option_bind]. destruct (negb _); eauto. }
  destruct Hb as [d Hd]. unfold replay. rewrite Hd. cbn [mbind option_bind].
  destruct (_ ≫= _); [|eauto]. destruct (anchor _ _); eauto.
Qed.

(** A session the node establishes is one the node admits: the evidence it
    came from appraised, and the session passes the check of the same node at
    every time up to the attestation's expiry, and at no other. *)
Theorem established_session_admitted cfg w ap sid s now :
  establishSession cfg w ap sid = Ok s ->
  (exists e, w = shaped e /\ Appraised e ap None /\ s_claims s = ev_claims e) /\
  (checkAttestedSession cfg s now = Ok None <->
   isSafeInteger now = true /\ num_Z now <= num_Z (cl_notAfter (s_claims s))).
Proof.
  unfold establishSession. destruct (sessionRootSecret cfg) as [root|] eqn:Hr; [|done].
  intros E. apply bind_ok in E as (r & Er & E). pose proof (appraise_spec _ _ _ _ Er) as S.
  destruct (ar_valid r); [|done]. destruct (proj1 S eq_refl) as (e & -> & A & C). rewrite C in E.
  apply bind_ok in E as (k & Ek & E). apply Ok_inj in E as <-. cbn [s_claims].
  split; [by exists e|]. unfold checkAttestedSession.
  set (s := {| s_sessionId := _; sessionKey := k; s_claims := ev_claims e |}).
  assert (N : session_attested cfg s now <->
    isSafeInteger now = true /\ num_Z now <= num_Z (cl_notAfter (ev_claims e))).
  { destruct (apd_time _ _ _ A) as (_ & T & _). split; [by intros (? & ? & _ & _ & _ & ? & _ & ?)|].
    intros [T1 T2]. apply deriveSessionKey_iff in Ek as (info & Ei & Ek). by exists root, info. }
  rewrite <- N, <- attested_reason_none. split.
  - intros E. apply bind_ok in E as ([x|] & Ex & E); [|done]. by apply bind_ok in E as (? & _ & [=]).
  - intros ->. done.
Qed.
End properties.

(** ** A run: attest, establish a session, admit a payment *)
Definition sample_config : NodeConfig := {|
  cfg_suite := "PS-5"; cfg_policy := Kernel.sample_policy;
  cfg_trustedRoots := [publicKey (kp "root")]; cfg_issuer := kp "node";
  cfg_jurisdiction := "EU"; permitTtlSeconds := Int 300;
  sessionRootSecret := Some (repeat x07 32); requireAttestedSession := true |}.
Definition sample_wire : wire_evidence := shaped (sample_evidence "software-dev" "root1" 200).
Definition no_session : Session :=
  {| s_sessionId := ""; sessionKey := []; s_claims := sample_claims "" 0 |}.
Definition sample_session : Session := Eval vm_compute in
  try_catch (establishSession sample_config sample_wire Attest.sample_policy None)
    (fun _ => no_session).
Definition sample_request (s : Session) (t : Z) : AdmissionRequest := {|
  rq_intent := sample_intent; rq_capabilities := [sample_child; sample_cap]; rq_session := s;
  rq_audience := "bank"; rq_now := Int t; rq_observedAggregate := Int 0; rq_revoked := None |}.
Definition sample_log : TransparencyLog := {| entries := [[x01]; [x02]] |}.
Definition no_outcome : AdmissionOutcome := no_admission (decide sample_delete).
Definition outcome_of (r : option (TransparencyLog * res AdmissionOutcome)) : AdmissionOutcome :=
  match r with Some (_, Ok o) => o | _ => no_outcome end.
Definition log_of (r : option (TransparencyLog * res AdmissionOutcome)) : TransparencyLog :=
  match r with Some (l, _) => l | None => sample_log end.
Definition sample_req : AdmissionRequest := sample_request sample_session 50.
Definition sample_admission : option (TransparencyLog * res AdmissionOutcome) :=
  nodeAdmit sample_config sample_log sample_req (repeat x09 32).
Definition sample_outcome : AdmissionOutcome := Eval vm_compute in outcome_of sample_admission.
Definition sample_log' : TransparencyLog := Eval vm_compute in log_of sample_admission.

Example sample_admitted : effect (o_decision sample_outcome) = allow /\
  obligations (o_decision sample_outcome) = ["nearline-receipt"; "step-up-approval"] /\
  length (entries sample_log') = 3%nat.
Proof. by vm_compute. Qed.

(** The same request with a key of the caller's own choice, or past the
    attestation's expiry, is denied. *)
Example unattested_denied :
  effect (o_decision (outcome_of (nodeAdmit sample_config sample_log
    (sample_request {| s_sessionId := "s1"; sessionKey := repeat x00 48;
                       s_claims := s_claims sample_session |} 50) []))) = deny /\
  effect (o_decision (outcome_of (nodeAdmit sample_config sample_log
    (sample_request sample_session 201) []))) = deny.
Proof. by vm_compute. Qed.

Lemma sample_admission_eq : nodeAdmit sample_config sample_log sample_req (repeat x09 32) =
  Some (sample_log', Ok sample_outcome).
Proof. vm_compute. reflexivity. Qed.

Lemma admit_safe_witness : exists tok, o_permit sample_outcome = Some tok /\
  session_attested sample_config (rq_session sample_req) (rq_now sample_req) /\
  permit_for sample_config sample_req (o_decision sample_outcome) tok.
Proof.
  destruct (admit_safe _ _ _ _ _ _ sample_admission_eq) as ([H0 _] & _ & H).
  assert (D : effect (o_decision sample_outcome) <> deny) by (vm_compute; discriminate).
  destruct (o_permit sample_outcome) as [tok|]; [|destruct (D (H0 eq_refl))].
  exists tok. split; [exact eq_refl|]. destruct (H tok eq_refl) as (_ & A & P & _).
  exact (conj (A eq_refl) P).
Defined.

Definition sample_anchored : Receipt := Eval vm_compute in default sample_receipt (o_receipt sample_outcome).

Lemma admitted_receipt_verifies_witness : exists w root,
  o_inclusion sample_outcome = Some w /\ o_logRoot sample_outcome = Some root /\
  root = log_root sample_log' /\
  verifyReceiptInclusion sample_anchored w root (publicKey (cfg_issuer sample_config)) =
    Ok {| ev_ok := true; ev_reasons := [] |} /\
  verifyIntentDisclosure sample_anchored (intent_val (rq_intent sample_req)) = Ok true.
Proof.
  refine (admitted_receipt_verifies (kpr := eq) sample_config sample_log
    sample_req (repeat x09 32) _ _ _ _ _ _ sample_admission_eq _).
  - rewrite activeSuiteIds_eq. by left.
  - reflexivity.
  - apply Z.leb_le. by vm_compute.
  - vm_compute. reflexivity.
Defined.

Lemma established_session_admitted_witness :
  checkAttestedSession sample_config sample_session (Int 200) = Ok None.
Proof.
  refine (proj2 (proj2 (established_session_admitted sample_config sample_wire Attest.sample_policy
    None sample_session (Int 200) _)) _).
  - vm_compute. reflexivity.
  - split; [reflexivity | apply Z.leb_le; by vm_compute].
Defined.
