(* ===== verification/Guard.v ===== *)
(** * sdks/: the client and the guarded tool

    src/sdks/ts/src/client.ts and mcp.ts.  The intent mapper and the tool handler
    are the integrator's: parameters that may throw.  A guarded call returns the
    log afterwards, the calls it made to the handler, and its result (a promise
    that rejects is a [Throw]).  As in [Node.v], [None] only stands for a replay
    of bytes that are no KernelInput. *)
From S2P Require Import Prelude JsNum JsVal Crypto Concrete Grant Capability Kernel Merkle TransLog Permit Receipts Attest Node.
Open Scope string_scope.
Open Scope Z_scope.
Open Scope list_scope.

(** ** client.ts *)
Record GuardContext := {
  gc_capabilities : list Capability;
  gc_session : Session;
  gc_audience : string;
  gc_now : num;
  gc_observedAggregate : option num;
  gc_revoked : option (list string);
  gc_audienceKey : option bytes }.

Definition admission_request (i : ActionIntent) (ctx : GuardContext) : AdmissionRequest := {|
  rq_intent := i; rq_capabilities := gc_capabilities ctx; rq_session := gc_session ctx;
  rq_audience := gc_audience ctx; rq_now := gc_now ctx;
  rq_observedAggregate := default (Int 0) (gc_observedAggregate ctx);
  rq_revoked := match gc_revoked ctx with Some (_ :: _) as r => r | _ => None end |}.

Definition permit_check (i : ActionIntent) (ctx : GuardContext) : PermitCheck := {|
  ck_audience := gc_audience ctx; ck_intent := i; ck_now := gc_now ctx;
  ck_sessionId := Some (s_sessionId (gc_session ctx)); expectedEffect := None |}.

Section client.
Context {L : Lib}.

(** [NerionClient.guard]; [cfg] and [log] are the node. *)
Definition guard (cfg : NodeConfig) (log : TransparencyLog) (i : ActionIntent)
    (ctx : GuardContext) (salt : bytes) : option (TransparencyLog * res AdmissionOutcome) :=
  nodeAdmit cfg log (admission_request i ctx) salt.

Definition checkPermit (outcome : AdmissionOutcome) (ctx : GuardContext) (i : ActionIntent)
  : res bool :=
  match o_permit outcome with
  | None => Ok false
  | Some permit =>
      audienceKey ← match gc_audienceKey ctx with
                    | Some k => Ok k
                    | None => deriveAudiencePermitKey (sessionKey (gc_session ctx)) (gc_audience ctx)
                    end;
      v ← verifyPermitForAction permit audienceKey (permit_check i ctx);
      Ok (pv_ok v)
  end.
End client.

(** ** mcp.ts *)
Record GuardedResult (R : Type) := {
  g_allowed : bool;
  g_result : option R;
  g_decision : Decision;
  g_receipt : option Receipt;
  g_reasons : list string }.
Arguments g_allowed {R} _.
Arguments g_result {R} _.
Arguments g_decision {R} _.
Arguments g_receipt {R} _.
Arguments g_reasons {R} _.

Section guard.
Context {L : Lib} {A R : Type}.
Variable mapIntent : string -> A -> res ActionIntent.
Variable handler : string -> A -> res R.

Definition refused (d : Decision) (receipt : option Receipt) (why : list string)
  : GuardedResult R := {|
  g_allowed := false; g_result := None; g_decision := d; g_receipt := receipt; g_reasons := why |}.

Definition isDischarged (discharged : list string) (receipt : option Receipt) (o : string) : bool :=
  if bool_decide (o = "nearline-receipt")
  then match receipt with Some _ => true | None => false end
  else bool_decide (o = "session-attestation") || includes discharged o.

(** What follows the admission. *)
Definition guard_outcome (discharged : list string) (toolName : string) (args : A)
    (ctx : GuardContext) (i : ActionIntent) (outcome : AdmissionOutcome)
  : list (string * A) * res (GuardedResult R) :=
  let d := o_decision outcome in
  let receipt := o_receipt outcome in
  match effect d with
  | deny => ([], Ok (refused d receipt (reasons d)))
  | transform => ([], Ok (refused d receipt
      ["effect " +:+ quoted (effect_str (effect d)) +:+
       " requires the transform obligation to be applied before execution; handler not run"]))
  | allow =>
      match checkPermit outcome ctx i with
      | Throw e => ([], Throw e)
      | Ok false => ([], Ok (refused d receipt ["permit failed resource-side verification"]))
      | Ok true =>
          let undischarged :=
            List.filter (fun o => negb (isDischarged discharged receipt o)) (obligations d) in
          match undischarged with
          | _ :: _ => ([], Ok (refused d receipt
              ["decision requires obligation(s) [" +:+ String.concat ", " undischarged +:+
               "] to be discharged before execution (THREAT_MODEL M-P2-1); the reference guard has no discharge mechanism, so the handler was NOT run"]))
          | [] =>
              ([(toolName, args)],
               r ← handler toolName args;
               Ok {| g_allowed := true; g_result := Some r; g_decision := d; g_receipt := receipt;
                     g_reasons := [] |})
          end
      end
  end.

Definition guardTool (cfg : NodeConfig) (log : TransparencyLog) (discharged : list string)
    (toolName : string) (args : A) (ctx : GuardContext) (salt : bytes)
  : option (TransparencyLog * list (string * A) * res (GuardedResult R)) :=
  match mapIntent toolName args with
  | Throw e =>
      let why := ["intent mapping / arg validation failed: " +:+ e] in
      Some (log, [], Ok (refused {| effect := deny; dec_tier := T3; reasons := why;
                                    obligations := []; dec_evaluatorVersion := "" |} None why))
  | Ok i =>
      r ← guard cfg log i ctx salt;
      Some (match r with
            | (log', Throw e) => (log', [], Throw e)
            | (log', Ok outcome) =>
                let (calls, res) := guard_outcome discharged toolName args ctx i outcome in
                (log', calls, res)
            end)
  end.
End guard.

(** ** What a guarded call does *)
Section spec.
Context {L : Lib} {A R : Type}.
Context (mapIntent : string -> A -> res ActionIntent) (handler : string -> A -> res R).




Lemma checkPermit_ok o ctx i : checkPermit o ctx i = Ok true <->
  exists tok key, o_permit o = Some tok /\
    (gc_audienceKey ctx = Some key \/ gc_audienceKey ctx = None /\
       deriveAudiencePermitKey (sessionKey (gc_session ctx)) (gc_audience ctx) = Ok key) /\
    PermitOK tok key (permit_check i ctx).
Proof.
  unfold checkPermit. destruct (o_permit o) as [tok|]; [|split; [done | by intros (? & ? & [=] & _)]].
  split.
  - intros E. apply bind_ok in E as (key & Ek & E). apply bind_ok in E as (v & Ev & E).
    apply Ok_inj in E. exists tok, key. split; [done|]. split.
    + destruct (gc_audienceKey ctx); [left; congruence | by right].
    + apply verifyPermitForAction_iff. by exists v.
  - intros (tok' & key & [= <-] & Hk & P). apply verifyPermitForAction_iff in P as (v & Ev & V).
    destruct Hk as [-> | [-> ->]]; cbn [mbind res_bind]; rewrite Ev; cbn [mbind res_bind]; by rewrite V.
Qed.











(** The permit of an allowed admission is honoured: checked with the session's
    own audience key, at any time up to its expiry, it verifies for the very
    intent it was minted for, as long as its encoding reads back and is within
    the size bounds. *)
Theorem minted_permit_checks cfg log i ctx salt log' o tok claims :
  guard cfg log i ctx salt = Some (log', Ok o) -> o_permit o = Some tok ->
  effect (o_decision o) = allow -> gc_audienceKey ctx = None ->
  permit_claims cfg (admission_request i ctx) (o_decision o) = Ok claims ->
  claims_read tok claims ->
  (length (tok_body tok) <= MAX_PERMIT_BODY_BYTES)%nat ->
  (String.length (cfg_suite cfg) <= MAX_PERMIT_SUITE_LEN)%nat ->
  isFinite (pc_exp claims) = true -> num_leb (gc_now ctx) (pc_exp claims) = true ->
  checkPermit o ctx i = Ok true.
Proof.
  intros G Ht Ha Hk Hc Rd B1 B2 X1 X2. unfold guard in G.
  destruct (admit_inv _ _ _ _ _ _ G) as [(D & _)|(_ & _ & _ & (t & Ht' & cl & Hc' & I) & _)];
    [congruence|].
  assert (t = tok) as -> by congruence. assert (cl = claims) as -> by congruence.
  unfold permit_claims in Hc. apply bind_ok in Hc as (h & Eh & Hc). apply Ok_inj in Hc as <-.
  destruct (deriveAudiencePermitKey (sessionKey (gc_session ctx)) (gc_audience ctx)) as [key|] eqn:K.
  2: { unfold issueBoundPermit in I. cbn in I. by rewrite K in I. }
  apply checkPermit_ok. exists tok, key. split; [done|]. split; [by right|].
  eapply issued_permit_ok; try done; cbn; try done; [by intros s [= <-] | by rewrite Ha].
Qed.
End spec.

(** ** A guarded tool *)
Definition sample_mapper (tool : string) (args : num) : res ActionIntent :=
  if isSafeInteger args
  then Ok {| type_ := type_ sample_intent; resource := resource sample_intent;
             counterparty := counterparty sample_intent; amount := Some args;
             params := params sample_intent |}
  else Throw "bad amount".
Definition sample_handler (tool : string) (args : num) : res num := Ok args.
Definition sample_gctx : GuardContext := {|
  gc_capabilities := [sample_child; sample_cap]; gc_session := Node.sample_session;
  gc_audience := "bank"; gc_now := Int 50; gc_observedAggregate := None; gc_revoked := None;
  gc_audienceKey := None |}.
Definition sample_calls (discharged : list string) (n : num)
  : option (TransparencyLog * list (string * num) * res (GuardedResult num)) :=
  guardTool sample_mapper sample_handler sample_config sample_log discharged "pay" n sample_gctx
    (repeat x09 32).
Definition calls_of (r : option (TransparencyLog * list (string * num) * res (GuardedResult num)))
  : list (string * num) := match r with Some (_, calls, _) => calls | None => [] end.

(** The tier's step-up approval has to be discharged; a malformed call never
    reaches the handler. *)
Example guard_examples :
  calls_of (sample_calls [] (Int 100)) = [] /\
  calls_of (sample_calls ["step-up-approval"] NaN) = [].
Proof. by vm_compute. Qed.

Definition guarded_log_of
    (r : option (TransparencyLog * list (string * num) * res (GuardedResult num)))
  : TransparencyLog := match r with Some (l, _, _) => l | None => sample_log end.
Definition sample_guarded_log : TransparencyLog := Eval vm_compute in
  guarded_log_of (sample_calls ["step-up-approval"] (Int 100)).



(** The outcome behind the guarded call, and its permit's claims. *)
Definition sample_paid : ActionIntent := Eval vm_compute in
  try_catch (sample_mapper "pay" (Int 100)) (fun _ => sample_intent).
Definition paid_outcome : AdmissionOutcome := Eval vm_compute in
  outcome_of (guard sample_config sample_log sample_paid sample_gctx (repeat x09 32)).
Definition paid_permit : PermitToken := Eval vm_compute in default no_token (o_permit paid_outcome).
Definition paid_claims : PermitClaims := Eval vm_compute in
  try_catch (permit_claims sample_config (admission_request sample_paid sample_gctx)
               (o_decision paid_outcome)) (fun _ => Permit.sample_claims).

Lemma minted_permit_checks_witness : checkPermit paid_outcome sample_gctx sample_paid = Ok true.
Proof.
  refine (minted_permit_checks sample_config sample_log sample_paid sample_gctx (repeat x09 32)
    sample_guarded_log paid_outcome paid_permit paid_claims _ _ _ _ _ _ _ _ _ _).
  - vm_compute. reflexivity.
  - reflexivity.
  - reflexivity.
  - reflexivity.
  - vm_compute. reflexivity.
  - eexists. split; [vm_compute; reflexivity | repeat constructor; vm_compute; reflexivity].
  - apply Nat.leb_le. vm_compute. reflexivity.
  - apply Nat.leb_le. vm_compute. reflexivity.
  - reflexivity.
  - vm_compute. reflexivity.
Defined.
