(* ===== verification/EvmProfile.v ===== *)
(** * ledger/: the EVM attestation profile

    src/ledger/src/evmprofile.ts: the keccak256 commitment to a validator set and
    to an attestation that a contract recomputes, the finality check over it, and
    equivocation under it.  keccak-256 is the library's; a string of the model is
    its UTF-8 bytes.  A chain id has its declared type (bigint). *)
From S2P Require Import Prelude JsNum JsVal Crypto Concrete Sortition Leader Finality.
Open Scope string_scope.
Open Scope Z_scope.
Open Scope list_scope.

(** @noble/hashes keccak_256 *)
Class Keccak := { keccak_256 : bytes -> bytes }.
Class KeccakLen `{Keccak} := { keccak_length : forall b, length (keccak_256 b) = 32%nat }.
Arguments KeccakLen : clear implicits.

Definition SET_TAG : bytes := utf8 (tag "EVM_CONSENSUS_SET").
Definition ATT_TAG : bytes := utf8 (tag "EVM_ATTEST").
Definition U256_MAX : Z := Z.shiftl 1 256 - 1.
Definition MAX_VALIDATORS : nat := Z.to_nat 4096.
Definition MAX_ATTESTATIONS : nat := Z.to_nat 8192.

Record EvmTarget := { chainId : Z; verifier : string }.

Definition u256 (x : Z) : res bytes :=
  if x <? 0 then Throw "u256: negative" else
  if U256_MAX <? x then Throw "u256: overflow" else Ok (be_bytes 32 x).

(** [LOWER_HEX] *)
Definition lower_hex_char (c : ascii) : bool :=
  let n := nat_of_ascii c in ((48 <=? n) && (n <=? 57) || (97 <=? n) && (n <=? 102))%nat.
Definition LOWER_HEX (s : string) : bool := forallb lower_hex_char (list_ascii_of_string s).

(** [cmpBytes] *)
Fixpoint cmpBytes (a b : bytes) : Z :=
  match a, b with
  | [], [] => 0
  | [], _ :: _ => -1
  | _ :: _, [] => 1
  | x :: a', y :: b' =>
      if bool_decide (x = y) then cmpBytes a' b'
      else if Z_of_byte x <? Z_of_byte y then -1 else 1
  end.

Definition safeUint (label : string) (x : num) : res Z :=
  if negb (isSafeInteger x) || num_ltb x (Int 0)
  then Throw ("evmprofile: " +:+ label +:+ " is not a safe non-negative integer")
  else Ok (num_Z x).

Record CanonMember := {
  cm_pubkey : string; cm_pubkeyBytes : bytes; cm_stake : Z; cm_vrfHash : bytes }.

Definition cm_ltb (a b : CanonMember) : bool :=
  cmpBytes (cm_pubkeyBytes a) (cm_pubkeyBytes b) <? 0.

(** The pass over neighbours that rejects duplicates. *)
Fixpoint no_duplicate (ms : list CanonMember) : bool :=
  match ms with
  | a :: ((b :: _) as rest) =>
      negb (cmpBytes (cm_pubkeyBytes a) (cm_pubkeyBytes b) =? 0) && no_duplicate rest
  | _ => true
  end.

Record EvmSignedAttestation := { ea_validator : string; evmSig : bytes }.
Record EvmFinalityVerdict := {
  ef_finalized : bool; ef_attestingStake : Z; ef_totalStake : Z }.
Record EvmEquivocationProof := {
  ee_validator : string; ee_height : num; ee_blockHashA : string; ee_blockHashB : string;
  ee_sigA : bytes; ee_sigB : bytes }.

Section evm.
Context {L : Lib} {K : Keccak}.

Definition EMPTY_KECCAK : bytes := keccak_256 [].

Definition decodeHex (label hex : string) : res bytes :=
  if negb (Nat.even (String.length hex)) || negb (LOWER_HEX hex)
  then Throw ("evmprofile: " +:+ label +:+ " is not lowercase even-length hex")
  else hexToBytes hex.

Definition decodeHexExact (label hex : string) (n : nat) : res bytes :=
  b ← decodeHex label hex;
  if negb (length b =? n)%nat then Throw ("evmprofile: " +:+ label +:+ " has the wrong length")
  else Ok b.

Definition canon_member (v : Validator) : res CanonMember :=
  pk ← decodeHex "pubkey" (pubkey v);
  if (length pk =? 0)%nat then Throw "evmprofile: empty pubkey" else
  let s := match stake v with VBig z => if 0 <? z then z else 0 | _ => 0 end in
  if U256_MAX <? s then Throw "evmprofile: stake overflow" else
  vh ← match vrfPubkey v with
       | Some vk => b ← decodeHex "vrfPubkey" vk; Ok (keccak_256 b)
       | None => Ok EMPTY_KECCAK
       end;
  Ok {| cm_pubkey := pubkey v; cm_pubkeyBytes := pk; cm_stake := s; cm_vrfHash := vh |}.

Definition canonicalMembers (set : ValidatorSet) : res (list CanonMember) :=
  raw ← mapM canon_member (validators set);
  let members := js_sort cm_ltb raw in
  if negb (no_duplicate members) then Throw "evmprofile: duplicate pubkey in validator set"
  else Ok members.

(** One round of the fold over the members. *)
Definition set_step (h : bytes) (m : CanonMember) : res bytes :=
  s ← u256 (cm_stake m);
  Ok (keccak_256 (h ++ keccak_256 (cm_pubkeyBytes m) ++ s ++ cm_vrfHash m)).
Fixpoint set_fold (h : bytes) (ms : list CanonMember) : res bytes :=
  match ms with [] => Ok h | m :: ms' => h' ← set_step h m; set_fold h' ms' end.

Definition evmSetId (set : ValidatorSet) : res bytes :=
  ms ← canonicalMembers set;
  h ← set_fold (keccak_256 SET_TAG) ms;
  e ← safeUint "epoch" (default (Int 0) (epoch set));
  eb ← u256 e;
  Ok (keccak_256 (h ++ eb)).

Definition evmAttestMessage (suite : string) (height : num) (blockHashHex : string)
    (setId : bytes) (target : EvmTarget) : res bytes :=
  if negb (length setId =? 32)%nat then Throw "evmprofile: setId must be 32 bytes" else
  ver ← decodeHexExact "verifier" (verifier target) 20;
  bh ← decodeHexExact "blockHash" blockHashHex 32;
  c ← u256 (chainId target);
  h ← safeUint "height" height;
  hb ← u256 h;
  Ok (keccak_256 (keccak_256 ATT_TAG ++ keccak_256 (utf8 suite) ++ c ++ ver ++ hb ++
                  bh ++ setId)).

Definition signEvmAttestation (keypair : KeyPair) (set : ValidatorSet) (suite : string)
    (height : num) (blockHashHex : string) (target : EvmTarget) : res EvmSignedAttestation :=
  id ← evmSetId set;
  msg ← evmAttestMessage suite height blockHashHex id target;
  signer ← signerFor suite;
  sg ← scheme_sign signer msg (secretKey keypair) None;
  Ok {| ea_validator := bytesToHex (publicKey keypair); evmSig := sg |}.

(** [new Map(members.map((m) => [m.pubkey, m.stake]))] *)
Definition evm_stakes (ms : list CanonMember) : gmap string Z :=
  fold_left (fun acc m => <[cm_pubkey m := cm_stake m]> acc) ms ∅.

Definition safeEvmVerify (sg msg : bytes) (validatorHex : string) (s : SignatureScheme) : bool :=
  try_catch (pub ← hexToBytes validatorHex; scheme_verify s sg msg pub None) (fun _ => false).

(** The counting loop: the validators counted and their stake. *)
Fixpoint evm_count (s : SignatureScheme) (msg : bytes) (stakeOf : gmap string Z)
    (seen : gset string) (attesting : Z) (atts : list EvmSignedAttestation) : gset string * Z :=
  match atts with
  | [] => (seen, attesting)
  | a :: rest =>
      if bool_decide (ea_validator a ∈ seen) then evm_count s msg stakeOf seen attesting rest else
      let st := default 0 (stakeOf !! ea_validator a) in
      if st <=? 0 then evm_count s msg stakeOf seen attesting rest else
      if negb (safeEvmVerify (evmSig a) msg (ea_validator a) s)
      then evm_count s msg stakeOf seen attesting rest
      else evm_count s msg stakeOf ({[ea_validator a]} ∪ seen) (attesting + st) rest
  end.

Definition evm_fail (t : Z) : EvmFinalityVerdict :=
  {| ef_finalized := false; ef_attestingStake := 0; ef_totalStake := t |}.

Definition members_total (ms : list CanonMember) : Z := fold_left (fun a m => a + cm_stake m) ms 0.

(** [signerFor] is called outside the [try]: the one call that can throw. *)
Definition verifyEvmFinality (set : ValidatorSet) (atts : list EvmSignedAttestation)
    (suite : string) (height : num) (blockHashHex : string) (target : EvmTarget)
    (fnum fden : num) : res EvmFinalityVerdict :=
  if negb (valid_threshold fnum fden) then Ok (evm_fail 0) else
  if (MAX_VALIDATORS <? length (validators set))%nat || (MAX_ATTESTATIONS <? length atts)%nat
  then Ok (evm_fail 0) else
  match ms ← canonicalMembers set;
        if members_total ms <=? 0 then Ok (inl (members_total ms)) else
        id ← evmSetId set;
        msg ← evmAttestMessage suite height blockHashHex id target;
        Ok (inr (members_total ms, msg, evm_stakes ms)) with
  | Throw _ => Ok (evm_fail 0)
  | Ok (inl total) => Ok (evm_fail total)
  | Ok (inr (total, msg, stakes)) =>
      s ← signerFor suite;
      let (_, attesting) := evm_count s msg stakes ∅ 0 atts in
      Ok {| ef_finalized := num_Z fnum * total <=? attesting * num_Z fden;
            ef_attestingStake := attesting; ef_totalStake := total |}
  end.

(** The first loop of [detectEvmEquivocations]. *)
Definition evm_valid_A (s : SignatureScheme) (msgA : bytes) (stakes : gmap string Z)
    (m : gmap string bytes) (a : EvmSignedAttestation) : gmap string bytes :=
  match m !! ea_validator a with
  | Some _ => m
  | None =>
      if default 0 (stakes !! ea_validator a) <=? 0 then m else
      if safeEvmVerify (evmSig a) msgA (ea_validator a) s
      then <[ea_validator a := evmSig a]> m else m
  end.

(** The second loop. *)
Fixpoint evm_collect (s : SignatureScheme) (msgB : bytes) (height : num) (hA hB : string)
    (validA : gmap string bytes) (seen : gset string) (atts : list EvmSignedAttestation)
  : list EvmEquivocationProof :=
  match atts with
  | [] => []
  | b :: rest =>
      if bool_decide (ea_validator b ∈ seen) then evm_collect s msgB height hA hB validA seen rest else
      match validA !! ea_validator b with
      | None => evm_collect s msgB height hA hB validA seen rest
      | Some sigA =>
          if negb (safeEvmVerify (evmSig b) msgB (ea_validator b) s)
          then evm_collect s msgB height hA hB validA seen rest
          else {| ee_validator := ea_validator b; ee_height := height; ee_blockHashA := hA;
                  ee_blockHashB := hB; ee_sigA := sigA; ee_sigB := evmSig b |}
               :: evm_collect s msgB height hA hB validA ({[ea_validator b]} ∪ seen) rest
      end
  end.

Definition detectEvmEquivocations (set : ValidatorSet) (suite : string) (height : num)
    (target : EvmTarget) (hA : string) (attsA : list EvmSignedAttestation)
    (hB : string) (attsB : list EvmSignedAttestation) : res (list EvmEquivocationProof) :=
  if bool_decide (hA = hB) then Ok [] else
  if (MAX_ATTESTATIONS <? length attsA)%nat || (MAX_ATTESTATIONS <? length attsB)%nat
  then Ok [] else
  match ms ← canonicalMembers set;
        id ← evmSetId set;
        mA ← evmAttestMessage suite height hA id target;
        mB ← evmAttestMessage suite height hB id target;
        Ok (evm_stakes ms, mA, mB) with
  | Throw _ => Ok []
  | Ok (stakes, mA, mB) =>
      s ← signerFor suite;
      Ok (evm_collect s mB height hA hB (fold_left (evm_valid_A s mA stakes) attsA ∅) ∅ attsB)
  end.

Definition verifyEvmEquivocationProof (p : EvmEquivocationProof) (set : ValidatorSet)
    (suite : string) (target : EvmTarget) : res bool :=
  if bool_decide (ee_blockHashA p = ee_blockHashB p) then Ok false else
  match ms ← canonicalMembers set;
        if default 0 (evm_stakes ms !! ee_validator p) <=? 0 then Ok None else
        id ← evmSetId set;
        mA ← evmAttestMessage suite (ee_height p) (ee_blockHashA p) id target;
        mB ← evmAttestMessage suite (ee_height p) (ee_blockHashB p) id target;
        Ok (Some (mA, mB)) with
  | Throw _ => Ok false
  | Ok None => Ok false
  | Ok (Some (mA, mB)) =>
      s ← signerFor suite;
      Ok (safeEvmVerify (ee_sigA p) mA (ee_validator p) s &&
          safeEvmVerify (ee_sigB p) mB (ee_validator p) s)
  end.
End evm.

(** ** Byte order *)
Lemma cmp_zero a : forall b, cmpBytes a b = 0 <-> a = b.
Proof.
  induction a as [|x a IH]; intros [|y b]; cbn; try done.
  case_bool_decide as D; [subst y; rewrite IH; split; [by intros -> | by intros [= ->]]|].
  split; [|by intros [= ? ?]]. by destruct (_ <? _).
Qed.
Lemma cmp_flip a : forall b, cmpBytes b a = - cmpBytes a b.
Proof.
  induction a as [|x a IH]; intros [|y b]; cbn; try done.
  case_bool_decide as D; [subst y; rewrite bool_decide_true by done; apply IH|].
  rewrite bool_decide_false by done.
  destruct (Z.ltb_spec (Z_of_byte x) (Z_of_byte y)), (Z.ltb_spec (Z_of_byte y) (Z_of_byte x));
    try done; try lia. destruct D. apply Z_of_byte_inj. lia.
Qed.
Lemma cmp_trans a : forall b c, cmpBytes a b <= 0 -> cmpBytes b c <= 0 -> cmpBytes a c <= 0.
Proof.
  induction a as [|x a IH]; intros [|y b] [|z c]; cbn; try lia.
  destruct (Z.ltb_spec (Z_of_byte x) (Z_of_byte y)), (Z.ltb_spec (Z_of_byte y) (Z_of_byte z)),
    (Z.ltb_spec (Z_of_byte x) (Z_of_byte z)); repeat case_bool_decide; subst;
    try lia; try (exfalso; congruence); by apply (IH b c).
Qed.
Lemma cmp_lt_trans a b c : cmpBytes a b < 0 -> cmpBytes b c <= 0 -> a <> c.
Proof. intros H1 H2 ->. rewrite cmp_flip in H2. lia. Qed.

Lemma sorted_no_duplicate ms : StronglySorted (sorted_ltb cm_ltb) ms -> no_duplicate ms = true ->
  NoDup (map cm_pubkeyBytes ms).
Proof.
  induction 1 as [|a ms Hs IH Ha]; cbn [map no_duplicate]; [constructor|].
  destruct ms as [|b ms]; [repeat constructor; by intros ?%elem_of_nil|].
  rewrite andb_true_iff. intros [N D]. constructor; [|by apply IH].
  apply negb_true_iff, Z.eqb_neq in N. inversion_clear Hs as [|? ? _ Hb].
  inversion_clear Ha as [|? ? Hab _]. unfold sorted_ltb, cm_ltb in *.
  rewrite cmp_flip in Hab. apply Z.ltb_ge in Hab. intros [E|Hin]%elem_of_cons.
  - apply N. by apply cmp_zero.
  - apply list_elem_of_fmap in Hin as (z & E & Hz). rewrite Forall_forall in Hb.
    specialize (Hb z Hz). cbn in Hb. rewrite cmp_flip in Hb. apply Z.ltb_ge in Hb.
    eapply (cmp_lt_trans _ (cm_pubkeyBytes b)); [| |exact E]; lia.
Qed.

Lemma cm_sort_sorted ms : StronglySorted (sorted_ltb cm_ltb) (js_sort cm_ltb ms).
Proof.
  apply js_sort_sorted; unfold cm_ltb; intros x y.
  - intros z H1%Z.ltb_ge H2%Z.ltb_ge. apply Z.ltb_ge. rewrite cmp_flip in *.
    pose proof (cmp_trans (cm_pubkeyBytes x) (cm_pubkeyBytes y) (cm_pubkeyBytes z)). lia.
  - intros H%Z.ltb_lt. apply Z.ltb_ge. rewrite cmp_flip. lia.
Qed.

(** ** The canonical members are the set's validators *)
Section canon.
Context {L : Lib} {K : Keccak}.

Lemma canon_member_ok v m : canon_member v = Ok m ->
  cm_pubkey m = pubkey v /\ cm_stake m = safeStake (stake v) /\ 0 <= cm_stake m <= U256_MAX /\
  decodeHex "pubkey" (pubkey v) = Ok (cm_pubkeyBytes m) /\
  (vrfPubkey v = None /\ cm_vrfHash m = keccak_256 [] \/
   exists vk b, vrfPubkey v = Some vk /\ decodeHex "vrfPubkey" vk = Ok b /\ cm_vrfHash m = keccak_256 b).
Proof.
  unfold canon_member. intros E. apply bind_ok in E as (pk & Ek & E).
  destruct (_ =? 0)%nat in E; [done|].
  set (s := match stake v with VBig z => if 0 <? z then z else 0 | _ => 0 end) in *.
  assert (s = safeStake (stake v)) as Hs.
  { unfold s, safeStake. destruct (stake v); try done.
    destruct (Z.ltb_spec 0 z), (Z.leb_spec 0 z); lia. }
  assert (0 <= s) by (rewrite Hs; apply safeStake_nonneg).
  destruct (Z.ltb_spec U256_MAX s); [done|].
  apply bind_ok in E as (vh & Ev & E). apply Ok_inj in E as <-. cbn.
  split_and!; try done. destruct (vrfPubkey v) as [vk|].
  - apply bind_ok in Ev as (b & Eb & Ev). apply Ok_inj in Ev as <-. right. by exists vk, b.
  - apply Ok_inj in Ev as <-. by left.
Qed.

Record canonical (set : ValidatorSet) (ms : list CanonMember) : Prop := {
  ca_member : forall m, m ∈ ms <-> exists v, v ∈ validators set /\ canon_member v = Ok m;
  ca_total : members_total ms = totalStake set;
  ca_bytes : NoDup (map cm_pubkeyBytes ms);
  ca_keys : NoDup (map pubkey (validators set));
  ca_stakes : forall k, default 0 (evm_stakes ms !! k) = stakeOf set k }.

Lemma members_total_from ms : forall a,
  fold_left (fun a m => a + cm_stake m) ms a = a + members_total ms.
Proof.
  unfold members_total. induction ms as [|m ms IH]; intros a; cbn [fold_left]; [lia|].
  rewrite IH, (IH (0 + cm_stake m)). lia.
Qed.
Lemma members_total_cons m ms : members_total (m :: ms) = cm_stake m + members_total ms.
Proof. unfold members_total at 1. cbn [fold_left]. rewrite members_total_from. lia. Qed.
Lemma members_total_perm ms ns : ms ≡ₚ ns -> members_total ms = members_total ns.
Proof. induction 1; rewrite ?members_total_cons in *; lia. Qed.

Lemma evm_stakes_lookup ms : forall (acc : gmap string Z) k, NoDup (map cm_pubkey ms) ->
  fold_left (fun acc m => <[cm_pubkey m := cm_stake m]> acc) ms acc !! k =
  match find (fun m => bool_decide (cm_pubkey m = k)) ms with
  | Some m => Some (cm_stake m) | None => acc !! k end.
Proof.
  induction ms as [|m ms IH]; intros acc k Hn; cbn [fold_left find]; [done|].
  cbn [map] in Hn. inversion_clear Hn as [|? ? N Hn']. rewrite IH by done. case_bool_decide as D.
  - subst k. destruct (find _ ms) as [m'|] eqn:F.
    + apply find_some in F as [F1 F2%bool_decide_eq_true]. exfalso. apply N. rewrite <- F2.
      by apply (list_elem_of_fmap_2 cm_pubkey).
    + by rewrite lookup_insert_eq.
  - destruct (find _ ms); [done|]. by rewrite lookup_insert_ne.
Qed.

Lemma canonical_ok set ms : canonicalMembers set = Ok ms -> canonical set ms.
Proof.
  unfold canonicalMembers. intros E. apply bind_ok in E as (raw & Er & E).
  destruct (no_duplicate _) eqn:D in E; [|done]. apply Ok_inj in E as <-.
  apply mapM_ok in Er. pose proof (js_sort_perm cm_ltb raw) as P.
  pose proof (sorted_no_duplicate _ (cm_sort_sorted raw) D) as N.
  set (ms := js_sort cm_ltb raw) in *.
  assert (Hb : map cm_pubkeyBytes raw =
    map (fun k => try_catch (decodeHex "pubkey" k) (fun _ => [])) (map pubkey (validators set))).
  { clear -Er. induction Er as [|v m vs raw H _ IH]; [done|]. cbn [map]. rewrite IH. f_equal.
    by destruct (canon_member_ok _ _ H) as (_ & _ & _ & -> & _). }
  assert (Hk : map cm_pubkey raw = map pubkey (validators set)).
  { clear -Er. induction Er as [|v m vs raw H _ IH]; [done|]. cbn [map]. rewrite IH. f_equal.
    apply (canon_member_ok _ _ H). }
  assert (Nk : NoDup (map pubkey (validators set))).
  { apply (NoDup_fmap_1 (fun k => try_catch (decodeHex "pubkey" k) (fun _ => []))).
    change (NoDup (map (fun k => try_catch (decodeHex "pubkey" k) (fun _ => []))
      (map pubkey (validators set)))). rewrite <- Hb.
    change (NoDup (cm_pubkeyBytes <$> raw)). by rewrite <- P. }
  constructor; [| | done | done |].
  - intros m. rewrite P. split.
    + intros H. apply list_elem_of_lookup in H as [i Hi].
      destruct (Forall2_lookup_r _ _ _ _ _ Er Hi) as (v & Hv & H).
      exists v. split; [by eapply list_elem_of_lookup_2 | done].
    + intros (v & Hv & H). apply list_elem_of_lookup in Hv as [i Hi].
      destruct (Forall2_lookup_l _ _ _ _ _ Er Hi) as (m' & Hm & H').
      assert (m' = m) as -> by congruence. by eapply list_elem_of_lookup_2.
  - rewrite (members_total_perm _ _ P). unfold totalStake. clear -Er.
    induction Er as [|v m vs raw H _ IH]; [done|]. rewrite members_total_cons, sum_stake_cons, IH.
    by destruct (canon_member_ok _ _ H) as (_ & -> & _).
  - intros k. unfold evm_stakes. rewrite evm_stakes_lookup, lookup_empty.
    2: { change (NoDup (cm_pubkey <$> ms)). rewrite P. change (NoDup (map cm_pubkey raw)). by rewrite Hk. }
    assert (F2 : Forall2 (fun v m => cm_pubkey m = pubkey v /\ cm_stake m = safeStake (stake v))
      (validators set) raw).
    { eapply Forall2_impl; [exact Er|]. intros v m H. by destruct (canon_member_ok _ _ H) as (? & ? & _). }
    destruct (find _ ms) as [m|] eqn:G; unfold stakeOf.
    + apply find_some in G as [G1 G2%bool_decide_eq_true]. rewrite P in G1.
      apply list_elem_of_lookup in G1 as [i Hi].
      destruct (Forall2_lookup_r _ _ _ _ _ F2 Hi) as (v & Hv%list_elem_of_lookup_2 & Hk' & Hs').
      destruct (find _ (validators set)) as [w|] eqn:F.
      * apply find_some in F as [F1 F3%bool_decide_eq_true].
        assert (v = w) as <- by (apply (nodup_map_eq pubkey _ _ _ Nk Hv F1); congruence).
        done.
      * rewrite find_none in F. specialize (F v Hv). apply bool_decide_eq_false in F. congruence.
    + destruct (find _ (validators set)) as [w|] eqn:F; [|done].
      apply find_some in F as [F1 F3%bool_decide_eq_true].
      apply list_elem_of_lookup in F1 as [i Hi].
      destruct (Forall2_lookup_l _ _ _ _ _ F2 Hi) as (m & Hm%list_elem_of_lookup_2 & Hk' & _).
      rewrite find_none in G. rewrite <- P in Hm. specialize (G m Hm).
      apply bool_decide_eq_false in G. congruence.
Qed.
End canon.

(** ** Finality over the profile *)
Section finality.
Context {L : Lib} {K : Keccak}.

(** [v] has stake and one of the attestations carries its valid signature. *)
Definition evm_signed (set : ValidatorSet) (s : SignatureScheme) (msg : bytes)
    (atts : list EvmSignedAttestation) (v : string) : Prop :=
  0 < stakeOf set v /\
  exists a, a ∈ atts /\ ea_validator a = v /\ safeEvmVerify (evmSig a) msg v s = true.

Lemma evm_signed_cons set s msg a atts v :
  evm_signed set s msg (a :: atts) v <->
  ea_validator a = v /\ 0 < stakeOf set v /\ safeEvmVerify (evmSig a) msg v s = true \/
  evm_signed set s msg atts v.
Proof.
  unfold evm_signed. split.
  - intros (H & b & [->|Hb]%elem_of_cons & <- & V); [by left | right]. eauto.
  - intros [(<- & H & V)|(H & b & Hb & E & V)]; (split; [done|]);
      [exists a | exists b]; split_and!; try done; [by left | by right].
Qed.

Lemma evm_count_ok set s msg stakes atts : NoDup (map pubkey (validators set)) ->
  (forall k, default 0 (stakes !! k) = stakeOf set k) -> forall seen att X total,
  evm_count s msg stakes seen att atts = (X, total) ->
  (forall v, v ∈ X <-> v ∈ seen \/ evm_signed set s msg atts v) /\
  total = att + stake_in set X - stake_in set seen.
Proof.
  intros N Hs. induction atts as [|a atts IH]; intros seen att X total E; cbn [evm_count] in E.
  - simplify_eq. split; [|lia]. intros v. split; [by left|].
    intros [H|(_ & a & ?%elem_of_nil & _)]; done.
  - rewrite Hs in E. case_bool_decide as D.
    { apply IH in E as [M ->]. split; [|done]. intros v. rewrite M, evm_signed_cons. naive_solver. }
    destruct (Z.leb_spec (stakeOf set (ea_validator a)) 0).
    { apply IH in E as [M ->]. split; [|done]. intros v. rewrite M, evm_signed_cons.
      split; [tauto|]. intros [?|[(<- & ? & _)|?]]; [tauto | lia | tauto]. }
    destruct (safeEvmVerify _ _ _ _) eqn:V; cbn [negb] in E; apply IH in E as [M ->].
    + split; [|rewrite stake_in_insert by done; lia]. intros v.
      rewrite M, evm_signed_cons, elem_of_union, elem_of_singleton.
      split; [intros [[->|?]|?]; tauto|]. intros [?|[(<- & _)|?]]; tauto.
    + split; [|done]. intros v. rewrite M, evm_signed_cons.
      split; [tauto|]. intros [?|[(<- & _ & ?)|?]]; [tauto | congruence | tauto].
Qed.

Lemma evmSetId_canonical set id : evmSetId set = Ok id ->
  exists ms, canonicalMembers set = Ok ms /\ canonical set ms.
Proof.
  unfold evmSetId. intros (ms & E & _)%bind_ok. exists ms. split; [done | by apply canonical_ok].
Qed.

Lemma evm_ready_keys set id : evmSetId set = Ok id -> NoDup (map pubkey (validators set)).
Proof. intros (ms & _ & [])%evmSetId_canonical. done. Qed.

(** The verdict of a run that reaches the signatures. *)
Lemma verifyEvmFinality_run set atts suite h hash tgt fnum fden id msg s :
  valid_threshold fnum fden = true -> (length (validators set) <= MAX_VALIDATORS)%nat ->
  (length atts <= MAX_ATTESTATIONS)%nat -> 0 < totalStake set ->
  evmSetId set = Ok id -> evmAttestMessage suite h hash id tgt = Ok msg -> signerFor suite = Ok s ->
  exists X : gset string, (forall v, v ∈ X <-> evm_signed set s msg atts v) /\
    verifyEvmFinality set atts suite h hash tgt fnum fden = Ok {|
      ef_finalized := num_Z fnum * totalStake set <=? stake_in set X * num_Z fden;
      ef_attestingStake := stake_in set X; ef_totalStake := totalStake set |}.
Proof.
  intros T N1 N2 P Ei Em Es. destruct (evmSetId_canonical _ _ Ei) as (ms & Ec & C).
  unfold verifyEvmFinality. rewrite T. cbn [negb].
  apply Nat.ltb_ge in N1, N2. rewrite N1, N2. cbn [orb].
  rewrite Ec. cbn [mbind res_bind]. rewrite (ca_total _ _ C), (proj2 (Z.leb_gt _ _)) by done.
  rewrite Ei. cbn [mbind res_bind]. rewrite Em. cbn [mbind res_bind]. rewrite Es. cbn [mbind res_bind].
  destruct (evm_count _ _ _ _ _ _) as [X att] eqn:E.
  apply (evm_count_ok set) in E as [M ->]; [|by eapply evm_ready_keys | by apply ca_stakes].
  exists X. rewrite stake_in_empty. replace (0 + stake_in set X - 0) with (stake_in set X) by lia.
  split; [|done]. intros v. rewrite M. set_solver.
Qed.

(** What a finalizing run has checked. *)
Lemma verifyEvmFinality_inv set atts suite h hash tgt fnum fden v :
  verifyEvmFinality set atts suite h hash tgt fnum fden = Ok v -> ef_finalized v = true ->
  valid_threshold fnum fden = true /\ (length (validators set) <= MAX_VALIDATORS)%nat /\
  (length atts <= MAX_ATTESTATIONS)%nat /\ 0 < totalStake set /\
  exists id msg s, evmSetId set = Ok id /\ evmAttestMessage suite h hash id tgt = Ok msg /\
    signerFor suite = Ok s.
Proof.
  unfold verifyEvmFinality. intros E F.
  destruct (valid_threshold _ _) eqn:T; cbn [negb] in E; [|by apply Ok_inj in E as <-].
  destruct (Nat.ltb_spec MAX_VALIDATORS (length (validators set))); cbn [orb] in E;
    [by apply Ok_inj in E as <-|].
  destruct (Nat.ltb_spec MAX_ATTESTATIONS (length atts)); [by apply Ok_inj in E as <-|].
  destruct (canonicalMembers set) as [ms|] eqn:Ec; cbn [mbind res_bind] in E; [|by apply Ok_inj in E as <-].
  rewrite (ca_total _ _ (canonical_ok _ _ Ec)) in E.
  destruct (Z.leb_spec (totalStake set) 0); [by apply Ok_inj in E as <-|].
  destruct (evmSetId set) as [id|] eqn:Ei; cbn [mbind res_bind] in E; [|by apply Ok_inj in E as <-].
  destruct (evmAttestMessage _ _ _ _ _) as [msg|] eqn:Em; cbn [mbind res_bind] in E; [|by apply Ok_inj in E as <-].
  destruct (signerFor suite) as [s|] eqn:Es; cbn [mbind res_bind] in E; [|done].
  do 4 (split; [done|]). by exists id, msg, s.
Qed.
End finality.

(** ** Equivocation over the profile *)
Section equivocation.
Context {L : Lib} {K : Keccak}.

Lemma evm_valid_A_ok set s msg stakes atts : (forall k, default 0 (stakes !! k) = stakeOf set k) ->
  forall m, (forall v sg, m !! v = Some sg -> 0 < stakeOf set v /\ safeEvmVerify sg msg v s = true) ->
  let m' := fold_left (evm_valid_A s msg stakes) atts m in
  (forall v sg, m' !! v = Some sg -> 0 < stakeOf set v /\ safeEvmVerify sg msg v s = true) /\
  forall v, is_Some (m' !! v) <-> is_Some (m !! v) \/ evm_signed set s msg atts v.
Proof.
  intros Hs. induction atts as [|a atts IH]; intros m Hm; cbn [fold_left].
  - split; [done|]. intros v. split; [by left|]. intros [?|(_ & a & ?%elem_of_nil & _)]; done.
  - assert (G : forall m2, (forall v sg, m2 !! v = Some sg -> 0 < stakeOf set v /\ safeEvmVerify sg msg v s = true) ->
      (forall v, is_Some (m2 !! v) <-> is_Some (m !! v) \/
        ea_validator a = v /\ 0 < stakeOf set v /\ safeEvmVerify (evmSig a) msg v s = true) ->
      let m' := fold_left (evm_valid_A s msg stakes) atts m2 in
      (forall v sg, m' !! v = Some sg -> 0 < stakeOf set v /\ safeEvmVerify sg msg v s = true) /\
      forall v, is_Some (m' !! v) <-> is_Some (m !! v) \/ evm_signed set s msg (a :: atts) v).
    { intros m2 H1 H2. destruct (IH m2 H1) as [I1 I2]. split; [done|]. intros v.
      rewrite I2, H2, evm_signed_cons. tauto. }
    apply G; unfold evm_valid_A; rewrite Hs; destruct (m !! ea_validator a) as [sg0|] eqn:E; try done.
    + destruct (Z.leb_spec (stakeOf set (ea_validator a)) 0); [done|].
      destruct (safeEvmVerify _ _ _ _) eqn:V; [|done]. intros v sg.
      destruct (decide (ea_validator a = v)) as [<-|D].
      * rewrite lookup_insert_eq. by intros [= <-].
      * rewrite lookup_insert_ne by done. apply Hm.
    + intros v. split; [by left|]. intros [?|(<- & _)]; [done | by rewrite E].
    + intros v. destruct (Z.leb_spec (stakeOf set (ea_validator a)) 0).
      { split; [by left|]. intros [?|(<- & ? & _)]; [done | lia]. }
      destruct (safeEvmVerify _ _ _ _) eqn:V.
      * destruct (decide (ea_validator a = v)) as [<-|D].
        -- rewrite lookup_insert_eq. split; [by right | by eexists].
        -- rewrite lookup_insert_ne by done. split; [by left|]. by intros [?|(? & _)].
      * split; [by left|]. intros [?|(<- & _ & ?)]; [done | congruence].
Qed.

(** The second loop: one proof per validator that signed both. *)
Record evm_collected (s : SignatureScheme) (msgB : bytes) (h : num) (hA hB : string)
    (validA : gmap string bytes) (atts : list EvmSignedAttestation) (p : EvmEquivocationProof)
  : Prop := {
  ec_height : ee_height p = h;
  ec_hashes : ee_blockHashA p = hA /\ ee_blockHashB p = hB;
  ec_sigA : validA !! ee_validator p = Some (ee_sigA p);
  ec_sigB : safeEvmVerify (ee_sigB p) msgB (ee_validator p) s = true;
  ec_att : exists b, b ∈ atts /\ ea_validator b = ee_validator p /\ evmSig b = ee_sigB p }.

Lemma evm_collected_cons s msgB h hA hB validA b atts p :
  evm_collected s msgB h hA hB validA atts p -> evm_collected s msgB h hA hB validA (b :: atts) p.
Proof. intros [? ? ? ? (c & ? & ?)]. constructor; try done. exists c. split; [by right | done]. Qed.

Definition collects set s msgB h hA hB validA seen atts (out : list EvmEquivocationProof) : Prop :=
  NoDup (map ee_validator out) /\
  (forall p, p ∈ out -> (ee_validator p ∉ seen) /\ evm_collected s msgB h hA hB validA atts p) /\
  forall v, is_Some (validA !! v) -> evm_signed set s msgB atts v -> v ∉ (seen : gset string) ->
    v ∈ map ee_validator out.

Lemma collects_skip set s msgB h hA hB validA seen b atts out :
  (is_Some (validA !! ea_validator b) -> ea_validator b ∉ seen ->
   safeEvmVerify (evmSig b) msgB (ea_validator b) s = true -> False) ->
  collects set s msgB h hA hB validA seen atts out ->
  collects set s msgB h hA hB validA seen (b :: atts) out.
Proof.
  intros No (I1 & I2 & I3). split; [done|]. split.
  - intros p Hin. destruct (I2 p Hin). split; [done | by apply evm_collected_cons].
  - intros v H1 [(<- & _ & H4)|H2]%evm_signed_cons H5; [by destruct No | by apply I3].
Qed.

Lemma evm_collect_ok set s msgB h hA hB validA atts : forall seen,
  collects set s msgB h hA hB validA seen atts (evm_collect s msgB h hA hB validA seen atts).
Proof.
  induction atts as [|b atts IH]; intros seen; cbn [evm_collect].
  - split_and!; [constructor | by intros p ?%elem_of_nil | by intros v _ (_ & a & ?%elem_of_nil & _)].
  - case_bool_decide as D; [by apply collects_skip|].
    destruct (validA !! ea_validator b) as [sigA|] eqn:E.
    2: { apply collects_skip; [|done]. rewrite E. by intros [? ?]. }
    destruct (safeEvmVerify _ _ _ _) eqn:V; cbn [negb].
    2: { apply collects_skip; [|done]. congruence. }
    destruct (IH ({[ea_validator b]} ∪ seen)) as (I1 & I2 & I3). unfold collects.
    cbn [map ee_validator]. split; [constructor; [|done]|split].
    + intros (p & Ep & Hin)%list_elem_of_fmap. destruct (I2 p Hin) as [N _]. set_solver.
    + intros p [->|Hin]%elem_of_cons.
      * split; [done|]. constructor; try done. exists b. split; [by left | done].
      * destruct (I2 p Hin) as [N ?]. split; [set_solver | by apply evm_collected_cons].
    + intros v H1 H2 H3. destruct (decide (v = ea_validator b)) as [->|N]; [by left|]. right.
      apply I3; [done | | set_solver]. apply evm_signed_cons in H2 as [(? & _)|?]; [congruence | done].
Qed.

(** A proof that pins stake and both signatures verifies. *)
Lemma verifyEvmEquivocationProof_ok p set suite tgt id mA mB s :
  ee_blockHashA p <> ee_blockHashB p -> evmSetId set = Ok id ->
  evmAttestMessage suite (ee_height p) (ee_blockHashA p) id tgt = Ok mA ->
  evmAttestMessage suite (ee_height p) (ee_blockHashB p) id tgt = Ok mB ->
  signerFor suite = Ok s ->
  verifyEvmEquivocationProof p set suite tgt = Ok true <->
  0 < stakeOf set (ee_validator p) /\ safeEvmVerify (ee_sigA p) mA (ee_validator p) s = true /\
  safeEvmVerify (ee_sigB p) mB (ee_validator p) s = true.
Proof.
  intros D Ei EA EB Es. destruct (evmSetId_canonical _ _ Ei) as (ms & Ec & C).
  unfold verifyEvmEquivocationProof. rewrite bool_decide_false by done. rewrite Ec.
  cbn [mbind res_bind]. rewrite (ca_stakes _ _ C).
  destruct (Z.leb_spec (stakeOf set (ee_validator p)) 0); [split; [done | lia]|].
  rewrite Ei. cbn [mbind res_bind]. rewrite EA. cbn [mbind res_bind]. rewrite EB.
  cbn [mbind res_bind]. rewrite Es. cbn [mbind res_bind].
  rewrite <- andb_true_iff. split; [intros E%Ok_inj; done | intros [_ ->]; done].
Qed.
(** The detector convicts exactly the validators that signed both. *)
Lemma detectEvmEquivocations_ok set suite h tgt hA attsA hB attsB id mA mB s :
  hA <> hB -> (length attsA <= MAX_ATTESTATIONS)%nat -> (length attsB <= MAX_ATTESTATIONS)%nat ->
  evmSetId set = Ok id -> evmAttestMessage suite h hA id tgt = Ok mA ->
  evmAttestMessage suite h hB id tgt = Ok mB -> signerFor suite = Ok s ->
  exists out, detectEvmEquivocations set suite h tgt hA attsA hB attsB = Ok out /\
    NoDup (map ee_validator out) /\
    (forall v, v ∈ map ee_validator out <-> evm_signed set s mA attsA v /\ evm_signed set s mB attsB v) /\
    forall p, p ∈ out -> ee_height p = h /\ ee_blockHashA p = hA /\ ee_blockHashB p = hB /\
      verifyEvmEquivocationProof p set suite tgt = Ok true.
Proof.
  intros D NA NB Ei EA EB Es. destruct (evmSetId_canonical _ _ Ei) as (ms & Ec & C).
  unfold detectEvmEquivocations. rewrite bool_decide_false by done.
  apply Nat.ltb_ge in NA, NB. rewrite NA, NB. cbn [orb]. rewrite Ec. cbn [mbind res_bind].
  rewrite Ei. cbn [mbind res_bind]. rewrite EA. cbn [mbind res_bind]. rewrite EB.
  cbn [mbind res_bind]. rewrite Es. cbn [mbind res_bind].
  destruct (evm_valid_A_ok set s mA (evm_stakes ms) attsA (ca_stakes _ _ C) ∅) as [A1 A2];
    [by intros v sg ?%lookup_empty_Some|].
  set (validA := fold_left _ attsA ∅) in *.
  assert (A3 : forall v, is_Some (validA !! v) <-> evm_signed set s mA attsA v).
  { intros v. rewrite A2, lookup_empty. split; [|by right]. by intros [[? ?]|?]. }
  destruct (evm_collect_ok set s mB h hA hB validA attsB ∅) as (I1 & I2 & I3).
  eexists. split; [reflexivity|]. split; [done|]. split.
  - intros v. split.
    + intros (p & -> & Hin)%list_elem_of_fmap. destruct (I2 p Hin) as (_ & [_ _ Sa Sb (b & Hb & Ev & Es')]).
      split; [apply A3; by eexists|]. split; [by eapply A1|]. exists b. by rewrite Es'.
    + intros [HA HB]. apply I3; [by apply A3 | done | set_solver].
  - intros p Hin. destruct (I2 p Hin) as (_ & [Hh [HA HB] Sa Sb _]). do 3 (split; [done|]).
    destruct (A1 _ _ Sa) as [St Va].
    eapply (verifyEvmEquivocationProof_ok p set suite tgt id mA mB s); try congruence. done.
Qed.
End equivocation.

(** ** [u256]: 32 bytes, big-endian, no wrap-around *)
Lemma u256_ok x b : u256 x = Ok b -> length b = 32%nat /\ be_value b = x /\ 0 <= x <= U256_MAX.
Proof.
  unfold u256. destruct (Z.ltb_spec x 0); [done|]. destruct (Z.ltb_spec U256_MAX x); [done|].
  intros E. apply Ok_inj in E as <-. split; [apply be_bytes_length|].
  rewrite be_value_bytes by done. change (256 ^ Z.of_nat 32) with (U256_MAX + 1).
  rewrite Z.mod_small by lia. lia.
Qed.

Lemma u256_length x b : u256 x = Ok b -> length b = 32%nat.
Proof. by intros (? & _)%u256_ok. Qed.

Lemma u256_some x : 0 <= x <= U256_MAX -> exists b, u256 x = Ok b.
Proof.
  intros H. unfold u256. destruct (Z.ltb_spec x 0); [lia|].
  destruct (Z.ltb_spec U256_MAX x); [lia|]. by eexists.
Qed.

Lemma u256_inj x y b : u256 x = Ok b -> u256 y = Ok b -> x = y.
Proof. intros (_ & <- & _)%u256_ok (_ & <- & _)%u256_ok. done. Qed.

(** C38: [u256] is total on the 256-bit unsigned range, where it gives 32 bytes
    that read back as the number; outside the range it throws, so no two
    integers share an encoding. *)
Theorem u256_spec x :
  (0 <= x < 2 ^ 256 -> exists b, u256 x = Ok b /\ length b = 32%nat /\ be_value b = x) /\
  (x < 0 -> u256 x = Throw "u256: negative") /\
  (2 ^ 256 <= x -> u256 x = Throw "u256: overflow").
Proof.
  assert (U : U256_MAX = 2 ^ 256 - 1) by reflexivity. split_and!; intros H.
  - destruct (u256_some x) as [b E]; [lia|]. exists b. destruct (u256_ok x b E) as (? & ? & _). done.
  - unfold u256. by rewrite (proj2 (Z.ltb_lt _ _)).
  - unfold u256. destruct (Z.ltb_spec x 0); [lia|]. rewrite (proj2 (Z.ltb_lt _ _)); [done | lia].
Qed.

(** ** What the keccak commitments bind

    A collision is reported among the inputs that were hashed. *)
Section binding.
Context {L : Lib} {K : Keccak} {KL : KeccakLen K}.

Definition keccak_collision (P : list bytes) : Prop :=
  exists a b, a ∈ P /\ b ∈ P /\ a <> b /\ keccak_256 a = keccak_256 b.

Lemma keccak_eq P a b : keccak_256 a = keccak_256 b -> a ∈ P -> b ∈ P -> keccak_collision P \/ a = b.
Proof.
  intros E Ha Hb. destruct (decide (a = b)) as [->|N]; [by right|]. left. by exists a, b.
Qed.

Lemma keccak_collision_mono P Q : (forall a, a ∈ P -> a ∈ Q) -> keccak_collision P -> keccak_collision Q.
Proof. intros H (a & b & ? & ? & ?). exists a, b. auto. Qed.

(** The inputs of one round, of the fold, of [evmSetId]. *)
Definition step_pre (h : bytes) (m : CanonMember) (s : bytes) : bytes :=
  h ++ keccak_256 (cm_pubkeyBytes m) ++ s ++ cm_vrfHash m.
Definition step_inputs (h : bytes) (m : CanonMember) : list bytes :=
  match u256 (cm_stake m) with Ok s => [cm_pubkeyBytes m; step_pre h m s] | Throw _ => [] end.
Fixpoint fold_inputs (h : bytes) (ms : list CanonMember) : list bytes :=
  match ms with
  | [] => []
  | m :: ms' => step_inputs h m ++
                match set_step h m with Ok h' => fold_inputs h' ms' | Throw _ => [] end
  end.
Definition set_inputs (set : ValidatorSet) : list bytes :=
  try_catch (ms ← canonicalMembers set;
             h ← set_fold (keccak_256 SET_TAG) ms;
             e ← safeUint "epoch" (default (Int 0) (epoch set));
             eb ← u256 e;
             Ok (SET_TAG :: (h ++ eb) :: fold_inputs (keccak_256 SET_TAG) ms)) (fun _ => []).

Lemma set_fold_snoc ms : forall h m,
  set_fold h (ms ++ [m]) = (h' ← set_fold h ms; set_step h' m).
Proof.
  induction ms as [|n ms IH]; intros h m; cbn [set_fold app mbind res_bind].
  - destruct (set_step h m); done.
  - destruct (set_step h n) as [h'|]; [|done]. cbn [mbind res_bind]. apply IH.
Qed.

Lemma fold_inputs_snoc ms : forall h m h', set_fold h ms = Ok h' ->
  fold_inputs h (ms ++ [m]) ≡ₚ step_inputs h' m ++ fold_inputs h ms.
Proof.
  induction ms as [|n ms IH]; intros h m h' E; cbn [set_fold fold_inputs app] in *.
  - apply Ok_inj in E as <-. by destruct (set_step h m).
  - destruct (set_step h n) as [h1|]; [|done]. cbn [mbind res_bind] in E.
    rewrite (IH h1 m h' E). rewrite !app_assoc. f_equiv. apply Permutation_app_comm.
Qed.
Lemma set_fold_length ms : forall h h', length h = 32%nat -> set_fold h ms = Ok h' -> length h' = 32%nat.
Proof.
  induction ms as [|m ms IH]; intros h h' Hl E; cbn [set_fold] in E; [by apply Ok_inj in E as <-|].
  apply bind_ok in E as (h1 & E1 & E). eapply IH, E. unfold set_step in E1.
  apply bind_ok in E1 as (s & _ & E1). apply Ok_inj in E1 as <-. apply keccak_length.
Qed.

(** What the set id says of a member. *)
Definition same_member (m n : CanonMember) : Prop :=
  cm_pubkeyBytes m = cm_pubkeyBytes n /\ cm_stake m = cm_stake n /\ cm_vrfHash m = cm_vrfHash n.

Definition vrf_hash_sized (m : CanonMember) : Prop := length (cm_vrfHash m) = 32%nat.

Lemma canonical_vrf_sized set ms : canonical set ms -> Forall vrf_hash_sized ms.
Proof.
  intros C. apply Forall_forall. intros m Hm. apply (ca_member _ _ C) in Hm as (v & _ & Hv).
  unfold vrf_hash_sized.
  destruct (canon_member_ok _ _ Hv) as (_ & _ & _ & _ & [[_ ->]|(vk & b & _ & _ & ->)]);
    apply keccak_length.
Qed.

Lemma set_step_ok h m h' : set_step h m = Ok h' -> exists s, u256 (cm_stake m) = Ok s /\
  h' = keccak_256 (step_pre h m s) /\ step_inputs h m = [cm_pubkeyBytes m; step_pre h m s].
Proof.
  unfold set_step, step_inputs. intros (s & Es & E%Ok_inj)%bind_ok. exists s. by rewrite Es, <- E.
Qed.

Lemma step_pre_inj h m s h' m' s' :
  length h = 32%nat -> length h' = 32%nat -> length s = 32%nat -> length s' = 32%nat ->
  step_pre h m s = step_pre h' m' s' ->
  h = h' /\ keccak_256 (cm_pubkeyBytes m) = keccak_256 (cm_pubkeyBytes m') /\ s = s' /\
  cm_vrfHash m = cm_vrfHash m'.
Proof.
  unfold step_pre. intros H1 H2 H3 H4 [-> E]%app_inj_1; [|congruence].
  apply app_inj_1 in E as [-> E]; [|by rewrite !keccak_length].
  by apply app_inj_1 in E as [-> ->]; [|congruence].
Qed.

Lemma step_pre_length h m s : length h = 32%nat -> length s = 32%nat -> vrf_hash_sized m ->
  length (step_pre h m s) = 128%nat.
Proof. unfold step_pre, vrf_hash_sized. rewrite !length_app, keccak_length. lia. Qed.

Lemma set_tag_step P h m h' : length h = 32%nat -> vrf_hash_sized m -> set_step h m = Ok h' ->
  SET_TAG ∈ P -> (forall a, a ∈ step_inputs h m -> a ∈ P) -> keccak_256 SET_TAG = h' ->
  keccak_collision P.
Proof.
  intros Hl Hv (s & Es & -> & I)%set_step_ok HT HP E. rewrite I in HP.
  destruct (keccak_eq P _ _ E HT (HP (step_pre h m s) ltac:(set_solver))) as [|E2]; [done|].
  apply (f_equal length) in E2. rewrite step_pre_length in E2; [done | done | by eapply u256_length | done].
Qed.

(** Equal folds come from the same members, in the same order. *)
Lemma set_fold_inj P h0 : h0 = keccak_256 SET_TAG -> SET_TAG ∈ P -> forall ms ns h,
  Forall vrf_hash_sized ms -> Forall vrf_hash_sized ns ->
  set_fold h0 ms = Ok h -> set_fold h0 ns = Ok h ->
  (forall a, a ∈ fold_inputs h0 ms -> a ∈ P) -> (forall a, a ∈ fold_inputs h0 ns -> a ∈ P) ->
  keccak_collision P \/ Forall2 same_member ms ns.
Proof.
  intros H0 HT. assert (L0 : length h0 = 32%nat) by (rewrite H0; apply keccak_length).
  induction ms as [|m ms IH] using rev_ind; intros ns h Vm Vn Em En Im In_;
    destruct ns as [|n ns _] using rev_ind; [by right | | |];
    rewrite ?set_fold_snoc in *; rewrite ?Forall_app, ?Forall_singleton in *.
  - left. apply Ok_inj in Em as <-. apply bind_ok in En as (h' & Ef & En).
    eapply (set_tag_step P h' n); [by eapply set_fold_length | tauto | exact En | done | | done].
    intros a Ha. apply In_. rewrite (fold_inputs_snoc _ _ _ _ Ef). set_solver.
  - left. apply Ok_inj in En as <-. apply bind_ok in Em as (h' & Ef & Em).
    eapply (set_tag_step P h' m); [by eapply set_fold_length | tauto | exact Em | done | | done].
    intros a Ha. apply Im. rewrite (fold_inputs_snoc _ _ _ _ Ef). set_solver.
  - apply bind_ok in Em as (h1 & Ef1 & Em), En as (h2 & Ef2 & En).
    assert (Q1 : forall a, a ∈ step_inputs h1 m \/ a ∈ fold_inputs h0 ms -> a ∈ P).
    { intros a Ha. apply Im. rewrite (fold_inputs_snoc _ _ _ _ Ef1). set_solver. }
    assert (Q2 : forall a, a ∈ step_inputs h2 n \/ a ∈ fold_inputs h0 ns -> a ∈ P).
    { intros a Ha. apply In_. rewrite (fold_inputs_snoc _ _ _ _ Ef2). set_solver. }
    apply set_step_ok in Em as (s1 & E1 & -> & I1), En as (s2 & E2 & Ek & I2).
    rewrite I1 in Q1. rewrite I2 in Q2.
    destruct (keccak_eq P _ _ Ek (Q1 (step_pre h1 m s1) ltac:(set_solver))
      (Q2 (step_pre h2 n s2) ltac:(set_solver))) as [|E]; [by left|].
    apply step_pre_inj in E as (-> & Ep & -> & Ev);
      [| by eapply set_fold_length | by eapply set_fold_length | by eapply u256_length | by eapply u256_length].
    destruct (keccak_eq P _ _ Ep (Q1 (cm_pubkeyBytes m) ltac:(set_solver))
      (Q2 (cm_pubkeyBytes n) ltac:(set_solver))) as [|Ep']; [by left|].
    destruct (IH ns h2) as [|F]; try tauto; [set_solver.. |]. right.
    apply Forall2_app; [done|]. constructor; [|done]. split_and!; try done. by eapply u256_inj.
Qed.

Lemma set_id_binding set set' id : evmSetId set = Ok id -> evmSetId set' = Ok id ->
  keccak_collision (set_inputs set ++ set_inputs set') \/
  exists ms ms', canonicalMembers set = Ok ms /\ canonicalMembers set' = Ok ms' /\
    Forall2 same_member ms ms' /\
    num_Z (default (Int 0) (epoch set)) = num_Z (default (Int 0) (epoch set')).
Proof.
  unfold evmSetId, set_inputs. intros E E'.
  apply bind_ok in E as (ms & Ec & E), E' as (ns & Ec' & E').
  apply bind_ok in E as (h & Ef & E), E' as (h' & Ef' & E').
  apply bind_ok in E as (e & Ee & E), E' as (e' & Ee' & E').
  apply bind_ok in E as (eb & Eb & E), E' as (eb' & Eb' & E').
  apply Ok_inj in E as <-. apply Ok_inj in E'.
  rewrite Ec, Ec'. cbn [mbind res_bind]. rewrite Ef, Ef'. cbn [mbind res_bind].
  rewrite Ee, Ee'. cbn [mbind res_bind]. rewrite Eb, Eb'. cbn [mbind res_bind try_catch].
  match goal with |- keccak_collision ?P \/ _ => set (Q := P) end.
  assert (HT : SET_TAG ∈ Q) by set_solver.
  destruct (keccak_eq Q (h' ++ eb') (h ++ eb)) as [|E]; [done | set_solver | set_solver | by left |].
  assert (L0 : length (keccak_256 SET_TAG) = 32%nat) by apply keccak_length.
  apply app_inj_1 in E as [-> ->].
  2: { by rewrite (set_fold_length _ _ _ L0 Ef), (set_fold_length _ _ _ L0 Ef'). }
  destruct (set_fold_inj Q _ eq_refl HT ms ns h) as [|F]; [| | done | done | | | by left |].
  1,2: by eapply canonical_vrf_sized, canonical_ok.
  1,2: intros a Ha; subst Q; set_solver.
  right. exists ms, ns. do 3 (split; [done|]).
  assert (D : forall x y, safeUint "epoch" x = Ok y -> y = num_Z x).
  { intros x y. unfold safeUint. destruct (_ || _); [done|]. by intros [= <-]. }
  rewrite <- (D _ _ Ee), <- (D _ _ Ee'). by eapply u256_inj.
Qed.
(** *** The attestation message *)
Definition message_pre (suite : string) (c ver hb bh setId : bytes) : bytes :=
  keccak_256 ATT_TAG ++ keccak_256 (utf8 suite) ++ c ++ ver ++ hb ++ bh ++ setId.
Definition message_inputs (suite : string) (h : num) (hash : string) (setId : bytes)
    (tgt : EvmTarget) : list bytes :=
  try_catch (ver ← decodeHexExact "verifier" (verifier tgt) 20;
             bh ← decodeHexExact "blockHash" hash 32;
             c ← u256 (chainId tgt);
             x ← safeUint "height" h;
             hb ← u256 x;
             Ok [utf8 suite; message_pre suite c ver hb bh setId]) (fun _ => []).

Lemma decodeHexExact_length label hex n b : decodeHexExact label hex n = Ok b -> length b = n.
Proof.
  unfold decodeHexExact. intros (b' & _ & E)%bind_ok. destruct (Nat.eqb_spec (length b') n); [|done].
  by apply Ok_inj in E as <-.
Qed.

Lemma decodeHexExact_hex label hex n b : decodeHexExact label hex n = Ok b ->
  hexToBytes hex = Ok b /\ length b = n.
Proof.
  intros E. split; [|by eapply decodeHexExact_length].
  unfold decodeHexExact, decodeHex in E. apply bind_ok in E as (b' & E' & E).
  destruct (_ || _) in E'; [done|]. destruct (Nat.eqb_spec (length b') n); [|done].
  by apply Ok_inj in E as <-.
Qed.

Lemma evmAttestMessage_ok suite h hash setId tgt m : evmAttestMessage suite h hash setId tgt = Ok m ->
  length setId = 32%nat /\ exists ver bh c hb, decodeHexExact "verifier" (verifier tgt) 20 = Ok ver /\
  decodeHexExact "blockHash" hash 32 = Ok bh /\ u256 (chainId tgt) = Ok c /\ u256 (num_Z h) = Ok hb /\
  m = keccak_256 (message_pre suite c ver hb bh setId) /\
  message_inputs suite h hash setId tgt = [utf8 suite; message_pre suite c ver hb bh setId].
Proof.
  unfold evmAttestMessage, message_inputs. intros E.
  destruct (Nat.eqb_spec (length setId) 32) as [Hl|]; cbn [negb] in E; [|done]. split; [done|].
  apply bind_ok in E as (ver & Ev & E). apply bind_ok in E as (bh & Eb & E).
  apply bind_ok in E as (c & Ec & E). apply bind_ok in E as (x & Ex & E).
  apply bind_ok in E as (hb & Eh & E). apply Ok_inj in E as <-.
  assert (x = num_Z h) as ->.
  { unfold safeUint in Ex. destruct (_ || _); [done|]. by injection Ex. }
  exists ver, bh, c, hb. rewrite Ev, Eb, Ec, Ex. cbn [mbind res_bind]. by rewrite Eh.
Qed.

Lemma message_binding suite h hash setId tgt suite' h' hash' setId' tgt' m :
  evmAttestMessage suite h hash setId tgt = Ok m ->
  evmAttestMessage suite' h' hash' setId' tgt' = Ok m ->
  keccak_collision (message_inputs suite h hash setId tgt ++ message_inputs suite' h' hash' setId' tgt') \/
  suite = suite' /\ num_Z h = num_Z h' /\ chainId tgt = chainId tgt' /\ setId = setId' /\
  decodeHexExact "blockHash" hash 32 = decodeHexExact "blockHash" hash' 32 /\
  decodeHexExact "verifier" (verifier tgt) 20 = decodeHexExact "verifier" (verifier tgt') 20.
Proof.
  intros (L1 & ver & bh & c & hb & Ev & Eb & Ec & Eh & -> & ->)%evmAttestMessage_ok
    (L2 & ver' & bh' & c' & hb' & Ev' & Eb' & Ec' & Eh' & E & ->)%evmAttestMessage_ok.
  match goal with |- keccak_collision ?P \/ _ => set (Q := P) end.
  destruct (keccak_eq Q _ _ E ltac:(set_solver) ltac:(set_solver)) as [|E1]; [by left|].
  unfold message_pre in E1. apply app_inv_head in E1.
  apply app_inj_1 in E1 as [Es E1]; [|by rewrite !keccak_length].
  apply app_inj_1 in E1 as [<- E1]; [|by rewrite (u256_length _ _ Ec), (u256_length _ _ Ec')].
  apply app_inj_1 in E1 as [<- E1];
    [|by rewrite (decodeHexExact_length _ _ _ _ Ev), (decodeHexExact_length _ _ _ _ Ev')].
  apply app_inj_1 in E1 as [<- E1]; [|by rewrite (u256_length _ _ Eh), (u256_length _ _ Eh')].
  apply app_inj_1 in E1 as [<- <-];
    [|by rewrite (decodeHexExact_length _ _ _ _ Eb), (decodeHexExact_length _ _ _ _ Eb')].
  destruct (keccak_eq Q _ _ Es ltac:(set_solver) ltac:(set_solver)) as [|Es'%utf8_inj]; [by left|].
  right. split_and!; [done | by eapply u256_inj | by eapply u256_inj | done | congruence | congruence].
Qed.
End binding.

(** ** Properties *)
Section properties.
Context {L : Lib} {K : Keccak}.

(** Finality over the EVM profile.  For a suite with a signer, the verifier
    returns a verdict, and the verdict is [finalized] exactly when the
    threshold is a fraction in (0, 1], the inputs are within the bounds, the
    set and the header encode, the set has stake, and the stake of the
    distinct validators of the set with a valid signature over the message
    recomputed from the trusted set reaches the threshold; a finalized
    verdict reports exactly that stake. *)
Theorem evm_finality_spec set atts suite h hash tgt fnum fden s : signerFor suite = Ok s ->
  exists v, verifyEvmFinality set atts suite h hash tgt fnum fden = Ok v /\
  (ef_finalized v = true <->
   valid_threshold fnum fden = true /\ (length (validators set) <= MAX_VALIDATORS)%nat /\
   (length atts <= MAX_ATTESTATIONS)%nat /\ 0 < totalStake set /\
   exists id msg (X : gset string), evmSetId set = Ok id /\
     evmAttestMessage suite h hash id tgt = Ok msg /\
     (forall w, w ∈ X <-> 0 < stakeOf set w /\ exists a, a ∈ atts /\ ea_validator a = w /\
        safeEvmVerify (evmSig a) msg w s = true) /\
     ef_attestingStake v = stake_in set X /\
     num_Z fnum * totalStake set <= stake_in set X * num_Z fden).
Proof.
  intros Es. destruct (verifyEvmFinality set atts suite h hash tgt fnum fden) as [v|e] eqn:E.
  2: { exfalso. unfold verifyEvmFinality in E. destruct (negb _) in E; [done|].
       destruct (_ || _) in E; [done|]. destruct (_ ≫= _) as [[?|[[? ?] ?]]|] in E; [done | | done].
       rewrite Es in E. cbn [mbind res_bind] in E. by destruct (evm_count _ _ _ _ _ _) in E. }
  exists v. split; [done|]. split.
  - intros F. destruct (verifyEvmFinality_inv _ _ _ _ _ _ _ _ _ E F)
      as (T & N1 & N2 & P & id & msg & s' & Ei & Em & Es').
    destruct (verifyEvmFinality_run set atts suite h hash tgt fnum fden id msg s T N1 N2 P Ei Em Es)
      as (X & HX & E'). rewrite E' in E. apply Ok_inj in E as <-. cbn in F.
    do 4 (split; [done|]). exists id, msg, X. do 4 (split; [done|]). by apply Z.leb_le.
  - intros (T & N1 & N2 & P & id & msg & X & Ei & Em & HX & HS & HQ).
    destruct (verifyEvmFinality_run set atts suite h hash tgt fnum fden id msg s T N1 N2 P Ei Em Es)
      as (Y & HY & E'). rewrite E' in E. apply Ok_inj in E as <-. cbn in *.
    apply Z.leb_le. by rewrite HS.
Qed.

(** The message of an attestation, byte by byte: keccak-256 of the tag, the
    suite, the chain id and the height as 32 big-endian bytes, the contract
    and the block hash from their hex texts, and the set id. *)
Definition EvmMessage (suite : string) (h : num) (hash : string) (id : bytes)
    (tgt : EvmTarget) (m : bytes) : Prop :=
  exists ver bh c hb, hexToBytes (verifier tgt) = Ok ver /\ length ver = 20%nat /\
    hexToBytes hash = Ok bh /\ length bh = 32%nat /\
    length c = 32%nat /\ be_value c = chainId tgt /\ length hb = 32%nat /\ be_value hb = num_Z h /\
    m = keccak_256 (keccak_256 (utf8 "Nerion/evm-attest/v1") ++ keccak_256 (utf8 suite) ++
          c ++ ver ++ hb ++ bh ++ id).

Lemma evm_message_of suite h hash id tgt m :
  evmAttestMessage suite h hash id tgt = Ok m -> EvmMessage suite h hash id tgt m.
Proof.
  intros (_ & ver & bh & c & hb & [Ev Lv]%decodeHexExact_hex & [Eb Lb]%decodeHexExact_hex &
    (Lc & Vc & _)%u256_ok & (Lh & Vh & _)%u256_ok & -> & _)%evmAttestMessage_ok.
  exists ver, bh, c, hb. by split_and!.
Qed.

(** [sg] is a valid signature over [m] under the key that is the validator's hex
    name. *)
Definition EvmSignature (suite : string) (sg m : bytes) (v : string) : Prop :=
  exists pub, hexToBytes v = Ok pub /\ suite_verify suite sg m pub = Ok true.

Lemma evm_signature_iff suite s sg m v : signerFor suite = Ok s ->
  safeEvmVerify sg m v s = true <-> EvmSignature suite sg m v.
Proof.
  intros Es. unfold safeEvmVerify, EvmSignature, suite_verify. rewrite Es.
  cbn [mbind res_bind]. destruct (hexToBytes v) as [pub|]; cbn [mbind res_bind].
  - split.
    + intros E. exists pub. split; [done|]. by apply try_catch_true in E.
    + intros (? & <-%Ok_inj & E). by apply try_catch_true.
  - split; [done|]. by intros (? & ? & _).
Qed.

Lemma evm_signed_iff set suite s m atts v : signerFor suite = Ok s ->
  evm_signed set s m atts v <-> 0 < stakeOf set v /\
    exists a, a ∈ atts /\ ea_validator a = v /\ EvmSignature suite (evmSig a) m v.
Proof.
  intros Es. unfold evm_signed. split; intros (P & a & Ha & E & V); (split; [done|]); exists a;
    do 2 (split; [done|]); by apply (evm_signature_iff suite s).
Qed.

(** C22: Accountable safety of the exported finality.  If two different block
    hashes are finalized at one height for one set and one destination, then
    the set has an id and each hash a message, which is the keccak-256 digest
    of the tag, the suite, the chain id, the contract, that height, that hash
    and the id.  The validators with stake of which each bundle carries a
    valid signature -- over the first message in the first bundle, over the
    second in the second -- hold at least twice the threshold minus one of the
    stake.  The detector run on the two bundles names exactly these
    validators, once each; each of its proofs carries the height and the two
    hashes in their order with valid signatures of the named validator over
    the two messages, and the proof verifies. *)
Theorem evm_accountable set attsA attsB suite h hA hB tgt fnum fden vA vB :
  hA <> hB ->
  verifyEvmFinality set attsA suite h hA tgt fnum fden = Ok vA -> ef_finalized vA = true ->
  verifyEvmFinality set attsB suite h hB tgt fnum fden = Ok vB -> ef_finalized vB = true ->
  exists id mA mB out (X : gset string), evmSetId set = Ok id /\
    EvmMessage suite h hA id tgt mA /\ EvmMessage suite h hB id tgt mB /\
    (forall v, v ∈ X <-> 0 < stakeOf set v /\
       (exists a, a ∈ attsA /\ ea_validator a = v /\ EvmSignature suite (evmSig a) mA v) /\
       exists b, b ∈ attsB /\ ea_validator b = v /\ EvmSignature suite (evmSig b) mB v) /\
    (2 * num_Z fnum - num_Z fden) * totalStake set <= stake_in set X * num_Z fden /\
    detectEvmEquivocations set suite h tgt hA attsA hB attsB = Ok out /\
    NoDup (map ee_validator out) /\ (forall v, v ∈ map ee_validator out <-> v ∈ X) /\
    forall p, p ∈ out -> ee_height p = h /\ ee_blockHashA p = hA /\ ee_blockHashB p = hB /\
      EvmSignature suite (ee_sigA p) mA (ee_validator p) /\
      EvmSignature suite (ee_sigB p) mB (ee_validator p) /\
      verifyEvmEquivocationProof p set suite tgt = Ok true.
Proof.
  intros D EA FA EB FB.
  destruct (verifyEvmFinality_inv _ _ _ _ _ _ _ _ _ EA FA) as (T & N1 & NA & P & id & mA & s & Ei & Em & Es).
  destruct (verifyEvmFinality_inv _ _ _ _ _ _ _ _ _ EB FB) as (_ & _ & NB & _ & id' & mB & s' & Ei' & Em' & _).
  assert (id' = id) as -> by congruence.
  destruct (verifyEvmFinality_run set attsA suite h hA tgt fnum fden id mA s) as (XA & HA & RA); try done.
  destruct (verifyEvmFinality_run set attsB suite h hB tgt fnum fden id mB s) as (XB & HB & RB); try done.
  rewrite RA in EA. rewrite RB in EB. apply Ok_inj in EA as <-, EB as <-. cbn in FA, FB.
  apply Z.leb_le in FA, FB.
  destruct (detectEvmEquivocations_ok set suite h tgt hA attsA hB attsB id mA mB s)
    as (out & Eo & No & Mo & Po); try done.
  exists id, mA, mB, out, (XA ∩ XB). split; [done|].
  split; [by apply evm_message_of|]. split; [by apply evm_message_of|].
  assert (HX : forall v, v ∈ XA ∩ XB <-> evm_signed set s mA attsA v /\ evm_signed set s mB attsB v).
  { intros v. by rewrite elem_of_intersection, HA, HB. }
  split.
  { intros v. rewrite HX, !(evm_signed_iff set suite s) by done. tauto. }
  split.
  - pose proof (stake_in_union_inter set XA XB). pose proof (stake_in_le set (XA ∪ XB)).
    pose proof (valid_threshold_Z _ _ T). nia.
  - do 2 (split; [done|]). split; [intros v; by rewrite HX, Mo|].
    intros p Hp. destruct (Po p Hp) as (Eh & EhA & EhB & V). do 3 (split; [done|]).
    pose proof V as V'. apply (verifyEvmEquivocationProof_ok p set suite tgt id mA mB s) in V'
      as (_ & VA & VB); try congruence.
    split; [by apply (evm_signature_iff suite s)|].
    split; [by apply (evm_signature_iff suite s) | done].
Qed.

(** The detector is exact.  On two bundles within the bounds for distinct
    hashes it names, once each, the validators of the set that signed both
    messages validly, and no one else; each proof carries the height and the
    two hashes asked about and verifies. *)
Theorem evm_detect_exact set suite h tgt hA attsA hB attsB id mA mB s :
  hA <> hB -> (length attsA <= MAX_ATTESTATIONS)%nat -> (length attsB <= MAX_ATTESTATIONS)%nat ->
  evmSetId set = Ok id -> evmAttestMessage suite h hA id tgt = Ok mA ->
  evmAttestMessage suite h hB id tgt = Ok mB -> signerFor suite = Ok s ->
  exists out, detectEvmEquivocations set suite h tgt hA attsA hB attsB = Ok out /\
    NoDup (map ee_validator out) /\
    (forall v, v ∈ map ee_validator out <-> 0 < stakeOf set v /\
       (exists a, a ∈ attsA /\ ea_validator a = v /\ safeEvmVerify (evmSig a) mA v s = true) /\
       exists b, b ∈ attsB /\ ea_validator b = v /\ safeEvmVerify (evmSig b) mB v s = true) /\
    forall p, p ∈ out -> ee_height p = h /\ ee_blockHashA p = hA /\ ee_blockHashB p = hB /\
      verifyEvmEquivocationProof p set suite tgt = Ok true.
Proof.
  intros D NA NB Ei EA EB Es.
  destruct (detectEvmEquivocations_ok set suite h tgt hA attsA hB attsB id mA mB s)
    as (out & Eo & No & Mo & Po); try done.
  exists out. do 2 (split; [done|]). split; [|done]. intros v. rewrite Mo. unfold evm_signed. tauto.
Qed.

(** No replay across destinations, heights, sets or epochs.  If two
    attestation messages are equal, they were made for the same suite,
    height, chain id, verifier contract and block hash, and for validator sets
    of the same epoch whose canonical members agree one by one in key, stake
    and VRF-key hash -- or two of the strings that were hashed collide under
    keccak-256. *)
Theorem evm_attestation_binding {KL : KeccakLen K} set suite h hash tgt id set' suite' h' hash' tgt' id' m :
  evmSetId set = Ok id -> evmSetId set' = Ok id' ->
  evmAttestMessage suite h hash id tgt = Ok m -> evmAttestMessage suite' h' hash' id' tgt' = Ok m ->
  keccak_collision (message_inputs suite h hash id tgt ++ message_inputs suite' h' hash' id' tgt' ++
                    set_inputs set ++ set_inputs set') \/
  (suite = suite' /\ num_Z h = num_Z h' /\ chainId tgt = chainId tgt' /\
   decodeHexExact "blockHash" hash 32 = decodeHexExact "blockHash" hash' 32 /\
   decodeHexExact "verifier" (verifier tgt) 20 = decodeHexExact "verifier" (verifier tgt') 20) /\
  num_Z (default (Int 0) (epoch set)) = num_Z (default (Int 0) (epoch set')) /\
  exists ms ms', canonicalMembers set = Ok ms /\ canonicalMembers set' = Ok ms' /\
    Forall2 same_member ms ms'.
Proof.
  intros Ei Ei' Em Em'.
  destruct (message_binding _ _ _ _ _ _ _ _ _ _ _ Em Em') as [C|(? & ? & ? & <- & ? & ?)].
  { left. eapply keccak_collision_mono, C. set_solver. }
  destruct (set_id_binding set set' id Ei Ei') as [C|(ms & ms' & ? & ? & ? & ?)].
  { left. eapply keccak_collision_mono, C. set_solver. }
  right. split; [done|]. split; [done|]. by exists ms, ms'.
Qed.

(** Co-signing is complete: the attestations of validators that hold the
    threshold finalize. *)
Lemma signEvm_signed `{!HexLaws L} `{!SigLaws L kpr} set suite h hash tgt k a id msg :
  suite ∈ activeSuiteIds -> kpr (publicKey k) (secretKey k) ->
  signEvmAttestation k set suite h hash tgt = Ok a -> evmSetId set = Ok id ->
  evmAttestMessage suite h hash id tgt = Ok msg ->
  ea_validator a = bytesToHex (publicKey k) /\
  exists s, signerFor suite = Ok s /\ safeEvmVerify (evmSig a) msg (ea_validator a) s = true.
Proof.
  unfold signEvmAttestation. intros Hs Hk E Ei Em. rewrite Ei in E. cbn [mbind res_bind] in E.
  rewrite Em in E. cbn [mbind res_bind] in E. apply bind_ok in E as (s & Es & E).
  apply bind_ok in E as (sg & Eg & E). apply Ok_inj in E as <-. cbn [ea_validator evmSig].
  split; [done|]. exists s. split; [done|]. unfold safeEvmVerify. apply try_catch_true.
  rewrite hex_roundtrip. cbn [mbind res_bind].
  assert (V : suite_verify suite sg msg (publicKey k) = Ok true).
  { eapply suite_sign_verify; [done | exact Hk |]. unfold suite_sign. by rewrite Es. }
  unfold suite_verify in V. by rewrite Es in V.
Qed.

(** Liveness of the export.  Under an active suite, if key pairs whose
    validators hold the threshold of the stake each co-sign a block for a
    destination, the bundle is finalized there. *)
Theorem evm_honest_finalizes `{!HexLaws L} `{!SigLaws L kpr} set suite h hash tgt fnum fden keys atts id msg :
  suite ∈ activeSuiteIds -> Forall (fun k => kpr (publicKey k) (secretKey k)) keys ->
  Forall2 (fun k a => signEvmAttestation k set suite h hash tgt = Ok a) keys atts ->
  evmSetId set = Ok id -> evmAttestMessage suite h hash id tgt = Ok msg ->
  valid_threshold fnum fden = true -> (length (validators set) <= MAX_VALIDATORS)%nat ->
  (length keys <= MAX_ATTESTATIONS)%nat -> 0 < totalStake set ->
  num_Z fnum * totalStake set <=
    stake_in set (list_to_set (map (fun k => bytesToHex (publicKey k)) keys)) * num_Z fden ->
  exists v, verifyEvmFinality set atts suite h hash tgt fnum fden = Ok v /\ ef_finalized v = true.
Proof.
  intros Hs Hks F2 Ei Em T N1 N2 P Q. pose proof (signerFor_active _ Hs) as Es.
  destruct (verifyEvmFinality_run set atts suite h hash tgt fnum fden id msg _ T N1
    ltac:(by rewrite <- (Forall2_length _ _ _ F2)) P Ei Em Es) as (X & HX & E).
  eexists. split; [exact E|]. cbn. apply Z.leb_le.
  enough (stake_in set (list_to_set (map (fun k => bytesToHex (publicKey k)) keys)) <= stake_in set X).
  { pose proof (valid_threshold_Z _ _ T). nia. }
  apply stake_in_mono; [by eapply evm_ready_keys|].
  intros w (k & -> & Hk)%elem_of_list_to_set%list_elem_of_fmap St. apply HX. split; [done|].
  apply list_elem_of_lookup in Hk as [i Hi]. rewrite Forall_lookup in Hks.
  destruct (Forall2_lookup_l _ _ _ _ _ F2 Hi) as (a & Ha & Ea).
  destruct (signEvm_signed set suite h hash tgt k a id msg Hs (Hks _ _ Hi) Ea Ei Em)
    as (Ev & s & Es' & V).
  exists a. split; [by eapply list_elem_of_lookup_2|]. split; [done|]. rewrite <- Ev. congruence.
Qed.

(** The header of the file says the verifier never throws on malformed input;
    it does when the suite has no signer. *)
Theorem evm_unknown_suite_throws set suite h hash tgt id msg e atts :
  signerFor suite = Throw e -> evmSetId set = Ok id -> evmAttestMessage suite h hash id tgt = Ok msg ->
  0 < totalStake set -> (length (validators set) <= MAX_VALIDATORS)%nat ->
  (length atts <= MAX_ATTESTATIONS)%nat ->
  verifyEvmFinality set atts suite h hash tgt (Int 2) (Int 3) = Throw e.
Proof.
  intros Es Ei Em P N1 N2. destruct (evmSetId_canonical _ _ Ei) as (ms & Ec & C).
  unfold verifyEvmFinality. replace (valid_threshold (Int 2) (Int 3)) with true by reflexivity.
  apply Nat.ltb_ge in N1, N2. rewrite N1, N2. cbn [negb orb]. rewrite Ec. cbn [mbind res_bind].
  rewrite (ca_total _ _ C), (proj2 (Z.leb_gt _ _)) by done. rewrite Ei. cbn [mbind res_bind].
  rewrite Em. cbn [mbind res_bind]. by rewrite Es.
Qed.
End properties.

(** ** Concrete runs *)
#[export] Instance toy_keccak : Keccak := {| keccak_256 := fun b => toy_hash (x4b :: b) |}.
#[export] Instance toy_keccak_len : KeccakLen toy_keccak.
Proof. split. intros b. apply length_le_bytes. Qed.

Definition evm_target : EvmTarget :=
  {| chainId := 32382; verifier := "00112233445566778899aabbccddeeff00112233" |}.
Definition evm_hash (x : byte) : string := to_hex (repeat x 32).
Definition evm_id : bytes := Eval vm_compute in try_catch (evmSetId sample_set) (fun _ => []).
Definition evm_msg_of (x : byte) : bytes :=
  try_catch (evmAttestMessage "PS-5" (Int 7) (evm_hash x) evm_id evm_target) (fun _ => []).
Definition evm_msg_a : bytes := Eval vm_compute in evm_msg_of xaa.
Definition evm_msg_b : bytes := Eval vm_compute in evm_msg_of xbb.
Definition no_evm_att : EvmSignedAttestation := {| ea_validator := ""; evmSig := [] |}.
Definition evm_atts_of (x : byte) (names : list string) : list EvmSignedAttestation :=
  map (fun n => try_catch (signEvmAttestation (kp n) sample_set "PS-5" (Int 7) (evm_hash x) evm_target)
                  (fun _ => no_evm_att)) names.
Definition evm_atts_a : list EvmSignedAttestation := Eval vm_compute in evm_atts_of xaa ["v1"; "v2"].
Definition evm_atts_b : list EvmSignedAttestation := Eval vm_compute in evm_atts_of xbb ["v1"; "v2"].

Example evm_runs :
  verifyEvmFinality sample_set evm_atts_a "PS-5" (Int 7) (evm_hash xaa) evm_target (Int 2) (Int 3) =
    Ok {| ef_finalized := true; ef_attestingStake := 70; ef_totalStake := 100 |} /\
  verifyEvmFinality sample_set evm_atts_a "PS-5" (Int 8) (evm_hash xaa) evm_target (Int 2) (Int 3) =
    Ok {| ef_finalized := false; ef_attestingStake := 0; ef_totalStake := 100 |} /\
  verifyEvmFinality sample_set evm_atts_a "PS-5" (Int 7) (evm_hash xaa)
    {| chainId := -1; verifier := verifier evm_target |} (Int 2) (Int 3) = Ok (evm_fail 0).
Proof. vm_compute. done. Qed.

Lemma evm_id_ok : evmSetId sample_set = Ok evm_id.
Proof. vm_compute. reflexivity. Qed.
Lemma evm_msg_a_ok : evmAttestMessage "PS-5" (Int 7) (evm_hash xaa) evm_id evm_target = Ok evm_msg_a.
Proof. vm_compute. reflexivity. Qed.
Lemma evm_msg_b_ok : evmAttestMessage "PS-5" (Int 7) (evm_hash xbb) evm_id evm_target = Ok evm_msg_b.
Proof. vm_compute. reflexivity. Qed.
Lemma evm_final_a : verifyEvmFinality sample_set evm_atts_a "PS-5" (Int 7) (evm_hash xaa) evm_target
  (Int 2) (Int 3) = Ok {| ef_finalized := true; ef_attestingStake := 70; ef_totalStake := 100 |}.
Proof. vm_compute. reflexivity. Qed.
Lemma evm_final_b : verifyEvmFinality sample_set evm_atts_b "PS-5" (Int 7) (evm_hash xbb) evm_target
  (Int 2) (Int 3) = Ok {| ef_finalized := true; ef_attestingStake := 70; ef_totalStake := 100 |}.
Proof. vm_compute. reflexivity. Qed.
Lemma evm_hashes_differ : evm_hash xaa <> evm_hash xbb.
Proof. done. Qed.
Lemma evm_small n : (n <=? 16)%nat = true -> (n <= MAX_ATTESTATIONS)%nat /\ (n <= MAX_VALIDATORS)%nat.
Proof.
  intros H%Nat.leb_le. assert (16 <= MAX_VALIDATORS)%nat by (apply Nat.leb_le; vm_compute; reflexivity).
  assert (16 <= MAX_ATTESTATIONS)%nat by (apply Nat.leb_le; vm_compute; reflexivity). lia.
Qed.
Lemma evm_suite : "PS-5" ∈ activeSuiteIds.
Proof. by rewrite activeSuiteIds_eq; left. Qed.

Lemma u256_spec_witness : exists b, u256 258 = Ok b /\ length b = 32%nat /\ be_value b = 258.
Proof. apply (proj1 (u256_spec 258)). split; [done | by apply Z.ltb_lt]. Defined.

Lemma evm_finality_spec_witness : exists v,
  verifyEvmFinality sample_set evm_atts_a "PS-5" (Int 7) (evm_hash xaa) evm_target (Int 2) (Int 3) = Ok v.
Proof.
  destruct (evm_finality_spec sample_set evm_atts_a "PS-5" (Int 7) (evm_hash xaa) evm_target (Int 2) (Int 3)
    _ (signerFor_active _ evm_suite)) as (v & E & _). exact (ex_intro _ v E).
Defined.

Lemma evm_accountable_witness : exists out (X : gset string),
  detectEvmEquivocations sample_set "PS-5" (Int 7) evm_target (evm_hash xaa) evm_atts_a
    (evm_hash xbb) evm_atts_b = Ok out /\
  (2 * 2 - 3) * totalStake sample_set <= stake_in sample_set X * 3 /\
  NoDup (map ee_validator out) /\ (forall v, v ∈ map ee_validator out <-> v ∈ X) /\
  forall p, p ∈ out -> ee_height p = Int 7 /\ ee_blockHashA p = evm_hash xaa /\
    ee_blockHashB p = evm_hash xbb /\
    verifyEvmEquivocationProof p sample_set "PS-5" evm_target = Ok true.
Proof.
  destruct (evm_accountable sample_set evm_atts_a evm_atts_b "PS-5" (Int 7) (evm_hash xaa)
    (evm_hash xbb) evm_target (Int 2) (Int 3) _ _ evm_hashes_differ evm_final_a eq_refl evm_final_b
    eq_refl) as (id & mA & mB & out & X & _ & _ & _ & _ & Q & E & N & M & P).
  refine (ex_intro _ out (ex_intro _ X (conj E (conj Q (conj N (conj M _)))))).
  intros p Hp. destruct (P p Hp) as (H1 & H2 & H3 & _ & _ & V).
  exact (conj H1 (conj H2 (conj H3 V))).
Defined.

Lemma evm_detect_exact_witness : exists out,
  detectEvmEquivocations sample_set "PS-5" (Int 7) evm_target (evm_hash xaa) evm_atts_a
    (evm_hash xbb) evm_atts_b = Ok out /\ NoDup (map ee_validator out).
Proof.
  destruct (evm_detect_exact sample_set "PS-5" (Int 7) evm_target (evm_hash xaa) evm_atts_a
    (evm_hash xbb) evm_atts_b evm_id evm_msg_a evm_msg_b _ evm_hashes_differ
    (proj1 (evm_small 2 eq_refl)) (proj1 (evm_small 2 eq_refl)) evm_id_ok evm_msg_a_ok evm_msg_b_ok
    (signerFor_active _ evm_suite)) as (out & E & N & _). exact (ex_intro _ out (conj E N)).
Defined.

Lemma evm_attestation_binding_witness :
  keccak_collision (message_inputs "PS-5" (Int 7) (evm_hash xaa) evm_id evm_target ++
    message_inputs "PS-5" (Int 7) (evm_hash xaa) evm_id evm_target ++
    set_inputs sample_set ++ set_inputs sample_set) \/ num_Z (Int 7) = num_Z (Int 7).
Proof.
  destruct (evm_attestation_binding sample_set "PS-5" (Int 7) (evm_hash xaa) evm_target evm_id sample_set
    "PS-5" (Int 7) (evm_hash xaa) evm_target evm_id evm_msg_a evm_id_ok evm_id_ok evm_msg_a_ok
    evm_msg_a_ok) as [C|((_ & E & _) & _)]; [by left | by right].
Defined.

Lemma evm_honest_finalizes_witness : exists v,
  verifyEvmFinality sample_set evm_atts_a "PS-5" (Int 7) (evm_hash xaa) evm_target (Int 2) (Int 3) = Ok v /\
  ef_finalized v = true.
Proof.
  refine (evm_honest_finalizes (kpr := eq) sample_set "PS-5" (Int 7) (evm_hash xaa) evm_target (Int 2) (Int 3)
    [kp "v1"; kp "v2"] evm_atts_a evm_id evm_msg_a evm_suite _ _ evm_id_ok evm_msg_a_ok eq_refl
    _ _ _ _).
  - by repeat constructor.
  - repeat constructor; vm_compute; reflexivity.
  - exact (proj2 (evm_small 3 eq_refl)).
  - exact (proj1 (evm_small 2 eq_refl)).
  - by vm_compute.
  - apply Z.leb_le. vm_compute. reflexivity.
Defined.

Lemma evm_unknown_suite_throws_witness : exists e id msg,
  verifyEvmFinality sample_set evm_atts_a "PS-9" (Int 7) (evm_hash xaa) evm_target (Int 2) (Int 3) = Throw e /\
  evmSetId sample_set = Ok id /\
  evmAttestMessage "PS-9" (Int 7) (evm_hash xaa) id evm_target = Ok msg.
Proof.
  eexists _, evm_id, _. split; [|split; [exact evm_id_ok | vm_compute; reflexivity]].
  eapply evm_unknown_suite_throws; [vm_compute; reflexivity | exact evm_id_ok | vm_compute; reflexivity |
    by vm_compute | exact (proj2 (evm_small 3 eq_refl)) | exact (proj1 (evm_small 2 eq_refl))].
Defined.
