(* ===== verification/Portable.v ===== *)
(** * ledger/: portable finality proofs

    src/ledger/src/portable.ts: the bundle a bridge or another chain verifies
    offline, and its JSON form.  A JSON text is modelled by the value it denotes
    (a [jsval] without [VUndef], [VBig], [VBytes] and non-finite numbers):
    [JSON.stringify] and [JSON.parse] are inverse on those; what the source adds
    to them, the replacer and the reviver, is modelled. *)
From stdpp Require Import pretty.
From S2P Require Import Prelude JsNum JsVal Crypto Concrete Sortition Vrf Leader Chain Finality.
Open Scope string_scope.
Open Scope Z_scope.
Open Scope list_scope.

Record PortableFinalityProof := {
  pf_block : Block;
  pf_attestations : list Attestation;
  pf_expectedPrev : string;
  pf_finalityNum : num;
  pf_finalityDen : num;
  pf_epoch : option num }.

Record ExportOpts := {
  eo_finalityNum : option num; eo_finalityDen : option num; eo_epoch : option num }.

Definition exportFinalityProof (b : Block) (atts : list Attestation) (prev : string)
    (opts : ExportOpts) : PortableFinalityProof := {|
  pf_block := b; pf_attestations := atts; pf_expectedPrev := prev;
  pf_finalityNum := default (Int 2) (eo_finalityNum opts);
  pf_finalityDen := default (Int 3) (eo_finalityDen opts);
  pf_epoch := eo_epoch opts |}.

(** The test [proof.epoch !== trustedSet.epoch], when both are there. *)
Definition epoch_mismatch (p : PortableFinalityProof) (set : ValidatorSet) : bool :=
  match pf_epoch p, epoch set with
  | Some e, Some f => negb (num_eqb e f)
  | _, _ => false
  end.

(** The text prints integral epochs. *)
Definition epoch_reason (p : PortableFinalityProof) (set : ValidatorSet) : string :=
  "epoch mismatch: proof " +:+ pretty (num_Z (default (Int 0) (pf_epoch p))) +:+
  " vs trusted set " +:+ pretty (num_Z (default (Int 0) (epoch set))).

Section portable.
Context {L : Lib} {C : Ed25519}.

Definition verifyPortableFinality (p : PortableFinalityProof) (set : ValidatorSet)
    (expect : VerifyOpts) : res LightClientVerdict :=
  if epoch_mismatch p set then
    Ok {| lv_ok := false; finalized := false; attestingStake := 0; lv_totalStake := 0;
          lv_reasons := [epoch_reason p set] |} else
  verifyFinalized (pf_block p) (pf_attestations p) set (pf_expectedPrev p) (pf_finalityNum p)
    (pf_finalityDen p) expect.
End portable.

(** ** The JSON form *)
Section json.
Context {L : Lib}.

(** [replacer]: bytes become an object. *)
Definition replacer (v : jsval) : jsval :=
  match v with VBytes b => VObj [("$b", VStr (bytesToHex b))] | _ => v end.

(** [JSON.stringify(v, replacer)]: [None] for [undefined], which an object leaves
    out and an array writes as [null]; a number that is not finite is [null]; a
    bigint throws; a [Map] has no enumerable members. *)
Fixpoint stringify (v : jsval) : res (option jsval) :=
  match v with
  | VUndef => Ok None
  | VNum n => Ok (Some (if isFinite n then VNum n else VNull))
  | VBig _ => Throw "Do not know how to serialize a BigInt"
  | VBytes b => Ok (Some (replacer v))
  | VArr l =>
      l' ← foldr (fun x acc => o ← stringify x; r ← acc; Ok (default VNull o :: r)) (Ok []) l;
      Ok (Some (VArr l'))
  | VObj fs =>
      fs' ← foldr (fun kv acc => o ← stringify kv.2; r ← acc;
                     Ok (match o with Some x => (kv.1, x) :: r | None => r end)) (Ok []) fs;
      Ok (Some (VObj fs'))
  | VMap _ => Ok (Some (VObj []))
  | VNull | VBool _ | VStr _ => Ok (Some v)
  end.

(** [v.$b], when it is a string. *)
Definition byte_tag (fs : list (string * jsval)) : option string :=
  match find (fun kv => bool_decide (kv.1 = "$b")) fs with
  | Some (_, VStr s) => Some s
  | _ => None
  end.

(** [JSON.parse(text, reviver)]: the reviver runs on the members first. *)
Fixpoint revive (v : jsval) : res jsval :=
  match v with
  | VArr l => l' ← foldr (fun x acc => y ← revive x; r ← acc; Ok (y :: r)) (Ok []) l; Ok (VArr l')
  | VObj fs =>
      fs' ← foldr (fun kv acc => y ← revive kv.2; r ← acc; Ok ((kv.1, y) :: r)) (Ok []) fs;
      match byte_tag fs' with
      | Some h => b ← hexToBytes h; Ok (VBytes b)
      | None => Ok (VObj fs')
      end
  | _ => Ok v
  end.

(** The proof as the object the source serialises. *)
Definition header_val (h : BlockHeader) : jsval :=
  VObj ([("height", VNum (height h)); ("prevHash", VStr (prevHash h)); ("round", VNum (round h));
         ("proposer", VStr (proposer h)); ("payloadRoot", VStr (payloadRoot h));
         ("timestamp", VNum (timestamp h))] ++ field_if "vrfOutput" VStr (vrfOutput h)).
Definition vote_val (v : TimeoutVote) : jsval :=
  VObj [("height", VNum (tv_height v)); ("prevHash", VStr (tv_prevHash v));
        ("round", VNum (tv_round v)); ("validator", VStr (tv_validator v));
        ("suite", VStr (tv_suite v)); ("sig", VBytes (tv_sig v))].
Definition cert_val (c : ViewChangeCert) : jsval :=
  VObj [("round", VNum (vc_round c)); ("votes", VArr (map vote_val (votes c)))].
Definition block_val (b : Block) : jsval :=
  VObj ([("header", header_val (header b)); ("proposerSig", VBytes (proposerSig b));
         ("suite", VStr (block_suite b))] ++ field_if "vrfProof" VBytes (vrfProof b) ++
        field_if "viewChangeCert" cert_val (viewChangeCert b)).
Definition att_val (a : Attestation) : jsval :=
  VObj [("blockHash", VStr (att_blockHash a)); ("height", VNum (att_height a));
        ("validator", VStr (att_validator a)); ("suite", VStr (att_suite a));
        ("sig", VBytes (att_sig a))].
Definition proof_val (p : PortableFinalityProof) : jsval :=
  VObj ([("block", block_val (pf_block p));
         ("attestations", VArr (map att_val (pf_attestations p)));
         ("expectedPrev", VStr (pf_expectedPrev p)); ("finalityNum", VNum (pf_finalityNum p));
         ("finalityDen", VNum (pf_finalityDen p))] ++ field_if "epoch" VNum (pf_epoch p)).

Definition serializeFinalityProof (p : PortableFinalityProof) : res (option jsval) :=
  stringify (proof_val p).
Definition deserializeFinalityProof (json : jsval) : res jsval := revive json.
End json.

(** ** The round trip *)
(** A value JSON carries through the replacer and the reviver: defined, finite,
    no bigint, no object that looks like tagged bytes. *)
Fixpoint json_plain (v : jsval) : bool :=
  match v with
  | VUndef | VBig _ | VMap _ => false
  | VNum n => isFinite n
  | VArr l => forallb json_plain l
  | VObj fs => forallb (fun kv => json_plain kv.2) fs &&
               bool_decide (byte_tag fs = None)
  | _ => true
  end.

Section roundtrip.
Context {L : Lib} `{!HexLaws L}.

Lemma json_roundtrip v : json_plain v = true ->
  exists j, stringify v = Ok (Some j) /\ revive j = Ok v.
Proof.
  induction v as [| |b|n| |s|b|l IH|fs IH|] using jsval_ind; cbn [json_plain stringify]; try done.
  - by exists VNull.
  - by exists (VBool b).
  - intros ->. by exists (VNum n).
  - by exists (VStr s).
  - intros _. exists (VObj [("$b", VStr (bytesToHex b))]). split; [done|].
    change (revive _) with (b' ← hexToBytes (bytesToHex b); Ok (VBytes b')). by rewrite hex_roundtrip.
  - intros H.
    enough (exists l', foldr (fun x acc => o ← stringify x; r ← acc; Ok (default VNull o :: r)) (Ok []) l = Ok l' /\
      foldr (fun x acc => y ← revive x; r ← acc; Ok (y :: r)) (Ok []) l' = Ok l) as (l' & E1 & E2).
    { rewrite E1. cbn [mbind res_bind]. eexists. split; [done|]. cbn [revive]. by rewrite E2. }
    induction IH as [|x l Hx _ IHl]; [by exists []|]. cbn [forallb] in H.
    apply andb_true_iff in H as [H1 H2]. destruct (Hx H1) as (j & E1 & E2), (IHl H2) as (l' & E3 & E4).
    exists (j :: l'). cbn [foldr]. rewrite E1, E3, E2, E4. done.
  - intros [H T%bool_decide_eq_true]%andb_true_iff.
    enough (exists fs', foldr (fun kv acc => o ← stringify kv.2; r ← acc;
        Ok (match o with Some x => (kv.1, x) :: r | None => r end)) (Ok []) fs = Ok fs' /\
      foldr (fun kv acc => y ← revive kv.2; r ← acc; Ok ((kv.1, y) :: r)) (Ok []) fs' = Ok fs)
      as (fs' & E1 & E2).
    { rewrite E1. cbn [mbind res_bind]. eexists. split; [done|]. cbn [revive]. rewrite E2.
      cbn [mbind res_bind]. by rewrite T. }
    clear T. induction IH as [|[k x] l Hx _ IHl]; [by exists []|]. cbn [forallb] in H.
    apply andb_true_iff in H as [H1 H2]. destruct (Hx H1) as (j & E1 & E2), (IHl H2) as (l' & E3 & E4).
    exists ((k, j) :: l'). cbn [foldr] in *. cbn [fst snd] in *. rewrite E1, E3. cbn [mbind res_bind].
    split; [done|]. cbn [foldr fst snd]. by rewrite E2, E4.
Qed.
End roundtrip.

(** The numbers of a proof. *)
Definition header_numbers (h : BlockHeader) : list num := [height h; round h; timestamp h].
Definition cert_numbers (c : ViewChangeCert) : list num :=
  vc_round c :: flat_map (fun v => [tv_height v; tv_round v]) (votes c).
Definition proof_numbers (p : PortableFinalityProof) : list num :=
  header_numbers (header (pf_block p)) ++
  match viewChangeCert (pf_block p) with Some c => cert_numbers c | None => [] end ++
  map att_height (pf_attestations p) ++ [pf_finalityNum p; pf_finalityDen p] ++
  match pf_epoch p with Some e => [e] | None => [] end.

Lemma forallb_flat_map {A B} (f : B -> bool) (g : A -> list B) l :
  forallb f (flat_map g l) = forallb (fun x => forallb f (g x)) l.
Proof. induction l as [|x l IH]; cbn; [done|]. by rewrite forallb_app, IH. Qed.
Lemma forallb_map {A B} (f : B -> bool) (g : A -> B) l :
  forallb f (map g l) = forallb (fun x => f (g x)) l.
Proof. induction l as [|x l IH]; cbn; [done|]. by rewrite IH. Qed.

Lemma forallb_ext {A} (f g : A -> bool) l : (forall x, f x = g x) -> forallb f l = forallb g l.
Proof. intros H. induction l as [|x l IH]; cbn; [done|]. by rewrite H, IH. Qed.

Lemma header_plain h : json_plain (header_val h) = forallb isFinite (header_numbers h).
Proof.
  destruct h as [hh ? rr ? ? tt vo]. unfold header_val, header_numbers. cbn.
  destruct vo; cbn; destruct (isFinite hh), (isFinite rr), (isFinite tt); done.
Qed.

Lemma vote_plain v : json_plain (vote_val v) = isFinite (tv_height v) && isFinite (tv_round v).
Proof.
  destruct v as [hh ? rr ? ? ?]. cbn. by destruct (isFinite hh), (isFinite rr).
Qed.
Lemma att_plain a : json_plain (att_val a) = isFinite (att_height a).
Proof. destruct a as [? hh ? ? ?]. cbn. by destruct (isFinite hh). Qed.

Lemma cert_plain c : json_plain (cert_val c) = forallb isFinite (cert_numbers c).
Proof.
  unfold cert_val, cert_numbers. cbn -[vote_val map flat_map]. rewrite forallb_map, forallb_flat_map.
  rewrite !andb_true_r. f_equal. apply forallb_ext. intros v. rewrite vote_plain. cbn.
  by rewrite andb_true_r.
Qed.

Lemma block_plain b : json_plain (block_val b) = forallb isFinite (header_numbers (header b) ++
  match viewChangeCert b with Some c => cert_numbers c | None => [] end).
Proof.
  rewrite forallb_app, <- header_plain. unfold block_val.
  assert (T : forall fs, byte_tag (("header", header_val (header b)) :: fs) = byte_tag fs) by done.
  destruct (viewChangeCert b) as [c|]; [rewrite <- cert_plain|];
    destruct (vrfProof b); cbn -[header_val cert_val];
    destruct (json_plain (header_val (header b))); try done;
    by destruct (json_plain (cert_val c)).
Qed.

Lemma proof_plain p : json_plain (proof_val p) = forallb isFinite (proof_numbers p).
Proof.
  unfold proof_val, proof_numbers.
  rewrite (app_assoc (header_numbers (header (pf_block p)))), forallb_app, <- block_plain.
  rewrite !forallb_app, forallb_map.
  assert (A : forallb json_plain (map att_val (pf_attestations p)) =
    forallb (fun a => isFinite (att_height a)) (pf_attestations p)).
  { rewrite forallb_map. apply forallb_ext, att_plain. }
  rewrite <- A. destruct (pf_epoch p) as [e|]; cbn -[block_val map];
    destruct (json_plain (block_val (pf_block p))); try done;
    destruct (forallb json_plain (map att_val (pf_attestations p))); try done; cbn;
    destruct (isFinite (pf_finalityNum p)), (isFinite (pf_finalityDen p)); try done; cbn;
    by destruct (isFinite e).
Qed.

(** ** Properties *)
Section properties.
Context {L : Lib} {C : Ed25519}.

(** Soundness of the portable verifier.  A proof it accepts was made under
    the epoch of the consumer's set, where both name one; the block stands on
    the expected hash, at the height and in the suite the consumer pins, was
    proposed and signed by a proposer with the right to, and validators of the
    consumer's own set whose stake reaches the threshold written in the proof
    each attested this very block under the identity of that set. *)
Theorem portable_sound p set expect v :
  verifyPortableFinality p set expect = Ok v -> lv_ok v = true ->
  (forall e f, pf_epoch p = Some e -> epoch set = Some f -> num_eqb e f = true) /\
  exists h setId X, Finalized (pf_block p) (pf_attestations p) set (pf_expectedPrev p)
      (pf_finalityNum p) (pf_finalityDen p) expect h setId X /\
    attestingStake v = stake_in set X.
Proof.
  unfold verifyPortableFinality. intros E O. destruct (epoch_mismatch p set) eqn:M;
    [by apply Ok_inj in E as <-|]. split.
  - intros e f Ee Ef. unfold epoch_mismatch in M. rewrite Ee, Ef in M. by apply negb_false_iff in M.
  - assert (F : finalized v = true).
    { unfold verifyFinalized in E. apply bind_ok in E as (h & _ & E).
      destruct (_ <? _)%nat in E; [by apply Ok_inj in E as <-|].
      do 4 (apply bind_ok in E as (? & _ & E)). apply Ok_inj in E as <-.
      by rewrite verdict_finalized. }
    by destruct (verifyFinalized_finalized _ _ _ _ _ _ _ _ E F) as (_ & ?).
Qed.

(** What the ledger finalizes travels.  The proof exported for the block at
    position [i] of any ledger built by [submit] is accepted, with the stored
    stake, by a consumer that holds the same set and pins the suite and the
    height. *)
Theorem exported_verifies set suite fnum fden l i fb :
  reachable set suite fnum fden l -> chain l !! i = Some fb ->
  (forall e, epoch set = Some e -> num_eqb e e = true) ->
  exists v, verifyPortableFinality
      (exportFinalityProof (fb_block fb) (fb_attestations fb) (prev_at (chain l) i)
         {| eo_finalityNum := Some fnum; eo_finalityDen := Some fden; eo_epoch := epoch set |})
      set {| expectedHeight := Some (Int (Z.of_nat i)); expectedSuite := Some suite |} = Ok v /\
    finalized v = true /\ attestingStake v = fb_attestingStake fb.
Proof.
  intros R Hi He. destruct (reachable_links _ _ _ _ _ R) as [_ K].
  destruct (K _ _ Hi) as [_ _ _ _ (v & E & F & S)]. exists v.
  unfold verifyPortableFinality, epoch_mismatch. cbn [exportFinalityProof pf_epoch eo_epoch
    pf_block pf_attestations pf_expectedPrev pf_finalityNum pf_finalityDen eo_finalityNum
    eo_finalityDen default].
  destruct (epoch set) as [e|]; [|done]. by rewrite He.
Qed.

(** JSON round trip.  A proof whose numbers are finite is read back from its
    JSON form as the same object, signatures and VRF proof included. *)
Theorem portable_json_roundtrip `{!HexLaws L} p : forallb isFinite (proof_numbers p) = true ->
  exists json, serializeFinalityProof p = Ok (Some json) /\ deserializeFinalityProof json = Ok (proof_val p).
Proof. rewrite <- proof_plain. apply json_roundtrip. Qed.
End properties.

(** ** Concrete runs *)
Definition weak_proof : PortableFinalityProof :=
  exportFinalityProof (block0 "root") [get no_att (attest ledger0 (block0 "root") (kp "v2"))] GENESIS_PREV
    {| eo_finalityNum := Some (Int 1); eo_finalityDen := Some (Int 1000); eo_epoch := None |}.
Definition pin0 : VerifyOpts := {| expectedHeight := Some (Int 0); expectedSuite := Some "PS-5" |}.

(** The consumer pins the suite and the height but not the threshold, which
    comes with the proof: a proof that sets it to a thousandth is accepted on
    the attestation of a validator with less than a third of the stake. *)
Theorem portable_threshold_untrusted : exists v,
  verifyPortableFinality weak_proof sample_set pin0 = Ok v /\ lv_ok v = true /\ finalized v = true /\
  3 * attestingStake v < lv_totalStake v.
Proof. eexists. split; [vm_compute; reflexivity|]. by vm_compute. Qed.

Definition proof0 : PortableFinalityProof :=
  exportFinalityProof (block0 "root") (atts0 "root") GENESIS_PREV
    {| eo_finalityNum := None; eo_finalityDen := None; eo_epoch := Some (Int 0) |}.

Lemma portable_sound_witness : exists v, verifyPortableFinality proof0 sample_set pin0 = Ok v /\
  exists h setId X, Finalized (block0 "root") (atts0 "root") sample_set GENESIS_PREV (Int 2) (Int 3) pin0
    h setId X.
Proof.
  assert (exists v, verifyPortableFinality proof0 sample_set pin0 = Ok v /\ lv_ok v = true) as (v & E & O)
    by (eexists; split; [vm_compute; reflexivity | reflexivity]).
  exists v. split; [exact E|].
  destruct (proj2 (portable_sound proof0 sample_set pin0 v E O)) as (h & s & X & F & _).
  exact (ex_intro _ h (ex_intro _ s (ex_intro _ X F))).
Defined.

Lemma exported_verifies_witness : exists v, verifyPortableFinality
    (exportFinalityProof (fb_block fb0) (fb_attestations fb0) GENESIS_PREV
       {| eo_finalityNum := Some (Int 2); eo_finalityDen := Some (Int 3); eo_epoch := None |})
    sample_set {| expectedHeight := Some (Int 0); expectedSuite := Some "PS-5" |} = Ok v /\
  finalized v = true /\ attestingStake v = 70.
Proof.
  refine (exported_verifies sample_set "PS-5" (Int 2) (Int 3) ledger1 0 fb0 ledger1_reachable _ _).
  - vm_compute. reflexivity.
  - discriminate.
Defined.

Lemma portable_json_roundtrip_witness : exists json,
  serializeFinalityProof proof0 = Ok (Some json) /\ deserializeFinalityProof json = Ok (proof_val proof0).
Proof. apply (portable_json_roundtrip proof0). vm_compute. reflexivity. Defined.
