(* ===== verification/Evm.v ===== *)
(** * ledger/: the relayer view of a portable proof

    src/ledger/src/evm.ts: a portable finality proof and the trusted set as
    0x-hex text.  The decimal text of a stake that is no bigint is left to a
    parameter: the type excludes it, and the language prints what it is. *)
From stdpp Require Import pretty.
From S2P Require Import Prelude JsNum JsVal Crypto Concrete Sortition Vrf Leader Chain Finality Equivocation Portable.
Open Scope string_scope.
Open Scope Z_scope.
Open Scope list_scope.

Definition hex0x (h : string) : string := if starts_with "0x" h then h else "0x" +:+ h.

Record EvmValidator := { ev_pubkey : string; ev_stake : string; ev_vrfPubkey : option string }.
Record EvmAttestation := { ea_validator : string; ea_message : string; ea_sig : string }.
Record EvmFinalityInput := {
  ei_tag : string;
  ei_suite : string;
  ei_height : num;
  ei_blockHash : string;
  ei_setId : string;
  ei_epoch : num;
  ei_finalityNum : num;
  ei_finalityDen : num;
  ei_validators : list EvmValidator;
  ei_attestations : list EvmAttestation }.

Section packer.
Context {L : Lib} (other_text : jsval -> res string).

(** [v.stake.toString()] *)
Definition stake_text (s : jsval) : res string :=
  match s with VBig z => Ok (pretty z) | _ => other_text s end.

Definition evm_validator (v : Validator) : res EvmValidator :=
  s ← stake_text (stake v);
  Ok {| ev_pubkey := hex0x (pubkey v); ev_stake := s; ev_vrfPubkey := hex0x <$> vrfPubkey v |}.

Definition for_block (h : string) (height : num) (a : Attestation) : bool :=
  bool_decide (att_blockHash a = h) && num_eqb (att_height a) height.

Definition evm_attestation (setId : string) (a : Attestation) : res EvmAttestation :=
  m ← attestMessage (att_suite a) (att_height a) (att_blockHash a) setId;
  Ok {| ea_validator := hex0x (att_validator a); ea_message := hex0x (bytesToHex m);
        ea_sig := hex0x (bytesToHex (att_sig a)) |}.

Definition finalityProofToEvmInput (proof : PortableFinalityProof) (trustedSet : ValidatorSet)
  : res EvmFinalityInput :=
  let hd := header (pf_block proof) in
  h ← blockHash hd;
  setId ← consensusSetId trustedSet;
  attestations ← mapM (evm_attestation setId) (filter (for_block h (height hd)) (pf_attestations proof));
  vs ← mapM evm_validator (validators trustedSet);
  Ok {| ei_tag := tag "ATTESTATION"; ei_suite := block_suite (pf_block proof); ei_height := height hd;
        ei_blockHash := hex0x h; ei_setId := hex0x setId; ei_epoch := default (Int 0) (epoch trustedSet);
        ei_finalityNum := pf_finalityNum proof; ei_finalityDen := pf_finalityDen proof;
        ei_validators := vs; ei_attestations := attestations |}.

(** ** Lemmas *)
Lemma finalityProofToEvmInput_ok proof set i : finalityProofToEvmInput proof set = Ok i ->
  exists h setId, blockHash (header (pf_block proof)) = Ok h /\ consensusSetId set = Ok setId /\
    ei_blockHash i = hex0x h /\ ei_setId i = hex0x setId /\
    Forall2 (fun a e => evm_attestation setId a = Ok e)
      (filter (for_block h (height (header (pf_block proof)))) (pf_attestations proof)) (ei_attestations i) /\
    Forall2 (fun v e => evm_validator v = Ok e) (validators set) (ei_validators i) /\
    ei_suite i = block_suite (pf_block proof) /\ ei_finalityNum i = pf_finalityNum proof /\
    ei_finalityDen i = pf_finalityDen proof.
Proof.
  unfold finalityProofToEvmInput. cbv zeta. intros (h & Eh & E)%bind_ok.
  apply bind_ok in E as (setId & Es & E). apply bind_ok in E as (as_ & Ea & E).
  apply bind_ok in E as (vs & Ev & E). apply Ok_inj in E as <-. exists h, setId.
  split_and!; try done; by apply mapM_ok.
Qed.

Lemma Forall2_elem_l {A B} (R : A -> B -> Prop) l k x : Forall2 R l k -> x ∈ l -> exists y, y ∈ k /\ R x y.
Proof.
  intros F [i Hi]%list_elem_of_lookup. destruct (Forall2_lookup_l _ _ _ _ _ F Hi) as (y & Hy & r).
  exists y. split; [by eapply list_elem_of_lookup_2 | done].
Qed.

(** An entry of the view for validator [k]: its hex text is the message and the
    signature it verifies. *)
Definition view_entry (suite k : string) (e : EvmAttestation) : Prop :=
  ea_validator e = hex0x k /\
  exists m sg, ea_message e = hex0x (bytesToHex m) /\ ea_sig e = hex0x (bytesToHex sg) /\
    safeVerify suite sg m (hexToBytesLocal k) = true.

Context {C : Ed25519}.

(** ** The property *)
(** C25: The view carries the evidence.  When the proof verifies against the trusted
    set, the attestations of the view hold, for validators with the finality
    fraction of the stake, the message each of them signed and a signature that
    verifies it under the validator's key; the stakes printed are those of the
    set, in its order. *)
Theorem view_carries_quorum {CL : CborLaws L} proof set expect v i :
  verifyPortableFinality proof set expect = Ok v -> finalized v = true ->
  finalityProofToEvmInput proof set = Ok i ->
  (exists X, num_Z (ei_finalityNum i) * totalStake set <= stake_in set X * num_Z (ei_finalityDen i) /\
    forall k, k ∈ X -> 0 < stakeOf set k /\
      exists e, e ∈ ei_attestations i /\ view_entry (ei_suite i) k e) /\
  map ev_stake (ei_validators i) = map (fun v => pretty (safeStake (stake v))) (validators set) /\
  map ev_pubkey (ei_validators i) = map (fun v => hex0x (pubkey v)) (validators set).
Proof.
  intros V F (h & setId & Eh & Es & _ & _ & As & Vs & -> & -> & ->)%finalityProofToEvmInput_ok.
  unfold verifyPortableFinality in V. destruct (epoch_mismatch proof set); [by apply Ok_inj in V as <-|].
  destruct (verifyFinalized_finalized _ _ _ _ _ _ _ _ V F) as (_ & h' & setId' & X & Fi & _).
  destruct Fi as [Fh Fs Fw Ft Fp Fq Fa _ _ _].
  rewrite Eh in Fh. rewrite Es in Fs. apply Ok_inj in Fh as <-, Fs as <-. split; [|split].
  - exists X. split; [done|]. intros k (a & Ha & <- & [Ah Ag Au Ak (m & Em & Vm)])%Fa. split; [done|].
    destruct (Forall2_elem_l _ _ _ a As) as (e & He & Ee).
    { apply list_elem_of_filter. split; [|done]. unfold for_block. apply Is_true_true.
      by rewrite bool_decide_true, Ag. }
    exists e. split; [done|]. apply bind_ok in Ee as (m' & Em' & Ee). apply Ok_inj in Ee as <-.
    split; [done|]. cbn [ea_message ea_sig]. exists m, (att_sig a). rewrite <- Au. split_and!; [|done..].
    enough (m' = m) as -> by done. apply Ok_inj. rewrite <- Em', <- Em, Ah.
    by apply attestMessage_num, num_eqb_equiv.
  - apply isWellFormedStakeSet_iff in Fw as [Fw _]. clear -Vs Fw. revert Fw.
    induction Vs as [|x e vs es E _ IH]; intros Fw; cbn [map]; [done|].
    rewrite IH by (intros v Hv; apply Fw; by right). f_equal.
    destruct (Fw x) as (z & Hz & Pz); [left|].
    apply bind_ok in E as (s & E & E'). apply Ok_inj in E' as <-. cbn [ev_stake].
    unfold stake_text in E. unfold safeStake. rewrite Hz in E |- *. apply Ok_inj in E as <-.
    by rewrite (proj2 (Z.leb_le _ _) Pz).
  - clear -Vs. induction Vs as [|x e vs es E _ IH]; cbn [map]; [done|]. rewrite IH. f_equal.
    apply bind_ok in E as (s & _ & E'). by apply Ok_inj in E' as <-.
Qed.
End packer.

(** ** A run on the concrete library *)
Definition toy_proof : PortableFinalityProof :=
  exportFinalityProof (block0 "root") (no_att :: atts0 "root") GENESIS_PREV
    {| eo_finalityNum := None; eo_finalityDen := None; eo_epoch := None |}.
Definition no_text (s : jsval) : res string := Throw "no stake".
Definition no_view : EvmFinalityInput := {|
  ei_tag := ""; ei_suite := ""; ei_height := NaN; ei_blockHash := ""; ei_setId := ""; ei_epoch := NaN;
  ei_finalityNum := NaN; ei_finalityDen := NaN; ei_validators := []; ei_attestations := [] |}.
Definition toy_view : EvmFinalityInput := get no_view (finalityProofToEvmInput no_text toy_proof sample_set).

Example view_runs :
  finalityProofToEvmInput no_text toy_proof sample_set = Ok toy_view /\
  map ea_validator (ei_attestations toy_view) = map (fun n => hex0x (kp_hex n)) ["v1"; "v2"] /\
  hex0x "0xff" = "0xff" /\ ei_tag toy_view = "polarseek-attest-v2".
Proof. vm_compute. repeat split; reflexivity. Qed.

Lemma view_carries_quorum_witness : exists X,
  num_Z (ei_finalityNum toy_view) * totalStake sample_set <= stake_in sample_set X * num_Z (ei_finalityDen toy_view).
Proof.
  destruct (verifyPortableFinality toy_proof sample_set {| expectedHeight := None; expectedSuite := None |})
    as [v|e] eqn:E; [|vm_compute in E; discriminate E].
  destruct (view_carries_quorum no_text toy_proof sample_set _ v toy_view E) as [(X & Q & _) _].
  - revert E. vm_compute. intros E. injection E as <-. reflexivity.
  - vm_compute. reflexivity.
  - exists X. exact Q.
Defined.
