(* ===== verification/Profile.v ===== *)
(** * capabilities/: the standards-binding profile

    src/capabilities/src/profile.ts: action manifests and their digest, base58btc,
    did:key identifiers of public keys, the credential projection.  The texts
    handled here are ASCII; the elements of the [number[]] arrays are integers. *)
From S2P Require Import Prelude JsNum JsVal Crypto Concrete.
Open Scope string_scope.
Open Scope Z_scope.
Open Scope list_scope.

(** ** Action manifests *)
Inductive RiskClass := T0 | T1 | T2 | T3.
Definition risk_text (r : RiskClass) : string :=
  match r with T0 => "T0" | T1 => "T1" | T2 => "T2" | T3 => "T3" end.

Record ActionProvenance := {
  prov_tool : option string; prov_model : option string; prov_software : option string }.

Record ActionManifest := {
  verbId : string;
  authorityScope : string;
  riskClass : RiskClass;
  policyHash : string;
  replayDomain : string;
  expiry : num;
  preconditions : option (list string);
  expectedEffects : option (list string);
  provenance : option ActionProvenance }.

Definition provenance_fields (p : ActionProvenance) : list (string * jsval) :=
  field_if "tool" VStr (prov_tool p) ++ field_if "model" VStr (prov_model p) ++
  field_if "software" VStr (prov_software p).
Definition provenance_val (p : ActionProvenance) : jsval := VObj (provenance_fields p).
Definition manifest_fields (m : ActionManifest) : list (string * jsval) :=
  [("verbId", VStr (verbId m)); ("authorityScope", VStr (authorityScope m));
   ("riskClass", VStr (risk_text (riskClass m))); ("policyHash", VStr (policyHash m));
   ("replayDomain", VStr (replayDomain m)); ("expiry", VNum (expiry m))] ++
  field_if "preconditions" VStrs (preconditions m) ++
  field_if "expectedEffects" VStrs (expectedEffects m) ++
  field_if "provenance" provenance_val (provenance m).
Definition manifest_val (m : ActionManifest) : jsval := VObj (manifest_fields m).

Definition MANIFEST_CTX : string := "nerion/action-manifest/v1".

(** [s.split(sep)] for a one-character separator. *)
Fixpoint split_on (sep : ascii) (s : string) : list string :=
  match s with
  | EmptyString => [EmptyString]
  | String c s' =>
      if bool_decide (c = sep) then EmptyString :: split_on sep s'
      else match split_on sep s' with
           | p :: ps => String c p :: ps
           | [] => [String c EmptyString]
           end
  end.

Definition isNamespacedVerb (verb : string) : bool :=
  let parts := split_on "."%char verb in
  (2 <=? length parts)%nat && forallb (fun p => (0 <? String.length p)%nat) parts.

(** ** base58btc *)
Definition B58 : list ascii :=
  list_ascii_of_string "123456789ABCDEFGHJKLMNPQRSTUVWXYZabcdefghijkmnopqrstuvwxyz".
Definition b58_char (d : Z) : ascii := default "1"%char (B58 !! Z.to_nat d).
(** [B58.indexOf(c)]; [None] is -1 *)
Fixpoint index_of (c : ascii) (l : list ascii) : option Z :=
  match l with
  | [] => None
  | x :: l' => if bool_decide (x = c) then Some 0 else i ← index_of c l'; Some (i + 1)
  end.

(** The loop [while (carry > 0)] that pushes digits. *)
Fixpoint push_carry (base : Z) (fuel : nat) (carry : Z) : list Z :=
  match fuel with
  | O => []
  | S fuel => if 0 <? carry then carry mod base :: push_carry base fuel (carry / base) else []
  end.
(** One input digit: the little-endian [digits] are multiplied by [mult] and
    [carry] is added. *)
Fixpoint carry_step (mult base : Z) (carry : Z) (digits : list Z) : list Z :=
  match digits with
  | [] => push_carry base (Z.to_nat carry) carry
  | d :: ds => let c := carry + d * mult in c mod base :: carry_step mult base (c / base) ds
  end.
Definition convert (mult base : Z) (l : list Z) (digits : list Z) : list Z :=
  fold_left (fun ds x => carry_step mult base x ds) l digits.

(** The leading elements equal to [x] and the rest. *)
Fixpoint strip {A} (p : A -> bool) (l : list A) : nat * list A :=
  match l with
  | x :: l' => if p x then let (n, r) := strip p l' in (S n, r) else (O, l)
  | [] => (O, [])
  end.

Definition base58btcEncode (b : bytes) : string :=
  let (zeros, rest) := strip (fun x => bool_decide (x = x00)) b in
  let digits := convert 256 58 (map Z_of_byte rest) [0] in
  string_of_list_ascii (repeat "1"%char zeros ++ map b58_char (rev digits)).

Definition b58_digit (c : ascii) : res Z :=
  match index_of c B58 with
  | Some v => Ok v
  | None => Throw ("invalid base58 character: " +:+ String c EmptyString)
  end.
Definition base58btcDecode (s : string) : res bytes :=
  let (zeros, rest) := strip (fun c => bool_decide (c = "1"%char)) (list_ascii_of_string s) in
  vals ← mapM b58_digit rest;
  let out := convert 58 256 vals [0] in
  Ok (repeat x00 zeros ++ map byte_of_Z (rev out)).

(** ** did:key *)
(** The [do ... while] loop of [unsignedVarint]. *)
Fixpoint varint_loop (fuel : nat) (v : Z) : bytes :=
  match fuel with
  | O => []
  | S fuel =>
      let b := Z.land v 127 in
      let v' := v / 128 in
      if 0 <? v' then byte_of_Z (Z.lor b 128) :: varint_loop fuel v' else [byte_of_Z b]
  end.
Definition unsignedVarint (n : num) : res bytes :=
  if num_ltb n (Int 0) || negb (isInteger n)
  then Throw "multicodec code must be a non-negative integer"
  else Ok (varint_loop (S (Z.to_nat (Z.log2 (num_Z n)))) (num_Z n)).

Definition didKeyFromPublicKey (multicodec : num) (publicKey : bytes) : res string :=
  prefix ← unsignedVarint multicodec;
  Ok ("did:key:z" +:+ base58btcEncode (prefix ++ publicKey)).

(** ** The digest and the credential

    [JSON.stringify] of a text without quotes, backslashes and control
    characters is the text in quotes. *)
Section profile.
Context {L : Lib}.

Definition manifestDigest (m : ActionManifest) : res bytes :=
  if negb (isNamespacedVerb (verbId m))
  then Throw ("verbId must be namespaced (e.g. " +:+ quoted "fin.payment.transfer" +:+ "), got: " +:+
              quoted (verbId m))
  else b ← encodeCanonical (VArr [VStr MANIFEST_CTX; manifest_val m]); Ok (sha3_256 b).

Record PermitCredentialInput := {
  ci_issuerDid : string; ci_subjectDid : string; ci_manifest : ActionManifest;
  ci_validFrom : string; ci_id : option string }.

Definition toVerifiableCredential (i : PermitCredentialInput) : res jsval :=
  d ← manifestDigest (ci_manifest i);
  Ok (VObj ([("@context", VStrs ["https://www.w3.org/ns/credentials/v2"]);
             ("type", VStrs ["VerifiableCredential"; "NerionActionPermit"]);
             ("issuer", VStr (ci_issuerDid i)); ("validFrom", VStr (ci_validFrom i));
             ("credentialSubject", VObj [("id", VStr (ci_subjectDid i));
                ("actionManifest", manifest_val (ci_manifest i));
                ("manifestDigest", VStr (bytesToHex d))])] ++
            field_if "id" VStr (ci_id i))).
End profile.

Example base58_runs :
  base58btcEncode [x68; x65; x6c; x6c; x6f] = "Cn8eVZg" /\
  base58btcEncode [x00; x00; x28; x7f; xb4; xcd] = "11233QC4" /\
  base58btcDecode "Cn8eVZg" = Ok [x68; x65; x6c; x6c; x6f] /\
  unsignedVarint (Int 300) = Ok [xac; x02] /\ base58btcEncode [] = "1".
Proof. by vm_compute. Qed.

(** ** Positional notation *)
(** The value of little-endian digits. *)
Fixpoint value_le (base : Z) (ds : list Z) : Z :=
  match ds with [] => 0 | d :: ds' => d + base * value_le base ds' end.
Definition in_base (base : Z) (ds : list Z) : Prop := Forall (fun d => 0 <= d < base) ds.
(** No leading zero digit. *)
Definition no_lead (ds : list Z) : Prop := match last ds with Some d => 0 < d | None => True end.

Section positional.
Context (mult base : Z) (Hm : 0 < mult) (Hb : 2 <= base).

Lemma push_carry_ok fuel : forall c, 0 <= c -> (Z.to_nat c <= fuel)%nat ->
  value_le base (push_carry base fuel c) = c /\ in_base base (push_carry base fuel c) /\
  no_lead (push_carry base fuel c).
Proof.
  induction fuel as [|fuel IH]; intros c Hc Hf; cbn [push_carry].
  - cbn. split; [lia|]. split; [constructor | done].
  - destruct (Z.ltb_spec 0 c) as [P|P]; [|cbn; split; [lia|]; split; [constructor | done]].
    assert (c / base < c) by (apply Z.div_lt; lia).
    pose proof (Z.div_pos c base). destruct (IH (c / base)) as (V & I & N); [lia..|].
    cbn [value_le]. rewrite V. pose proof (Z.div_mod c base). pose proof (Z.mod_pos_bound c base).
    split; [lia|]. split; [constructor; [lia | done]|].
    unfold no_lead in *. destruct (push_carry base fuel (c / base)) as [|d ds] eqn:E; [|done].
    cbn in V |- *. lia.
Qed.

(** The same with fuel for the digits. *)
Lemma push_carry_digits fuel : forall c, 0 <= c < base ^ Z.of_nat fuel ->
  value_le base (push_carry base fuel c) = c /\ in_base base (push_carry base fuel c).
Proof.
  induction fuel as [|fuel IH]; intros c Hc; cbn [push_carry].
  - change (base ^ Z.of_nat 0) with 1 in Hc. cbn. split; [lia | constructor].
  - rewrite Nat2Z.inj_succ, Z.pow_succ_r in Hc by lia.
    destruct (Z.ltb_spec 0 c) as [P|P]; [|cbn; split; [lia | constructor]].
    pose proof (Z.div_pos c base). assert (c / base < base ^ Z.of_nat fuel) by (apply Z.div_lt_upper_bound; lia).
    destruct (IH (c / base)) as (V & I); [lia|]. cbn [value_le]. rewrite V.
    pose proof (Z.div_mod c base). pose proof (Z.mod_pos_bound c base). split; [lia|]. constructor; [lia | done].
Qed.

Lemma carry_step_ok ds : forall c, 0 <= c -> in_base base ds ->
  value_le base (carry_step mult base c ds) = c + mult * value_le base ds /\
  in_base base (carry_step mult base c ds).
Proof.
  induction ds as [|d ds IH]; intros c Hc Hd; cbn [carry_step value_le].
  - destruct (push_carry_ok (Z.to_nat c) c) as (V & I & _); [lia..|]. split; [lia | done].
  - inversion_clear Hd as [|? ? Hd0 Hds]. pose proof (Z.div_pos (c + d * mult) base).
    pose proof (Z.div_mod (c + d * mult) base). pose proof (Z.mod_pos_bound (c + d * mult) base).
    destruct (IH ((c + d * mult) / base)) as [V I]; [nia | done |].
    rewrite V. split; [nia|]. constructor; [lia | done].
Qed.

Lemma last_cons_ne {A} (x : A) l : l <> [] -> last (x :: l) = last l.
Proof. by destruct l. Qed.

(** The top digit stays positive. *)
Lemma carry_push_no_lead c : 0 < c -> no_lead (c mod base :: push_carry base (Z.to_nat (c / base)) (c / base)).
Proof.
  intros Hc. pose proof (Z.div_pos c base). pose proof (Z.div_mod c base).
  destruct (push_carry_ok (Z.to_nat (c / base)) (c / base)) as (V & I & N); [lia..|].
  unfold no_lead in *. destruct (push_carry _ _ _) as [|e es] eqn:E; [|done].
  cbn in V |- *. pose proof (Z.mod_pos_bound c base). nia.
Qed.

Lemma carry_step_no_lead ds : forall c, 0 <= c -> in_base base ds -> ds <> [] ->
  no_lead ds -> no_lead (carry_step mult base c ds).
Proof.
  induction ds as [|d ds IH]; intros c Hc Hd Hne N; [done|]. cbn [carry_step].
  inversion_clear Hd as [|? ? Hd0 Hds]. pose proof (Z.div_pos (c + d * mult) base).
  destruct ds as [|d' ds].
  - cbn in N. apply carry_push_no_lead. nia.
  - assert (Hne' : carry_step mult base ((c + d * mult) / base) (d' :: ds) <> []) by done.
    unfold no_lead in *. rewrite last_cons_ne by done. rewrite last_cons_ne in N by done.
    apply IH; try done. nia.
Qed.

(** The value of big-endian digits. *)
Definition value_be (l : list Z) (acc : Z) : Z := fold_left (fun a x => a * mult + x) l acc.

Lemma convert_ok l : forall ds, ds <> [] -> Forall (fun x => 0 <= x) l -> in_base base ds ->
  value_le base (convert mult base l ds) = value_be l (value_le base ds) /\
  in_base base (convert mult base l ds) /\ (no_lead ds -> no_lead (convert mult base l ds)).
Proof.
  induction l as [|x l IH]; intros ds Hne Hl Hd; cbn; [done|].
  inversion_clear Hl as [|? ? Hx Hl']. destruct (carry_step_ok ds x Hx Hd) as [V I].
  destruct (IH (carry_step mult base x ds)) as (V' & I' & N'); [by destruct ds | done | done |].
  unfold convert, value_be in *. rewrite V', V. split; [f_equal; lia|]. split; [done|].
  intros N. by apply N', carry_step_no_lead.
Qed.

Lemma convert_top x l : 0 < x -> Forall (fun y => 0 <= y) l ->
  value_le base (convert mult base (x :: l) [0]) = value_be (x :: l) 0 /\
  in_base base (convert mult base (x :: l) [0]) /\ no_lead (convert mult base (x :: l) [0]).
Proof.
  intros Hx Hl. cbn [convert fold_left value_be]. set (ds := carry_step mult base x [0]).
  assert (Hd : in_base base [0]) by (repeat constructor; lia).
  destruct (carry_step_ok [0] x ltac:(lia) Hd) as [V I].
  assert (N : no_lead ds).
  { unfold ds. cbn [carry_step]. apply carry_push_no_lead. lia. }
  destruct (convert_ok l ds) as (V' & I' & N'); try done.
  fold (convert mult base l ds). rewrite V'. unfold ds. rewrite V. split; [|auto].
  unfold value_be. f_equal. cbn. lia.
Qed.
End positional.

(** Reading digits from the other end. *)
Lemma value_be_rev base ds : value_be base (rev ds) 0 = value_le base ds.
Proof.
  unfold value_be. rewrite <- fold_left_rev_right, rev_involutive.
  induction ds as [|d ds IH]; cbn; [done|]. rewrite IH. lia.
Qed.

(** Digits without a leading zero are determined by their value. *)
Lemma value_nonneg base ds : 0 < base -> in_base base ds -> 0 <= value_le base ds.
Proof. intros Hb. induction 1 as [|d ds Hd _ IH]; cbn; [done | nia]. Qed.

Lemma no_lead_zero base ds : 2 <= base -> in_base base ds -> no_lead ds -> value_le base ds = 0 -> ds = [].
Proof.
  intros Hb. induction 1 as [|d ds Hd Hds IH]; [done|]. intros N V. exfalso. cbn in V.
  pose proof (value_nonneg base ds ltac:(lia) Hds). destruct ds as [|d' ds].
  - cbn in *. lia.
  - unfold no_lead in *. rewrite last_cons_ne in N by done. discriminate (IH N). nia.
Qed.

Lemma no_lead_tail d ds : no_lead (d :: ds) -> no_lead ds.
Proof. unfold no_lead. by destruct ds. Qed.

Lemma value_le_inj base : 2 <= base -> forall ds es, in_base base ds -> in_base base es ->
  no_lead ds -> no_lead es -> value_le base ds = value_le base es -> ds = es.
Proof.
  intros Hb. induction ds as [|d ds IH]; intros es Hd He Nd Ne V.
  - symmetry in V. symmetry. by apply (no_lead_zero base).
  - destruct es as [|e es]; [by apply (no_lead_zero base) in V|].
    inversion_clear Hd as [|? ? D1 D2]. inversion_clear He as [|? ? E1 E2]. cbn in V.
    assert (d = e) as <-.
    { rewrite <- (Z.mod_small d base), <- (Z.mod_small e base) by lia.
      rewrite <- (Z.mod_add d (value_le base ds) base), <- (Z.mod_add e (value_le base es) base) by lia.
      f_equal. lia. }
    f_equal. apply IH; try done; [by eapply no_lead_tail | by eapply no_lead_tail | nia].
Qed.

(** ** base58btc: the round trip *)
Lemma strip_app {A} (p : A -> bool) l : let (n, r) := strip p l in
  exists pre, l = pre ++ r /\ length pre = n /\ Forall (fun x => p x = true) pre /\
    match r with x :: _ => p x = false | [] => True end.
Proof.
  induction l as [|x l IH]; cbn; [by exists []|]. destruct (p x) eqn:E.
  - destruct (strip p l) as [n r]. destruct IH as (pre & -> & <- & F & H). exists (x :: pre). auto.
  - by exists [].
Qed.

Lemma strip_repeat {A} (p : A -> bool) x n r : p x = true ->
  match r with y :: _ => p y = false | [] => True end -> strip p (repeat x n ++ r) = (n, r).
Proof.
  intros Hx Hr. induction n as [|n IH]; cbn.
  - destruct r as [|y r]; [done|]. cbn. by rewrite Hr.
  - by rewrite Hx, IH.
Qed.

Lemma all_repeat {A} (x : A) l : Forall (fun y => y = x) l -> l = repeat x (length l).
Proof. induction 1 as [|y l -> _ IH]; cbn; [done | by f_equal]. Qed.

Lemma strip_bytes b : exists n r, strip (fun x => bool_decide (x = x00)) b = (n, r) /\
  b = repeat x00 n ++ r /\ match r with x :: _ => x <> x00 | [] => True end.
Proof.
  pose proof (strip_app (fun x : byte => bool_decide (x = x00)) b) as H.
  destruct (strip _ b) as [n r]. destruct H as (pre & -> & <- & F & H). exists (length pre), r.
  split; [done|]. split.
  - f_equal. apply all_repeat. eapply Forall_impl; [exact F|]. cbn. intros x. apply bool_decide_eq_true.
  - destruct r; [done|]. by apply bool_decide_eq_false in H.
Qed.

Lemma b58_char_ok d : 0 <= d < 58 -> b58_digit (b58_char d) = Ok d /\
  (0 < d -> b58_char d <> "1"%char).
Proof.
  intros Hd. assert (H : forallb (fun n => bool_decide (b58_digit (b58_char (Z.of_nat n)) = Ok (Z.of_nat n)) &&
    ((n =? 0)%nat || negb (bool_decide (b58_char (Z.of_nat n) = "1"%char)))) (seq 0 58) = true)
    by (vm_compute; reflexivity).
  rewrite forallb_forall in H. specialize (H (Z.to_nat d)). rewrite Z2Nat.id in H by lia.
  rewrite andb_true_iff, bool_decide_eq_true in H. destruct H as [H1 H2]; [apply in_seq; lia|].
  split; [done|]. intros P. apply orb_true_iff in H2 as [H2|H2]; [apply Nat.eqb_eq in H2; lia|].
  by apply negb_true_iff, bool_decide_eq_false in H2.
Qed.

Lemma b58_digits ds : in_base 58 ds -> mapM b58_digit (map b58_char ds) = Ok ds.
Proof.
  induction 1 as [|d ds Hd _ IH]; [done|]. cbn. destruct (b58_char_ok d Hd) as [-> _].
  cbn [mbind res_bind]. by rewrite IH.
Qed.

Lemma bytes_in_base b : in_base 256 (map Z_of_byte b).
Proof. induction b as [|x b IH]; cbn; constructor; [apply Z_of_byte_range | done]. Qed.

Lemma in_base_nonneg base ds : in_base base ds -> Forall (fun x => 0 <= x) ds.
Proof. intros H. eapply Forall_impl; [exact H|]. cbn. lia. Qed.

Lemma in_base_rev base ds : in_base base ds -> in_base base (rev ds).
Proof. apply Forall_rev. Qed.

(** The digits of a byte string that does not start with a zero byte. *)
Lemma convert_back x r : x <> x00 ->
  let D := convert 256 58 (map Z_of_byte (x :: r)) [0] in
  in_base 58 D /\ no_lead D /\ D <> [] /\
  map byte_of_Z (rev (convert 58 256 (rev D) [0])) = x :: r.
Proof.
  intros Hx D. pose proof (Z_of_byte_range x).
  assert (Hp : 0 < Z_of_byte x).
  { assert (Z_of_byte x <> 0); [|lia]. intros E. apply Hx, Z_of_byte_inj. by rewrite E. }
  destruct (convert_top 256 58 ltac:(lia) ltac:(lia) (Z_of_byte x) (map Z_of_byte r) Hp
    (in_base_nonneg _ _ (bytes_in_base r))) as (V & I & N).
  fold (map Z_of_byte (x :: r)) in V, I, N. change (Z_of_byte x :: map Z_of_byte r) with (map Z_of_byte (x :: r)) in *.
  fold D in V, I, N.
  assert (Hne : D <> []).
  { intros E. rewrite E in V. pose proof (value_be_rev 256 (rev (map Z_of_byte (x :: r)))) as W.
    rewrite rev_involutive in W. rewrite <- V in W. symmetry in W. cbn in W.
    apply (no_lead_zero 256) in W; [| lia | apply (in_base_rev 256 (map Z_of_byte (x :: r))), bytes_in_base |].
    - by apply (f_equal length) in W; rewrite length_app in W; cbn in W; lia.
    - unfold no_lead. cbn. by rewrite last_snoc. }
  split; [done|]. split; [done|]. split; [done|].
  destruct (rev D) as [|d ds] eqn:ER.
  { apply (f_equal (@rev Z)) in ER. rewrite rev_involutive in ER. done. }
  assert (Hd : 0 < d).
  { unfold no_lead in N. rewrite <- (rev_involutive D), ER in N. cbn in N. by rewrite last_snoc in N. }
  assert (IR : in_base 58 (d :: ds)) by (rewrite <- ER; by apply in_base_rev).
  inversion_clear IR as [|? ? _ IR'].
  destruct (convert_top 58 256 ltac:(lia) ltac:(lia) d ds Hd (in_base_nonneg _ _ IR')) as (V' & I' & N').
  rewrite <- ER, value_be_rev, V in V'. rewrite <- ER in *.
  assert (E : convert 58 256 (rev D) [0] = rev (map Z_of_byte (x :: r))).
  { apply (value_le_inj 256); [lia | done | apply in_base_rev, bytes_in_base | done | |].
    - unfold no_lead. cbn. by rewrite last_snoc.
    - by rewrite V', <- value_be_rev, rev_involutive. }
  rewrite E, rev_involutive, map_map. rewrite <- (map_id (x :: r)) at 2. apply map_ext.
  intros y. apply byte_of_Z_of_byte.
Qed.

Definition all_zero (b : bytes) : bool := forallb (fun x => bool_decide (x = x00)) b.

Lemma all_zero_repeat n r : all_zero (repeat x00 n ++ r) = all_zero r.
Proof. induction n as [|n IH]; cbn; done. Qed.

Lemma encode_decode b : base58btcDecode (base58btcEncode b) =
  Ok (if all_zero b then repeat x00 (S (S (length b))) else b).
Proof.
  unfold base58btcEncode. destruct (strip_bytes b) as (n & r & -> & -> & Hr). rewrite all_zero_repeat.
  destruct r as [|x r].
  - cbn [convert map fold_left rev app all_zero forallb]. rewrite app_nil_r, repeat_length.
    replace (repeat "1"%char n ++ [b58_char 0]) with (repeat "1"%char (S n) ++ [])
      by (rewrite app_nil_r; apply repeat_cons).
    unfold base58btcDecode. rewrite list_ascii_of_string_of_list_ascii, strip_repeat by done.
    cbn [mapM mbind res_bind mret res_ret convert fold_left rev app map].
    f_equal. change [byte_of_Z 0] with [x00]. symmetry. apply (repeat_cons (S n)).
  - destruct (convert_back x r Hr) as (I & N & Hne & E). set (D := convert 256 58 _ _) in *.
    unfold base58btcDecode. rewrite list_ascii_of_string_of_list_ascii, strip_repeat; [| done |].
    + rewrite b58_digits by (by apply in_base_rev). cbn [mbind res_bind]. rewrite E.
      cbn [all_zero forallb]. by rewrite bool_decide_false by done.
    + destruct (rev D) as [|d ds] eqn:ER; [done|]. cbn [map]. apply bool_decide_eq_false.
      assert (Hd : no_lead (rev (d :: ds))) by (by rewrite <- ER, rev_involutive).
      unfold no_lead in Hd. cbn in Hd. rewrite last_snoc in Hd.
      assert (IR : in_base 58 (d :: ds)) by (rewrite <- ER; by apply in_base_rev).
      inversion_clear IR as [|? ? Hd0 _]. by apply b58_char_ok.
Qed.

Lemma encode_inj a b : base58btcEncode a = base58btcEncode b -> a = b.
Proof.
  intros E. apply (f_equal base58btcDecode) in E. rewrite !encode_decode in E. apply Ok_inj in E.
  assert (Z : forall c, all_zero c = true -> c = repeat x00 (length c)).
  { intros c H. apply all_repeat, Forall_forall. intros x Hx. unfold all_zero in H.
    rewrite forallb_forall in H. by apply list_elem_of_In, H, bool_decide_eq_true in Hx. }
  assert (R : forall n, all_zero (repeat x00 n) = true) by (intros n; induction n; done).
  destruct (all_zero a) eqn:Ha, (all_zero b) eqn:Hb; try done.
  - apply (f_equal length) in E. rewrite !repeat_length in E. injection E as E.
    rewrite (Z a Ha), (Z b Hb). by rewrite E.
  - rewrite <- E, R in Hb. done.
  - rewrite E, R in Ha. done.
Qed.

(** ** The varint prefix *)
Lemma land_127 v : 0 <= v -> Z.land v 127 = v mod 128.
Proof. intros H. change 127 with (Z.ones 7). by rewrite Z.land_ones. Qed.

Lemma lor_128 b : 0 <= b < 128 -> Z.lor b 128 = b + 128.
Proof.
  intros H. assert (F : forallb (fun n => Z.lor (Z.of_nat n) 128 =? Z.of_nat n + 128) (seq 0 128) = true)
    by (vm_compute; reflexivity).
  rewrite forallb_forall in F. specialize (F (Z.to_nat b)). rewrite Z2Nat.id in F by lia.
  apply Z.eqb_eq, F, in_seq. lia.
Qed.

(** The number a prefix starts with, and the rest. *)
Fixpoint varint_read (b : bytes) : option (Z * bytes) :=
  match b with
  | [] => None
  | x :: b' =>
      let v := Z_of_byte x in
      if v <? 128 then Some (v, b')
      else '(w, r) ← varint_read b'; Some (v - 128 + 128 * w, r)
  end.

Lemma varint_loop_S fuel v : varint_loop (S fuel) v =
  if 0 <? v / 128 then byte_of_Z (Z.lor (Z.land v 127) 128) :: varint_loop fuel (v / 128)
  else [byte_of_Z (Z.land v 127)].
Proof. done. Qed.

Lemma varint_loop_read fuel : forall v r, 0 <= v -> v < 128 ^ Z.of_nat (S fuel) ->
  varint_read (varint_loop (S fuel) v ++ r) = Some (v, r).
Proof.
  induction fuel as [|fuel IH]; intros v r Hv Hf; rewrite varint_loop_S, land_127 by done;
    pose proof (Z.mod_pos_bound v 128); pose proof (Z.div_mod v 128); pose proof (Z.div_pos v 128);
    rewrite Nat2Z.inj_succ, Z.pow_succ_r in Hf by lia.
  all: destruct (Z.ltb_spec 0 (v / 128)) as [P|P]; cbn [app varint_read].
  1: { change (128 ^ Z.of_nat 0) with 1 in Hf. lia. }
  2: { rewrite lor_128, Z_of_byte_of_Z, (Z.mod_small _ 256) by lia.
       destruct (Z.ltb_spec (v mod 128 + 128) 128); [lia|].
       rewrite IH; [cbn; f_equal; f_equal; lia | lia | apply Z.div_lt_upper_bound; lia]. }
  all: rewrite Z_of_byte_of_Z, (Z.mod_small _ 256) by lia;
    destruct (Z.ltb_spec (v mod 128) 128); [|lia]; f_equal; f_equal; lia.
Qed.

Lemma unsignedVarint_ok n b : unsignedVarint n = Ok b ->
  isInteger n = true /\ 0 <= num_Z n /\ forall r, varint_read (b ++ r) = Some (num_Z n, r).
Proof.
  unfold unsignedVarint. destruct (num_ltb n (Int 0)) eqn:E1, (isInteger n) eqn:E2; cbn [orb negb];
    try done. intros E%Ok_inj. subst b. split; [done|].
  assert (Hn : 0 <= num_Z n).
  { pose proof (isInteger_equiv n E2) as Q. rewrite Q, num_ltb_Int in E1. by apply Z.ltb_ge. }
  split; [done|]. intros r. apply varint_loop_read; [done|].
  rewrite Nat2Z.inj_succ, Z2Nat.id by apply Z.log2_nonneg.
  apply Z.lt_le_trans with (2 ^ Z.succ (Z.log2 (num_Z n))).
  - destruct (Z.eq_dec (num_Z n) 0) as [->|]; [done|]. apply Z.log2_spec. lia.
  - apply Z.pow_le_mono_l. pose proof (Z.log2_nonneg (num_Z n)). lia.
Qed.

(** ** Properties *)
(** Base58btc decodes what it encodes, for every byte string that is not all
    zeros, and no two byte strings have the same text. *)
Theorem base58_roundtrip b : all_zero b = false ->
  base58btcDecode (base58btcEncode b) = Ok b /\
  forall b', base58btcEncode b' = base58btcEncode b -> b' = b.
Proof. intros H. split; [by rewrite encode_decode, H | intros b'; apply encode_inj]. Qed.

(** A string of zero bytes, the empty one included, comes back two bytes
    longer: the encoder and the decoder each add a digit for the number 0. *)
Theorem base58_zeros_grow n :
  base58btcDecode (base58btcEncode (repeat x00 n)) = Ok (repeat x00 (S (S n))).
Proof.
  rewrite encode_decode, <- (app_nil_r (repeat x00 n)), all_zero_repeat. cbn [all_zero forallb].
  by rewrite length_app, repeat_length, Nat.add_0_r.
Qed.

(** Did:key identifiers are total on non-negative integral codes and
    injective: two equal identifiers were made from the same multicodec code
    and the same public key; any other code throws. *)
Theorem did_key_injective c k :
  (num_ltb c (Int 0) || negb (isInteger c) = true ->
     didKeyFromPublicKey c k = Throw "multicodec code must be a non-negative integer") /\
  (num_ltb c (Int 0) || negb (isInteger c) = false -> exists s, didKeyFromPublicKey c k = Ok s /\
     forall c' k', didKeyFromPublicKey c' k' = Ok s -> c' ≡ c /\ k' = k).
Proof.
  split; intros G; unfold didKeyFromPublicKey; destruct (unsignedVarint c) as [b|] eqn:E.
  - unfold unsignedVarint in E. by rewrite G in E.
  - unfold unsignedVarint in E. rewrite G in E. by injection E as <-.
  - cbn [mbind res_bind]. eexists. split; [done|]. intros c' k' E'. unfold didKeyFromPublicKey in E'.
    apply bind_ok in E' as (b' & Eb & E'%Ok_inj). injection E' as E'. apply encode_inj in E'.
    apply unsignedVarint_ok in E as (I & _ & R), Eb as (I' & _ & R').
    specialize (R k). specialize (R' k'). rewrite E', R in R'. injection R' as Hn <-. split; [|done].
    by rewrite (isInteger_equiv _ I), (isInteger_equiv _ I'), Hn.
  - unfold unsignedVarint in E. by rewrite G in E.
Qed.

Lemma split_on_ne sep s : split_on sep s <> [].
Proof. destruct s as [|c s]; cbn; [done|]. case_bool_decide; [done|]. by destruct (split_on sep s). Qed.

(** ** What a manifest digest binds *)
Section binding.
Context {L : Lib} {CL : CborLaws L}.

(** An optional field is there in both objects or in neither. *)
Definition has_key (k : string) (v : jsval) : bool :=
  match v with VObj fs => bool_decide (k ∈ map fst fs) | _ => false end.

Lemma same_obj fs gs : NoDup (map fst fs) -> NoDup (map fst gs) ->
  same_enc (VObj fs) (VObj gs) -> forall k, has_key k (VObj fs) = has_key k (VObj gs).
Proof.
  intros N1 N2 E k. cbn. apply bool_decide_ext. by rewrite (cbor_obj_keys fs gs N1 N2 E).
Qed.

Lemma nodup_keys (l : list string) : bool_decide (NoDup l) = true -> NoDup l.
Proof. apply bool_decide_eq_true. Qed.
Lemma provenance_nodup p : NoDup (map fst (provenance_fields p)).
Proof. destruct p as [[] [] []]; apply nodup_keys; vm_compute; reflexivity. Qed.
Lemma manifest_nodup m : NoDup (map fst (manifest_fields m)).
Proof. destruct m as [? ? ? ? ? ? [] [] []]; apply nodup_keys; vm_compute; reflexivity. Qed.

Lemma provenance_inj p q : same_enc (provenance_val p) (provenance_val q) -> p = q.
Proof.
  intros E. pose proof (same_obj _ _ (provenance_nodup p) (provenance_nodup q) E) as K.
  pose proof (provenance_nodup p) as N. destruct p as [t m s], q as [t' m' s'].
  pose proof (K "tool") as K1. pose proof (K "model") as K2. pose proof (K "software") as K3. clear K.
  unfold provenance_val, provenance_fields in *. cbn [prov_tool prov_model prov_software] in *.
  destruct t, m, s, t', m', s'; vm_compute in K1, K2, K3; try done;
    (apply cbor_obj in E; [| reflexivity | exact N]); clear N;
    split_fields E; f_equal; f_equal; by apply cbor_str.
Qed.

(** What the digest says of a manifest. *)
Record same_manifest (m n : ActionManifest) : Prop := {
  sm_verb : verbId m = verbId n;
  sm_scope : authorityScope m = authorityScope n;
  sm_risk : riskClass m = riskClass n;
  sm_policy : policyHash m = policyHash n;
  sm_replay : replayDomain m = replayDomain n;
  sm_expiry : isSafeInteger (expiry m) = true -> isSafeInteger (expiry n) = true -> expiry m ≡ expiry n;
  sm_pre : preconditions m = preconditions n;
  sm_effects : expectedEffects m = expectedEffects n;
  sm_prov : provenance m = provenance n }.

Lemma risk_text_inj r s : risk_text r = risk_text s -> r = s.
Proof. by destruct r, s. Qed.

Lemma manifest_inj m n : same_enc (manifest_val m) (manifest_val n) -> same_manifest m n.
Proof.
  intros E. pose proof (same_obj _ _ (manifest_nodup m) (manifest_nodup n) E) as K.
  pose proof (manifest_nodup m) as N.
  destruct m as [v a r p d e pre eff prov], n as [v' a' r' p' d' e' pre' eff' prov'].
  pose proof (K "preconditions") as K1. pose proof (K "expectedEffects") as K2.
  pose proof (K "provenance") as K3. clear K. unfold manifest_val, manifest_fields in *.
  cbn [verbId authorityScope riskClass policyHash replayDomain expiry preconditions expectedEffects provenance] in *.
  destruct pre, eff, prov, pre', eff', prov'; vm_compute in K1, K2, K3; try done;
    (apply cbor_obj in E; [| reflexivity | exact N]); clear N;
    split_fields E; constructor;
    cbn [verbId authorityScope riskClass policyHash replayDomain expiry preconditions expectedEffects provenance];
    try done; try (by apply cbor_str); try (by apply risk_text_inj, cbor_str);
    try (intros; by apply cbor_num); f_equal; (by apply same_strs) || (by apply provenance_inj).
Qed.

(** No semantic laundering.  Manifests with equal digests agree in the verb,
    the scope, the risk class, the policy, the replay domain, the lists of
    preconditions and effects, the provenance and (for safe integers) the
    expiry -- or their two encodings are a collision of the hash.  A manifest
    whose verb is not namespaced has no digest. *)
Theorem manifest_digest_binding m n d : manifestDigest m = Ok d -> manifestDigest n = Ok d ->
  isNamespacedVerb (verbId m) = true /\
  (same_manifest m n \/
   exists b c, encodeCanonical (VArr [VStr MANIFEST_CTX; manifest_val m]) = Ok b /\
     encodeCanonical (VArr [VStr MANIFEST_CTX; manifest_val n]) = Ok c /\
     b <> c /\ sha3_256 b = sha3_256 c).
Proof.
  unfold manifestDigest. intros E F. destruct (isNamespacedVerb (verbId m)); [|done]. split; [done|].
  destruct (isNamespacedVerb (verbId n)); [|done]. cbn [negb] in E, F.
  apply bind_ok in E as (b & Eb & E%Ok_inj), F as (c & Ec & F%Ok_inj).
  destruct (decide (b = c)) as [->|N]; [left | right; exists b, c; split_and!; congruence].
  assert (S : same_enc (VArr [VStr MANIFEST_CTX; manifest_val m]) (VArr [VStr MANIFEST_CTX; manifest_val n]))
    by by exists c.
  apply cbor_arr in S. apply Forall2_cons_1 in S as [_ S]. apply Forall2_cons_1 in S as [S _].
  by apply manifest_inj.
Qed.
End binding.

(** ** Namespaced verbs *)
Definition dot : string := String "."%char EmptyString.
Definition dot_free (s : string) : Prop := ~ In "."%char (list_ascii_of_string s).

Lemma concat_cons_char c p ps :
  String.concat dot (String c p :: ps) = String c (String.concat dot (p :: ps)).
Proof. by destruct ps. Qed.

Lemma concat_split s : String.concat dot (split_on "."%char s) = s.
Proof.
  induction s as [|c s IH]; [done|]. cbn [split_on]. case_bool_decide as D.
  - subst c. pose proof (split_on_ne "."%char s). destruct (split_on "."%char s) as [|p ps]; [done|].
    change (String "."%char (String.concat dot (p :: ps)) = String "."%char s). by rewrite IH.
  - destruct (split_on "."%char s) as [|p ps] eqn:E; [by destruct (split_on_ne "."%char s)|].
    by rewrite concat_cons_char, IH.
Qed.

Lemma split_dot_free s : Forall dot_free (split_on "."%char s).
Proof.
  induction s as [|c s IH]; cbn [split_on]; [by repeat constructor; intros []|].
  case_bool_decide as D; [constructor; [by intros [] | done]|].
  destruct (split_on "."%char s) as [|p ps]; [repeat constructor; by intros [|[]]|].
  inversion_clear IH as [|? ? Hp Hps]. constructor; [|done]. by intros [|?].
Qed.

Lemma split_free p : dot_free p -> forall ps,
  split_on "."%char (String.concat dot (p :: ps)) =
  p :: match ps with [] => [] | _ => split_on "."%char (String.concat dot ps) end.
Proof.
  induction p as [|c p IH]; intros Hf ps.
  - destruct ps as [|q ps]; [done|]. done.
  - rewrite concat_cons_char. cbn [split_on]. rewrite bool_decide_false; [|intros ->; apply Hf; by left].
    rewrite IH; [done|]. intros H. apply Hf. by right.
Qed.

Lemma split_concat ps : ps <> [] -> Forall dot_free ps ->
  split_on "."%char (String.concat dot ps) = ps.
Proof.
  intros Hne H. induction H as [|p ps Hp Hps IH]; [done|]. rewrite split_free by done.
  destruct ps; [done|]. by rewrite IH.
Qed.

(** A verb is namespaced exactly when it is at least two non-empty segments
    without dots, joined by dots. *)
Theorem namespaced_iff verb : isNamespacedVerb verb = true <->
  exists parts, (2 <= length parts)%nat /\ Forall (fun p => dot_free p /\ p <> EmptyString) parts /\
    verb = String.concat dot parts.
Proof.
  unfold isNamespacedVerb. rewrite andb_true_iff, Nat.leb_le, forallb_forall. split.
  - intros [H1 H2]. exists (split_on "."%char verb). split; [done|]. split; [|by rewrite concat_split].
    pose proof (split_dot_free verb) as F. rewrite Forall_forall in *. intros p Hp. split; [by apply F|].
    intros ->. apply list_elem_of_In, H2 in Hp. done.
  - intros (parts & H1 & H2 & ->). rewrite split_concat.
    + split; [done|]. intros p Hp%list_elem_of_In. rewrite Forall_forall in H2.
      destruct (H2 p Hp) as [_ N]. by destruct p.
    + by destruct parts; [cbn in H1; lia|].
    + eapply Forall_impl; [exact H2|]. by intros p [].
Qed.

(** ** Concrete runs *)
Definition sample_manifest (verb : string) : ActionManifest := {|
  verbId := verb; authorityScope := "acct/7"; riskClass := T2; policyHash := "ab"; replayDomain := "eu";
  expiry := Int 1000; preconditions := Some ["kyc"]; expectedEffects := None;
  provenance := Some {| prov_tool := None; prov_model := Some "m1"; prov_software := None |} |}.

Lemma base58_roundtrip_witness :
  base58btcDecode (base58btcEncode [x00; xed; x01; xff]) = Ok [x00; xed; x01; xff].
Proof. exact (proj1 (base58_roundtrip [x00; xed; x01; xff] eq_refl)). Defined.

Lemma did_key_injective_witness : exists s, didKeyFromPublicKey (Int 237) [x01; x02] = Ok s.
Proof.
  destruct (proj2 (did_key_injective (Int 237) [x01; x02]) eq_refl) as (s & E & _). by exists s.
Defined.

Lemma manifest_digest_binding_witness : exists d, manifestDigest (sample_manifest "fin.pay") = Ok d /\
  isNamespacedVerb "fin.pay" = true.
Proof.
  assert (exists d, manifestDigest (sample_manifest "fin.pay") = Ok d) as [d E]
    by (eexists; vm_compute; reflexivity).
  exists d. split; [exact E|]. exact (proj1 (manifest_digest_binding _ _ d E E)).
Defined.
