(* ===== verification/Projection.v ===== *)
(** * planes/: projections of permits onto credential formats

    src/planes/src/vc-projection.ts: a permit, its claims and the action intent
    rendered as a W3C credential, an EUDI descriptor and an agent-auth
    descriptor.  [Date.prototype.toISOString] is written out; a thrown error is
    a value of [proj_error], since the caller tells the classes apart.  In an
    error text a finite number is printed by its integer part. *)
From stdpp Require Import pretty.
From S2P Require Import Prelude JsNum JsVal Crypto Concrete Grant Permit Profile.
Open Scope string_scope.
Open Scope Z_scope.
Open Scope list_scope.

(** ** Dates *)
(** [x * y] on numbers. *)
Definition num_mul (a b : num) : num :=
  match a, b with
  | NaN, _ | _, NaN => NaN
  | Inf s, Inf t => Inf (xorb s t)
  | Inf s, Fin m _ | Fin m _, Inf s => if m =? 0 then NaN else Inf (xorb s (m <? 0))
  | Fin m k, Fin n l => round53 (m * n) (k + l)
  end.

Definition MAX_TIME : Z := 8640000000000000.

(** [new Date(x)]: the time value in milliseconds, [None] when it is not valid. *)
Definition new_date (x : num) : option Z :=
  match x with
  | Fin m k => let t := Z.quot m (pow2 k) in
               if Z.abs m <=? MAX_TIME * pow2 k then Some t else None
  | _ => None
  end.

(** Year, month and day of a day number, counted from 1 January 1970. *)
Definition civil_of_days (z0 : Z) : Z * Z * Z :=
  let z := z0 + 719468 in
  let era := z / 146097 in
  let doe := z mod 146097 in
  let yoe := (doe - doe / 1460 + doe / 36524 - doe / 146096) / 365 in
  let doy := doe - (365 * yoe + yoe / 4 - yoe / 100) in
  let mp := (5 * doy + 2) / 153 in
  let d := doy - (153 * mp + 2) / 5 + 1 in
  let m := if mp <? 10 then mp + 3 else mp - 9 in
  (yoe + era * 400 + (if m <=? 2 then 1 else 0), m, d).

(** [n] in [w] decimal digits. *)
Fixpoint digits_w (w : nat) (n : Z) : string :=
  match w with
  | O => EmptyString
  | S w' => digits_w w' (n / 10) +:+
            String (ascii_of_nat (48 + Z.to_nat (n mod 10))) EmptyString
  end.

Definition year_text (y : Z) : string :=
  if (0 <=? y) && (y <=? 9999) then digits_w 4 y
  else (if y <? 0 then "-" else "+") +:+ digits_w 6 (Z.abs y).

Definition iso_text (t : Z) : string :=
  let '(y, m, d) := civil_of_days (t / 86400000) in
  let s := t mod 86400000 in
  year_text y +:+ "-" +:+ digits_w 2 m +:+ "-" +:+ digits_w 2 d +:+ "T" +:+
  digits_w 2 (s / 3600000) +:+ ":" +:+ digits_w 2 (s / 60000 mod 60) +:+ ":" +:+
  digits_w 2 (s / 1000 mod 60) +:+ "." +:+ digits_w 3 (s mod 1000) +:+ "Z".

Inductive proj_error :=
| PermitProjectionError (msg : string)
| RangeError (msg : string)
| OtherError (msg : string).

(** [new Date(x * 1000).toISOString()] *)
Definition iso_of_seconds (x : num) : string + proj_error :=
  match new_date (num_mul x (Int 1000)) with
  | Some t => inl (iso_text t)
  | None => inr (RangeError "Invalid time value")
  end.

Example iso_runs :
  iso_of_seconds (Int 0) = inl "1970-01-01T00:00:00.000Z" /\
  iso_of_seconds (Int 1709164800) = inl "2024-02-29T00:00:00.000Z" /\
  iso_of_seconds (Fin (-1) 1) = inl "1969-12-31T23:59:59.500Z" /\
  iso_of_seconds (Int 8640000000000) = inl "+275760-09-13T00:00:00.000Z" /\
  iso_of_seconds (Int (-8640000000000)) = inl "-271821-04-20T00:00:00.000Z".
Proof. by vm_compute. Qed.

(** ** The projection *)
Definition MLDSA87_MULTICODEC_CODE : num := Int 237.
Definition buildDidKey (publicKeyBytes : bytes) : res string :=
  didKeyFromPublicKey MLDSA87_MULTICODEC_CODE publicKeyBytes.

Definition MAX_SAFE_UNIX_SECONDS : num := Int 8640000000000.
Definition num_abs (x : num) : num :=
  match x with NaN => NaN | Inf _ => Inf false | Fin m k => Fin (Z.abs m) k end.
Definition isProjectableUnixSeconds (x : num) : bool :=
  isFinite x && num_leb (num_abs x) MAX_SAFE_UNIX_SECONDS.

Definition num_text (x : num) : string :=
  match x with
  | NaN => "NaN" | Inf false => "Infinity" | Inf true => "-Infinity"
  | Fin m k => pretty (Z.quot m (pow2 k))
  end.

Record NerionCredentialSubject := {
  ncs_id : string; ncs_actionType : string; ncs_resource : string;
  ncs_counterparty : option string; ncs_amount : option num; ncs_params : option jsval;
  ncs_audience : string; ncs_sessionId : string; ncs_tier : num; ncs_effect : string;
  ncs_actionHash : string }.

Record VcProjection := {
  vcp_context : list string; vcp_id : string; vcp_type : list string; vcp_issuer : string;
  vcp_validFrom : string; vcp_expirationDate : string;
  vcp_credentialSubject : NerionCredentialSubject; vcp_nerionPermitSuite : string;
  vcp_nerionPhase : string }.

Record EidasClaims := {
  eid_actionType : string; eid_resource : string; eid_counterparty : option string;
  eid_amount : option num; eid_tier : num; eid_effect : string; eid_actionHash : string;
  eid_sessionId : string }.
Record EidasDescriptor := {
  eid_vct : string; eid_iss : string; eid_sub : string; eid_aud : string; eid_exp : num;
  eid_iat : num; eid_claims : EidasClaims; eid_nerionSuite : string }.

Record AgentAuthDescriptor := {
  aa_sub : string; aa_aud : string; aa_exp : num; aa_iat : num; aa_action : string;
  aa_resource : string; aa_counterparty : option string; aa_amount : option num; aa_tier : num;
  aa_effect : string; aa_actionHash : string; aa_sessionId : string; aa_nerionProtocol : string }.

Record PermitProjection := {
  pp_vc : VcProjection; pp_eidas : EidasDescriptor; pp_agentAuth : AgentAuthDescriptor }.

Record ProjectionOpts := { po_nonce : option string; po_issuedAt : option num }.

Definition did_or (pk : bytes) : string + proj_error :=
  match buildDidKey pk with Ok s => inl s | Throw e => inr (OtherError e) end.

Definition bind_sum {A B E} (c : A + E) (k : A -> B + E) : B + E :=
  match c with inl a => k a | inr e => inr e end.

Definition time_error (what : string) (x : num) : proj_error :=
  PermitProjectionError ("invalid " +:+ what +:+
    ": expected a finite unix-seconds value in representable Date range, got " +:+ num_text x).

(** The guard on a supplied issuance time. *)
Definition issued_at_error (opts : ProjectionOpts) : option proj_error :=
  match po_issuedAt opts with
  | Some iat => if isProjectableUnixSeconds iat then None else Some (time_error "issuedAtUnixSec" iat)
  | None => None
  end.

Definition valid_from (opts : ProjectionOpts) : string + proj_error :=
  match po_issuedAt opts with Some iat => iso_of_seconds iat | None => inl "unknown" end.

Definition credential_id (claims : PermitClaims) (opts : ProjectionOpts) : string :=
  "urn:nerion:permit:" +:+
  default (pc_sessionId claims +:+ ":" +:+ pc_nonce claims) (po_nonce opts).

Definition subject_of (agentDid : string) (claims : PermitClaims) (intent : ActionIntent)
  : NerionCredentialSubject := {|
  ncs_id := agentDid; ncs_actionType := type_ intent; ncs_resource := resource intent;
  ncs_counterparty := counterparty intent; ncs_amount := amount intent; ncs_params := params intent;
  ncs_audience := pc_audience claims; ncs_sessionId := pc_sessionId claims; ncs_tier := pc_tier claims;
  ncs_effect := pc_effect claims; ncs_actionHash := pc_actionHash claims |}.

Definition vc_of (token : PermitToken) (claims : PermitClaims) (intent : ActionIntent)
    (issuerDid agentDid from expiry : string) (opts : ProjectionOpts) : VcProjection := {|
  vcp_context := ["https://www.w3.org/ns/credentials/v2"; "https://nerion.trelyan.com/contexts/permit/v1"];
  vcp_id := credential_id claims opts; vcp_type := ["VerifiableCredential"; "NerionPermitCredential"];
  vcp_issuer := issuerDid; vcp_validFrom := from; vcp_expirationDate := expiry;
  vcp_credentialSubject := subject_of agentDid claims intent;
  vcp_nerionPermitSuite := tok_suite token; vcp_nerionPhase := "A-unsigned" |}.

Definition eidas_of (token : PermitToken) (claims : PermitClaims) (intent : ActionIntent)
    (issuerDid agentDid : string) (iat : num) : EidasDescriptor := {|
  eid_vct := "https://nerion.trelyan.com/credentials/permit/v1"; eid_iss := issuerDid;
  eid_sub := agentDid; eid_aud := pc_audience claims; eid_exp := pc_exp claims; eid_iat := iat;
  eid_claims := {| eid_actionType := type_ intent; eid_resource := resource intent;
    eid_counterparty := counterparty intent; eid_amount := amount intent; eid_tier := pc_tier claims;
    eid_effect := pc_effect claims; eid_actionHash := pc_actionHash claims;
    eid_sessionId := pc_sessionId claims |};
  eid_nerionSuite := tok_suite token |}.

Definition agent_auth_of (claims : PermitClaims) (intent : ActionIntent) (agentDid : string) (iat : num)
  : AgentAuthDescriptor := {|
  aa_sub := agentDid; aa_aud := pc_audience claims; aa_exp := pc_exp claims; aa_iat := iat;
  aa_action := type_ intent; aa_resource := resource intent; aa_counterparty := counterparty intent;
  aa_amount := amount intent; aa_tier := pc_tier claims; aa_effect := pc_effect claims;
  aa_actionHash := pc_actionHash claims; aa_sessionId := pc_sessionId claims;
  aa_nerionProtocol := "nerion/permit/v1" |}.

Definition projectPermit (token : PermitToken) (claims : PermitClaims) (intent : ActionIntent)
    (issuerPublicKeyBytes agentPublicKeyBytes : bytes) (opts : ProjectionOpts)
  : PermitProjection + proj_error :=
  if negb (isProjectableUnixSeconds (pc_exp claims))
  then inr (time_error "permit exp" (pc_exp claims)) else
  match issued_at_error opts with Some e => inr e | None =>
  bind_sum (did_or issuerPublicKeyBytes) (fun issuerDid =>
  bind_sum (did_or agentPublicKeyBytes) (fun agentDid =>
  bind_sum (iso_of_seconds (pc_exp claims)) (fun expiry =>
  bind_sum (valid_from opts) (fun from =>
  let iat := default (Int 0) (po_issuedAt opts) in
  inl {| pp_vc := vc_of token claims intent issuerDid agentDid from expiry opts;
         pp_eidas := eidas_of token claims intent issuerDid agentDid iat;
         pp_agentAuth := agent_auth_of claims intent agentDid iat |}))))
  end.

Inductive PermitProjectionResult :=
| projected (p : PermitProjection)
| not_projected (error : string).

(** The [catch] turns a [PermitProjectionError] into a result and rethrows the
    rest. *)
Definition tryProjectPermit (token : PermitToken) (claims : PermitClaims) (intent : ActionIntent)
    (issuerPublicKeyBytes agentPublicKeyBytes : bytes) (opts : ProjectionOpts)
  : PermitProjectionResult + proj_error :=
  match projectPermit token claims intent issuerPublicKeyBytes agentPublicKeyBytes opts with
  | inl p => inl (projected p)
  | inr (PermitProjectionError m) => inl (not_projected m)
  | inr e => inr e
  end.

(** ** Rounding stays within the range of dates *)
Lemma round_half_even_bound m d n : 0 < d -> Z.abs m <= n * 2 ^ d -> Z.abs (round_half_even m d) <= n.
Proof.
  intros Hd H. unfold round_half_even. assert (P : 0 < 2 ^ d) by lia.
  assert (Hh : 0 < 2 ^ (d - 1)) by lia.
  pose proof (Z.div_mod m (2 ^ d)). pose proof (Z.mod_pos_bound m (2 ^ d)).
  assert (- n <= m / 2 ^ d) by (apply Z.div_le_lower_bound; nia).
  assert (m / 2 ^ d <= n) by (apply Z.div_le_upper_bound; nia).
  assert (m / 2 ^ d = n -> m mod 2 ^ d = 0) by nia.
  repeat case_match; lia.
Qed.

(** A bound below 2^53 survives the rounding to 53 bits. *)
Lemma round53_bound m k n : 0 <= n < 2 ^ 53 -> Z.abs m <= n * pow2 k ->
  exists m', round53 m k = Fin m' k /\ Z.abs m' <= n * pow2 k.
Proof.
  intros Hn H. unfold round53. destruct (Z.leb_spec (Z.log2 (Z.abs m) + 1) 53) as [B|B]; [by exists m|].
  set (d := Z.log2 (Z.abs m) + 1 - 53). assert (Hd : 0 < d) by (unfold d; lia).
  assert (Hk : d <= Z.of_N k).
  { assert (Hp : 0 < Z.abs m) by (destruct (Z.eq_dec (Z.abs m) 0) as [E|]; [rewrite E in B; cbn in B; lia | lia]).
    assert (Z.log2 (Z.abs m) < 53 + Z.of_N k); [|unfold d; lia].
    apply Z.log2_lt_pow2; [done|]. rewrite Z.pow_add_r by lia. unfold pow2 in H.
    assert (0 < 2 ^ Z.of_N k) by lia. nia. }
  assert (E : pow2 k = 2 ^ (Z.of_N k - d) * 2 ^ d).
  { unfold pow2. rewrite <- Z.pow_add_r by lia. f_equal. lia. }
  assert (0 < 2 ^ d) by lia. assert (0 < 2 ^ (Z.of_N k - d)) by lia.
  assert (R : Z.abs (round_half_even m d * 2 ^ d) <= n * pow2 k).
  { rewrite Z.abs_mul, (Z.abs_eq (2 ^ d)) by lia.
    pose proof (round_half_even_bound m d (n * 2 ^ (Z.of_N k - d)) Hd). rewrite E in *. nia. }
  destruct (Z.leb_spec (2 ^ 1024 * pow2 k) (Z.abs (round_half_even m d * 2 ^ d))) as [I|I]; [|by eexists].
  exfalso. pose proof (pow2_pos k).
  assert (2 ^ 53 <= 2 ^ 1024) by (apply Z.pow_le_mono_r; lia). nia.
Qed.

Lemma projectable_date x : isProjectableUnixSeconds x = true -> exists s, iso_of_seconds x = inl s.
Proof.
  unfold isProjectableUnixSeconds, iso_of_seconds. destruct x as [| |m k]; try done. cbn [isFinite andb num_abs].
  intros H. assert (B : Z.abs m <= 8640000000000 * pow2 k).
  { unfold num_leb, MAX_SAFE_UNIX_SECONDS, Int, num_ltb, num_eqb in H. change (pow2 0) with 1 in H.
    apply orb_true_iff in H as [H%Z.ltb_lt|H%Z.eqb_eq]; lia. }
  cbn [num_mul Int]. rewrite N.add_0_r.
  destruct (round53_bound (m * 1000) k MAX_TIME) as (m' & E & H').
  - unfold MAX_TIME. lia.
  - rewrite Z.abs_mul. unfold MAX_TIME. change (Z.abs 1000) with 1000. lia.
  - rewrite E. unfold new_date. apply Z.leb_le in H'. rewrite H'. by eexists.
Qed.

Lemma mldsa87_prefix : unsignedVarint MLDSA87_MULTICODEC_CODE = Ok [xed; x01].
Proof. by vm_compute. Qed.

Lemma did_or_ok pk : buildDidKey pk = Ok ("did:key:z" +:+ base58btcEncode (xed :: x01 :: pk)) /\
  did_or pk = inl ("did:key:z" +:+ base58btcEncode (xed :: x01 :: pk)).
Proof.
  assert (E : buildDidKey pk = Ok ("did:key:z" +:+ base58btcEncode (xed :: x01 :: pk))).
  { unfold buildDidKey, didKeyFromPublicKey. by rewrite mldsa87_prefix. }
  split; [done|]. unfold did_or. by rewrite E.
Qed.

Lemma build_did_inj a b s : buildDidKey a = Ok s -> buildDidKey b = Ok s -> a = b.
Proof.
  rewrite (proj1 (did_or_ok a)), (proj1 (did_or_ok b)). intros E%Ok_inj F%Ok_inj. rewrite <- E in F.
  injection F as F. apply encode_inj in F. by injection F.
Qed.

Definition projectable (claims : PermitClaims) (opts : ProjectionOpts) : bool :=
  isProjectableUnixSeconds (pc_exp claims) &&
  match po_issuedAt opts with Some iat => isProjectableUnixSeconds iat | None => true end.

Lemma projectPermit_ok token claims intent ik ak opts : projectable claims opts = true ->
  exists idid adid from expiry,
    buildDidKey ik = Ok idid /\ buildDidKey ak = Ok adid /\
    iso_of_seconds (pc_exp claims) = inl expiry /\ valid_from opts = inl from /\
    projectPermit token claims intent ik ak opts = inl {|
      pp_vc := vc_of token claims intent idid adid from expiry opts;
      pp_eidas := eidas_of token claims intent idid adid (default (Int 0) (po_issuedAt opts));
      pp_agentAuth := agent_auth_of claims intent adid (default (Int 0) (po_issuedAt opts)) |}.
Proof.
  unfold projectable. rewrite andb_true_iff. intros [H1 H2].
  destruct (projectable_date _ H1) as [expiry E].
  assert (exists from, valid_from opts = inl from /\ issued_at_error opts = None) as (from & F & G).
  { unfold valid_from, issued_at_error. destruct (po_issuedAt opts) as [iat|]; [|by eexists].
    destruct (projectable_date _ H2) as [s Es]. exists s. by rewrite Es, H2. }
  destruct (did_or_ok ik) as [I1 I2], (did_or_ok ak) as [A1 A2].
  eexists _, _, from, expiry. split; [exact I1|]. split; [exact A1|]. split; [done|]. split; [done|].
  unfold projectPermit. rewrite H1, G, I2, A2, E, F. done.
Qed.

Lemma projectPermit_denied token claims intent ik ak opts : projectable claims opts = false ->
  exists m, projectPermit token claims intent ik ak opts = inr (PermitProjectionError m).
Proof.
  unfold projectable, projectPermit, issued_at_error.
  destruct (isProjectableUnixSeconds (pc_exp claims)); [|by eexists]. cbn [andb negb].
  destruct (po_issuedAt opts) as [iat|]; [|done]. intros ->. by eexists.
Qed.

(** A finite number [m / 2^k] of seconds whose date ECMAScript can represent:
    at most 100,000,000 days, of 86,400 seconds, from the epoch. *)
Definition DateSeconds (x : num) : Prop :=
  exists m k, x = Fin m k /\ Z.abs m <= 100000000 * 86400 * 2 ^ Z.of_N k.

Lemma projectable_iff x : isProjectableUnixSeconds x = true <-> DateSeconds x.
Proof.
  unfold isProjectableUnixSeconds, DateSeconds. destruct x as [|s|m k]; cbn [isFinite andb num_abs].
  - split; [done | by intros (? & ? & ? & _)].
  - split; [done | by intros (? & ? & ? & _)].
  - unfold num_leb, MAX_SAFE_UNIX_SECONDS, Int, num_ltb, num_eqb.
    rewrite orb_true_iff, Z.ltb_lt, Z.eqb_eq. change (pow2 0) with 1. unfold pow2. split.
    + intros H. exists m, k. split; [done | lia].
    + intros (m' & k' & [= <- <-] & H). lia.
Qed.

(** C39: The projection fails closed and never throws.  [tryProjectPermit]
    returns a projection exactly when the permit's expiry and the supplied
    issuance time, if any, are finite numbers of seconds at most 100,000,000
    days of 86,400 seconds from the epoch, before or after it; otherwise it
    returns the error result, and no exception escapes.  No date inside the bounds makes [toISOString]
    throw, whatever the rounding of the product by 1000. *)
Theorem projection_fails_closed token claims intent ik ak opts :
  exists r, tryProjectPermit token claims intent ik ak opts = inl r /\
  ((exists p, r = projected p) \/ (exists m, r = not_projected m)) /\
  ((exists p, r = projected p) <->
   DateSeconds (pc_exp claims) /\
   forall iat, po_issuedAt opts = Some iat -> DateSeconds iat).
Proof.
  unfold tryProjectPermit.
  assert (D : projectable claims opts = true <-> DateSeconds (pc_exp claims) /\
    forall iat, po_issuedAt opts = Some iat -> DateSeconds iat).
  { unfold projectable. rewrite andb_true_iff, projectable_iff. apply and_iff_compat_l.
    destruct (po_issuedAt opts) as [iat|]; [rewrite projectable_iff|]; split; try done.
    - intros H ? [= <-]. done.
    - intros H. by apply H. }
  enough (exists r, match projectPermit token claims intent ik ak opts with
      | inl p => inl (projected p) | inr (PermitProjectionError m) => inl (not_projected m)
      | inr e => inr e end = inl r /\ ((exists p, r = projected p) \/ (exists m, r = not_projected m)) /\
      ((exists p, r = projected p) <-> projectable claims opts = true))
    as (r & E & S & H) by (exists r; rewrite <- D; done).
  destruct (projectable claims opts) eqn:P.
  - destruct (projectPermit_ok token claims intent ik ak opts P) as (? & ? & ? & ? & _ & _ & _ & _ & ->).
    eexists. split; [done|]. split; [left; by eexists|]. split; [done | by eexists].
  - destruct (projectPermit_denied token claims intent ik ak opts P) as [m ->].
    eexists. split; [done|]. split; [right; by eexists|]. split; [by intros [] | done].
Qed.

(** The projection is faithful.  A projection carries the permit's own
    audience, session, tier, effect, action hash and expiry and the intent's
    action in all three formats, and its identifiers determine the keys: two
    projections with the same issuer and subject were made from the same
    issuer key and agent key. *)
Theorem projection_faithful token claims intent ik ak opts p :
  projectPermit token claims intent ik ak opts = inl p ->
  vcp_credentialSubject (pp_vc p) = subject_of (aa_sub (pp_agentAuth p)) claims intent /\
  iso_of_seconds (pc_exp claims) = inl (vcp_expirationDate (pp_vc p)) /\
  eid_exp (pp_eidas p) = pc_exp claims /\ aa_exp (pp_agentAuth p) = pc_exp claims /\
  eid_aud (pp_eidas p) = pc_audience claims /\ aa_aud (pp_agentAuth p) = pc_audience claims /\
  eid_actionHash (eid_claims (pp_eidas p)) = pc_actionHash claims /\
  aa_actionHash (pp_agentAuth p) = pc_actionHash claims /\
  eid_sub (pp_eidas p) = aa_sub (pp_agentAuth p) /\ eid_iss (pp_eidas p) = vcp_issuer (pp_vc p) /\
  forall token' claims' intent' ik' ak' opts' p',
    projectPermit token' claims' intent' ik' ak' opts' = inl p' ->
    vcp_issuer (pp_vc p') = vcp_issuer (pp_vc p) -> aa_sub (pp_agentAuth p') = aa_sub (pp_agentAuth p) ->
    ik' = ik /\ ak' = ak.
Proof.
  assert (R : forall token claims intent ik ak opts p, projectPermit token claims intent ik ak opts = inl p ->
    projectable claims opts = true).
  { intros t c i k k' o q E. destruct (projectable c o) eqn:P; [done|].
    destruct (projectPermit_denied t c i k k' o P) as [m Em]. congruence. }
  intros E. destruct (projectPermit_ok token claims intent ik ak opts (R _ _ _ _ _ _ _ E))
    as (idid & adid & from & expiry & I & A & X & F & E'). rewrite E' in E. injection E as <-.
  do 10 (split; [done|]). intros t c i k k' o q Eq H1 H2.
  destruct (projectPermit_ok t c i k k' o (R _ _ _ _ _ _ _ Eq)) as (idid' & adid' & from' & expiry' & I' & A' & _ & _ & E'').
  rewrite E'' in Eq. injection Eq as <-. cbn in H1, H2. subst idid' adid'.
  split; by eapply build_did_inj.
Qed.

(** ** Concrete runs *)
Definition proj_claims (exp : num) : PermitClaims := {|
  pc_sessionId := "s1"; pc_nonce := "n1"; pc_audience := "api"; pc_actionHash := "ab12"; pc_tier := Int 1;
  pc_exp := exp; pc_evaluator := "kernel"; pc_effect := "allow" |}.
Definition proj_token : PermitToken := {| tok_suite := "PS-1"; tok_body := []; tok_mac := [] |}.
Definition proj_intent : ActionIntent := {|
  type_ := "payment.transfer"; resource := "acct/7"; counterparty := None; amount := Some (Int 5);
  params := None |}.
Definition proj_opts : ProjectionOpts := {| po_nonce := None; po_issuedAt := Some (Int 1000) |}.

Example projection_denies :
  tryProjectPermit proj_token (proj_claims (Inf false)) proj_intent [x01] [x02] proj_opts =
  inl (not_projected "invalid permit exp: expected a finite unix-seconds value in representable Date range, got Infinity").
Proof. by vm_compute. Qed.

(** An expiry in 2033 is projected; one past the year 275760, and one that is
    not a number, are refused. *)
Lemma projection_fails_closed_witness :
  (exists p, tryProjectPermit proj_token (proj_claims (Int 2000000000)) proj_intent [x01] [x02] proj_opts =
     inl (projected p)) /\
  (exists m, tryProjectPermit proj_token (proj_claims (Int 8640000000001)) proj_intent [x01] [x02] proj_opts =
     inl (not_projected m)) /\
  exists m, tryProjectPermit proj_token (proj_claims NaN) proj_intent [x01] [x02] proj_opts =
     inl (not_projected m).
Proof.
  split; [|split].
  - destruct (projection_fails_closed proj_token (proj_claims (Int 2000000000)) proj_intent [x01] [x02]
      proj_opts) as (r & E & _ & H). destruct (proj2 H) as [p ->]; [|by exists p].
    split; [by exists 2000000000, 0%N | intros iat [= <-]; by exists 1000, 0%N].
  - destruct (projection_fails_closed proj_token (proj_claims (Int 8640000000001)) proj_intent [x01] [x02]
      proj_opts) as (r & E & [[p ->]|[m ->]] & H); [|by exists m].
    destruct (proj1 H) as [(m & k & [= <- <-] & B) _]; [by exists p|]. exfalso. vm_compute in B. by apply B.
  - destruct (projection_fails_closed proj_token (proj_claims NaN) proj_intent [x01] [x02]
      proj_opts) as (r & E & [[p ->]|[m ->]] & H); [|by exists m].
    destruct (proj1 H) as [(m & k & [=] & _) _]; by exists p.
Defined.

Lemma projection_faithful_witness : exists p,
  projectPermit proj_token (proj_claims (Int 1300)) proj_intent [x01] [x02] proj_opts = inl p /\
  eid_exp (pp_eidas p) = Int 1300.
Proof.
  assert (exists p, projectPermit proj_token (proj_claims (Int 1300)) proj_intent [x01] [x02] proj_opts = inl p)
    as [p E] by (eexists; vm_compute; reflexivity).
  exists p. split; [exact E|].
  exact (proj1 (proj2 (proj2 (projection_faithful _ _ _ _ _ _ _ E)))).
Defined.
