(* ===== verification/Modular.v ===== *)
(** * Arithmetic modulo a number

    Equality modulo [m] as a setoid, and the square-and-multiply loop that two
    parts of the program contain: src/disclosure/src/zkrange.ts and
    src/labs/spikes/vrf-002/prototype.mjs. *)
From S2P Require Import Prelude.
Open Scope Z_scope.

(** The loop of [modpow], by the bits of the exponent. *)
Fixpoint modpow_loop (r b m : Z) (e : positive) : Z :=
  match e with
  | xH => Z.rem (r * b) m
  | xO e' => modpow_loop r (Z.rem (b * b) m) m e'
  | xI e' => modpow_loop (Z.rem (r * b) m) (Z.rem (b * b) m) m e'
  end.

Record eqm (m a b : Z) : Prop := { eqm_mod : a mod m = b mod m }.

Section modular.
Context {m : Z}.

#[export] Instance eqm_equiv : Equivalence (eqm m).
Proof. split; repeat intro; split; repeat match goal with E : eqm _ _ _ |- _ => destruct E end; congruence. Qed.
#[export] Instance eqm_add : Proper (eqm m ==> eqm m ==> eqm m) Z.add.
Proof. intros a b [E] c d [F]. split. by rewrite Zplus_mod, E, F, <- Zplus_mod. Qed.
#[export] Instance eqm_mul : Proper (eqm m ==> eqm m ==> eqm m) Z.mul.
Proof. intros a b [E] c d [F]. split. by rewrite Zmult_mod, E, F, <- Zmult_mod. Qed.
#[export] Instance eqm_opp : Proper (eqm m ==> eqm m) Z.opp.
Proof.
  intros a b E. replace (- a) with (-1 * a) by lia. replace (- b) with (-1 * b) by lia. by rewrite E.
Qed.
#[export] Instance eqm_sub : Proper (eqm m ==> eqm m ==> eqm m) Z.sub.
Proof. intros a b E c d F. rewrite <- !Z.add_opp_r. by rewrite E, F. Qed.

Lemma eqm_pow x y n : eqm m x y -> eqm m (x ^ Zpos n) (y ^ Zpos n).
Proof.
  intros E. induction n as [|n IHn] using Pos.peano_ind; [by rewrite !Z.pow_1_r|].
  rewrite !Pos2Z.inj_succ, !Z.pow_succ_r by lia. by apply eqm_mul.
Qed.

Lemma mod_eqm x : eqm m (x mod m) x.
Proof. split. apply Zmod_mod. Qed.

Lemma eqm_small a b : 0 <= a < m -> 0 <= b < m -> eqm m a b -> a = b.
Proof. intros Ha Hb [E]. by rewrite !Z.mod_small in E by done. Qed.

Lemma eqm_minus a b : eqm m a b <-> eqm m (a - b) 0.
Proof.
  split; intros E; [by rewrite E, Z.sub_diag|]. replace a with (a - b + b) by lia. rewrite E. by rewrite Z.add_0_l.
Qed.

Lemma rem_mod x : 0 <= x -> 0 < m -> Z.rem x m = x mod m.
Proof. intros. apply Z.rem_mod_nonneg; lia. Qed.

Lemma modpow_loop_ok e : 1 < m -> forall r b, 0 <= r -> 0 <= b ->
  eqm m (modpow_loop r b m e) (r * b ^ Zpos e).
Proof.
  intros Hm. induction e as [e IH|e IH|]; intros r b Hr Hb; cbn [modpow_loop];
    rewrite ?(rem_mod (r * b)), ?(rem_mod (b * b)) by nia.
  - pose proof (Z.mod_pos_bound (r * b) m). pose proof (Z.mod_pos_bound (b * b) m).
    rewrite IH, (mod_eqm (r * b)), (eqm_pow _ _ e (mod_eqm (b * b))) by lia.
    rewrite (Pos2Z.inj_xI e), Z.pow_add_r, Z.pow_mul_r, Z.pow_1_r by lia.
    replace (b ^ 2) with (b * b) by ring.
    by replace (r * b * (b * b) ^ Z.pos e) with (r * ((b * b) ^ Z.pos e * b)) by ring.
  - pose proof (Z.mod_pos_bound (b * b) m).
    rewrite IH, (eqm_pow _ _ e (mod_eqm (b * b))) by lia.
    rewrite (Pos2Z.inj_xO e), Z.pow_mul_r by lia. by replace (b ^ 2) with (b * b) by ring.
  - by rewrite mod_eqm, Z.pow_1_r.
Qed.

Lemma modpow_loop_range e : 1 < m -> forall r b, 0 <= r -> 0 <= b -> 0 <= modpow_loop r b m e < m.
Proof.
  intros Hm. induction e as [e IH|e IH|]; intros r b Hr Hb; cbn [modpow_loop];
    rewrite ?(rem_mod (r * b)), ?(rem_mod (b * b)) by nia.
  - apply IH; apply Z.mod_pos_bound; lia.
  - apply IH; [done | apply Z.mod_pos_bound; lia].
  - apply Z.mod_pos_bound. lia.
Qed.
End modular.
