(* ===== verification/Group.v ===== *)
(** * disclosure/: the prime-order group and its scalars

    The group of src/disclosure/src/zkrange.ts is ristretto255 of
    @noble/curves: [Group] is its interface, [GroupLaws] what the protocols rely
    on (a group of prime order; [multiply] is repeated addition; the encoding
    of a point is injective).  Over it, the helpers at the head of zkrange.ts:
    scalars modulo the order, [mul], [neg], [sub], [modpow], [inv], [commit].
    That [inv] inverts is Fermat's theorem, of the Standard Library. *)
From Stdlib Require ZmodInv ZmodBase.
From S2P Require Import Prelude JsNum JsVal Crypto Concrete Modular.
Open Scope Z_scope.

(** ** Third-party code *)
Class Group := {
  Pt : Type;
  ZERO : Pt;
  padd : Pt -> Pt -> Pt;
  (** [P.multiply(k)], for [0 < k < ORDER] *)
  multiply : Pt -> Z -> Pt;
  equals : Pt -> Pt -> bool;
  toBytes : Pt -> bytes;
  BASE : Pt;
  ORDER : Z;
  hashToCurve : bytes -> Pt }.

(** [shake256(m, { dkLen })] and the [i]-th call of [randomBytes(64)] *)
Class Xof := { shake256 : bytes -> nat -> bytes }.
Class Random := { randomBytes64 : nat -> bytes }.

Fixpoint nmul `{Group} (n : nat) (P : Pt) : Pt :=
  match n with O => ZERO | S n' => padd P (nmul n' P) end.

Class GroupLaws (Gr : Group) : Prop := {
  padd_assoc : forall P Q R, padd P (padd Q R) = padd (padd P Q) R;
  padd_comm : forall P Q, padd P Q = padd Q P;
  padd_zero : forall P, padd ZERO P = P;
  multiply_spec : forall P k, 0 < k < ORDER -> multiply P k = nmul (Z.to_nat k) P;
  order_zero : forall P, nmul (Z.to_nat ORDER) P = ZERO;
  order_prime : Z.prime ORDER;
  equals_spec : forall P Q, equals P Q = true <-> P = Q;
  toBytes_inj : forall P Q, toBytes P = toBytes Q -> P = Q }.

(** ** zkrange.ts: scalars and points *)
Section helpers.
Context {Lb : Lib} {Gr : Group} {X : Xof} {R : Random}.

Definition G : Pt := BASE.
Definition H : Pt := hashToCurve (list_byte_of_string (tag "ZK_GENERATOR_H")).

(** [((x % L) + L) % L] with the remainder of the sign of [x] *)
Definition modL (x : Z) : Z := Z.rem (Z.rem x ORDER + ORDER) ORDER.

Definition mul (P : Pt) (s : Z) : Pt :=
  let k := modL s in if k =? 0 then ZERO else multiply P k.
Definition neg (P : Pt) : Pt := mul P (ORDER - 1).
Definition sub (P Q : Pt) : Pt := padd P (neg Q).

(** [mod(BigInt('0x' + bytesToHex(b)))] *)
Definition scalarFromBytes (b : bytes) : Z := modL (be_value b).
(** The [i]-th random scalar. *)
Definition randScalar (i : nat) : Z := scalarFromBytes (randomBytes64 i).

(** [modpow], by the bits of the exponent *)
Definition modpow (base exp m : Z) : Z :=
  match exp with Zpos e => modpow_loop 1 (modL base) m e | _ => 1 end.
Definition inv (a : Z) : Z := modpow a (ORDER - 2) ORDER.

(** The Pedersen commitment, and its shift by a public value. *)
Definition commit (value r : Z) : Pt := padd (mul G value) (mul H r).
Definition shiftCommitment (c : Pt) (delta : Z) : Pt := padd c (mul G delta).
End helpers.

(** ** Scalars *)
(** Equality of scalars. *)
Abbreviation eqL := (eqm ORDER).

Section scalars.
Context {Lb : Lib} {Gr : Group} {GL : GroupLaws Gr}.

Lemma order_gt1 : 1 < ORDER.
Proof. apply order_prime. Qed.

Lemma modL_mod x : modL x = x mod ORDER.
Proof.
  pose proof order_gt1. assert (N : ORDER <> 0) by lia. unfold modL.
  pose proof (Z.rem_bound_abs x ORDER N).
  rewrite (rem_mod (Z.rem x ORDER + ORDER)) by lia.
  rewrite <- Z.add_mod_idemp_r, Z.mod_same, Z.add_0_r by lia.
  pose proof (Z.quot_rem x ORDER N) as E. rewrite E at 2.
  by rewrite Z.add_comm, Z.mul_comm, Z.mod_add by lia.
Qed.

Lemma modL_range x : 0 <= modL x < ORDER.
Proof. rewrite modL_mod. apply Z.mod_pos_bound. pose proof order_gt1. lia. Qed.

Lemma modL_eqL x : eqL (modL x) x.
Proof. split. rewrite modL_mod, Z.mod_mod; [done|]. pose proof order_gt1. lia. Qed.
Lemma order_eqL : eqL ORDER 0.
Proof. split. pose proof order_gt1. by rewrite Z.mod_same, Z.mod_0_l by lia. Qed.
Lemma eqL_modL a b : eqL a b <-> modL a = modL b.
Proof. rewrite !modL_mod. split; [by intros [?] | by split]. Qed.

(** *** Inverses *)
(** [inv] inverts the scalars that are not 0 modulo the order. *)
Lemma inv_ok a : 2 < ORDER -> ~ eqL a 0 -> eqL (a * inv a) 1.
Proof.
  intros HL Ha. unfold inv, modpow. destruct (ORDER - 2) as [|e|e] eqn:E; [lia | | lia].
  pose proof (modL_range a). rewrite modpow_loop_ok, Z.mul_1_l, <- E by lia.
  transitivity (modL a * modL a ^ (ORDER - 2)); [by apply eqm_mul; [symmetry; apply modL_eqL|]|].
  rewrite <- Z.pow_succ_r by lia. replace (Z.succ (ORDER - 2)) with (ORDER - 1) by lia.
  split. rewrite ZmodInv.Z.fermat_nz; [by rewrite Z.mod_1_l by lia | apply order_prime |].
  intros Z0. apply Ha. rewrite <- (modL_eqL a). split. by rewrite Z0, Z.mod_0_l by lia.
Qed.

End scalars.

(** ** Points: a module over the scalars *)
Section points.
Context {Lb : Lib} {Gr : Group} {GL : GroupLaws Gr}.

Lemma padd_zero_r P : padd P ZERO = P.
Proof. by rewrite padd_comm, padd_zero. Qed.
Lemma nmul_add a b P : nmul (a + b) P = padd (nmul a P) (nmul b P).
Proof. induction a as [|a IH]; cbn; [by rewrite padd_zero | by rewrite IH, padd_assoc]. Qed.
Lemma nmul_zero n : nmul n ZERO = ZERO.
Proof. induction n as [|n IH]; cbn; [done | by rewrite IH, padd_zero]. Qed.
Lemma nmul_mul a b P : nmul (a * b) P = nmul a (nmul b P).
Proof. induction a as [|a IH]; cbn; [done | by rewrite nmul_add, IH]. Qed.
Lemma nmul_padd n P Q : nmul n (padd P Q) = padd (nmul n P) (nmul n Q).
Proof.
  induction n as [|n IH]; cbn; [by rewrite padd_zero|]. rewrite IH, !padd_assoc. f_equal.
  by rewrite <- !padd_assoc, (padd_comm Q).
Qed.
Lemma nmul_order n P : nmul (Z.to_nat (n mod ORDER)) P = nmul (Z.to_nat n) P \/ n < 0.
Proof.
  pose proof order_gt1. destruct (Z.lt_ge_cases n 0) as [|Hn]; [by right | left].
  rewrite (Z.div_mod n ORDER) at 2 by lia. pose proof (Z.mod_pos_bound n ORDER).
  pose proof (Z.div_pos n ORDER). rewrite Z2Nat.inj_add, nmul_add, Z2Nat.inj_mul, Nat.mul_comm by nia.
  by rewrite nmul_mul, order_zero, nmul_zero, padd_zero.
Qed.

Lemma mul_nmul P s : mul P s = nmul (Z.to_nat (s mod ORDER)) P.
Proof.
  unfold mul. pose proof (modL_range s). rewrite modL_mod in *.
  destruct (Z.eqb_spec (s mod ORDER) 0) as [->|N]; [done|]. apply multiply_spec. lia.
Qed.

#[export] Instance mul_eqL : Proper ((=) ==> eqL ==> (=)) mul.
Proof. intros P Q -> a b [E]. by rewrite !mul_nmul, E. Qed.

Lemma mul_add P a b : mul P (a + b) = padd (mul P a) (mul P b).
Proof.
  pose proof order_gt1. rewrite !mul_nmul, <- nmul_add, <- Z2Nat.inj_add by (apply Z.mod_pos_bound; lia).
  rewrite Z.add_mod by lia. pose proof (Z.mod_pos_bound a ORDER). pose proof (Z.mod_pos_bound b ORDER).
  destruct (nmul_order (a mod ORDER + b mod ORDER) P); [done | lia].
Qed.
Lemma mul_mul P a b : mul P (a * b) = mul (mul P a) b.
Proof.
  pose proof order_gt1. rewrite !mul_nmul, <- nmul_mul.
  pose proof (Z.mod_pos_bound a ORDER). pose proof (Z.mod_pos_bound b ORDER).
  rewrite <- Z2Nat.inj_mul, Z.mul_mod, (Z.mul_comm (b mod _)) by lia.
  destruct (nmul_order (a mod ORDER * (b mod ORDER)) P); [done | nia].
Qed.
Lemma mul_padd P Q a : mul (padd P Q) a = padd (mul P a) (mul Q a).
Proof. by rewrite !mul_nmul, nmul_padd. Qed.
Lemma mul_0 P : mul P 0 = ZERO.
Proof. pose proof order_gt1. by rewrite mul_nmul, Z.mod_0_l by lia. Qed.
Lemma mul_1 P : mul P 1 = P.
Proof.
  pose proof order_gt1. rewrite mul_nmul, Z.mod_small by lia. cbn. apply padd_zero_r.
Qed.
Lemma mul_zero a : mul ZERO a = ZERO.
Proof. by rewrite mul_nmul, nmul_zero. Qed.
Lemma neg_mul P : neg P = mul P (-1).
Proof. unfold neg. apply mul_eqL; [done|]. apply (eqm_sub ORDER 0 order_eqL 1 1). done. Qed.
Lemma sub_mul P Q : sub P Q = padd P (mul Q (-1)).
Proof. unfold sub. by rewrite neg_mul. Qed.
Lemma padd_neg P : padd P (mul P (-1)) = ZERO.
Proof. by rewrite <- (mul_1 P) at 1; rewrite <- mul_add, mul_0. Qed.

Lemma padd_cancel P Q R : padd P R = padd Q R -> P = Q.
Proof.
  intros E. rewrite <- (padd_zero_r P), <- (padd_zero_r Q), <- (padd_neg R), !padd_assoc. by rewrite E.
Qed.

(** Linear combinations of the two generators. *)
Definition lin (a b : Z) : Pt := padd (mul G a) (mul H b).

Lemma lin_commit a b : commit a b = lin a b.
Proof. done. Qed.
Lemma lin_add a b c d : padd (lin a b) (lin c d) = lin (a + c) (b + d).
Proof.
  unfold lin. rewrite !mul_add, <- !padd_assoc. f_equal. rewrite !padd_assoc. f_equal. apply padd_comm.
Qed.
Lemma lin_mul a b c : mul (lin a b) c = lin (a * c) (b * c).
Proof. unfold lin. by rewrite mul_padd, !mul_mul. Qed.
#[export] Instance lin_eqL : Proper (eqL ==> eqL ==> (=)) lin.
Proof. intros a b E c d F. unfold lin. by rewrite E, F. Qed.
Lemma lin_G a : mul G a = lin a 0.
Proof. unfold lin. by rewrite mul_0, padd_zero_r. Qed.
Lemma lin_H a : mul H a = lin 0 a.
Proof. unfold lin. by rewrite mul_0, padd_zero. Qed.
Lemma lin_zero : lin 0 0 = ZERO.
Proof. unfold lin. by rewrite !mul_0, padd_zero. Qed.
Lemma lin_sub a b c d : sub (lin a b) (lin c d) = lin (a - c) (b - d).
Proof.
  rewrite sub_mul, lin_mul, lin_add. replace (a + c * -1) with (a - c) by lia.
  by replace (b + d * -1) with (b - d) by lia.
Qed.

(** Commitments bind: two openings of one point give a relation between the
    generators, which is a discrete logarithm unless the values agree. *)
Lemma lin_binding a b c d : lin a b = lin c d -> mul G (a - c) = mul H (d - b).
Proof.
  intros E. rewrite lin_G, lin_H. apply (padd_cancel _ _ (lin c b)). rewrite !lin_add.
  replace (a - c + c) with a by lia. replace (0 + b) with b by lia. replace (0 + c) with c by lia.
  by replace (d - b + b) with d by lia.
Qed.
End points.

Create Rewrite HintDb lin.
#[export] Hint Rewrite @lin_commit @lin_add @lin_mul @lin_G @lin_H @lin_sub : lin.

(** Proves an equality of two points given as combinations of [G] and [H]: the
    coefficients are compared modulo the order. *)
Ltac lin_solve := autorewrite with lin; apply lin_eqL.

(** ** A concrete group: the integers modulo 257 *)
Definition toy_point (z : Z) : ZmodDef.Zmod.Zmod 257 := ZmodDef.Zmod.of_Z 257 z.
#[export] Instance toy_group : Group := {|
  Pt := ZmodDef.Zmod.Zmod 257;
  ZERO := toy_point 0;
  padd := ZmodDef.Zmod.add;
  multiply := fun P k => ZmodDef.Zmod.mul (toy_point k) P;
  equals := fun P Q => ZmodDef.Zmod.to_Z P =? ZmodDef.Zmod.to_Z Q;
  toBytes := fun P => be_bytes 2 (ZmodDef.Zmod.to_Z P);
  BASE := toy_point 1;
  ORDER := 257;
  hashToCurve := fun b => toy_point (be_value b mod 256 + 1) |}.

Lemma prime_by_trial p : 1 < p ->
  forallb (fun n => negb (p mod Z.of_nat n =? 0)) (seq 2 (Z.to_nat (p - 2))) = true -> Z.prime p.
Proof.
  intros Hp F. split; [done|]. intros n Hn D. rewrite forallb_forall in F.
  specialize (F (Z.to_nat n)). rewrite Z2Nat.id in F by lia.
  assert (E : p mod n = 0) by (apply Z.mod_divide; [lia | done]). rewrite E in F.
  discriminate F. apply in_seq. lia.
Qed.

#[export] Instance toy_group_laws : GroupLaws toy_group.
Proof.
  assert (R : forall P : ZmodDef.Zmod.Zmod 257, 0 <= ZmodDef.Zmod.to_Z P < 257)
    by (intros P; by apply ZmodBase.Zmod.to_Z_pos_bound).
  assert (N : forall n (P : @Pt toy_group), nmul n P = ZmodDef.Zmod.mul (toy_point (Z.of_nat n)) P).
  { intros n P. induction n as [|n IH].
    - cbn [nmul]. apply ZmodBase.Zmod.to_Z_inj. rewrite ZmodBase.Zmod.to_Z_mul. by vm_compute.
    - cbn [nmul]. rewrite IH. cbn [padd toy_group]. apply ZmodBase.Zmod.to_Z_inj.
      rewrite ZmodBase.Zmod.to_Z_add, !ZmodBase.Zmod.to_Z_mul. unfold toy_point.
      rewrite !ZmodBase.Zmod.to_Z_of_Z, !Z.mul_mod_idemp_l, Z.add_mod_idemp_r by done. f_equal. lia. }
  split.
  - intros P Q S. apply ZmodBase.Zmod.add_assoc.
  - intros P Q. apply ZmodBase.Zmod.add_comm.
  - intros P. apply ZmodBase.Zmod.add_0_l.
  - intros P k Hk. rewrite N, Z2Nat.id by lia. done.
  - intros P. rewrite N. apply ZmodBase.Zmod.to_Z_inj. rewrite ZmodBase.Zmod.to_Z_mul. by vm_compute.
  - apply prime_by_trial; [done | vm_compute; reflexivity].
  - intros P Q. cbn. rewrite Z.eqb_eq. split; [apply ZmodBase.Zmod.to_Z_inj | by intros ->].
  - intros P Q E. cbn [toBytes toy_group] in E. apply (f_equal be_value) in E.
    rewrite !be_value_bytes, !Z.mod_small in E by (pose proof (R P); pose proof (R Q);
      assert (257 < 256 ^ Z.of_nat 2) by (by vm_compute); lia).
    by apply ZmodBase.Zmod.to_Z_inj.
Qed.
Definition toy_sum (seed : Z) (b : bytes) : Z :=
  fold_left (fun acc x => Z.land (acc * 31 + Z_of_byte x + 1) 65535) b seed.
#[export] Instance toy_xof : Xof := {| shake256 := fun b n => be_bytes n (toy_sum 5 b) |}.
#[export] Instance toy_random : Random := {| randomBytes64 := fun i => let z := Z.of_nat i in be_bytes 4 (z * z + 3 * z + 7) |}.
