(* ===== verification/ZkRange.v ===== *)
(** * disclosure/: the zero-knowledge range proof

    src/disclosure/src/zkrange.ts over the group interface of Group.v: bit
    commitments, the OR-proof of a bit, the proof that a committed amount is
    below a public threshold, the verifier.  The prover draws its random scalars
    from [randScalar]; a function that draws takes the index of its first draw
    and gives the index after its last. *)
From stdpp Require Import pretty.
From S2P Require Import Prelude JsNum JsVal Crypto Concrete Modular Group.
Open Scope string_scope.
Open Scope Z_scope.
Open Scope list_scope.

Section zkrange.
Context {Lb : Lib} {Gr : Group} {X : Xof} {R : Random}.

Record BitProof := { t0 : Pt; t1 : Pt; c0 : Z; c1 : Z; s0 : Z; s1 : Z }.
Record SubProof := { commitments : list Pt; sp_bits : list BitProof }.
Record RangeProof := { rp_n : num; rp_amount : SubProof; rp_diff : SubProof }.

Definition statementHash (threshold : Z) (n : num) (cAmt : Pt) (amountC diffC : list Pt) : bytes :=
  shake256 (utf8 (tag "ZK_STMT_PREFIX" +:+ "|n=" +:+ pretty (num_Z n) +:+ "|thr=" +:+ pretty threshold) ++
            toBytes cAmt ++ concat (map toBytes amountC) ++ concat (map toBytes diffC)) 64.

Definition challenge (stmt : bytes) (tg : string) (ci p0 p1 a0 a1 : Pt) : Z :=
  scalarFromBytes (shake256 (utf8 tg ++ stmt ++ toBytes ci ++ toBytes p0 ++ toBytes p1 ++
                             toBytes a0 ++ toBytes a1) 64).

Definition proveBit (ci : Pt) (b ri : Z) (stmt : bytes) (tg : string) (i : nat) : BitProof * nat :=
  let P0 := ci in
  let P1 := sub ci G in
  let kReal := randScalar i in
  let tReal := mul H kReal in
  let sFake := randScalar (i + 1) in
  let cFake := randScalar (i + 2) in
  let Pfake := if b =? 0 then P1 else P0 in
  let tFake := padd (mul H sFake) (neg (mul Pfake cFake)) in
  let a0 := if b =? 0 then tReal else tFake in
  let a1 := if b =? 0 then tFake else tReal in
  let c := challenge stmt tg ci P0 P1 a0 a1 in
  let cReal := modL (c - cFake) in
  let sReal := modL (kReal + cReal * ri) in
  (if b =? 0
   then {| t0 := a0; t1 := a1; c0 := cReal; c1 := cFake; s0 := sReal; s1 := sFake |}
   else {| t0 := a0; t1 := a1; c0 := cFake; c1 := cReal; s0 := sFake; s1 := sReal |}, (i + 3)%nat).

Definition verifyBit (ci : Pt) (bp : BitProof) (stmt : bytes) (tg : string) : bool :=
  let P0 := ci in
  let P1 := sub ci G in
  let c := challenge stmt tg ci P0 P1 (t0 bp) (t1 bp) in
  if negb (modL (c0 bp + c1 bp) =? c) then false else
  equals (mul H (s0 bp)) (padd (t0 bp) (mul P0 (c0 bp))) &&
  equals (mul H (s1 bp)) (padd (t1 bp) (mul P1 (c1 bp))).

Record Built := { b_bits : list Z; b_r : list Z; b_commitments : list Pt }.

(** The first loop of [buildBits]: [k] random scalars from bit [j] on. *)
Fixpoint build_rs (k j : nat) (partial : Z) (i : nat) : list Z * Z * nat :=
  match k with
  | O => ([], partial, i)
  | S k' =>
      let ri := randScalar i in
      let '(rs, p, i') := build_rs k' (S j) (modL (partial + ri * Z.shiftl 1 (Z.of_nat j))) (S i) in
      (ri :: rs, p, i')
  end.

Definition bit_of (value : Z) (j : nat) : Z := Z.land (Z.shiftr value (Z.of_nat j)) 1.

Definition buildBits (value rand : Z) (n : nat) (i : nat) : Built * nat :=
  let '(rs, partial, i') := build_rs (n - 1) 0 0 i in
  let r := rs ++ [modL ((modL rand - partial) * inv (Z.shiftl 1 (Z.of_nat (n - 1))))] in
  let bits := map (bit_of value) (seq 0 n) in
  ({| b_bits := bits; b_r := r; b_commitments := zip_with commit bits r |}, i').

Definition bit_tag (prefix : string) (j : nat) : string :=
  tag "ZK_BIT_PREFIX" +:+ "/" +:+ prefix +:+ "/" +:+ pretty (Z.of_nat j).

Fixpoint prove_bits (cs : list Pt) (bs rs : list Z) (stmt : bytes) (prefix : string) (j i : nat)
  : list BitProof * nat :=
  match cs, bs, rs with
  | ci :: cs', b :: bs', ri :: rs' =>
      let '(bp, i1) := proveBit ci b ri stmt (bit_tag prefix j) i in
      let '(bps, i2) := prove_bits cs' bs' rs' stmt prefix (S j) i1 in (bp :: bps, i2)
  | _, _, _ => ([], i)
  end.
Definition proveSub (built : Built) (stmt : bytes) (prefix : string) (i : nat) : SubProof * nat :=
  let '(bits, i') := prove_bits (b_commitments built) (b_bits built) (b_r built) stmt prefix 0 i in
  ({| commitments := b_commitments built; sp_bits := bits |}, i').

(** The loop that adds the commitments up, and the one that checks the bits. *)
Fixpoint combine_bits (acc : Pt) (j : nat) (cs : list Pt) : Pt :=
  match cs with
  | [] => acc
  | c :: cs' => combine_bits (padd acc (mul c (Z.shiftl 1 (Z.of_nat j)))) (S j) cs'
  end.
Fixpoint verify_bits (cs : list Pt) (bps : list BitProof) (stmt : bytes) (prefix : string) (j : nat) : bool :=
  match cs, bps with
  | c :: cs', bp :: bps' => verifyBit c bp stmt (bit_tag prefix j) && verify_bits cs' bps' stmt prefix (S j)
  | _, _ => true
  end.

Definition verifySub (target : Pt) (sp : SubProof) (n : nat) (stmt : bytes) (prefix : string) : bool :=
  if negb (length (commitments sp) =? n)%nat || negb (length (sp_bits sp) =? n)%nat then false else
  if negb (equals (combine_bits ZERO 0 (commitments sp)) target) then false else
  verify_bits (commitments sp) (sp_bits sp) stmt prefix 0.

(** The bit length is a protocol constant between 1 and 251. *)
Definition bad_length (n : num) : bool :=
  negb (isInteger n) || num_ltb n (Int 1) || num_ltb (Int 251) n.

Definition proveBelow (amount r threshold : Z) (n : num) (i : nat) : res (RangeProof * nat) :=
  if bad_length n then Throw "n must be in [1, 251] (2^(n+1) ≤ L)" else
  let bound := Z.shiftl 1 (num_Z n) in
  if (amount <? 0) || (bound <=? amount) then Throw "amount must be in [0, 2^n)" else
  if (threshold <? 1) || (bound <? threshold) then Throw "threshold must be in (0, 2^n]" else
  let diff := threshold - 1 - amount in
  if diff <? 0 then Throw "amount is not < threshold" else
  let k := Z.to_nat (num_Z n) in
  let '(builtAmount, i1) := buildBits amount (modL r) k i in
  let '(builtDiff, i2) := buildBits diff (modL (- r)) k i1 in
  let stmt := statementHash threshold n (commit amount r) (b_commitments builtAmount)
                (b_commitments builtDiff) in
  let '(pa, i3) := proveSub builtAmount stmt "amount" i2 in
  let '(pd, i4) := proveSub builtDiff stmt "diff" i3 in
  Ok ({| rp_n := n; rp_amount := pa; rp_diff := pd |}, i4).

Definition verifyBelow (commitment : Pt) (threshold : Z) (proof : RangeProof) (n : num) : bool :=
  if bad_length n then false else
  if negb (num_eqb (rp_n proof) n) then false else
  let bound := Z.shiftl 1 (num_Z n) in
  if (threshold <? 1) || (bound <? threshold) then false else
  let cDiff := sub (mul G (threshold - 1)) commitment in
  let stmt := statementHash threshold n commitment (commitments (rp_amount proof))
                (commitments (rp_diff proof)) in
  let k := Z.to_nat (num_Z n) in
  if negb (verifySub commitment (rp_amount proof) k stmt "amount") then false else
  if negb (verifySub cDiff (rp_diff proof) k stmt "diff") then false else true.
End zkrange.

(** ** Weighted sums *)
Fixpoint wsum (j : nat) (l : list Z) : Z :=
  match l with [] => 0 | x :: l' => x * 2 ^ Z.of_nat j + wsum (S j) l' end.

Lemma wsum_snoc l x : forall j, wsum j (l ++ [x]) = wsum j l + x * 2 ^ Z.of_nat (j + length l).
Proof.
  induction l as [|y l IH]; intros j; cbn [app wsum length].
  - rewrite Nat.add_0_r. lia.
  - rewrite IH. replace (S j + length l)%nat with (j + S (length l))%nat by lia. lia.
Qed.

Lemma bit_of_mod value j : bit_of value j = (value / 2 ^ Z.of_nat j) mod 2.
Proof.
  unfold bit_of. change 1 with (Z.ones 1). rewrite Z.land_ones by lia. by rewrite Z.shiftr_div_pow2 by lia.
Qed.

Lemma wsum_bits value n : 0 <= value -> wsum 0 (map (bit_of value) (seq 0 n)) = value mod 2 ^ Z.of_nat n.
Proof.
  intros Hv. induction n as [|n IH]; [by rewrite Z.mod_1_r|].
  rewrite seq_S, map_app. cbn [map]. rewrite wsum_snoc, IH, length_map, length_seq. cbn [Nat.add].
  rewrite bit_of_mod, Nat2Z.inj_succ, Z.pow_succ_r, (Z.mul_comm 2), Z.rem_mul_r by lia. lia.
Qed.

Lemma bit_of_cases value j : bit_of value j = 0 \/ bit_of value j = 1.
Proof.
  rewrite bit_of_mod. pose proof (Z.mod_pos_bound (value / 2 ^ Z.of_nat j) 2). lia.
Qed.

Lemma wsum_bound l : forall j, Forall (fun b => b = 0 \/ b = 1) l ->
  0 <= wsum j l <= 2 ^ Z.of_nat j * (2 ^ Z.of_nat (length l) - 1).
Proof.
  induction l as [|x l IH]; intros j F; cbn [wsum length]; [lia|].
  inversion_clear F as [|? ? Hx Hl]. specialize (IH (S j) Hl).
  rewrite !Nat2Z.inj_succ, !Z.pow_succ_r in * by lia.
  assert (0 < 2 ^ Z.of_nat j) by lia. assert (0 < 2 ^ Z.of_nat (length l)) by lia.
  destruct Hx as [->| ->]; nia.
Qed.

(** ** The verifier's algebra *)
Section algebra.
Context {Lb : Lib} {Gr : Group} {GL : GroupLaws Gr}.

Lemma shiftl_1 j : Z.shiftl 1 (Z.of_nat j) = 2 ^ Z.of_nat j.
Proof. rewrite Z.shiftl_mul_pow2 by lia. lia. Qed.

(** The commitments add up to the commitment of the weighted sums. *)
Lemma combine_bits_lin bs : forall rs acc j, length bs = length rs ->
  combine_bits acc j (zip_with commit bs rs) = padd acc (lin (wsum j bs) (wsum j rs)).
Proof.
  induction bs as [|b bs IH]; intros [|r rs] acc j Hl; cbn [zip_with combine_bits wsum]; try done.
  - by rewrite lin_zero, padd_zero_r.
  - rewrite IH by (by injection Hl). rewrite shiftl_1, lin_commit, lin_mul, <- padd_assoc, lin_add. done.
Qed.

(** A response to a challenge, over the generator [H]. *)
Definition answers (P t : Pt) (c s : Z) : Prop := mul H s = padd t (mul P c).

(** Two answers for one announcement and different challenges give the
    logarithm of the point: the quotient of the differences. *)
Lemma answers_extract P t c s c' s' : 2 < ORDER -> answers P t c s -> answers P t c' s' -> ~ eqL c c' ->
  P = mul H ((s - s') * inv (c - c')).
Proof.
  unfold answers. intros HL E F N. assert (Hu : eqL ((c - c') * inv (c - c')) 1).
  { apply inv_ok; [done|]. intros D. apply N. replace c with (c - c' + c') by lia. by rewrite D. }
  assert (D : mul H (s - s') = mul P (c - c')).
  { assert (mul H s = padd (mul P (c - c')) (mul H s')) as K.
    { rewrite E, F, padd_assoc, (padd_comm _ t), <- padd_assoc, <- mul_add. f_equal. f_equal. lia. }
    apply (padd_cancel _ _ (mul H s')). rewrite <- mul_add, <- K. f_equal. lia. }
  by rewrite mul_mul, D, <- mul_mul, Hu, mul_1.
Qed.

Lemma sub_G_opens P r : sub P G = mul H r -> P = lin 1 r.
Proof.
  intros E. apply (padd_cancel _ _ (mul G (-1))). rewrite <- sub_mul, E.
  rewrite lin_G, lin_H, lin_add. f_equal. lia.
Qed.
End algebra.

(** ** Completeness of the parts *)
Section complete.
Context {Lb : Lib} {Gr : Group} {GL : GroupLaws Gr} {X : Xof} {R : Random}.

Lemma challenge_modL stmt tg ci p0 p1 a0 a1 : modL (challenge stmt tg ci p0 p1 a0 a1) = challenge stmt tg ci p0 p1 a0 a1.
Proof.
  unfold challenge, scalarFromBytes. rewrite modL_mod at 1. apply Z.mod_small, modL_range.
Qed.

(** The real branch closes by the witness, the other by construction. *)
Lemma real_answers k c ri P : P = mul H ri -> answers P (mul H k) c (modL (k + c * ri)).
Proof.
  intros ->. unfold answers. rewrite modL_eqL, lin_H. rewrite !lin_H, lin_mul, lin_add. f_equal; lia.
Qed.
Lemma fake_answers P s c : answers P (padd (mul H s) (neg (mul P c))) c s.
Proof.
  unfold answers. rewrite <- padd_assoc, neg_mul, (padd_comm (mul (mul P c) (-1))), padd_neg.
  by rewrite padd_zero_r.
Qed.

Lemma proveBit_verifies b ri stmt tg i : b = 0 \/ b = 1 ->
  verifyBit (commit b ri) (proveBit (commit b ri) b ri stmt tg i).1 stmt tg = true.
Proof.
  intros Hb. unfold verifyBit, proveBit. destruct Hb as [->| ->]; cbn [Z.eqb fst t0 t1 c0 c1 s0 s1].
  - set (c := challenge _ _ _ _ _ _ _). rewrite (proj2 (Z.eqb_eq _ _)).
    2: { transitivity (modL c); [|apply challenge_modL]. apply eqL_modL. rewrite modL_eqL.
         by replace (c - randScalar (i + 2) + randScalar (i + 2)) with c by lia. }
    cbn [negb]. rewrite andb_true_iff, !equals_spec. split; [|apply fake_answers].
    apply real_answers. unfold commit. by rewrite mul_0, padd_zero.
  - set (c := challenge _ _ _ _ _ _ _). rewrite (proj2 (Z.eqb_eq _ _)).
    2: { transitivity (modL c); [|apply challenge_modL]. apply eqL_modL. rewrite modL_eqL.
         by replace (randScalar (i + 2) + (c - randScalar (i + 2))) with c by lia. }
    cbn [negb]. rewrite andb_true_iff, !equals_spec. split; [apply fake_answers|].
    apply real_answers. rewrite lin_commit, <- (mul_1 G), lin_G, lin_sub, lin_H. f_equal; lia.
Qed.

Lemma prove_bits_verify bs : forall rs stmt prefix j i, length bs = length rs ->
  Forall (fun b => b = 0 \/ b = 1) bs ->
  length (prove_bits (zip_with commit bs rs) bs rs stmt prefix j i).1 = length bs /\
  verify_bits (zip_with commit bs rs) (prove_bits (zip_with commit bs rs) bs rs stmt prefix j i).1
    stmt prefix j = true.
Proof.
  induction bs as [|b bs IH]; intros [|r rs] stmt prefix j i Hl F; cbn [zip_with prove_bits]; try done.
  inversion_clear F as [|? ? Hb Hbs].
  pose proof (proveBit_verifies b r stmt (bit_tag prefix j) i Hb) as V.
  destruct (proveBit _ _ _ _ _ _) as [bp i1]. injection Hl as Hl.
  destruct (IH rs stmt prefix (S j) i1 Hl Hbs) as [IL IV]. destruct (prove_bits _ _ _ _ _ _ _) as [bps i2].
  cbn [fst length verify_bits] in *. split; [by rewrite IL|]. by rewrite V, IV.
Qed.

Lemma build_rs_ok k : forall j partial i rs p i', build_rs k j partial i = (rs, p, i') ->
  length rs = k /\ eqL p (partial + wsum j rs).
Proof.
  induction k as [|k IH]; intros j partial i rs p i' E; cbn [build_rs] in E.
  - simplify_eq. cbn. split; [done|]. by rewrite Z.add_0_r.
  - destruct (build_rs k (S j) _ (S i)) as [[rs1 p1] i1] eqn:E1. simplify_eq.
    destruct (IH _ _ _ _ _ _ E1) as [Hl Hp]. split; [by rewrite <- Hl|]. cbn [wsum]. rewrite Hp, modL_eqL, shiftl_1.
    by rewrite Z.add_assoc.
Qed.

(** Two is invertible: the order is odd, being a prime above 2. *)
Lemma pow2_unit m : 2 < ORDER -> ~ eqL (2 ^ Z.of_nat m) 0.
Proof.
  intros HL. induction m as [|m IH].
  - intros E%eqm_small; [done | lia | lia].
  - rewrite Nat2Z.inj_succ, Z.pow_succ_r by lia. intros [E].
    rewrite Z.mod_0_l in E by lia. apply Z.mod_divide in E; [|lia].
    apply Z.divide_prime_mul in E; [|apply order_prime]. destruct E as [E|E].
    + apply Z.divide_pos_le in E; lia.
    + apply IH. split. rewrite Z.mod_0_l by lia. by apply Z.mod_divide; [lia|].
Qed.

Lemma buildBits_ok value rand n i bt i' : (1 <= n)%nat -> 2 < ORDER -> 0 <= value < 2 ^ Z.of_nat n ->
  buildBits value rand n i = (bt, i') ->
  b_commitments bt = zip_with commit (b_bits bt) (b_r bt) /\ length (b_bits bt) = n /\
  length (b_r bt) = n /\ Forall (fun b => b = 0 \/ b = 1) (b_bits bt) /\
  combine_bits ZERO 0 (b_commitments bt) = commit value rand.
Proof.
  intros Hn HL Hv. unfold buildBits. destruct (build_rs (n - 1) 0 0 i) as [[rs p] i1] eqn:E.
  intros [= <- <-]. cbn [b_commitments b_bits b_r]. apply build_rs_ok in E as [Hl Hp].
  assert (Lb' : length (map (bit_of value) (seq 0 n)) = n) by (by rewrite length_map, length_seq).
  assert (Lr : length (rs ++ [modL ((modL rand - p) * inv (Z.shiftl 1 (Z.of_nat (n - 1))))]) = n)
    by (rewrite length_app, Hl; cbn; lia).
  split; [done|]. split; [done|]. split; [done|]. split.
  - apply Forall_forall. intros b (j & -> & _)%list_elem_of_fmap. apply bit_of_cases.
  - rewrite combine_bits_lin by congruence. rewrite padd_zero. change (commit value rand) with (lin value rand).
    rewrite wsum_bits, Z.mod_small by lia.
    apply lin_eqL; [done|]. rewrite wsum_snoc, Hl. cbn [Nat.add]. rewrite shiftl_1, !modL_eqL, Hp, Z.add_0_l.
    set (w := wsum 0 rs). set (q := 2 ^ Z.of_nat (n - 1)).
    assert (I : eqL (q * inv q) 1) by (apply inv_ok; [lia | by apply pow2_unit]).
    replace ((rand - w) * inv q * q) with ((rand - w) * (q * inv q)) by ring. rewrite I.
    by replace (w + (rand - w) * 1) with rand by lia.
Qed.
End complete.

(** ** The proof of a sub-statement *)
Section below.
Context {Lb : Lib} {Gr : Group} {GL : GroupLaws Gr} {X : Xof} {R : Random}.

Lemma proveSub_verifies value rand target k i j bt i1 sp j1 stmt prefix :
  (1 <= k)%nat -> 2 < ORDER -> 0 <= value < 2 ^ Z.of_nat k -> target = commit value rand ->
  buildBits value rand k i = (bt, i1) -> proveSub bt stmt prefix j = (sp, j1) ->
  commitments sp = b_commitments bt /\ verifySub target sp k stmt prefix = true.
Proof.
  intros Hk HL Hv -> Eb Ep. destruct (buildBits_ok value rand k i bt i1 Hk HL Hv Eb) as (C1 & C2 & C3 & C4 & C5).
  unfold proveSub in Ep. rewrite C1 in Ep.
  destruct (prove_bits_verify (b_bits bt) (b_r bt) stmt prefix 0 j ltac:(congruence) C4) as [P1 P2].
  destruct (prove_bits _ _ _ _ _ _ _) as [bps j2]. cbn [fst] in P1, P2. injection Ep as <- <-.
  cbn [commitments]. split; [by rewrite C1|]. unfold verifySub. cbn [commitments sp_bits].
  rewrite P1, C2, length_zip_with, C2, C3, Nat.min_id, Nat.eqb_refl. cbn [negb orb].
  rewrite <- C1, C5, C1, (proj2 (equals_spec _ _) eq_refl). cbn [negb]. done.
Qed.

Lemma bad_length_range n : bad_length n = false -> isInteger n = true /\ 1 <= num_Z n <= 251.
Proof.
  unfold bad_length. rewrite !orb_false_iff, negb_false_iff. intros [[I A] B]. split; [done|].
  rewrite (isInteger_equiv n I), num_ltb_Int in A. rewrite (isInteger_equiv n I), num_ltb_Int in B. lia.
Qed.

Lemma shiftl_num n : 0 <= n -> Z.shiftl 1 n = 2 ^ n.
Proof. intros. rewrite Z.shiftl_mul_pow2 by done. lia. Qed.

Lemma num_eqb_refl n : isInteger n = true -> num_eqb n n = true.
Proof. intros I. rewrite (isInteger_equiv n I), num_eqb_Int. apply Z.eqb_refl. Qed.

Lemma proveBelow_complete amount r threshold n i : bad_length n = false -> 2 < ORDER ->
  0 <= amount < threshold -> threshold <= 2 ^ num_Z n ->
  exists proof i', proveBelow amount r threshold n i = Ok (proof, i') /\
    rp_n proof = n /\ verifyBelow (commit amount r) threshold proof n = true.
Proof.
  intros B HL Ha HT. destruct (bad_length_range n B) as [I Hn]. unfold proveBelow. rewrite B.
  rewrite shiftl_num by lia. rewrite !(proj2 (Z.ltb_ge _ _)), (proj2 (Z.leb_gt _ _)) by lia. cbn [orb].
  set (k := Z.to_nat (num_Z n)). assert (Ek : Z.of_nat k = num_Z n) by (unfold k; lia).
  destruct (buildBits amount (modL r) k i) as [ba i1] eqn:Ea.
  destruct (buildBits (threshold - 1 - amount) (modL (- r)) k i1) as [bd i2] eqn:Ed.
  set (stmt := statementHash _ _ _ _ _).
  destruct (proveSub ba stmt "amount" i2) as [pa i3] eqn:Pa.
  destruct (proveSub bd stmt "diff" i3) as [pd i4] eqn:Pd.
  eexists _, i4. split; [done|]. split; [done|]. unfold verifyBelow. rewrite B. cbn [rp_n rp_amount rp_diff].
  rewrite (num_eqb_refl n I), shiftl_num by lia. rewrite !(proj2 (Z.ltb_ge _ _)) by lia. cbn [negb orb].
  fold k. rewrite <- Ek in HT.
  destruct (proveSub_verifies amount (modL r) (commit amount r) k i i2 ba i1 pa i3 stmt "amount")
    as [-> VA]; try done; [lia | lia | |].
  { apply lin_eqL; [done|]. symmetry. apply modL_eqL. }
  destruct (proveSub_verifies (threshold - 1 - amount) (modL (- r))
    (sub (mul G (threshold - 1)) (commit amount r)) k i1 i3 bd i2 pd i4 stmt "diff")
    as [-> VD]; try done; [lia | lia | |].
  { rewrite lin_G. change (commit amount r) with (lin amount r). rewrite lin_sub.
    apply lin_eqL; [done|]. rewrite modL_eqL. by replace (0 - r) with (- r) by lia. }
  unfold stmt in VA, VD. by rewrite VA, VD.
Qed.

(** *** What an accepting verifier has checked *)
Lemma verifyBelow_inv C T p n : verifyBelow C T p n = true ->
  bad_length n = false /\ 1 <= T <= 2 ^ num_Z n /\ num_eqb (rp_n p) n = true /\
  let stmt := statementHash T n C (commitments (rp_amount p)) (commitments (rp_diff p)) in
  verifySub C (rp_amount p) (Z.to_nat (num_Z n)) stmt "amount" = true /\
  verifySub (sub (mul G (T - 1)) C) (rp_diff p) (Z.to_nat (num_Z n)) stmt "diff" = true.
Proof.
  unfold verifyBelow. destruct (bad_length n) eqn:B; [done|]. destruct (bad_length_range n B) as [_ Hn].
  destruct (num_eqb _ _); [|done]. cbn [negb]. rewrite shiftl_num by lia.
  destruct (Z.ltb_spec T 1); [done|]. destruct (Z.ltb_spec (2 ^ num_Z n) T); [done|]. cbn [orb].
  destruct (verifySub C _ _ _ _) eqn:VA; [|done]. cbn [negb].
  destruct (verifySub (sub _ _) _ _ _ _) eqn:VD; [|done]. intros _. split_and!; try done; lia.
Qed.

Lemma verifySub_inv target sp k stmt prefix : verifySub target sp k stmt prefix = true ->
  length (commitments sp) = k /\ length (sp_bits sp) = k /\
  combine_bits ZERO 0 (commitments sp) = target /\
  verify_bits (commitments sp) (sp_bits sp) stmt prefix 0 = true.
Proof.
  unfold verifySub. destruct (Nat.eqb_spec (length (commitments sp)) k); [|done].
  destruct (Nat.eqb_spec (length (sp_bits sp)) k); [|done]. cbn [negb orb].
  destruct (equals _ _) eqn:E; [|done]. apply equals_spec in E. done.
Qed.

Lemma verifyBit_inv ci bp stmt tg : verifyBit ci bp stmt tg = true ->
  answers ci (t0 bp) (c0 bp) (s0 bp) /\ answers (sub ci G) (t1 bp) (c1 bp) (s1 bp) /\
  modL (c0 bp + c1 bp) = challenge stmt tg ci ci (sub ci G) (t0 bp) (t1 bp).
Proof.
  unfold verifyBit. destruct (Z.eqb_spec (modL (c0 bp + c1 bp))
    (challenge stmt tg ci ci (sub ci G) (t0 bp) (t1 bp))); [|done]. cbn [negb].
  rewrite andb_true_iff, !equals_spec. intros [A0 A1]. split; [exact A0|]. by split; [exact A1|].
Qed.
End below.

(** ** Soundness *)
(** *** Two runs of a prover on one query

    A run is a proof a verifier accepts, with the oracle and the statement it is
    accepted for.  The queries to the oracle are written out here. *)
Section fork.
Context {Lb : Lib} {Gr : Group}.

Record Run := { run_oracle : Xof; run_C : Pt; run_T : Z; run_n : num; run_proof : RangeProof }.

Definition accepted (r : Run) : Prop :=
  verifyBelow (X := run_oracle r) (run_C r) (run_T r) (run_proof r) (run_n r) = true.

(** The statement: bit length, threshold, commitment, all bit commitments. *)
Definition stmt_query (r : Run) : bytes :=
  utf8 ("PolarSeek/disclosure/stmt/v2|n=" +:+ pretty (num_Z (run_n r)) +:+ "|thr=" +:+ pretty (run_T r)) ++
  toBytes (run_C r) ++ concat (map toBytes (commitments (rp_amount (run_proof r)))) ++
  concat (map toBytes (commitments (rp_diff (run_proof r)))).

(** The challenge of bit [j]: its tag, the digest of the statement, the bit's
    commitment, the two branches' points and announcements. *)
Definition bit_query (stmt : bytes) (prefix : string) (j : nat) (ci : Pt) (bp : BitProof) : bytes :=
  utf8 ("PolarSeek/disclosure/bit/" +:+ prefix +:+ "/" +:+ pretty (Z.of_nat j)) ++ stmt ++
  toBytes ci ++ toBytes ci ++ toBytes (sub ci G) ++ toBytes (t0 bp) ++ toBytes (t1 bp).

Definition query_of (sel : RangeProof -> SubProof) (prefix : string) (j : nat) (r : Run) : option bytes :=
  ci ← commitments (sel (run_proof r)) !! j;
  bp ← sp_bits (sel (run_proof r)) !! j;
  Some (bit_query (shake256 (Xof := run_oracle r) (stmt_query r) 64) prefix j ci bp).

(** [r'] is another run, for whatever statement, that makes the same query for
    bit [j], to an oracle that differs at that query only, and there by more
    than a multiple of the order. *)
Record forks (sel : RangeProof -> SubProof) (prefix : string) (j : nat) (r r' : Run) : Prop := {
  fk_accepted : accepted r';
  fk_query : exists b, query_of sel prefix j r = Some b /\ query_of sel prefix j r' = Some b /\
    (forall m, m <> b -> shake256 (Xof := run_oracle r') m 64 = shake256 (Xof := run_oracle r) m 64) /\
    be_value (shake256 (Xof := run_oracle r') b 64) mod ORDER <>
      be_value (shake256 (Xof := run_oracle r) b 64) mod ORDER }.

(** The statements of two runs are the same, or their texts collide under the
    oracle of the first. *)
Definition same_statement (r r' : Run) : Prop :=
  (run_C r = run_C r' /\ run_T r = run_T r' /\ num_Z (run_n r) = num_Z (run_n r') /\
   commitments (rp_amount (run_proof r)) = commitments (rp_amount (run_proof r')) /\
   commitments (rp_diff (run_proof r)) = commitments (rp_diff (run_proof r'))) \/
  (stmt_query r <> stmt_query r' /\
   shake256 (Xof := run_oracle r) (stmt_query r) 64 = shake256 (Xof := run_oracle r) (stmt_query r') 64).

(** *** The extractor: an opening of each bit's commitment from its two proofs, and
    the weighted sums of values and blindings. *)
Definition bit_opening (p q : BitProof) : Z * Z :=
  if (c0 p - c0 q) mod ORDER =? 0
  then (1, (s1 p - s1 q) * inv (c1 p - c1 q))
  else (0, (s0 p - s0 q) * inv (c0 p - c0 q)).

Definition bit_openings (sel : RangeProof -> SubProof) (r : Run) (F : nat -> Run) : list (Z * Z) :=
  imap (fun j bp => match sp_bits (sel (run_proof (F j))) !! j with
                    | Some bq => bit_opening bp bq
                    | None => (0, 0)
                    end) (sp_bits (sel (run_proof r))).
Definition extracted (sel : RangeProof -> SubProof) (r : Run) (F : nat -> Run) : Z * Z :=
  let os := bit_openings sel r F in (wsum 0 (map fst os), wsum 0 (map snd os)).
End fork.

(** The encodings of points have one length, the oracle gives as many bytes as it
    is asked for. *)
Class PointWidth (Gr : Group) : Prop := {
  point_width : forall P Q, length (toBytes P) = length (toBytes Q) }.
Class XofLength (X : Xof) : Prop := {
  xof_length : forall m n, length (shake256 m n) = n }.

Section sound.
Context {Lb : Lib} {Gr : Group} {GL : GroupLaws Gr}.

Lemma bit_extract (X1 X2 : Xof) ci p q st1 st2 tg1 tg2 : 2 < ORDER ->
  verifyBit (X := X1) ci p st1 tg1 = true -> verifyBit (X := X2) ci q st2 tg2 = true ->
  t0 p = t0 q -> t1 p = t1 q -> modL (c0 p + c1 p) <> modL (c0 q + c1 q) ->
  ((bit_opening p q).1 = 0 \/ (bit_opening p q).1 = 1) /\ ci = commit (bit_opening p q).1 (bit_opening p q).2.
Proof.
  intros HL (A0 & A1 & _)%verifyBit_inv (B0 & B1 & _)%verifyBit_inv E0 E1 N. rewrite E0 in A0. rewrite E1 in A1.
  unfold bit_opening. destruct (Z.eqb_spec ((c0 p - c0 q) mod ORDER) 0) as [D|D]; cbn [fst snd].
  - assert (D0 : eqL (c0 p) (c0 q)).
    { assert (Z0 : eqL (c0 p - c0 q) 0) by (split; by rewrite D, Z.mod_0_l by lia).
      replace (c0 p) with (c0 p - c0 q + c0 q) by lia. by rewrite Z0. }
    split; [by right|]. apply sub_G_opens. apply (answers_extract _ _ _ _ _ _ HL A1 B1).
    intros D1. apply N, eqL_modL. by rewrite D0, D1.
  - split; [by left|]. unfold commit. rewrite mul_0, padd_zero.
    apply (answers_extract _ _ _ _ _ _ HL A0 B0). intros [E]. apply D.
    by rewrite Zminus_mod, E, Z.sub_diag, Z.mod_0_l by lia.
Qed.

Lemma verify_bits_lookup {X : Xof} cs : forall bps stmt prefix j0 i c bp,
  verify_bits cs bps stmt prefix j0 = true -> cs !! i = Some c -> bps !! i = Some bp ->
  verifyBit c bp stmt (bit_tag prefix (j0 + i)) = true.
Proof.
  induction cs as [|c' cs IH]; intros [|bp' bps] stmt prefix j0 i c bp V Hc Hb; try done.
  cbn [verify_bits] in V. apply andb_true_iff in V as [V W]. destruct i as [|i]; cbn in Hc, Hb.
  - injection Hc as ->. injection Hb as ->. by rewrite Nat.add_0_r.
  - replace (j0 + S i)%nat with (S j0 + i)%nat by lia. by eapply IH.
Qed.

(** The part of an accepted proof about one statement. *)
Definition part_of (r : Run) (sp : SubProof) (prefix : string) : Prop :=
  length (commitments sp) = Z.to_nat (num_Z (run_n r)) /\ length (sp_bits sp) = Z.to_nat (num_Z (run_n r)) /\
  verify_bits (X := run_oracle r) (commitments sp) (sp_bits sp)
    (shake256 (Xof := run_oracle r) (stmt_query r) 64) prefix 0 = true.

Lemma accepted_parts r : accepted r ->
  part_of r (rp_amount (run_proof r)) "amount" /\ part_of r (rp_diff (run_proof r)) "diff".
Proof.
  intros (_ & _ & _ & A & D)%verifyBelow_inv. apply verifySub_inv in A as (A1 & A2 & _ & A3).
  apply verifySub_inv in D as (D1 & D2 & _ & D3). by split.
Qed.

(** The verifier's challenge is the oracle's answer to the query. *)
Lemma challenge_query {X : Xof} stmt prefix j ci bp :
  challenge stmt (bit_tag prefix j) ci ci (sub ci G) (t0 bp) (t1 bp) =
    be_value (shake256 (bit_query stmt prefix j ci bp) 64) mod ORDER.
Proof.
  rewrite <- modL_mod. unfold challenge, scalarFromBytes. by f_equal.
Qed.

(** *** Queries determine what they are made of *)
Context {PW : PointWidth Gr}.

Lemma toBytes_app P Q r r' : toBytes P ++ r = toBytes Q ++ r' -> P = Q /\ r = r'.
Proof.
  intros E. apply app_inj_1 in E as [E1 E2]; [|apply point_width]. split; [by apply toBytes_inj | done].
Qed.

Lemma concat_points_inj cs : forall ds r r', length cs = length ds ->
  concat (map toBytes cs) ++ r = concat (map toBytes ds) ++ r' -> cs = ds /\ r = r'.
Proof.
  induction cs as [|c cs IH]; intros [|d ds] r r' L E; try done. cbn in E. rewrite <- !app_assoc in E.
  apply toBytes_app in E as [-> E]. injection L as L. by destruct (IH ds r r' L E) as [-> ->].
Qed.

Lemma concat_points_length (cs : list Pt) P : length (concat (map toBytes cs)) = (length cs * length (toBytes P))%nat.
Proof.
  induction cs as [|c cs IH]; [done|]. cbn. rewrite length_app, IH, (point_width c P). lia.
Qed.

Lemma bit_query_inj stmt stmt' prefix j ci ci' bp bp' : length stmt = length stmt' ->
  bit_query stmt prefix j ci bp = bit_query stmt' prefix j ci' bp' ->
  stmt = stmt' /\ ci = ci' /\ t0 bp = t0 bp' /\ t1 bp = t1 bp'.
Proof.
  unfold bit_query. intros L E%app_inv_head. apply app_inj_1 in E as [-> E]; [|done].
  apply toBytes_app in E as [-> E]. apply toBytes_app in E as [_ E]. apply toBytes_app in E as [_ E].
  apply toBytes_app in E as [-> E]. by apply toBytes_inj in E as ->.
Qed.

Lemma utf8_app s t : utf8 (s +:+ t) = utf8 s ++ utf8 t.
Proof.
  unfold utf8. induction s as [|c s IH]; [done|].
  change (String c s +:+ t)%string with (String c (s +:+ t)).
  change (list_byte_of_string (String c (s +:+ t))) with (byte_of_ascii c :: list_byte_of_string (s +:+ t)).
  by rewrite IH.
Qed.

Lemma list_until (c : byte) a : forall b r r', c ∉ a -> c ∉ b -> a ++ c :: r = b ++ c :: r' -> a = b /\ r = r'.
Proof.
  induction a as [|x a IH]; intros [|y b] r r' Ha Hb E; cbn in E.
  - by injection E.
  - injection E as E1 E2. subst. set_solver.
  - injection E as E1 E2. subst. set_solver.
  - injection E as E1 E2. subst. by destruct (IH b r r') as [-> ->]; [set_solver..|].
Qed.

Lemma pretty_no_bar z : 0 <= z -> byte_of_ascii "|" ∉ utf8 (pretty z).
Proof.
  intros Hz I. apply (pretty_Z_free "|" z Hz); [no_digit|].
  unfold utf8, list_byte_of_string in I. apply list_elem_of_In, in_map_iff in I as (c & E & I).
  apply (f_equal ascii_of_byte) in E. rewrite !ascii_of_byte_of_ascii in E. subst c. by apply list_elem_of_In.
Qed.

Lemma stmt_query_inj r r' : accepted r -> accepted r' -> stmt_query r = stmt_query r' ->
  run_C r = run_C r' /\ run_T r = run_T r' /\ num_Z (run_n r) = num_Z (run_n r') /\
  commitments (rp_amount (run_proof r)) = commitments (rp_amount (run_proof r')) /\
  commitments (rp_diff (run_proof r)) = commitments (rp_diff (run_proof r')).
Proof.
  intros A A'. destruct (accepted_parts r A) as [(LA & _) (LD & _)], (accepted_parts r' A') as [(LA' & _) (LD' & _)].
  apply verifyBelow_inv in A as (B & HT & _), A' as (B' & HT' & _).
  apply bad_length_range in B as [_ Hn], B' as [_ Hn'].
  unfold stmt_query. rewrite !utf8_app, <- !app_assoc. intros E%app_inv_head.
  change (utf8 "|thr=") with (byte_of_ascii "|" :: utf8 "thr=") in E. cbn [app] in E.
  apply list_until in E as [En E]; [|apply pretty_no_bar; lia..].
  apply utf8_inj, (inj pretty) in En. apply app_inv_head in E.
  apply app_inj_2 in E as [ET E].
  2: { rewrite !length_app, !(concat_points_length _ (run_C r)), LA, LA', LD, LD', En.
       by rewrite (point_width (run_C r') (run_C r)). }
  apply utf8_inj, (inj pretty) in ET. apply toBytes_app in E as [EC E].
  apply concat_points_inj in E as [E1 E]; [|congruence].
  rewrite <- (app_nil_r (concat (map toBytes (commitments (rp_diff (run_proof r)))))),
    <- (app_nil_r (concat (map toBytes (commitments (rp_diff (run_proof r')))))) in E.
  apply concat_points_inj in E as [E2 _]; [done | congruence].
Qed.

Lemma stmt_not_bit r stmt prefix j ci bp : stmt_query r <> bit_query stmt prefix j ci bp.
Proof. intros E. apply (f_equal (fun l => nth_error l 21)) in E. cbn in E. discriminate E. Qed.

(** The two range statements exclude every aliasing modulo the order. *)
Lemma no_alias_explicit T k a ra d rd : 1 <= T <= 2 ^ k -> 0 <= k -> 2 ^ (k + 1) <= ORDER ->
  0 <= a < 2 ^ k -> 0 <= d < 2 ^ k -> sub (mul G (T - 1)) (commit a ra) = commit d rd ->
  a < T \/ ~ eqL (T - 1 - a - d) 0 /\ mul G (T - 1 - a - d) = mul H (ra + rd).
Proof.
  intros HT Hk HL Ha Hd E. rewrite Z.pow_add_r in HL by lia.
  change (commit a ra) with (lin a ra) in E. change (commit d rd) with (lin d rd) in E.
  rewrite lin_G, lin_sub in E. destruct (Z.lt_ge_cases a T) as [|HaT]; [by left | right]. split.
  - intros D. assert (S : eqL (a + d) (T - 1)).
    { replace (T - 1) with (T - 1 - a - d + (a + d)) by lia. by rewrite D. }
    apply eqm_small in S; lia.
  - replace (T - 1 - a - d) with ((T - 1 - a) - d) by lia. rewrite (lin_binding _ _ _ _ E).
    f_equal. lia.
Qed.

(** *** What a fork gives *)
Context (r : Run) {XL : XofLength (run_oracle r)} (HL : 2 < ORDER).

Lemma fork_statement sel prefix j r' {XL' : XofLength (run_oracle r')} : accepted r -> forks sel prefix j r r' ->
  same_statement r r'.
Proof.
  intros A [A' (b & Q & Q' & O & _)]. unfold query_of in Q, Q'.
  apply bind_Some in Q as (ci & _ & Q). apply bind_Some in Q as (bp & _ & Q). injection Q as Q.
  apply bind_Some in Q' as (ci' & _ & Q'). apply bind_Some in Q' as (bp' & _ & Q'). injection Q' as Q'.
  subst b. apply bit_query_inj in Q' as (S & _); [|by rewrite !xof_length].
  rewrite O in S by apply stmt_not_bit. unfold same_statement.
  destruct (decide (stmt_query r = stmt_query r')) as [E|N]; [left; by apply stmt_query_inj | by right].
Qed.

Lemma fork_opens sel prefix j r' {XL' : XofLength (run_oracle r')} ci bp :
  part_of r (sel (run_proof r)) prefix -> part_of r' (sel (run_proof r')) prefix ->
  forks sel prefix j r r' -> commitments (sel (run_proof r)) !! j = Some ci ->
  sp_bits (sel (run_proof r)) !! j = Some bp ->
  exists bq, sp_bits (sel (run_proof r')) !! j = Some bq /\
    ((bit_opening bp bq).1 = 0 \/ (bit_opening bp bq).1 = 1) /\
    ci = commit (bit_opening bp bq).1 (bit_opening bp bq).2.
Proof.
  intros (_ & _ & V) (_ & _ & V') [_ (b & Q & Q' & _ & N)] Hc Hb. unfold query_of in Q, Q'.
  rewrite Hc in Q. cbn in Q. rewrite Hb in Q. cbn in Q. injection Q as Q.
  apply bind_Some in Q' as (ci' & Hc' & Q'). apply bind_Some in Q' as (bq & Hq & Q'). injection Q' as Q'.
  pose proof (verify_bits_lookup _ _ _ _ _ _ _ _ V Hc Hb) as W.
  pose proof (verify_bits_lookup _ _ _ _ _ _ _ _ V' Hc' Hq) as W'.
  pose proof Q' as E. rewrite <- Q in E. apply bit_query_inj in E as (_ & -> & E0 & E1); [|by rewrite !xof_length].
  exists bq. split; [done|].
  refine (bit_extract _ _ _ _ _ _ _ _ _ HL W W' (eq_sym E0) (eq_sym E1) _).
  apply verifyBit_inv in W as (_ & _ & W), W' as (_ & _ & W').
  rewrite W, W', !challenge_query. cbn [Nat.add]. rewrite Q, Q'. by apply not_eq_sym.
Qed.

Lemma part_extract sel prefix (F : nat -> Run) : (forall j, XofLength (run_oracle (F j))) ->
  part_of r (sel (run_proof r)) prefix ->
  (forall j, (j < Z.to_nat (num_Z (run_n r)))%nat ->
     part_of (F j) (sel (run_proof (F j))) prefix /\ forks sel prefix j r (F j)) ->
  let o := extracted sel r F in
  0 <= o.1 < 2 ^ Z.of_nat (Z.to_nat (num_Z (run_n r))) /\
  combine_bits ZERO 0 (commitments (sel (run_proof r))) = commit o.1 o.2.
Proof.
  intros XF P HF o. pose proof P as (L1 & L2 & _).
  set (os := bit_openings sel r F).
  assert (B : forall j ci, commitments (sel (run_proof r)) !! j = Some ci ->
    exists o, os !! j = Some o /\ (o.1 = 0 \/ o.1 = 1) /\ ci = commit o.1 o.2).
  { intros j ci Hc. pose proof (lookup_lt_Some _ _ _ Hc) as Hj. rewrite L1 in Hj.
    destruct (lookup_lt_is_Some_2 (sp_bits (sel (run_proof r))) j) as [bp Hb]; [lia|].
    destruct (HF j Hj) as [Pj Fj]. destruct (fork_opens sel prefix j (F j) ci bp P Pj Fj Hc Hb) as (bq & Hq & H1 & H2).
    exists (bit_opening bp bq). split; [|done]. unfold os, bit_openings. rewrite list_lookup_imap, Hb. cbn. by rewrite Hq. }
  assert (L : length os = Z.to_nat (num_Z (run_n r))) by (unfold os, bit_openings; by rewrite length_imap).
  assert (E : commitments (sel (run_proof r)) = zip_with commit (map fst os) (map snd os)).
  { apply list_eq. intros j. rewrite lookup_zip_with, !list_lookup_fmap.
    destruct (commitments (sel (run_proof r)) !! j) as [ci|] eqn:Hc.
    - destruct (B j ci Hc) as (o' & -> & _ & ->). done.
    - apply lookup_ge_None in Hc. rewrite (lookup_ge_None_2 os) by lia. done. }
  assert (Bits : Forall (fun b => b = 0 \/ b = 1) (map fst os)).
  { apply Forall_forall. intros b (o' & -> & I)%list_elem_of_fmap. apply list_elem_of_lookup in I as [j Hj].
    destruct (lookup_lt_is_Some_2 (commitments (sel (run_proof r))) j) as [ci Hc].
    { apply lookup_lt_Some in Hj. lia. }
    destruct (B j ci Hc) as (o'' & Ho & H01 & _). by assert (o'' = o') as -> by congruence. }
  split.
  - pose proof (wsum_bound _ 0 Bits) as W. rewrite length_map, L in W. change (2 ^ Z.of_nat 0) with 1 in W.
    unfold o, extracted. cbn [fst]. fold os. lia.
  - rewrite E, combine_bits_lin, padd_zero by (by rewrite !length_map). done.
Qed.
End sound.

(** ** Properties *)
Section properties.
Context {Lb : Lib} {Gr : Group} {GL : GroupLaws Gr}.

(** Completeness of the range proof.  For every bit length the code allows
    and every randomness, a proof is produced for an amount below a threshold
    of at most [2^n], and the verifier accepts it against the commitment to
    the amount. *)
Theorem range_complete {X : Xof} {R : Random} amount r threshold n i : bad_length n = false -> 2 < ORDER ->
  0 <= amount < threshold -> threshold <= 2 ^ num_Z n ->
  exists proof i', proveBelow amount r threshold n i = Ok (proof, i') /\
    verifyBelow (commit amount r) threshold proof n = true.
Proof.
  intros B HL Ha HT. destruct (proveBelow_complete amount r threshold n i B HL Ha HT) as (p & i' & E & _ & V).
  by exists p, i'.
Qed.

(** The prover refuses false statements: outside the bounds it throws, and
    draws nothing. *)
Theorem range_prover_refuses {X : Xof} {R : Random} amount r threshold n i :
  bad_length n = true \/ amount < 0 \/ threshold <= amount \/ 2 ^ num_Z n < threshold ->
  exists e, proveBelow amount r threshold n i = Throw e.
Proof.
  unfold proveBelow. destruct (bad_length n) eqn:B; [by eexists|].
  destruct (bad_length_range n B) as [_ Hn]. rewrite shiftl_num by lia. intros H.
  destruct (Z.ltb_spec amount 0); [by eexists|]. destruct (Z.leb_spec (2 ^ num_Z n) amount); [by eexists|].
  cbn [orb]. destruct (Z.ltb_spec threshold 1); [by eexists|].
  destruct (Z.ltb_spec (2 ^ num_Z n) threshold); [by eexists|]. cbn [orb].
  destruct (Z.ltb_spec (threshold - 1 - amount) 0); [by eexists|].
  destruct H as [?|[?|[?|?]]]; [done | lia | lia | lia].
Qed.

(** C17: Special soundness of the range proof.  Take an accepted proof and, for each
    bit of the amount's and of the difference's representation, another accepted
    run, for whatever statement, that makes the same query for that bit to an
    oracle changed at that query only.  Then each of those runs is for the same
    threshold, bit length, commitment and bit commitments (or the texts of the
    two statements collide under the oracle), and the extractor - the quotients
    of the differences of the two answers, summed with the powers of two -
    computes an opening [(a, ra)] of the commitment with [0 <= a < 2^n], and of
    the difference [(d, rd)]: either [a] is below the threshold, or these numbers
    are a discrete-logarithm relation between the two generators.  The bit length
    is an integer between 1 and 251, so for ristretto255, whose order exceeds
    [2^252], the bound asked of the order holds, and no value wraps around.
    (Encodings of points have one length, and the oracle answers with the length
    asked for.) *)
Theorem range_sound {PW : PointWidth Gr} (r : Run) (FA FD : nat -> Run) :
  XofLength (run_oracle r) ->
  (forall j, XofLength (run_oracle (FA j)) /\ XofLength (run_oracle (FD j))) ->
  2 ^ (Z.min (num_Z (run_n r)) 251 + 1) <= ORDER ->
  accepted r ->
  (forall j, (j < Z.to_nat (num_Z (run_n r)))%nat ->
     forks rp_amount "amount" j r (FA j) /\ forks rp_diff "diff" j r (FD j)) ->
  let '(a, ra) := extracted rp_amount r FA in
  let '(d, rd) := extracted rp_diff r FD in
  (exists k, run_n r ≡ Int k /\ 1 <= k <= 251 /\ 0 <= a < 2 ^ k) /\
  run_C r = padd (mul G a) (mul H ra) /\
  (a < run_T r \/
   ~ eqL (run_T r - 1 - a - d) 0 /\ mul G (run_T r - 1 - a - d) = mul H (ra + rd)) /\
  forall j, (j < Z.to_nat (num_Z (run_n r)))%nat ->
    same_statement r (FA j) /\ same_statement r (FD j).
Proof.
  intros XL XF HO A HF. pose proof A as (B & HT & _ & VA & VD)%verifyBelow_inv.
  destruct (bad_length_range _ B) as [I Hn]. rewrite Z.min_l in HO by lia.
  assert (HL : 2 < ORDER).
  { apply Z.lt_le_trans with (2 ^ (num_Z (run_n r) + 1)); [|done].
    apply Z.lt_le_trans with (2 ^ 2); [done|]. apply Z.pow_le_mono_r; lia. }
  destruct (accepted_parts r A) as [PA PD].
  destruct (part_extract r HL rp_amount "amount" FA (fun j => proj1 (XF j)) PA) as [Ra Ea].
  { intros j Hj. destruct (HF j Hj) as [F _]. split; [|done]. apply accepted_parts, (fk_accepted _ _ _ _ _ F). }
  destruct (part_extract r HL rp_diff "diff" FD (fun j => proj2 (XF j)) PD) as [Rd Ed].
  { intros j Hj. destruct (HF j Hj) as [_ F]. split; [|done]. apply accepted_parts, (fk_accepted _ _ _ _ _ F). }
  apply verifySub_inv in VA as (_ & _ & TA & _), VD as (_ & _ & TD & _).
  rewrite Ea in TA. rewrite Ed in TD. rewrite Z2Nat.id in Ra, Rd by lia.
  destruct (extracted rp_amount r FA) as [a ra], (extracted rp_diff r FD) as [d rd]. cbn [fst snd] in *.
  split_and!.
  - exists (num_Z (run_n r)). split_and!; try lia. by apply isInteger_equiv.
  - by rewrite <- TA.
  - apply (no_alias_explicit (run_T r) (num_Z (run_n r))); try done; [lia|].
    rewrite TA. exact (eq_sym TD).
  - intros j Hj. destruct (HF j Hj) as [F1 F2], (XF j) as [X1 X2].
    split; by eapply fork_statement.
Qed.

(** The commitment hides perfectly and shifts homomorphically.  If [G] is a
    power of [H], as in a group of prime order, a commitment opens to every
    value, each with its own blinding; and the shift of a commitment by a
    public value is the commitment to the sum. *)
Theorem commitment_hiding x v r w d : G = mul H x ->
  commit w (r + x * (v - w)) = commit v r /\
  shiftCommitment (commit v r) d = commit (v + d) r.
Proof.
  intros HG. split.
  - unfold commit. rewrite HG, <- !mul_mul, <- !mul_add. apply mul_eqL; [done|].
    by replace (x * w + (r + x * (v - w))) with (x * v + r) by ring.
  - unfold shiftCommitment. change (commit v r) with (lin v r). change (commit (v + d) r) with (lin (v + d) r).
    rewrite lin_G, lin_add. by replace (r + 0) with r by lia.
Qed.
End properties.

(** ** Concrete runs *)
Definition no_proof : RangeProof := {|
  rp_n := NaN; rp_amount := {| commitments := []; sp_bits := [] |};
  rp_diff := {| commitments := []; sp_bits := [] |} |}.
Definition toy_proof (X : Xof) : RangeProof :=
  match proveBelow (X := X) 1 77 3 (Int 2) 0 with Ok (p, _) => p | Throw _ => no_proof end.
Definition toy_commitment : Pt := commit 1 77.

Example range_runs :
  verifyBelow toy_commitment 3 (toy_proof toy_xof) (Int 2) = true /\
  verifyBelow toy_commitment 2 (toy_proof toy_xof) (Int 2) = false /\
  verifyBelow (commit 2 77) 3 (toy_proof toy_xof) (Int 2) = false /\
  verifyBelow toy_commitment 3 (toy_proof toy_xof) (Int 3) = false /\
  is_ok (proveBelow 3 77 3 (Int 2) 0) = false /\ is_ok (proveBelow 1 77 3 (Int 252) 0) = false.
Proof. vm_compute. done. Qed.

Lemma range_complete_witness : exists proof i', proveBelow 1 77 3 (Int 2) 0 = Ok (proof, i') /\
  verifyBelow (commit 1 77) 3 proof (Int 2) = true.
Proof.
  apply (range_complete 1 77 3 (Int 2) 0); [reflexivity | reflexivity | | vm_compute; congruence].
  split; [vm_compute; congruence | reflexivity].
Defined.

Lemma range_prover_refuses_witness : exists e, proveBelow 5 77 3 (Int 2) 0 = Throw e.
Proof. apply (range_prover_refuses 5 77 3 (Int 2) 0). right. right. left. vm_compute. congruence. Defined.

(** The toy group's points have two bytes; the toy oracle answers at length. *)
#[export] Instance toy_point_width : PointWidth toy_group.
Proof. split. intros P Q. cbn [toBytes toy_group]. by rewrite !be_bytes_length. Qed.

(** The oracle changed at one query. *)
Definition reprogram (b : bytes) : Xof := {|
  shake256 := fun m n => if bool_decide (m = b) then be_bytes n (toy_sum 6 m) else shake256 (Xof := toy_xof) m n |}.
Lemma toy_xof_length : XofLength toy_xof.
Proof. split. intros m n. apply be_bytes_length. Qed.
Lemma reprogram_length b : XofLength (reprogram b).
Proof. split. intros m n. cbn. case_bool_decide; apply be_bytes_length. Qed.

Definition toy_run (X : Xof) : Run := {|
  run_oracle := X; run_C := toy_commitment; run_T := 3; run_n := Int 2; run_proof := toy_proof X |}.
Definition toy_query (sel : RangeProof -> SubProof) (prefix : string) (j : nat) : bytes :=
  default [] (query_of sel prefix j (toy_run toy_xof)).
Definition toy_fork (sel : RangeProof -> SubProof) (prefix : string) (j : nat) : Run :=
  toy_run (reprogram (toy_query sel prefix j)).

Definition fork_ok (sel : RangeProof -> SubProof) (prefix : string) (j : nat) : bool :=
  let b := toy_query sel prefix j in
  let r' := toy_fork sel prefix j in
  verifyBelow (X := run_oracle r') (run_C r') (run_T r') (run_proof r') (run_n r') &&
  bool_decide (query_of sel prefix j (toy_run toy_xof) = Some b) && bool_decide (query_of sel prefix j r' = Some b) &&
  negb (be_value (shake256 (Xof := reprogram b) b 64) mod ORDER =? be_value (shake256 (Xof := toy_xof) b 64) mod ORDER).

Lemma toy_forks sel prefix j : fork_ok sel prefix j = true -> forks sel prefix j (toy_run toy_xof) (toy_fork sel prefix j).
Proof.
  unfold fork_ok. rewrite !andb_true_iff, !bool_decide_eq_true, negb_true_iff, Z.eqb_neq.
  intros [[[A Q] Q'] N]. split; [exact A|]. exists (toy_query sel prefix j). split_and!; [exact Q | exact Q' | | exact N].
  intros m Hm. change (run_oracle (toy_fork sel prefix j)) with (reprogram (toy_query sel prefix j)).
  unfold reprogram. cbn [shake256]. by rewrite bool_decide_false.
Qed.

Lemma toy_fork_a0 : fork_ok rp_amount "amount" 0 = true.
Proof. vm_compute. reflexivity. Qed.
Lemma toy_fork_a1 : fork_ok rp_amount "amount" 1 = true.
Proof. vm_compute. reflexivity. Qed.
Lemma toy_fork_d0 : fork_ok rp_diff "diff" 0 = true.
Proof. vm_compute. reflexivity. Qed.
Lemma toy_fork_d1 : fork_ok rp_diff "diff" 1 = true.
Proof. vm_compute. reflexivity. Qed.
Lemma toy_forks_all j : (j < 2)%nat -> forks rp_amount "amount" j (toy_run toy_xof) (toy_fork rp_amount "amount" j) /\
  forks rp_diff "diff" j (toy_run toy_xof) (toy_fork rp_diff "diff" j).
Proof.
  intros Hj. destruct j as [|[|j]]; [| |exfalso; lia].
  - exact (conj (toy_forks rp_amount "amount" 0 toy_fork_a0) (toy_forks rp_diff "diff" 0 toy_fork_d0)).
  - exact (conj (toy_forks rp_amount "amount" 1 toy_fork_a1) (toy_forks rp_diff "diff" 1 toy_fork_d1)).
Qed.

(** The extractor finds the committed amount. *)
Example toy_extracted : (extracted rp_amount (toy_run toy_xof) (toy_fork rp_amount "amount")).1 = 1.
Proof. vm_compute. reflexivity. Qed.

Lemma range_sound_witness : let '(a, ra) := extracted rp_amount (toy_run toy_xof) (toy_fork rp_amount "amount") in
  let '(d, rd) := extracted rp_diff (toy_run toy_xof) (toy_fork rp_diff "diff") in
  toy_commitment = padd (mul G a) (mul H ra) /\
  (a < 3 \/ ~ eqL (3 - 1 - a - d) 0 /\ mul G (3 - 1 - a - d) = mul H (ra + rd)).
Proof.
  assert (A : accepted (toy_run toy_xof)) by (vm_compute; reflexivity).
  assert (O : 2 ^ (Z.min (num_Z (Int 2)) 251 + 1) <= ORDER) by (vm_compute; congruence).
  pose proof (range_sound (toy_run toy_xof) (toy_fork rp_amount "amount") (toy_fork rp_diff "diff")
    toy_xof_length (fun j => conj (reprogram_length _) (reprogram_length _)) O A toy_forks_all) as S.
  destruct (extracted rp_amount _ _) as [a ra], (extracted rp_diff _ _) as [d rd].
  destruct S as (_ & S1 & S2 & _). exact (conj S1 S2).
Defined.

(** In the toy group [H] is [G] to the [h], and [G] is [H] to the inverse. *)
Lemma commitment_hiding_witness :
  commit 9 (77 + inv (be_value (toBytes H)) * (1 - 9)) = commit 1 77 /\
  shiftCommitment (commit 1 77) 5 = commit (1 + 5) 77.
Proof.
  apply (commitment_hiding (inv (be_value (toBytes H))) 1 77 9 5).
  apply equals_spec. vm_compute. reflexivity.
Defined.
