(* ===== verification/Membership.v ===== *)
(** * disclosure/: the zero-knowledge set-membership proof

    src/disclosure/src/setmembership.ts over Group.v: the 1-of-k OR-proof that a
    commitment hides a member of a public set, its verifier, the category
    helpers and the digest a receipt carries. *)
From stdpp Require Import pretty.
From S2P Require Import Prelude JsNum JsVal Crypto Concrete Profile Modular Group ZkRange.
Open Scope string_scope.
Open Scope Z_scope.
Open Scope list_scope.

Definition MAX_SET_SIZE : nat := Z.to_nat 1024.

Record MembershipProof := { mp_c : list Z; mp_s : list Z }.

(** [x.toString(16)] for [0 <= x] *)
Definition toString16 (x : Z) : string :=
  if x =? 0 then "0"
  else string_of_list_ascii (map hex_char (rev (push_carry 16 (Z.to_nat (Z.log2 x + 1)) x))).

Section membership.
Context {Lb : Lib} {Gr : Group} {X : Xof} {R : Random}.

Definition DOMAIN : string := tag "SET_MEMBERSHIP".
Definition scalarTo32 (x : Z) : bytes := be_bytes 32 (modL x).

Definition challenge_set (commitment : Pt) (set : list Z) (ts : list Pt) : Z :=
  scalarFromBytes (shake256 (utf8 (DOMAIN +:+ "|k=" +:+ pretty (length set)) ++ toBytes commitment ++
    concat (map scalarTo32 set) ++ concat (map toBytes ts)) 64).

(** [P_j = C - s_j G] *)
Definition branch_point (commitment : Pt) (s : Z) : Pt := sub commitment (mul G s).

(** The loop over the false branches: position [t] is left open ([0], [0],
    [ZERO] stand for the holes of the arrays). *)
Fixpoint simulate (P : list Pt) (j t : nat) (sumFake : Z) (i : nat)
  : list Z * list Z * list Pt * Z * nat :=
  match P with
  | [] => ([], [], [], sumFake, i)
  | Pj :: P' =>
      if (j =? t)%nat then
        let '(cs, ss, ts, sum, i') := simulate P' (S j) t sumFake i in
        (0 :: cs, 0 :: ss, ZERO :: ts, sum, i')
      else
        let cj := randScalar i in
        let sj := randScalar (i + 1) in
        let '(cs, ss, ts, sum, i') := simulate P' (S j) t (modL (sumFake + cj)) (i + 2) in
        (cj :: cs, sj :: ss, sub (mul H sj) (mul Pj cj) :: ts, sum, i')
  end.

(** [set.findIndex((s) => mod(s) === v)] *)
Fixpoint find_index (v : Z) (set : list Z) : option nat :=
  match set with
  | [] => None
  | s :: set' => if modL s =? v then Some O else S <$> find_index v set'
  end.

Definition proveMembership (value r : Z) (set : list Z) (i : nat) : res (MembershipProof * nat) :=
  if (length set =? 0)%nat then Throw "set must be non-empty" else
  if (MAX_SET_SIZE <? length set)%nat then Throw "set exceeds MAX_SET_SIZE (1024)" else
  match find_index (modL value) set with
  | None => Throw "value is not a member of the set"
  | Some t =>
      let commitment := commit value r in
      let P := map (branch_point commitment) set in
      let '(cs, ss, ts, sumFake, i1) := simulate P 0 t 0 i in
      let kReal := randScalar i1 in
      let ts' := <[t := mul H kReal]> ts in
      let chal := challenge_set commitment set ts' in
      let ct := modL (chal - sumFake) in
      Ok ({| mp_c := <[t := ct]> cs; mp_s := <[t := modL (kReal + ct * r)]> ss |}, (i1 + 1)%nat)
  end.

(** The announcements the verifier recomputes, and the sum of the shares. *)
Definition announcements (commitment : Pt) (set : list Z) (proof : MembershipProof) : list Pt :=
  zip_with (fun s cs => sub (mul H cs.2) (mul (branch_point commitment s) cs.1))
    set (zip (mp_c proof) (mp_s proof)).
Definition share_sum (cs : list Z) : Z := fold_left (fun acc c => modL (acc + c)) cs 0.

Definition verifyMembership (commitment : Pt) (set : list Z) (proof : MembershipProof) : bool :=
  let k := length set in
  if (k =? 0)%nat || (MAX_SET_SIZE <? k)%nat then false else
  if negb (length (mp_c proof) =? k)%nat || negb (length (mp_s proof) =? k)%nat then false else
  share_sum (mp_c proof) =? challenge_set commitment set (announcements commitment set proof).

Definition CODE_DOMAIN : string := DOMAIN +:+ "/code".
Definition codeFor (label : string) : res Z :=
  b ← encodeCanonical (VArr [VStr CODE_DOMAIN; VStr label]); Ok (scalarFromBytes (sha3_256 b)).

Record CategoryCommitment := { cc_commitment : Pt; cc_opening : Z; cc_code : Z }.
Definition commitCategory (label : string) (i : nat) : res (CategoryCommitment * nat) :=
  code ← codeFor label;
  Ok ({| cc_commitment := commit code (randScalar i); cc_opening := randScalar i; cc_code := code |},
      S i).

Definition membership_digest_val (commitment : Pt) (set : list Z) (proof : MembershipProof)
    (policyBinding : string) : jsval :=
  VArr [VStr (tag "SET_MEMBERSHIP_DIGEST"); VStr policyBinding; VStr (bytesToHex (toBytes commitment));
        VStrs (map (fun s => toString16 (modL s)) set);
        VStrs (map (fun x => toString16 (modL x)) (mp_c proof));
        VStrs (map (fun x => toString16 (modL x)) (mp_s proof))].
Definition membershipProofDigest (commitment : Pt) (set : list Z) (proof : MembershipProof)
    (policyBinding : string) : res string :=
  b ← encodeCanonical (membership_digest_val commitment set proof policyBinding);
  Ok (bytesToHex (sha3_256 b)).
End membership.

Example to_string16_runs : toString16 0 = "0" /\ toString16 255 = "ff" /\ toString16 4096 = "1000".
Proof. by vm_compute. Qed.

(** ** Completeness *)
Section complete.
Context {Lb : Lib} {Gr : Group} {GL : GroupLaws Gr} {X : Xof} {R : Random}.

Lemma find_index_spec v set t : find_index v set = Some t ->
  exists s, set !! t = Some s /\ modL s = v.
Proof.
  revert t. induction set as [|s set IH]; intros t E; cbn in E; [done|].
  destruct (Z.eqb_spec (modL s) v) as [D|D].
  - injection E as <-. by exists s.
  - apply fmap_Some in E as (t' & E & ->). destruct (IH _ E) as (s' & ? & ?). by exists s'.
Qed.
Lemma find_index_some v set s : s ∈ set -> modL s = v -> is_Some (find_index v set).
Proof.
  intros Hs E. induction Hs as [set|s y set _ IH]; cbn.
  - rewrite E, Z.eqb_refl. by eexists.
  - destruct (_ =? _); [by eexists|]. destruct (IH E) as [t ->]. by eexists.
Qed.

Lemma share_sum_from cs : forall acc, eqL (fold_left (fun acc c => modL (acc + c)) cs acc) (acc + foldr Z.add 0 cs).
Proof.
  induction cs as [|c cs IH]; intros acc; cbn [fold_left foldr]; [by rewrite Z.add_0_r|].
  rewrite IH, modL_eqL. by rewrite Z.add_assoc.
Qed.
Lemma share_sum_ok cs : eqL (share_sum cs) (foldr Z.add 0 cs).
Proof. unfold share_sum. by rewrite share_sum_from, Z.add_0_l. Qed.
Lemma share_sum_range cs : 0 <= share_sum cs < ORDER.
Proof.
  pose proof order_gt1. unfold share_sum. destruct cs as [|c cs] using rev_ind; [cbn; lia|].
  rewrite fold_left_app. cbn. apply modL_range.
Qed.

Lemma sum_insert cs : forall t x y, cs !! t = Some x -> foldr Z.add 0 (<[t := y]> cs) = foldr Z.add 0 cs - x + y.
Proof.
  induction cs as [|c cs IH]; intros [|t] x y E; cbn in *; try done.
  - injection E as <-. lia.
  - rewrite (IH _ _ _ E). lia.
Qed.

(** What the simulation gives: every branch but the open one recomputes. *)
Record simulated (P : list Pt) (j t : nat) (sum0 : Z) (cs ss : list Z) (ts : list Pt) (sum : Z) : Prop := {
  si_lengths : length cs = length P /\ length ss = length P /\ length ts = length P;
  si_sum : eqL sum (sum0 + foldr Z.add 0 cs);
  si_open : forall n, (j + n = t)%nat -> (n < length P)%nat -> cs !! n = Some 0;
  si_branch : forall n Pn, P !! n = Some Pn -> (j + n <> t)%nat ->
    exists c s, cs !! n = Some c /\ ss !! n = Some s /\ ts !! n = Some (sub (mul H s) (mul Pn c)) }.

Lemma simulate_ok P : forall j t sum0 i cs ss ts sum i',
  simulate P j t sum0 i = (cs, ss, ts, sum, i') -> simulated P j t sum0 cs ss ts sum.
Proof.
  induction P as [|Pj P IH]; intros j t sum0 i cs ss ts sum i' E; cbn [simulate] in E.
  - simplify_eq. constructor; cbn; [done | by rewrite Z.add_0_r | lia | done].
  - destruct (Nat.eqb_spec j t) as [D|D].
    + destruct (simulate P (S j) t sum0 i) as [[[[cs1 ss1] ts1] sum1] i1] eqn:E1. simplify_eq.
      destruct (IH _ _ _ _ _ _ _ _ _ E1) as [(L1 & L2 & L3) S O B].
      constructor; cbn; [lia | done | intros [|n] ? ?; [done|]; apply O; lia |].
      intros [|n] Pn Hn Hj; [cbn in Hj; lia|]. apply B; [done | lia].
    + destruct (simulate P (S j) t _ (i + 2)) as [[[[cs1 ss1] ts1] sum1] i1] eqn:E1. simplify_eq.
      destruct (IH _ _ _ _ _ _ _ _ _ E1) as [(L1 & L2 & L3) S O B].
      constructor; cbn; [lia | rewrite S, modL_eqL; by rewrite Z.add_assoc | intros [|n] ? ?; [lia|]; apply O; lia |].
      intros [|n] Pn Hn Hj; [injection Hn as <-; by eexists _, _|]. apply B; [done | lia].
Qed.
Lemma challenge_set_modL C set ts : modL (challenge_set C set ts) = challenge_set C set ts.
Proof. unfold challenge_set, scalarFromBytes. rewrite modL_mod at 1. apply Z.mod_small, modL_range. Qed.

Lemma branch_answer C s Pj a : Pj = branch_point C s ->
  forall c sr, a = sub (mul H sr) (mul Pj c) -> answers (branch_point C s) a c sr.
Proof.
  intros -> c sr ->. unfold answers. rewrite sub_mul, <- padd_assoc, (padd_comm (mul (mul _ c) (-1))), padd_neg.
  by rewrite padd_zero_r.
Qed.

(** The real branch recomputes as well. *)
Lemma real_branch v r s k ct : modL s = modL v ->
  sub (mul H (modL (k + ct * r))) (mul (branch_point (commit v r) s) ct) = mul H k.
Proof.
  intros E%eqL_modL. unfold branch_point. change (commit v r) with (lin v r).
  rewrite !lin_G, lin_sub, lin_mul, !lin_H, lin_sub. apply lin_eqL.
  - rewrite E. by replace (0 - (v - v) * ct) with 0 by ring.
  - rewrite modL_eqL. by replace (k + ct * r - (r - 0) * ct) with k by ring.
Qed.

Lemma proveMembership_complete value r set i : set <> [] -> (length set <= MAX_SET_SIZE)%nat ->
  (exists s, s ∈ set /\ modL s = modL value) ->
  exists proof i', proveMembership value r set i = Ok (proof, i') /\
    verifyMembership (commit value r) set proof = true.
Proof.
  intros Hne Hl (s & Hs & Es). unfold proveMembership.
  destruct (Nat.eqb_spec (length set) 0) as [L0|L0]; [by apply length_zero_iff_nil in L0|].
  apply Nat.ltb_ge in Hl as Hl'. rewrite Hl'.
  destruct (find_index_some (modL value) set s Hs Es) as [t Et]. rewrite Et.
  destruct (find_index_spec _ _ _ Et) as (st & Hst & Est).
  destruct (simulate _ 0 t 0 i) as [[[[cs ss] ts] sumFake] i1] eqn:Sim.
  apply simulate_ok in Sim as [(L1 & L2 & L3) S O B]. rewrite length_map in *.
  assert (Ht : (t < length set)%nat) by (by eapply lookup_lt_Some).
  set (C := commit value r) in *. set (k := randScalar i1).
  set (chal := challenge_set _ _ _). set (ct := modL (chal - sumFake)).
  eexists _, _. split; [reflexivity|]. unfold verifyMembership. cbn [mp_c mp_s].
  rewrite (proj2 (Nat.eqb_neq _ _) L0), Hl', !length_insert, L1, L2, Nat.eqb_refl. cbn [negb orb].
  assert (A : announcements C set {| mp_c := <[t := ct]> cs; mp_s := <[t := modL (k + ct * r)]> ss |}
    = <[t := mul H k]> ts).
  { apply list_eq. intros n. unfold announcements. cbn [mp_c mp_s]. rewrite lookup_zip_with.
    destruct (set !! n) as [sn|] eqn:Hn; cbn [mbind option_bind].
    2: { symmetry. apply lookup_ge_None. rewrite length_insert, L3. by apply lookup_ge_None in Hn. }
    pose proof (lookup_lt_Some _ _ _ Hn) as Hlt. rewrite lookup_zip_with.
    destruct (decide (n = t)) as [->|N].
    - rewrite !list_lookup_insert_eq by lia. cbn [mbind option_bind fst snd]. f_equal.
      rewrite Hst in Hn. injection Hn as <-. by apply real_branch.
    - rewrite !list_lookup_insert_ne by done.
      destruct (B n (branch_point C sn)) as (c & s' & -> & -> & ->); [|lia|done].
      change (map (branch_point C) set) with (branch_point C <$> set). by rewrite list_lookup_fmap, Hn. }
  rewrite A. apply Z.eqb_eq. fold chal. apply (eqm_small (m := ORDER)); [apply share_sum_range | |].
  { unfold chal. rewrite <- challenge_set_modL. apply modL_range. }
  rewrite share_sum_ok, (sum_insert _ _ 0); [|apply O; lia].
  unfold ct. rewrite modL_eqL, S. by replace (foldr Z.add 0 cs - 0 + (chal - (0 + foldr Z.add 0 cs))) with chal by lia.
Qed.
End complete.

(** ** Soundness *)
(** *** Two runs of a prover on one query *)
Section fork.
Context {Lb : Lib} {Gr : Group}.

Record MRun := { mr_oracle : Xof; mr_C : Pt; mr_set : list Z; mr_proof : MembershipProof }.

Definition m_accepted (r : MRun) : Prop :=
  verifyMembership (X := mr_oracle r) (mr_C r) (mr_set r) (mr_proof r) = true.

(** The announcement of each branch, [u H - c (C - s G)], from the member [s] and
    the branch's share [c] and response [u]. *)
Definition branches (r : MRun) : list (Z * (Z * Z)) :=
  zip (mr_set r) (zip (mp_c (mr_proof r)) (mp_s (mr_proof r))).
Definition announced (r : MRun) : list Pt :=
  map (fun b => sub (mul H b.2.2) (mul (sub (mr_C r) (mul G b.1)) b.2.1)) (branches r).

(** The query: tag and size of the set, the commitment, the members as 32 bytes,
    the announcements. *)
Definition m_query (r : MRun) : bytes :=
  utf8 ("Nerion/disclosure/set-membership/v1|k=" +:+ pretty (length (mr_set r))) ++
  toBytes (mr_C r) ++ concat (map (fun s => be_bytes 32 (s mod ORDER)) (mr_set r)) ++
  concat (map toBytes (announced r)).

(** [r'] is another run, for whatever commitment and set, that makes the same
    query and gets another answer. *)
Record m_forks (r r' : MRun) : Prop := {
  mf_accepted : m_accepted r';
  mf_query : m_query r = m_query r';
  mf_answer : be_value (shake256 (Xof := mr_oracle r) (m_query r) 64) mod ORDER <>
    be_value (shake256 (Xof := mr_oracle r') (m_query r) 64) mod ORDER }.

(** The extractor: the first branch whose shares differ, its member, and the
    quotient of the differences of its two answers. *)
Fixpoint extract_member (bs : list (Z * (Z * Z))) (ds : list (Z * (Z * Z))) : option (Z * Z) :=
  match bs, ds with
  | (s, (c, u)) :: bs', (_, (d, w)) :: ds' =>
      if (c - d) mod ORDER =? 0 then extract_member bs' ds' else Some (s, (u - w) * inv (c - d))
  | _, _ => None
  end.
End fork.

Section sound.
Context {Lb : Lib} {Gr : Group} {GL : GroupLaws Gr}.

Lemma verifyMembership_inv (X : Xof) C set p : verifyMembership C set p = true ->
  set <> [] /\ (length set <= 1024)%nat /\ length (mp_c p) = length set /\ length (mp_s p) = length set /\
  share_sum (mp_c p) = challenge_set C set (announcements C set p).
Proof.
  unfold verifyMembership. destruct (Nat.eqb_spec (length set) 0) as [|L0]; [done|].
  destruct (Nat.ltb_spec MAX_SET_SIZE (length set)) as [|L1]; [done|]. cbn [orb].
  destruct (Nat.eqb_spec (length (mp_c p)) (length set)); [|done].
  destruct (Nat.eqb_spec (length (mp_s p)) (length set)); [|done]. cbn [negb orb]. intros E%Z.eqb_eq.
  split; [intros ->; by apply L0|]. split; [|done]. unfold MAX_SET_SIZE in L1. lia.
Qed.

(** The verifier's challenge is the oracle's answer to the query. *)
Lemma announcements_eq r : announcements (mr_C r) (mr_set r) (mr_proof r) = announced r.
Proof.
  unfold announcements, announced, branches, branch_point. generalize (zip (mp_c (mr_proof r)) (mp_s (mr_proof r))).
  induction (mr_set r) as [|s l IH]; intros [|cu cus]; cbn; [done..|]. f_equal. apply IH.
Qed.

Lemma challenge_query_set r : challenge_set (X := mr_oracle r) (mr_C r) (mr_set r) (announced r) =
  be_value (shake256 (Xof := mr_oracle r) (m_query r) 64) mod ORDER.
Proof.
  assert (M : map scalarTo32 (mr_set r) = map (fun s => be_bytes 32 (s mod ORDER)) (mr_set r)).
  { apply map_ext. intros s. unfold scalarTo32. by rewrite modL_mod. }
  rewrite <- modL_mod. unfold challenge_set, scalarFromBytes, m_query. by rewrite M.
Qed.

(** *** The query determines the run *)
Context {PW : PointWidth Gr} (HO : ORDER <= 2 ^ 256) (HL : 2 < ORDER).

Lemma pretty_length_small n : (n <= 1024)%nat -> (1 <= length (utf8 (pretty n)) <= 4)%nat.
Proof.
  intros Hn. assert (F : forallb (fun n => (1 <=? length (utf8 (pretty n))) && (length (utf8 (pretty n)) <=? 4))%nat
    (seq 0 1025) = true) by (vm_compute; reflexivity).
  rewrite forallb_forall in F. specialize (F n). rewrite andb_true_iff, !Nat.leb_le in F. apply F, in_seq. lia.
Qed.

Lemma concat_length {A} (f : A -> bytes) k l : (forall x, length (f x) = k) ->
  length (concat (map f l)) = (length l * k)%nat.
Proof. intros Hf. induction l as [|x l IH]; [done|]. cbn. by rewrite length_app, IH, Hf. Qed.

Lemma concat_scalars_inj l : forall m r r', length l = length m ->
  concat (map (fun s => be_bytes 32 (s mod ORDER)) l) ++ r =
    concat (map (fun s => be_bytes 32 (s mod ORDER)) m) ++ r' -> Forall2 eqL l m /\ r = r'.
Proof.
  induction l as [|x l IH]; intros [|y m] r r' L E; try done. cbn [map concat] in E. rewrite <- !app_assoc in E.
  apply app_inj_1 in E as [E1 E2]; [|by rewrite !be_bytes_length]. injection L as L.
  destruct (IH m r r' L E2) as [F ->]. split; [|done]. constructor; [|done]. split.
  apply (f_equal be_value) in E1. pose proof (Z.mod_pos_bound x ORDER). pose proof (Z.mod_pos_bound y ORDER).
  rewrite !be_value_bytes in E1 by lia. change (256 ^ Z.of_nat 32) with (2 ^ 256) in E1.
  by rewrite (Z.mod_small (x mod ORDER)), (Z.mod_small (y mod ORDER)) in E1 by lia.
Qed.

Lemma m_lengths r : m_accepted r -> (1 <= length (mr_set r) <= 1024)%nat /\
  length (mp_c (mr_proof r)) = length (mr_set r) /\ length (mp_s (mr_proof r)) = length (mr_set r) /\
  length (announced r) = length (mr_set r).
Proof.
  intros (N & L & Lc & Ls & _)%verifyMembership_inv. unfold announced, branches.
  rewrite length_map, !length_zip_with, Lc, Ls. split_and!; try lia. destruct (mr_set r); [done|]. cbn. lia.
Qed.

Lemma m_query_inj r r' : m_accepted r -> m_accepted r' -> m_query r = m_query r' ->
  mr_C r = mr_C r' /\ Forall2 eqL (mr_set r) (mr_set r') /\ announced r = announced r'.
Proof.
  intros (H1 & _ & _ & L1)%m_lengths (H2 & _ & _ & L2)%m_lengths E. unfold m_query in E.
  rewrite !utf8_app, <- !app_assoc in E. apply app_inv_head in E.
  assert (K : length (mr_set r) = length (mr_set r')).
  { pose proof (f_equal length E) as EL. rewrite !length_app in EL.
    rewrite !(concat_length (fun s => be_bytes 32 (s mod ORDER)) 32) in EL by (intros; apply be_bytes_length).
    rewrite !(concat_length toBytes (length (toBytes (mr_C r)))) in EL by (intros; apply point_width).
    rewrite L1, L2, (point_width (mr_C r') (mr_C r)) in EL.
    pose proof (pretty_length_small (length (mr_set r)) ltac:(lia)).
    pose proof (pretty_length_small (length (mr_set r')) ltac:(lia)).
    destruct (Nat.lt_trichotomy (length (mr_set r)) (length (mr_set r'))) as [D|[D|D]]; [nia | done | nia]. }
  rewrite K in E. apply app_inv_head in E. apply toBytes_app in E as [EC E].
  apply concat_scalars_inj in E as [ES E]; [|done].
  rewrite <- (app_nil_r (concat (map toBytes (announced r)))), <- (app_nil_r (concat (map toBytes (announced r')))) in E.
  apply concat_points_inj in E as [EA _]; [done | congruence].
Qed.

(** Where the sums of the shares differ, a branch's shares differ, and its two
    answers open the commitment to its member. *)
Lemma extract_ok C bs : forall ds, Forall2 (fun b d => eqL b.1 d.1) bs ds ->
  map (fun b => sub (mul H b.2.2) (mul (sub C (mul G b.1)) b.2.1)) bs =
    map (fun b => sub (mul H b.2.2) (mul (sub C (mul G b.1)) b.2.1)) ds ->
  ~ eqL (foldr Z.add 0 (map (fun b => b.2.1) bs)) (foldr Z.add 0 (map (fun b => b.2.1) ds)) ->
  exists s r, extract_member bs ds = Some (s, r) /\ s ∈ map fst bs /\ C = commit s r.
Proof.
  induction bs as [|[s [c u]] bs IH]; intros ds F E N; destruct ds as [|[s' [d w]] ds]; try by inversion F.
  - apply Forall2_cons_1 in F as [Es F]. cbn [map fst snd foldr] in *. injection E as E1 E2.
    cbn [extract_member]. destruct (Z.eqb_spec ((c - d) mod ORDER) 0) as [D|D].
    + destruct (IH ds F E2) as (s0 & r & X1 & X2 & X3).
      { intros S. apply N. rewrite S. replace c with (c - d + d) by lia.
        assert (Z0 : eqL (c - d) 0) by (split; by rewrite D, Z.mod_0_l by lia). by rewrite Z0. }
      exists s0, r. split_and!; [done | by right | done].
    + exists s, ((u - w) * inv (c - d)). split; [done|]. split; [by left|]. rewrite Es in E1.
      assert (P : branch_point C s = mul H ((u - w) * inv (c - d))).
      { rewrite <- Es in E1.
        apply (answers_extract (branch_point C s) (sub (mul H u) (mul (branch_point C s) c)) c u d w HL).
        - by apply (branch_answer C s (branch_point C s)).
        - apply (branch_answer C s (branch_point C s)); [done|]. exact E1.
        - intros [X]. apply D. by rewrite Zminus_mod, X, Z.sub_diag, Z.mod_0_l by lia. }
      apply (padd_cancel _ _ (mul (mul G s) (-1))). rewrite <- sub_mul. fold (branch_point C s). rewrite P.
      change (commit s ?r) with (lin s r). rewrite !lin_G, lin_mul, lin_add, lin_H. f_equal; lia.
Qed.
End sound.

(** ** The digest *)
Lemma hex_char_digit d : 0 <= d < 16 -> hex_digit (hex_char d) = Some d.
Proof.
  intros H. assert (F : forallb (fun n => bool_decide (hex_digit (hex_char (Z.of_nat n)) = Some (Z.of_nat n))) (seq 0 16) = true)
    by (vm_compute; reflexivity).
  rewrite forallb_forall in F. specialize (F (Z.to_nat d)). rewrite Z2Nat.id in F by lia.
  apply (bool_decide_eq_true (hex_digit (hex_char d) = Some d)), F, in_seq. lia.
Qed.

Lemma hex_chars_inj ds : forall es, in_base 16 ds -> in_base 16 es -> map hex_char ds = map hex_char es -> ds = es.
Proof.
  induction ds as [|d ds IH]; intros [|e es] Hd He E; try done. cbn in E. injection E as E1 E2.
  inversion_clear Hd as [|? ? D1 D2]. inversion_clear He as [|? ? E3 E4].
  assert (d = e) as -> by (apply (f_equal hex_digit) in E1; rewrite !hex_char_digit in E1 by done; congruence).
  f_equal. by apply IH.
Qed.

(** The digits of [toString16]: one digit for 0, none leading otherwise. *)
Lemma to_string16_digits x : 0 <= x -> exists ds,
  toString16 x = string_of_list_ascii (map hex_char (rev ds)) /\ in_base 16 ds /\ value_le 16 ds = x.
Proof.
  intros Hx. unfold toString16. destruct (Z.eqb_spec x 0) as [->|N].
  - exists [0]. split; [done|]. split; [repeat constructor; lia | done].
  - destruct (push_carry_digits 16 ltac:(lia) (Z.to_nat (Z.log2 x + 1)) x) as [V I].
    + pose proof (Z.log2_nonneg x). rewrite Z2Nat.id by lia. split; [done|].
      apply Z.lt_le_trans with (2 ^ (Z.log2 x + 1)).
      * replace (Z.log2 x + 1) with (Z.succ (Z.log2 x)) by lia. apply Z.log2_spec. lia.
      * apply Z.pow_le_mono_l. lia.
    + by eexists.
Qed.

Lemma to_string16_inj x y : 0 <= x -> 0 <= y -> toString16 x = toString16 y -> x = y.
Proof.
  intros Hx Hy E. destruct (to_string16_digits x Hx) as (ds & E1 & I1 & <-).
  destruct (to_string16_digits y Hy) as (es & E2 & I2 & <-). rewrite E1, E2 in E.
  apply (f_equal list_ascii_of_string) in E. rewrite !list_ascii_of_string_of_list_ascii in E.
  apply hex_chars_inj in E; [| by apply in_base_rev | by apply in_base_rev].
  apply (f_equal (@rev Z)) in E. rewrite !rev_involutive in E. by rewrite E.
Qed.

Lemma scalar_texts_inj `{!GroupLaws Gr} l : forall m,
  map (fun s => toString16 (modL s)) l = map (fun s => toString16 (modL s)) m -> Forall2 eqL l m.
Proof.
  induction l as [|x l IH]; intros [|y m] E; try done. cbn in E. injection E as E1 E2.
  constructor; [|by apply IH]. apply eqL_modL. apply to_string16_inj; [apply modL_range | apply modL_range | done].
Qed.

(** ** Properties *)
Section properties.
Context {Lb : Lib} {Gr : Group} {GL : GroupLaws Gr}.

(** Completeness of set membership.  For a non-empty set within the bound
    that holds the committed value (modulo the order), a proof is produced, with
    every randomness, and accepted; without it the prover throws. *)
Theorem membership_complete {X : Xof} {R : Random} value r set i :
  set <> [] -> (length set <= MAX_SET_SIZE)%nat ->
  ((exists s, s ∈ set /\ modL s = modL value) ->
   exists proof i', proveMembership value r set i = Ok (proof, i') /\
     verifyMembership (commit value r) set proof = true) /\
  ((forall s, s ∈ set -> modL s <> modL value) ->
   proveMembership value r set i = Throw "value is not a member of the set").
Proof.
  intros Hne Hl. split; [by apply proveMembership_complete|]. intros N. unfold proveMembership.
  destruct (Nat.eqb_spec (length set) 0) as [L0|_]; [by apply length_zero_iff_nil in L0|].
  apply Nat.ltb_ge in Hl. rewrite Hl. destruct (find_index _ _) as [t|] eqn:E; [|done].
  apply find_index_spec in E as (s & Hs & E). exfalso. by apply (N s); [eapply list_elem_of_lookup_2|].
Qed.

(** C37: Special soundness of set membership.  Take an accepted proof and another
    accepted run, for whatever commitment and set, that makes the same query to
    an oracle which answers it differently (modulo the order).  Then the second
    run is for the same commitment, the same set (its members modulo the order)
    and the same announcements, and the extractor - the first branch whose two
    shares differ, and the quotient of the differences of its answers - computes
    an opening of the commitment to a member of the set.  (For a group whose
    order is between 2 and [2^256], as ristretto255's, and whose points have
    encodings of one length.) *)
Theorem membership_sound {PW : PointWidth Gr} (r r' : MRun) :
  2 < ORDER <= 2 ^ 256 -> m_accepted r -> m_forks r r' ->
  mr_C r = mr_C r' /\ Forall2 eqL (mr_set r) (mr_set r') /\ announced r = announced r' /\
  exists s b, extract_member (branches r) (branches r') = Some (s, b) /\ s ∈ mr_set r /\
    mr_C r = padd (mul G s) (mul H b).
Proof.
  intros [HL HO] A [A' Q N]. destruct (m_query_inj HO HL r r' A A' Q) as (EC & ES & EA).
  pose proof (m_lengths r A) as (L1 & L2 & L3 & _). pose proof (m_lengths r' A') as (M1 & M2 & M3 & _).
  apply verifyMembership_inv in A as (_ & _ & _ & _ & SA), A' as (_ & _ & _ & _ & SA').
  rewrite announcements_eq, challenge_query_set in SA. rewrite announcements_eq, challenge_query_set, <- Q in SA'.
  split_and!; [done.. |].
  assert (P : forall x, length (mp_c (mr_proof x)) = length (mr_set x) ->
    length (mp_s (mr_proof x)) = length (mr_set x) ->
    map fst (branches x) = mr_set x /\ map (fun b => b.2.1) (branches x) = mp_c (mr_proof x)).
  { intros x E1 E2. unfold branches. split.
    - change (map fst ?l) with (fst <$> l). apply fst_zip. rewrite length_zip_with. lia.
    - rewrite <- (map_map snd fst). change (map ?f ?l) with (f <$> l).
      rewrite snd_zip by (rewrite length_zip_with; lia). apply fst_zip. lia. }
  destruct (P r L2 L3) as [P1 P2], (P r' M2 M3) as [P1' P2'].
  destruct (extract_ok HL (mr_C r) (branches r) (branches r')) as (s & b & X1 & X2 & X3).
  - apply (Forall2_fmap_1 fst fst eqL). change (Forall2 eqL (map fst (branches r)) (map fst (branches r'))).
    by rewrite P1, P1'.
  - unfold announced in EA. rewrite <- EC in EA. exact EA.
  - rewrite P2, P2', <- !share_sum_ok, SA, SA'. intros [E]. apply N.
    rewrite !Z.mod_mod in E by lia. exact E.
  - rewrite P1 in X2. by exists s, b.
Qed.

(** What the membership digest binds.  Equal digests are of the same policy
    binding, the same commitment, the same set and the same proof (scalars
    modulo the order), or collide under the hash. *)
Theorem membership_digest_binding {CL : CborLaws Lb} {HL : HexLaws Lb} C set p pol C' set' p' pol' d :
  membershipProofDigest C set p pol = Ok d -> membershipProofDigest C' set' p' pol' = Ok d ->
  (pol = pol' /\ C = C' /\ Forall2 eqL set set' /\ Forall2 eqL (mp_c p) (mp_c p') /\
   Forall2 eqL (mp_s p) (mp_s p')) \/
  exists b c, encodeCanonical (membership_digest_val C set p pol) = Ok b /\
    encodeCanonical (membership_digest_val C' set' p' pol') = Ok c /\ b <> c /\ sha3_256 b = sha3_256 c.
Proof.
  unfold membershipProofDigest. intros (b & Eb & E%Ok_inj)%bind_ok (c & Ec & F%Ok_inj)%bind_ok.
  rewrite <- F in E. apply bytesToHex_inj in E.
  destruct (decide (b = c)) as [->|N]; [left | right; by exists b, c].
  assert (S : same_enc (membership_digest_val C set p pol) (membership_digest_val C' set' p' pol')) by by exists c.
  apply cbor_arr in S. do 6 (apply Forall2_cons_1 in S as [? S]).
  split_and!; [by apply cbor_str | | by apply scalar_texts_inj, same_strs | by apply scalar_texts_inj, same_strs
    | by apply scalar_texts_inj, same_strs].
  apply toBytes_inj, bytesToHex_inj. by apply cbor_str.
Qed.
End properties.

(** ** Concrete runs *)
Definition toy_set : list Z := [4; 9; 25].
Definition toy_membership (X : Xof) : MembershipProof :=
  match proveMembership (X := X) 9 77 toy_set 0 with Ok (p, _) => p | Throw _ => {| mp_c := []; mp_s := [] |} end.

Example membership_runs :
  verifyMembership (commit 9 77) toy_set (toy_membership toy_xof) = true /\
  verifyMembership (commit 9 77) [4; 9; 26] (toy_membership toy_xof) = false /\
  verifyMembership (commit 10 77) toy_set (toy_membership toy_xof) = false.
Proof. vm_compute. done. Qed.

Lemma toy_set_size : (length toy_set <= MAX_SET_SIZE)%nat.
Proof. apply Nat.leb_le. vm_compute. reflexivity. Qed.

Lemma membership_complete_witness : exists proof i', proveMembership 9 77 toy_set 0 = Ok (proof, i') /\
  verifyMembership (commit 9 77) toy_set proof = true.
Proof.
  apply (proj1 (membership_complete 9 77 toy_set 0 ltac:(discriminate) toy_set_size)). exists 9.
  split; [right; left | reflexivity].
Defined.

Definition toy_mrun (X : Xof) : MRun := {|
  mr_oracle := X; mr_C := commit 9 77; mr_set := toy_set; mr_proof := toy_membership X |}.
Definition toy_mquery : bytes := m_query (toy_mrun toy_xof).
Definition toy_mfork : MRun := toy_mrun (reprogram toy_mquery).

Lemma toy_mfork_eq : m_query (toy_mrun toy_xof) = m_query toy_mfork.
Proof. vm_compute. reflexivity. Qed.

Lemma toy_m_forks : m_forks (toy_mrun toy_xof) toy_mfork.
Proof.
  split; [vm_compute; reflexivity | exact toy_mfork_eq | vm_compute; discriminate].
Qed.

(** The extractor finds the committed member. *)
Example toy_member_extracted :
  fst <$> extract_member (branches (toy_mrun toy_xof)) (branches toy_mfork) = Some 9.
Proof. vm_compute. reflexivity. Qed.

Lemma membership_sound_witness : exists s b,
  extract_member (branches (toy_mrun toy_xof)) (branches toy_mfork) = Some (s, b) /\ s ∈ toy_set /\
  commit 9 77 = padd (mul G s) (mul H b).
Proof.
  assert (O : 2 < ORDER <= 2 ^ 256) by (split; vm_compute; congruence).
  assert (A : m_accepted (toy_mrun toy_xof)) by (vm_compute; reflexivity).
  destruct (membership_sound (toy_mrun toy_xof) toy_mfork O A toy_m_forks) as (_ & _ & _ & S). exact S.
Defined.

Lemma membership_digest_binding_witness : exists d,
  membershipProofDigest (commit 9 77) toy_set (toy_membership toy_xof) "p1" = Ok d /\
  ("p1" = "p1" \/ exists b c : bytes, b <> c /\ sha3_256 b = sha3_256 c).
Proof.
  assert (exists d, membershipProofDigest (commit 9 77) toy_set (toy_membership toy_xof) "p1" = Ok d) as [d E]
    by (eexists; vm_compute; reflexivity).
  exists d. split; [exact E|].
  destruct (membership_digest_binding _ _ _ _ _ _ _ _ d E E) as [[H _]|(b & c & _ & _ & N & H)];
    [by left | right; by exists b, c].
Defined.
