(* ===== verification/PolicyProof.v ===== *)
(** * disclosure/: policy-satisfaction proofs and commitment binding

    src/disclosure/src/policyproof.ts (a committed amount is within the per-action
    ceiling and the aggregate cap) and commitbind.ts (the commitment belongs to
    this intent, and opens to its own amount), over ZkRange.v. *)
From stdpp Require Import pretty.
From S2P Require Import Prelude JsNum JsVal Crypto Concrete Grant Kernel Profile Modular Group ZkRange Membership.
Open Scope string_scope.
Open Scope Z_scope.
Open Scope list_scope.

(** ** policyproof.ts *)
Record PolicyBounds := {
  perActionCeiling : Z; pb_aggregate : option Z; aggregateCap : option Z; pb_n : option num }.

Record AmountCommitment `{Group} := { ac_commitment : Pt; ac_opening : Z }.

Record PolicySatisfactionProof `{Group} := {
  psp_n : num; psp_ceiling : RangeProof; psp_aggregate : option RangeProof }.

(** [x.toString(16)] with the sign of [x] *)
Definition bigint16 (x : Z) : string := if x <? 0 then "-" +:+ toString16 (- x) else toString16 x.

Section policyproof.
Context {Lb : Lib} {Gr : Group} {X : Xof} {R : Random}.

Definition commitAmount (amount : Z) (i : nat) : AmountCommitment * nat :=
  ({| ac_commitment := commit amount (randScalar i); ac_opening := randScalar i |}, S i).

Definition bounds_n (b : PolicyBounds) : num := default (Int 32) (pb_n b).

Definition provePolicySatisfaction (amount opening : Z) (b : PolicyBounds) (i : nat)
  : res (PolicySatisfactionProof * nat) :=
  let n := bounds_n b in
  '(ceiling, i1) ← proveBelow amount opening (perActionCeiling b + 1) n i;
  '(agg, i2) ← match pb_aggregate b, aggregateCap b return res (option RangeProof * nat) with
    | Some a, Some cap => '(p, i2) ← proveBelow (amount + a) opening (cap + 1) n i1; Ok (Some p, i2)
    | _, _ => Ok (None, i1)
    end;
  Ok ({| psp_n := n; psp_ceiling := ceiling; psp_aggregate := agg |}, i2).

Definition verifyPolicySatisfaction (commitment : Pt) (b : PolicyBounds)
    (proof : PolicySatisfactionProof) : bool :=
  let n := bounds_n b in
  if negb (num_eqb (psp_n proof) n) then false else
  if bool_decide (is_Some (aggregateCap b)) && bool_decide (pb_aggregate b = None) then false else
  if negb (verifyBelow commitment (perActionCeiling b + 1) (psp_ceiling proof) n) then false else
  match pb_aggregate b, aggregateCap b with
  | Some a, Some cap =>
      match psp_aggregate proof with
      | None => false
      | Some p => if negb (verifyBelow (shiftCommitment commitment a) (cap + 1) p n) then false else true
      end
  | _, _ => match psp_aggregate proof with Some _ => false | None => true end
  end.

Definition bit_val (b : BitProof) : jsval :=
  VObj [("t0", VStr (bytesToHex (toBytes (t0 b)))); ("t1", VStr (bytesToHex (toBytes (t1 b))));
        ("c0", VStr (bigint16 (c0 b))); ("c1", VStr (bigint16 (c1 b)));
        ("s0", VStr (bigint16 (s0 b))); ("s1", VStr (bigint16 (s1 b)))].
Definition sub_val (s : SubProof) : jsval :=
  VObj [("commitments", VStrs (map (fun c => bytesToHex (toBytes c)) (commitments s)));
        ("bits", VArr (map bit_val (sp_bits s)))].
Definition serializeRangeProof (p : RangeProof) : jsval :=
  VObj [("n", VNum (rp_n p)); ("amount", sub_val (rp_amount p)); ("diff", sub_val (rp_diff p))].

Definition or_none (o : option Z) : string := match o with Some z => pretty z | None => "none" end.
Definition policy_digest_val (commitment : Pt) (b : PolicyBounds) (proof : PolicySatisfactionProof)
    (policyBinding : string) : jsval :=
  VArr [VStr (tag "POLICY_PROOF"); VStr policyBinding; VStr (bytesToHex (toBytes commitment));
        VNum (psp_n proof); VStr (pretty (perActionCeiling b)); VStr (or_none (aggregateCap b));
        VStr (or_none (pb_aggregate b)); VNum (bounds_n b); serializeRangeProof (psp_ceiling proof);
        match psp_aggregate proof with Some p => serializeRangeProof p | None => VStr "none" end].
Definition policyProofDigest (commitment : Pt) (b : PolicyBounds) (proof : PolicySatisfactionProof)
    (policyBinding : string) : res string :=
  s ← encodeCanonical (policy_digest_val commitment b proof policyBinding);
  Ok (bytesToHex (sha3_256 s)).

(** ** commitbind.ts *)
Definition intentAmount (intent : ActionIntent) : res Z :=
  match amount intent with
  | None => Throw "intent carries no amount to bind"
  | Some a => if negb (isSafeInteger a) || num_ltb a (Int 0)
              then Throw "intent.amount must be a non-negative safe integer" else Ok (num_Z a)
  end.

(** The intent without its amount. *)
Definition skeleton_fields (i : ActionIntent) : list (string * jsval) :=
  [("type", VStr (type_ i)); ("resource", VStr (resource i))] ++
  field_if "counterparty" VStr (counterparty i) ++ field_if "params" (fun v => v) (params i).

Definition bound_val (intent : ActionIntent) (commitment : Pt) (salt : bytes) : jsval :=
  VObj [("domain", VStr (tag "COMMIT_BIND")); ("salt", VBytes salt);
        ("intent", VObj (skeleton_fields intent)); ("commitment", VBytes (toBytes commitment))].
Definition boundIntentDigest (intent : ActionIntent) (commitment : Pt) (salt : bytes) : res bytes :=
  b ← encodeCanonical (bound_val intent commitment salt); Ok (sha3_256 b).
Definition boundIntentDigestHex (intent : ActionIntent) (commitment : Pt) (salt : bytes) : res string :=
  d ← boundIntentDigest intent commitment salt; Ok (bytesToHex d).

Definition verifyBoundCommitment (intent : ActionIntent) (commitment : Pt) (digest salt : bytes) : res bool :=
  d ← boundIntentDigest intent commitment salt; Ok (constantTimeEqual d digest).

Definition verifyBoundAmount (intent : ActionIntent) (commitment : Pt) (opening : Z) (digest salt : bytes)
  : res bool :=
  ok ← verifyBoundCommitment intent commitment digest salt;
  if negb ok then Ok false else
  a ← intentAmount intent;
  Ok (constantTimeEqual (toBytes (commit a opening)) (toBytes commitment)).

Record BoundAmount := { ba_commitment : Pt; ba_opening : Z; ba_digest : bytes }.
Definition bindAmountCommitment (intent : ActionIntent) (salt : bytes) (i : nat) : res (BoundAmount * nat) :=
  a ← intentAmount intent;
  let (c, i') := commitAmount a i in
  d ← boundIntentDigest intent (ac_commitment c) salt;
  Ok ({| ba_commitment := ac_commitment c; ba_opening := ac_opening c; ba_digest := d |}, i').
End policyproof.

(** The filter of the source on the entries of the intent. *)
Lemma skeleton_filter i : exists fs, intent_val i = VObj fs /\
  skeleton_fields i = List.filter (fun kv => negb (bool_decide (kv.1 = "amount"))) fs.
Proof. destruct i as [? ? [] [] []]; by eexists. Qed.

(** ** Decimal texts *)
Lemma pretty_N_go_head x : forall s, (0 < x)%N -> exists d t, pretty.pretty_N_go x s = String (pretty.pretty_N_char d) t.
Proof.
  induction (N.lt_wf_0 x) as [x _ IH]; intros s Hx. rewrite pretty.pretty_N_go_step by done.
  destruct (base.decide (x `div` 10 = 0)%N) as [->|N0].
  - rewrite pretty.pretty_N_go_0. by eexists _, _.
  - apply IH; [by apply N.div_lt | by apply N.neq_0_lt_0].
Qed.

Lemma pretty_char_not_n d t : String (pretty.pretty_N_char d) t <> "none".
Proof.
  intros E. injection E as E _. revert E. unfold pretty.pretty_N_char.
  repeat (destruct d as [|d]; try discriminate; repeat (destruct d as [d|d|]; try discriminate)).
Qed.

Lemma pretty_Z_not_none (z : Z) : pretty z <> "none".
Proof.
  destruct z as [|p|p]; [done | | done].
  change (pretty (Zpos p)) with (pretty.pretty_N_go (Npos p) "").
  destruct (pretty_N_go_head (Npos p) "" ltac:(lia)) as (d & t & ->). apply pretty_char_not_n.
Qed.

Lemma or_none_inj a b : or_none a = or_none b -> a = b.
Proof.
  destruct a as [a|], b as [b|]; cbn; intros E; try done.
  - by apply (inj pretty) in E as ->.
  - by apply pretty_Z_not_none in E.
  - symmetry in E. by apply pretty_Z_not_none in E.
Qed.

(** ** The policy proof *)
Section policy.
Context {Lb : Lib} {Gr : Group} {GL : GroupLaws Gr}.

(** The bounds an amount satisfies, as integers. *)
Definition within (b : PolicyBounds) (v : Z) : Prop :=
  0 <= v <= perActionCeiling b /\
  match pb_aggregate b, aggregateCap b with Some a, Some cap => a + v <= cap | _, _ => True end.

(** The bounds fit the bit length, and a cap comes with its aggregate. *)
Record bounds_ok (b : PolicyBounds) : Prop := {
  bo_length : bad_length (bounds_n b) = false;
  bo_ceiling : perActionCeiling b < 2 ^ num_Z (bounds_n b);
  bo_cap : forall cap, aggregateCap b = Some cap ->
    cap < 2 ^ num_Z (bounds_n b) /\ exists a, pb_aggregate b = Some a /\ 0 <= a }.

(** Completeness of the policy proof.  For an amount within the bounds a proof
    is produced and accepted against the commitment to the amount. *)
Theorem policy_complete {X : Xof} {R : Random} amount r b i : 2 < ORDER -> bounds_ok b -> within b amount ->
  exists proof i', provePolicySatisfaction amount r b i = Ok (proof, i') /\
    verifyPolicySatisfaction (commit amount r) b proof = true.
Proof.
  intros HL [B1 B2 B3] [W1 W2]. destruct (bad_length_range _ B1) as [I _].
  unfold provePolicySatisfaction, verifyPolicySatisfaction.
  destruct (proveBelow_complete amount r (perActionCeiling b + 1) (bounds_n b) i B1 HL) as (p & i1 & -> & _ & V);
    [lia | lia|]. cbn [mbind res_bind].
  destruct (aggregateCap b) as [cap|] eqn:EC.
  - destruct (B3 cap eq_refl) as (H1 & a & EA & H2). rewrite EA in *.
    destruct (proveBelow_complete (amount + a) r (cap + 1) (bounds_n b) i1 B1 HL) as (q & i2 & -> & _ & V2);
      [lia | lia|]. cbn [mbind res_bind]. eexists _, _. split; [done|]. cbn [psp_n psp_ceiling psp_aggregate].
    rewrite (num_eqb_refl _ I), V. cbn [negb].
    rewrite (bool_decide_false (Some a = None)) by done. rewrite andb_false_r.
    assert (S : shiftCommitment (commit amount r) a = commit (amount + a) r).
    { unfold shiftCommitment. change (commit amount r) with (lin amount r). rewrite lin_G, lin_add.
      by replace (r + 0) with r by lia. }
    by rewrite S, V2.
  - assert (E : match pb_aggregate b with Some _ | None => @Ok (option RangeProof * nat) (None, i1) end = Ok (None, i1))
      by (by destruct (pb_aggregate b)).
    destruct (pb_aggregate b) as [a|]; cbn [mbind res_bind]; eexists _, _; (split; [done|]);
      cbn [psp_n psp_ceiling psp_aggregate]; rewrite (num_eqb_refl _ I), V; cbn [negb];
      by rewrite (bool_decide_false (is_Some None)) by (by intros []).
Qed.

(** What the verifier of a policy accepts: a range proof that the committed amount
    is at most the ceiling and, exactly under a cap, one that it is at most the
    cap together with the trusted aggregate, on the commitment shifted by it.  A
    cap without an aggregate, or an aggregate proof without a cap, is never
    accepted.  (What a range proof shows is [ZkRange.range_sound].) *)
Theorem policy_checks (X : Xof) C b p : verifyPolicySatisfaction C b p = true ->
  verifyBelow C (perActionCeiling b + 1) (psp_ceiling p) (bounds_n b) = true /\
  match aggregateCap b with
  | Some cap => exists a q, pb_aggregate b = Some a /\ psp_aggregate p = Some q /\
      verifyBelow (shiftCommitment C a) (cap + 1) q (bounds_n b) = true
  | None => psp_aggregate p = None
  end.
Proof.
  unfold verifyPolicySatisfaction. destruct (num_eqb _ _); [|done]. cbn [negb].
  destruct (bool_decide _ && bool_decide _) eqn:G; [done|].
  destruct (verifyBelow C _ _ _) eqn:V; [|done]. cbn [negb]. intros E. split; [done|].
  destruct (aggregateCap b) as [cap|], (pb_aggregate b) as [a|], (psp_aggregate p) as [q|]; try done.
  exists a, q. split; [done|]. split; [done|]. by destruct (verifyBelow (shiftCommitment C a) _ _ _).
Qed.

End policy.

(** ** The digest, and the binding to the intent *)
Section binding.
Context {Lb : Lib} {Gr : Group} {GL : GroupLaws Gr} {CL : CborLaws Lb} {HL : HexLaws Lb}.

(** A policy proof cannot be presented for another policy.  Equal digests are
    of the same policy binding, the same commitment and the same explicit
    bounds, or collide under the hash. *)
Theorem policy_digest_binding C b p pol C' b' p' pol' d :
  policyProofDigest C b p pol = Ok d -> policyProofDigest C' b' p' pol' = Ok d ->
  (pol = pol' /\ C = C' /\ perActionCeiling b = perActionCeiling b' /\ aggregateCap b = aggregateCap b' /\
   pb_aggregate b = pb_aggregate b' /\
   (isSafeInteger (bounds_n b) = true -> isSafeInteger (bounds_n b') = true -> bounds_n b ≡ bounds_n b')) \/
  exists x y, encodeCanonical (policy_digest_val C b p pol) = Ok x /\
    encodeCanonical (policy_digest_val C' b' p' pol') = Ok y /\ x <> y /\ sha3_256 x = sha3_256 y.
Proof.
  unfold policyProofDigest. intros (x & Ex & E%Ok_inj)%bind_ok (y & Ey & F%Ok_inj)%bind_ok.
  rewrite <- F in E. apply bytesToHex_inj in E.
  destruct (base.decide (x = y)) as [->|N]; [left | right; by exists x, y].
  assert (S : same_enc (policy_digest_val C b p pol) (policy_digest_val C' b' p' pol')) by by exists y.
  apply cbor_arr in S. do 8 (apply Forall2_cons_1 in S as [? S]). clear S.
  split_and!; [by apply cbor_str | by apply toBytes_inj, bytesToHex_inj, cbor_str | | | | by intros; apply cbor_num].
  - apply (inj (pretty (A := Z))). by apply cbor_str.
  - by apply or_none_inj, cbor_str.
  - by apply or_none_inj, cbor_str.
Qed.

Lemma skeleton_nodup i : NoDup (map fst (skeleton_fields i)).
Proof. destruct i as [? ? [] ? []]; apply nodup_keys; vm_compute; reflexivity. Qed.

(** What the bound digest says of an intent: all but the amount. *)
Record same_skeleton (i j : ActionIntent) : Prop := {
  ss_type : type_ i = type_ j;
  ss_resource : resource i = resource j;
  ss_counterparty : counterparty i = counterparty j;
  ss_params : option_Forall2 same_enc (params i) (params j) }.

Lemma skeleton_inj i j : same_enc (VObj (skeleton_fields i)) (VObj (skeleton_fields j)) -> same_skeleton i j.
Proof.
  intros E. pose proof (same_obj _ _ (skeleton_nodup i) (skeleton_nodup j) E) as K.
  pose proof (skeleton_nodup i) as N. destruct i as [ty rs cp am pr], j as [ty' rs' cp' am' pr'].
  pose proof (K "counterparty") as K1. pose proof (K "params") as K2. clear K. unfold skeleton_fields in *.
  cbn [type_ resource counterparty params] in *.
  destruct cp, pr, cp', pr'; vm_compute in K1, K2; try done;
    (apply cbor_obj in E; [| reflexivity | exact N]); clear N; split_fields E; constructor;
    cbn [type_ resource counterparty params]; try done; try (by apply cbor_str);
    try (f_equal; by apply cbor_str); by constructor.
Qed.

(** The bound digest commits to everything but the amount.  It is the same for
    intents that differ in the amount alone, so it tells nothing about it; and
    equal digests are of the same salt, commitment, action, resource,
    counterparty and (encoding of the) parameters, or collide. *)
Theorem bound_digest_binding i C salt j C' salt' d :
  (forall a, boundIntentDigest {| type_ := type_ i; resource := resource i; counterparty := counterparty i;
     amount := a; params := params i |} C salt = boundIntentDigest i C salt) /\
  (boundIntentDigest i C salt = Ok d -> boundIntentDigest j C' salt' = Ok d ->
   (salt = salt' /\ C = C' /\ same_skeleton i j) \/
   exists x y, encodeCanonical (bound_val i C salt) = Ok x /\ encodeCanonical (bound_val j C' salt') = Ok y /\
     x <> y /\ sha3_256 x = sha3_256 y).
Proof.
  split; [done|]. unfold boundIntentDigest.
  intros (x & Ex & E%Ok_inj)%bind_ok (y & Ey & F%Ok_inj)%bind_ok. rewrite <- F in E.
  destruct (base.decide (x = y)) as [->|N]; [left | right; by exists x, y].
  assert (S : same_enc (bound_val i C salt) (bound_val j C' salt')) by by exists y.
  apply cbor_obj in S; [| reflexivity | apply nodup_keys; vm_compute; reflexivity]. split_fields S.
  split_and!; [by apply cbor_bytes | by apply toBytes_inj, cbor_bytes | by apply skeleton_inj].
Qed.

(** The bound amount.  What [bindAmountCommitment] makes for an intent passes
    the full check; and the full check passes only for a commitment that opens,
    under the given opening, to the intent's own amount. *)
Theorem bound_amount_checks {R : Random} i salt k :
  (forall b k', bindAmountCommitment i salt k = Ok (b, k') ->
     verifyBoundAmount i (ba_commitment b) (ba_opening b) (ba_digest b) salt = Ok true) /\
  (forall C o d, verifyBoundAmount i C o d salt = Ok true ->
     boundIntentDigest i C salt = Ok d /\ exists a, intentAmount i = Ok a /\ 0 <= a /\ C = commit a o).
Proof.
  split.
  - unfold bindAmountCommitment. intros b k' E. apply bind_ok in E as (a & Ea & E).
    cbn [commitAmount] in E. apply bind_ok in E as (d & Ed & E%Ok_inj). injection E as <- _.
    cbn [ba_commitment ba_opening ba_digest ac_commitment ac_opening] in *.
    unfold verifyBoundAmount, verifyBoundCommitment. rewrite Ed. cbn [mbind res_bind].
    rewrite constantTimeEqual_refl. cbn [negb]. rewrite Ea. cbn [mbind res_bind].
    by rewrite constantTimeEqual_refl.
  - intros C o d E. unfold verifyBoundAmount, verifyBoundCommitment in E.
    apply bind_ok in E as (ok & (d' & Ed & Eo%Ok_inj)%bind_ok & E). subst ok.
    destruct (constantTimeEqual d' d) eqn:D; [|done]. apply constantTimeEqual_true in D as ->.
    cbn [negb] in E. apply bind_ok in E as (a & Ea & E%Ok_inj). apply constantTimeEqual_true, toBytes_inj in E.
    split; [done|]. exists a. split; [done|]. split; [|done].
    unfold intentAmount in Ea. destruct (amount i) as [x|]; [|done].
    destruct (isSafeInteger x) eqn:S; cbn [negb orb] in Ea; [|done].
    destruct (num_ltb x (Int 0)) eqn:N; [done|]. apply Ok_inj in Ea as <-.
    apply isSafeInteger_spec in S as [S _]. rewrite S, num_ltb_Int in N. by apply Z.ltb_ge.
Qed.
End binding.

(** ** Concrete runs *)
Definition toy_bounds : PolicyBounds := {|
  perActionCeiling := 2; pb_aggregate := Some 1; aggregateCap := Some 3; pb_n := Some (Int 2) |}.
Definition no_policy_proof : PolicySatisfactionProof :=
  {| psp_n := NaN; psp_ceiling := no_proof; psp_aggregate := None |}.
Definition toy_policy_proof (X : Xof) : PolicySatisfactionProof :=
  match provePolicySatisfaction (X := X) 2 77 toy_bounds 0 with Ok (p, _) => p | Throw _ => no_policy_proof end.

Example policy_runs :
  verifyPolicySatisfaction (commit 2 77) toy_bounds (toy_policy_proof toy_xof) = true /\
  verifyPolicySatisfaction (commit 2 77) {| perActionCeiling := 2; pb_aggregate := None;
    aggregateCap := Some 3; pb_n := Some (Int 2) |} (toy_policy_proof toy_xof) = false /\
  is_ok (provePolicySatisfaction 3 77 toy_bounds 0) = false.
Proof. vm_compute. done. Qed.

Lemma policy_complete_witness : exists proof i', provePolicySatisfaction 2 77 toy_bounds 0 = Ok (proof, i') /\
  verifyPolicySatisfaction (commit 2 77) toy_bounds proof = true.
Proof.
  apply (policy_complete 2 77 toy_bounds 0); [reflexivity | |].
  - split; [reflexivity | reflexivity |]. intros cap [= <-]. split; [reflexivity|]. exists 1.
    split; [reflexivity | vm_compute; congruence].
  - split; [split|]; vm_compute; congruence.
Defined.

Lemma policy_checks_witness :
  verifyBelow (X := toy_xof) (commit 2 77) 3 (psp_ceiling (toy_policy_proof toy_xof)) (bounds_n toy_bounds) = true.
Proof.
  apply (policy_checks toy_xof (commit 2 77) toy_bounds (toy_policy_proof toy_xof)). vm_compute. reflexivity.
Defined.

Definition toy_intent (a : Z) : ActionIntent := {|
  type_ := "payment.transfer"; resource := "acct/7"; counterparty := Some "c1"; amount := Some (Int a);
  params := None |}.

Lemma policy_digest_binding_witness : exists d,
  policyProofDigest (commit 2 77) toy_bounds (toy_policy_proof toy_xof) "p1" = Ok d /\
  (perActionCeiling toy_bounds = 2 \/ exists b c : bytes, b <> c /\ sha3_256 b = sha3_256 c).
Proof.
  assert (exists d, policyProofDigest (commit 2 77) toy_bounds (toy_policy_proof toy_xof) "p1" = Ok d) as [d E]
    by (eexists; vm_compute; reflexivity).
  exists d. split; [exact E|].
  destruct (policy_digest_binding _ _ _ _ _ _ _ _ d E E) as [(_ & _ & H & _)|(b & c & _ & _ & N & H)];
    [left; reflexivity | right; by exists b, c].
Defined.

Lemma bound_digest_binding_witness : exists d, boundIntentDigest (toy_intent 5) (commit 5 77) [x01] = Ok d /\
  (same_skeleton (toy_intent 5) (toy_intent 5) \/ exists b c : bytes, b <> c /\ sha3_256 b = sha3_256 c).
Proof.
  assert (exists d, boundIntentDigest (toy_intent 5) (commit 5 77) [x01] = Ok d) as [d E]
    by (eexists; vm_compute; reflexivity).
  exists d. split; [exact E|].
  destruct (proj2 (bound_digest_binding _ _ _ _ _ _ d) E E) as [(_ & _ & H)|(b & c & _ & _ & N & H)];
    [by left | right; by exists b, c].
Defined.

Definition toy_bound : res (BoundAmount * nat) := bindAmountCommitment (toy_intent 5) [x01] 0.
Lemma toy_bound_ok : is_ok toy_bound = true.
Proof. vm_compute. reflexivity. Qed.

Lemma bound_amount_checks_witness : exists b k, bindAmountCommitment (toy_intent 5) [x01] 0 = Ok (b, k) /\
  verifyBoundAmount (toy_intent 5) (ba_commitment b) (ba_opening b) (ba_digest b) [x01] = Ok true.
Proof.
  pose proof toy_bound_ok as O. unfold toy_bound in O.
  destruct (bindAmountCommitment (toy_intent 5) [x01] 0) as [[b k]|] eqn:E; [|discriminate O].
  exists b, k. split; [reflexivity|].
  exact (proj1 (bound_amount_checks (toy_intent 5) [x01] 0) b k E).
Defined.
