(* ===== verification/Suite.v ===== *)
(** * conformance/: the conformance suite

    src/conformance/src/suite.ts: the checks the program calls its guarantees,
    each of them a run across the packages.  A check's fresh keys, salts and
    coins are the draws of a stream; its verdict is a boolean or an exception. *)
From stdpp Require Import pretty.
From S2P Require Import Prelude JsNum JsVal Crypto Concrete Seal Cose SupplyChain Grant Capability Kernel Merkle TransLog Sortition Vrf Leader Chain Governance Permit HbsState Keystore Negative Cnsa Cbom Receipts Attest Node Group ZkRange PolicyProof.
Open Scope string_scope.
Open Scope Z_scope.
Open Scope list_scope.

Record ConformanceResult := { r_id : string; r_name : string; r_passed : bool; r_detail : string }.
Record ConformanceReport := {
  rp_ok : bool; rp_passed : Z; rp_total : Z; rp_results : list ConformanceResult }.

Definition SUITE : string := PS_5.
Definition NOW : num := Int 1750000000.
Definition later (s : Z) : num := num_add NOW (Int s).

Definition check (id name : string) (fn : res bool) : ConformanceResult :=
  match fn with
  | Ok passed => {| r_id := id; r_name := name; r_passed := passed;
      r_detail := if passed then "ok" else "assertion returned false" |}
  | Throw e => {| r_id := id; r_name := name; r_passed := false; r_detail := "threw: " +:+ e |}
  end.

(** [!x] of a call that may throw *)
Definition notM (c : res bool) : res bool := b ← c; Ok (negb b).
Definition throws {A} (c : res A) : bool := match c with Ok _ => false | Throw _ => true end.
(** [b[0] ^= 1] *)
Definition flip_first (b : bytes) : bytes :=
  match b with x :: b' => byte_of_Z (Z.lxor (Z_of_byte x) 1) :: b' | [] => [] end.

(** The value the checks give [fill]. *)
Definition filled (n : nat) (z : Z) : bytes := repeat (byte_of_Z z) n.

Definition pay_intent (resource : string) (amount : num) : ActionIntent := {|
  type_ := "payment.transfer"; resource := resource; counterparty := None; amount := Some amount;
  params := None |}.

(** The root grant of C5, C6, C8, C14 and C22. *)
Definition pay_root (subject : string) (delegable : bool) : RootGrantSpec := {|
  rs_subject := subject; rs_actions := ["payment.transfer"]; rs_perActionCeiling := Some (Int 1000);
  rs_aggregateCap := None; rs_counterparties := None; rs_maxTier := Int 2; rs_notBefore := Int 0;
  rs_notAfter := later 1000; rs_delegable := delegable |}.

Definition with_sigId (s : Suite) (id : string) : Suite := {|
  suite_id := suite_id s; status := status s; category := category s; preference := preference s;
  kemId := kemId s; sigId := id; aeadId := aeadId s; macId := macId s; hashId := hashId s |}.

(** [getSuite(id)] of an id of the registry *)
Definition the_suite (id : string) : res Suite :=
  s ← getSuite id; match s with Some s => Ok s | None => Throw "undefined" end.

(** The engine of C18: the first index is a fault. *)
Definition fault_engine : HbsSignEngine := {|
  getRoot := fun _ => Ok [x01];
  signWithIndex := fun _ i _ => if i =? 0 then Throw "fault" else Ok [byte_of_Z i];
  engine_params := fun _ => Ok {| family := LMS; multiTree := false; hbs_hash := "SHA-256/192";
                                  hbs_height := Int 2 |} |}.

Section suite.
Context {L : Lib} {KG : KeyGen} {SL : SealLib} {C : Ed25519} {G : Group} {X : Xof} {R : Random}.
(** The draws of a check, in order, and the perception vectors of C14. *)
Context (draw : nat -> bytes) (vectors : list (string * jsval)).

(** [signerFor(SUITE).keygen()], the [k]-th draw *)
Definition fresh (k : nat) : res KeyPair := s ← signerFor SUITE; keygen (scheme_id s) (draw k).
Definition hex_of (kp : KeyPair) : string := bytesToHex (publicKey kp).

Definition C1 : res bool :=
  n ← negotiate [PS_1; PS_5] [PS_5; PS_1];
  Ok (bool_decide (n = PS_5) && negb (includes activeSuiteIds PS_5_HQC)).

Definition C2 : res bool :=
  s ← the_suite SUITE;
  kem ← usable_kem (kemId s);
  kp ← keygen_kem kem (draw 0);
  ct ← encapsulate kem (publicKey kp) (draw 1);
  ss ← decapsulate kem ct.1 (secretKey kp);
  Ok (bool_decide (bytesToHex ss = bytesToHex ct.2)).

Definition C3 : res bool :=
  s ← signerFor SUITE;
  kp ← fresh 0;
  let msg := utf8 "conformance" in
  sg ← scheme_sign s msg (secretKey kp) None;
  good ← scheme_verify s sg msg (publicKey kp) None;
  if negb good then Ok false else
  notM (scheme_verify s sg (flip_first msg) (publicKey kp) None).

Definition C4 : res bool :=
  x ← encodeCanonical (VObj [("a", VNum (Int 1)); ("b", VNum (Int 2))]);
  y ← encodeCanonical (VObj [("b", VNum (Int 2)); ("a", VNum (Int 1))]);
  Ok (bool_decide (bytesToHex x = bytesToHex y)).

(** [cap.chain[i]!.grant] *)
Definition grant_at (c : Capability) (i : nat) : res CapabilityGrant :=
  match Capability.chain c !! i with Some l => Ok (Capability.grant l) | None => Throw "undefined" end.

Definition C5 : res bool :=
  authority ← fresh 0;
  holder ← fresh 1;
  delegatee ← fresh 2;
  root ← issueRoot (pay_root (hex_of holder) true) SUITE authority;
  child ← Capability.attenuate root {| r_actions := None; r_perActionCeiling := Some (Int 100);
    r_aggregateCap := None; r_counterparties := None; r_maxTier := None; r_notBefore := None;
    r_notAfter := None; r_delegable := None |} (hex_of delegatee) holder;
  let intent := pay_intent "r" (Int 500) in
  let ctx := {| now := NOW; tier := Int 2; observedAggregate := Int 0; holder := None |} in
  g0 ← grant_at root 0;
  g1 ← grant_at child 1;
  Ok (authorizesIntent g0 intent ctx && negb (authorizesIntent g1 intent ctx)).

(** The kernel input of C6 and C14. *)
Definition pay_input (cap : Capability) (authority agent : KeyPair) (resource : string) : KernelInput := {|
  Kernel.intent := pay_intent resource (Int 500); Kernel.capabilities := [cap];
  Kernel.policy := DEFAULT_POLICY; Kernel.trustedRoots := [publicKey authority]; in_now := NOW;
  in_observedAggregate := Int 0; in_holder := Some (hex_of agent); in_revoked := None |}.
Definition no_capabilities (i : KernelInput) : KernelInput := {|
  Kernel.intent := Kernel.intent i; Kernel.capabilities := []; Kernel.policy := Kernel.policy i;
  Kernel.trustedRoots := Kernel.trustedRoots i; in_now := in_now i;
  in_observedAggregate := in_observedAggregate i; in_holder := in_holder i; in_revoked := in_revoked i |}.

(** [replay(b).receiptHash] *)
Definition receipt_hash (b : ReplayBundle) : res string :=
  match replay b with Some r => r ← r; Ok (receiptHash r) | None => Throw "undefined" end.

Definition C6 : res bool :=
  authority ← fresh 0;
  agent ← fresh 1;
  cap ← issueRoot (pay_root (hex_of agent) false) SUITE authority;
  let input := pay_input cap authority agent "r" in
  let denyNoCap := bool_decide (effect (Kernel.decide (no_capabilities input)) = deny) in
  b ← buildReplayBundle input;
  h1 ← receipt_hash b;
  h2 ← receipt_hash b;
  Ok (denyNoCap && bool_decide (h1 = h2) && bool_decide (effect (Kernel.decide input) = allow)).

Definition C7 : res bool :=
  issuer ← fresh 0;
  receipt ← buildReceipt {| bp_suite := SUITE; bp_evaluator := "v"; bp_effect := "allow"; bp_tier := Int 2;
    bp_jurisdiction := "US"; bp_timestamp := NOW; bp_intent := VObj [("type", VStr "payment.transfer")];
    bp_capability := None; bp_policy := policy_val DEFAULT_POLICY; bp_inputHash := "aa";
    bp_decisionHash := "bb"; issuerSecretKey := secretKey issuer; issuerPublicKey := publicKey issuer;
    bp_intentSalt := None |} (draw 1);
  leaf ← receiptLeaf receipt;
  let (log, a) := append {| entries := [] |} leaf in
  w ← proveInclusion log (num_Z (ar_index a));
  good ← verifyReceiptInclusion receipt w (log_root log) (publicKey issuer);
  other ← fresh 2;
  bad ← verifyReceiptInclusion receipt w (log_root log) (publicKey other);
  Ok (ev_ok good && negb (ev_ok bad)).

(** The session and node of C8 and C22. *)
Definition pay_session (agent attester : KeyPair) (fill : Z) : res Session :=
  ev ← produce SUITE attester "s" (hex_of agent) "n" (later 300);
  Ok {| s_sessionId := "s"; sessionKey := filled 48 fill; s_claims := ev_claims ev |}.
Definition pay_node (authority issuer : KeyPair) : NodeConfig := {|
  cfg_suite := SUITE; cfg_policy := DEFAULT_POLICY; cfg_trustedRoots := [publicKey authority];
  cfg_issuer := issuer; cfg_jurisdiction := "US"; permitTtlSeconds := Int 30;
  sessionRootSecret := None; requireAttestedSession := false |}.
Definition pay_request (cap : Capability) (session : Session) (audience : string) : AdmissionRequest := {|
  rq_intent := pay_intent audience (Int 500); rq_capabilities := [cap]; rq_session := session;
  rq_audience := audience; rq_now := NOW; rq_observedAggregate := Int 0; rq_revoked := None |}.
Definition admit_once (cfg : NodeConfig) (req : AdmissionRequest) (salt : bytes) : res AdmissionOutcome :=
  match nodeAdmit cfg {| entries := [] |} req salt with
  | Some (_, o) => o
  | None => Throw "undefined"
  end.
Definition pay_check (audience : string) (amount : Z) : PermitCheck := {|
  ck_audience := audience; ck_intent := pay_intent audience (Int amount); ck_now := later 1;
  ck_sessionId := None; expectedEffect := None |}.

Definition C8 : res bool :=
  authority ← fresh 0;
  agent ← fresh 1;
  issuer ← fresh 2;
  attesterKey ← fresh 3;
  session ← pay_session agent attesterKey 7;
  cap ← issueRoot (pay_root (hex_of agent) false) SUITE authority;
  out ← admit_once (pay_node authority issuer) (pay_request cap session "acct://x") (draw 4);
  match o_permit out with
  | None => Ok false
  | Some permit =>
      audienceKey ← deriveAudiencePermitKey (sessionKey session) "acct://x";
      ok ← verifyPermitForAction permit audienceKey (pay_check "acct://x" 500);
      replayDifferent ← verifyPermitForAction permit audienceKey
        {| ck_audience := "acct://x"; ck_intent := pay_intent "acct://x" (Int 600); ck_now := later 1;
           ck_sessionId := None; expectedEffect := None |};
      Ok (pv_ok ok && negb (pv_ok replayDifferent))
  end.

Definition C9 : res bool :=
  m0 ← fresh 0;
  m1 ← fresh 1;
  m2 ← fresh 2;
  let quorum := {| members := [hex_of m0; hex_of m1; hex_of m2]; threshold := Int 2 |} in
  let base id := {| p_id := id; Governance.kind := revoke; Governance.target := "cap-x";
    Governance.payload := ""; Governance.notBefore := Int 0; Governance.notAfter := later 1000;
    Governance.nonce := "n" |} in
  id ← proposalId (base "");
  let p := base id in
  a0 ← approve p SUITE m0 quorum;
  a1 ← approve p SUITE m1 quorum;
  let two := enacted (enact p [a0; a1] quorum NOW) in
  let one := enacted (enact p [a0] quorum NOW) in
  Ok (two && negb one).

Definition appended (l : TransparencyLog) (from n : nat) : TransparencyLog :=
  fold_left (fun l i => (append l (utf8 ("r" +:+ pretty (Z.of_nat i)))).1) (seq from n) l.

Definition C10 : res bool :=
  let log3 := appended {| entries := [] |} 0 3 in
  let from := length (entries log3) in
  let log := appended log3 3 5 in
  w ← proveConsistency log (Z.of_nat from);
  op ← fresh 0;
  sA ← signTreeHead (Int 4) (utf8 "root-A") SUITE op;
  sB ← signTreeHead (Int 4) (utf8 "root-B") SUITE op;
  let eq := detectEquivocation [sA; sB] in
  Ok (checkConsistency w && bool_decide (length eq = 1%nat)).

(** The default bit length of the range proofs. *)
Definition C11 : res bool :=
  let r := randScalar 0 in
  let Cm := commit 40 r in
  p ← proveBelow 40 r 100 (Int 32) 1;
  Ok (verifyBelow Cm 100 p.1 (Int 32) && negb (verifyBelow Cm 50 p.1 (Int 32))).

Definition sample_body : ReceiptBody := {|
  rb_suite := SUITE; rb_evaluator := "v"; rb_effect := "allow"; rb_tier := Int 2;
  rb_jurisdiction := "US"; rb_timestamp := NOW;
  rb_commitments := {| c_intent := "aa"; c_capability := "none"; c_policy := "bb"; c_inputHash := "cc";
                       c_decisionHash := "dd" |} |}.
Definition staked (kps : list KeyPair) : ValidatorSet := {|
  validators := map (fun kp => {| pubkey := hex_of kp; Sortition.stake := VBig 1; vrfPubkey := None |}) kps;
  epoch := None |}.

Definition C12 : res bool :=
  v0 ← fresh 0;
  v1 ← fresh 1;
  v2 ← fresh 2;
  let set := staked [v0; v1; v2] in
  let k := Int 2 in
  let ep := Int 1 in
  r2 ← buildQuorumReceipt sample_body set k ep [v0; v1] SUITE;
  two ← verifyQuorumReceipt r2 set k ep;
  r1 ← buildQuorumReceipt sample_body set k ep [v0] SUITE;
  one ← verifyQuorumReceipt r1 set k ep;
  atk ← fresh 3;
  rs ← buildQuorumReceipt sample_body (staked [v0; atk]) (Int 2) ep [v0; atk] SUITE;
  substituted ← verifyQuorumReceipt rs set k ep;
  Ok (qv_ok two && negb (qv_ok one) && negb (qv_ok substituted)).

Definition bounds (ceiling : Z) : PolicyBounds := {|
  PolicyProof.perActionCeiling := ceiling; pb_aggregate := None; PolicyProof.aggregateCap := None;
  pb_n := None |}.

Definition C13 : res bool :=
  let (c, i) := commitAmount 40 0 in
  p ← provePolicySatisfaction 40 (ac_opening c) (bounds 100) i;
  let good := verifyPolicySatisfaction (ac_commitment c) (bounds 100) p.1 in
  let tighter := negb (verifyPolicySatisfaction (ac_commitment c) (bounds 30) p.1) in
  let cannotForge := throws (provePolicySatisfaction 150 (ac_opening c) (bounds 100) p.2) in
  Ok (good && tighter && cannotForge).

Definition C14 : res bool :=
  authority ← fresh 0;
  agent ← fresh 1;
  cap ← issueRoot (pay_root (hex_of agent) false) SUITE authority;
  v ← runNegativeOracle Kernel.decide (pay_input cap authority agent "acct://x") vectors;
  Ok (invariant v).

Definition C15 : res bool :=
  s5 ← the_suite PS_5;
  s1 ← the_suite PS_1;
  let ps5 := assessCnsa20 s5 in
  let ps1 := assessCnsa20 s1 in
  Ok (ca_conformant ps5 && negb (pureCnsa ps5) && negb (ca_conformant ps1)).

(** A leaf appended to an empty log is included under its root. *)
Definition anchored (leaf : bytes) : res bool :=
  let (log, a) := append {| entries := [] |} leaf in
  w ← proveInclusion log (num_Z (ar_index a));
  Ok (checkInclusion w (log_root log)).

Definition C16 : res bool :=
  issuer ← fresh 0;
  v ← assertCnsa_id PS_5 (Int 0);
  if negb (cv_conformant v && bool_decide (level v = "CNSA-2.0-Cat5-transitional")) then Ok false else
  env ← signCnsaVerdict v SUITE (secretKey issuer);
  other ← fresh 1;
  let verified := verifyCnsaVerdict env (publicKey issuer) None &&
                  negb (verifyCnsaVerdict env (publicKey other) None) in
  leaf ← cnsaVerdictLeaf env;
  anch ← anchored leaf;
  v1 ← assertCnsa_id PS_1 (Int 0);
  Ok (verified && anch && negb (cv_conformant v1)).

Definition C17 : res bool :=
  issuer ← fresh 0;
  let cbom := buildCbom NOW in
  if negb (includes (quantumVulnerable cbom) "P-384") || negb (includes (quantumVulnerable cbom) "X25519")
  then Ok false else
  if includes (quantumVulnerable cbom) "ML-KEM-1024" then Ok false else
  env ← signCbom cbom SUITE (secretKey issuer);
  other ← fresh 1;
  let verified := verifyCbom env (publicKey issuer) None && negb (verifyCbom env (publicKey other) None) in
  leaf ← cbomLeaf env;
  anch ← anchored leaf;
  Ok (verified && anch).

(** [findings.find((f) => f.component === 'signature')!.status] *)
Definition sigStatus (base : Suite) (id : string) : res CnsaStatus :=
  match find (fun f => bool_decide (component f = c_signature)) (ca_findings (assessCnsa20 (with_sigId base id))) with
  | Some f => Ok (cf_status f)
  | None => Throw "undefined"
  end.

Definition C18 : res bool :=
  base ← the_suite PS_5;
  lms ← sigStatus base "LMS-SHA256-M24";
  mt ← sigStatus base "XMSSMT-SHA2_20-2_256";
  let '(st, _, r1) := HbsState.sign (S := SoftwareOtsStateStore) (E := fault_engine)
    (∅ : gmap string ots) "k" [x01] in
  let '(_, _, r2) := HbsState.sign (S := SoftwareOtsStateStore) (E := fault_engine) st "k" [x01] in
  sig2 ← r2;
  Ok (bool_decide (lms = Cnsa.conformant) && bool_decide (mt = non_conformant) && throws r1 &&
      bool_decide (head sig2 = Some (byte_of_Z 1))).

Definition C19 : res bool :=
  kp ← fresh 0;
  msg ← coseSign1 (utf8 "m") SUITE (secretKey kp) ML_DSA_87 [];
  ok ← coseSign1Verify msg SUITE (publicKey kp) ML_DSA_87 [];
  other ← fresh 1;
  badKey ← notM (coseSign1Verify msg SUITE (publicKey other) ML_DSA_87 []);
  badAlg ← notM (coseSign1Verify msg SUITE (publicKey kp) ML_DSA_65 []);
  eat ← signEatResult (utf8 "n") [("result", VStr "affirming")] SUITE (secretKey kp) ML_DSA_87;
  wire ← encodeCoseSign1 eat;
  back ← decodeCoseSign1 wire;
  eatOk ← coseSign1Verify back SUITE (publicKey kp) ML_DSA_87 (coseProfileAad EAT_RESULT);
  noCross ← notM (coseSign1Verify eat SUITE (publicKey kp) ML_DSA_87 (coseProfileAad Cose.SLSA_PROVENANCE));
  Ok (ok && badKey && badAlg && eatOk && noCross).

(** ['ab'.repeat(n)] *)
Definition repeated (n : nat) (s : string) : string := String.concat "" (repeat s n).

Definition C20 : res bool :=
  kp ← fresh 0;
  sbomSig ← signSupplyChainStatement (sbom_val (buildSbom NERION_DEPENDENCIES NOW "PolarSeek")) SUITE (secretKey kp);
  let prov := buildSlsaProvenance {| so_subjectName := "polarseek"; so_subjectSha256 := repeated 32 "ab";
    so_buildType := "https://polarseek/bt/v1"; so_builderId := "https://polarseek/builder";
    so_dependencies := None; so_now := Some NOW |} in
  provSig ← signSupplyChainStatement (provenance_val prov) SUITE (secretKey kp);
  v1 ← verifySupplyChainStatement sbomSig SUITE (publicKey kp) Cose.CYCLONEDX_SBOM;
  v2 ← verifySupplyChainStatement provSig SUITE (publicKey kp) Cose.SLSA_PROVENANCE;
  x1 ← verifySupplyChainStatement sbomSig SUITE (publicKey kp) Cose.SLSA_PROVENANCE;
  x2 ← verifySupplyChainStatement provSig SUITE (publicKey kp) Cose.CYCLONEDX_SBOM;
  other ← fresh 1;
  badKey ← notM (verifySupplyChainStatement sbomSig SUITE (publicKey other) Cose.CYCLONEDX_SBOM);
  leaf ← supplyChainLeaf provSig;
  anch ← anchored leaf;
  Ok (v1 && v2 && (negb x1 && negb x2) && badKey && anch).

Definition C21 : res bool :=
  let intent := pay_intent "vendor-acme" (Int 500) in
  let salt := firstn 16 (draw 0) in
  b ← bindAmountCommitment intent salt 0;
  let bound := b.1 in
  good ← verifyBoundCommitment intent (ba_commitment bound) (ba_digest bound) salt;
  full ← verifyBoundAmount intent (ba_commitment bound) (ba_opening bound) (ba_digest bound) salt;
  let other := (commitAmount 1 b.2).1 in
  rejectsSub ← notM (verifyBoundCommitment intent (ac_commitment other) (ba_digest bound) salt);
  rejectsBadOpening ← notM (verifyBoundAmount intent (ba_commitment bound) (ba_opening bound + 1)
    (ba_digest bound) salt);
  rejectsWrongSalt ← notM (verifyBoundCommitment intent (ba_commitment bound) (ba_digest bound) (firstn 16 (draw 1)));
  Ok (good && full && rejectsSub && rejectsBadOpening && rejectsWrongSalt).

Definition C22 : res bool :=
  authority ← fresh 0;
  agent ← fresh 1;
  issuer ← fresh 2;
  attesterKey ← fresh 3;
  session ← pay_session agent attesterKey 9;
  cap ← issueRoot (pay_root (hex_of agent) false) SUITE authority;
  out ← admit_once (pay_node authority issuer) (pay_request cap session "acct://A") (draw 4);
  match o_permit out with
  | None => Ok false
  | Some permit =>
      keyA ← deriveAudiencePermitKey (sessionKey session) "acct://A";
      keyB ← deriveAudiencePermitKey (sessionKey session) "acct://B";
      let distinct := negb (bool_decide (bytesToHex keyA = bytesToHex keyB)) in
      okA ← verifyPermitForAction permit keyA (pay_check "acct://A" 500);
      underB ← verifyPermitForAction permit keyB
        {| ck_audience := "acct://B"; ck_intent := pay_intent "acct://A" (Int 500); ck_now := later 1;
           ck_sessionId := None; expectedEffect := None |};
      ah ← actionHash (pay_intent "acct://A" (Int 500));
      let d := o_decision out in
      forged ← issuePermit (claims_val {| pc_sessionId := "s"; pc_nonce := cl_nonce (s_claims session);
        pc_audience := "acct://A"; pc_actionHash := ah; pc_tier := Int (tier_Z (dec_tier d));
        pc_exp := later 30; pc_evaluator := dec_evaluatorVersion d; pc_effect := effect_str (effect d) |})
        SUITE keyB;
      underA ← verifyPermitForAction forged keyA (pay_check "acct://A" 500);
      Ok (distinct && pv_ok okA && negb (pv_ok underB) && negb (pv_ok underA))
  end.

Definition C23 : res bool :=
  let intent := intent_val (pay_intent "acct://A" (Int 500)) in
  let salt := filled 16 90 in
  salted ← commitField intent (Some salt);
  unsalted ← commitField intent None;
  discloses ← verifyDisclosure salted intent (Some salt);
  needsSalt ← notM (verifyDisclosure salted intent None);
  wrongSalt ← notM (verifyDisclosure salted intent (Some (filled 16 107)));
  Ok (negb (bool_decide (salted = unsalted)) && discloses && needsSalt && wrongSalt).

Definition no_opts : VerifyOpts := {| expectedHeight := None; expectedSuite := None |}.

Definition C24 : res bool :=
  k0 ← fresh 0;
  k1 ← fresh 1;
  k2 ← fresh 2;
  let keys := [k0; k1; k2] in
  let set_at e := {| validators := zip_with (fun k s =>
      {| pubkey := hex_of k; Sortition.stake := VBig s; vrfPubkey := None |}) keys [34; 33; 33];
    epoch := Some e |} in
  let set0 := set_at (Int 0) in
  let set1 := set_at (Int 1) in
  let ledger0 := new_ledger set0 SUITE (Int 2) (Int 3) in
  leader ← selectLeader set0 GENESIS_PREV (Int 0);
  match find (fun k => bool_decide (hex_of k = leader)) keys with
  | None => Throw "undefined"
  | Some proposer =>
      block ← propose ledger0 (repeated 32 "c2") (Int 0) NOW proposer;
      atts ← mapM (attest ledger0 block) keys;
      own ← verifyFinalized block atts set0 GENESIS_PREV (Int 2) (Int 3) no_opts;
      other ← verifyFinalized block atts set1 GENESIS_PREV (Int 2) (Int 3) no_opts;
      Ok (finalized own && negb (finalized other))
  end.

Definition CHECKS : list ConformanceResult := [
  check "C1" "SuiteID negotiation prefers Cat-5 and excludes pending" C1;
  check "C2" "Hybrid KEM round-trips" C2;
  check "C3" "ML-DSA signatures verify and reject tampering" C3;
  check "C4" "Canonical CBOR is key-order independent" C4;
  check "C5" "Capability attenuation never amplifies" C5;
  check "C6" "Kernel default-denies and replays byte-identically" C6;
  check "C7" "Receipt verifies externally and rejects tampering" C7;
  check "C8" "PermitToken is action-bound (replay rejected)" C8;
  check "C9" "Governance enacts at threshold, not below" C9;
  check "C10" "Transparency consistency proof verifies; equivocation detected" C10;
  check "C11" "ZK range proof hides amount and binds to threshold" C11;
  check "C12" "Quorum receipt finalizes at k (not below); rejects set substitution" C12;
  check "C13" "Policy-satisfaction proof verifies in-bound amount, hides it, rejects out-of-bound" C13;
  check "C14" "Govern the verb: the decision is invariant to perception-shaped inputs" C14;
  check "C15" "CNSA 2.0 oracle: PS-5 is conformant (ML-DSA-87/ML-KEM-1024/AES-256/SHA-384); PS-1 is not" C15;
  check "C16" "CNSA 2.0 signed verdict: PS-5 conformant-transitional, signed+anchored+verified; PS-1 rejected" C16;
  check "C17" "CBOM inventories active suites, flags quantum-vulnerable legs (P-384/X25519), signs+anchors+verifies" C17;
  check "C18" "CNSA 2.0 code-signing: single-tree LMS conformant / HSS multi-tree excluded; reserve-before-sign never reuses an OTS index" C18;
  check "C19" "COSE_Sign1 (RFC 9052) over ML-DSA-87 verifies, binds alg, rejects tamper; RATS/EAT result round-trips" C19;
  check "C20" "Signed SBOM + SLSA provenance (COSE_Sign1) verify and anchor; wrong key rejected" C20;
  check "C21" "v:2 structural binding ties the amount commitment to its intent (rejects substitution + wrong opening)" C21;
  check "C22" "Plane-1 permits are per-audience key-bound (cross-audience forgery rejected)" C22;
  check "C23" "v:1 intent commitment is salted/hiding (low-entropy fields not brute-forceable from the leaf)" C23;
  check "C24" "ADR-0020/B5: a validator-set attestation bundle does NOT finalize under a different reconfiguration epoch (cross-epoch set-substitution rejected)" C24].

Definition report_of (results : list ConformanceResult) : ConformanceReport :=
  let passed := Z.of_nat (length (List.filter r_passed results)) in
  {| rp_ok := passed =? Z.of_nat (length results); rp_passed := passed;
     rp_total := Z.of_nat (length results); rp_results := results |}.
Definition runConformance : ConformanceReport := report_of CHECKS.
End suite.

(** ** What the checks say of every library

    The checks that no forgery and no hash collision can upset: over libraries
    that satisfy their laws and do not throw on the checks' own inputs they
    return true, whatever is drawn. *)

(** The values the checks encode: no [undefined], no [Map], and no numbers but
    safe integers. *)
Fixpoint plain (v : jsval) : bool :=
  match v with
  | VUndef | VBig _ | VMap _ => false
  | VNum n => isSafeInteger n
  | VArr l => forallb plain l
  | VObj fs => forallb (fun kv => plain kv.2) fs
  | VNull | VBool _ | VStr _ | VBytes _ => true
  end.

Lemma plain_strs l : plain (VStrs l) = true.
Proof. unfold VStrs. cbn [plain]. by induction l. Qed.

(** What does not throw: the encoder on such values, key generation on the
    seeds of the run, signing under a generated key, and encapsulation to a
    generated key. *)
Class NoThrow {L : Lib} {KG : KeyGen} {SL : SealLib} (kpr : bytes -> bytes -> Prop)
    (kempair : string -> bytes -> bytes -> Prop) (draw : nat -> bytes) : Prop := {
  encodes : forall v, plain v = true -> exists b, cbor_encode v = Ok b;
  draws : forall k, exists kp, keygen "ML-DSA-87" (draw k) = Ok kp;
  signs : forall pk sk m, kpr pk sk -> exists s, ml_dsa87_sign m sk None = Ok s;
  kem_draws : forall id, exists kp, kem_keygen id (draw 0%nat) = Ok kp;
  encapsulates : forall id pk sk, kempair id pk sk -> exists r, kem_encapsulate id pk (draw 1%nat) = Ok r }.

Section lawful.
Context {L : Lib} {KG : KeyGen} {SL : SealLib} {CL : CborLaws L} {HL : HexLaws L}.
Context {kpr : bytes -> bytes -> Prop} {SG : SigLaws L kpr} {KL : KeyGenLaws kpr}.
Context {kempair : string -> bytes -> bytes -> Prop} {KEM : SealLaws kempair}.
Context (kem_pair : forall id seed kp, kem_keygen id seed = Ok kp ->
  kempair id (publicKey kp) (secretKey kp)).
Context (draw : nat -> bytes) (vectors : list (string * jsval)).
Context {NT : NoThrow kpr kempair draw}.

(** Takes the next bind of a run apart. *)
Tactic Notation "next" hyp(H) ident(x) := let E := fresh "E" x in apply bind_ok in H as (x & E & H).

Lemma suite_active : SUITE ∈ activeSuiteIds.
Proof. rewrite activeSuiteIds_eq. left. Qed.

Lemma fresh_pair k kp : fresh draw k = Ok kp -> kpr (publicKey kp) (secretKey kp).
Proof. unfold fresh. intros H. next H s. by eapply keygen_pair. Qed.

(** The grant [issueRoot] signs says what the spec says. *)
Lemma issueRoot_grant spec suite authority cap : issueRoot spec suite authority = Ok cap ->
  exists l, Capability.chain cap = [l] /\ link_suite l = suite /\ exists id, Capability.grant l = {|
    grant_id := id; issuer := hex_of authority; subject := rs_subject spec;
    actions := rs_actions spec; Grant.perActionCeiling := rs_perActionCeiling spec;
    Grant.aggregateCap := rs_aggregateCap spec; counterparties := rs_counterparties spec;
    maxTier := rs_maxTier spec; Grant.notBefore := rs_notBefore spec; Grant.notAfter := rs_notAfter spec;
    delegable := rs_delegable spec |}.
Proof.
  unfold issueRoot. intros H. next H id. next H signer. next H msg. next H sg.
  apply Ok_inj in H as <-. eexists. split; [reflexivity|]. split; [done|]. by exists id.
Qed.

Lemma C2_true b : C2 draw = Ok b -> b = true.
Proof.
  unfold C2. intros H. next H s. next H kem. next H kp. next H ct. next H ss. apply Ok_inj in H as <-.
  unfold usable_kem, getKem in Ekem. apply bool_decide_eq_true.
  assert (kem = wrap_kem (kemId s)) as ->.
  { unfold the_suite, getSuite in Es. cbn in Es. apply Ok_inj in Es as <-. by apply Ok_inj in Ekem. }
  cbn [keygen_kem encapsulate decapsulate wrap_kem] in *. apply kem_pair in Ekp.
  destruct ct as [ct sh]. cbn [fst snd] in *. rewrite (kem_correct _ _ _ _ _ _ Ekp Ect) in Ess.
  by apply Ok_inj in Ess as ->.
Qed.

Lemma C4_true b : C4 = Ok b -> b = true.
Proof.
  unfold C4. intros H. next H x. next H y. apply Ok_inj in H as <-. apply bool_decide_eq_true.
  unfold encodeCanonical in *. rewrite (cbor_obj_order _ [("b", VNum (Int 2)); ("a", VNum (Int 1))]) in Ex.
  - congruence.
  - by apply (bool_decide_unpack _); vm_compute.
  - apply perm_swap.
Qed.

Lemma C5_true b : C5 draw = Ok b -> b = true.
Proof.
  unfold C5. intros H. next H authority. next H holder. next H delegatee. next H root. next H child.
  cbv zeta in H. next H g0. next H g1. apply Ok_inj in H as <-.
  destruct (issueRoot_grant _ _ _ _ Eroot) as (l & El & Sl & id & Gl).
  unfold grant_at in Eg0. rewrite El in Eg0. cbn in Eg0. apply Ok_inj in Eg0 as <-. rewrite Gl.
  unfold Capability.attenuate in Echild. next Echild pt. unfold Capability.tail in Ept. rewrite El in Ept.
  cbn in Ept. apply Ok_inj in Ept as <-. destruct (negb _) in Echild; [done|].
  destruct (negb _) in Echild; [done|]. cbv zeta in Echild. next Echild id'.
  destruct (negb _) in Echild; [done|]. next Echild signer. next Echild msg. next Echild sg.
  apply Ok_inj in Echild as <-. unfold grant_at in Eg1. rewrite El in Eg1. cbn in Eg1.
  apply Ok_inj in Eg1 as <-. rewrite Gl. by vm_compute.
Qed.

Lemma no_capability_denied i : effect (Kernel.decide (no_capabilities i)) = deny.
Proof.
  unfold Kernel.decide. destruct (decide_cases (no_capabilities i)) as [(A & _)|(_ & E & _)]; [|done].
  destruct (ad_cap _ A) as (h & cap & _ & Hc & _). by apply elem_of_nil in Hc.
Qed.

Lemma C6_true b : C6 draw = Ok b -> b = true.
Proof.
  unfold C6. intros H. next H authority. next H agent. next H cap. cbv zeta in H. next H bundle.
  next H h1. next H h2. apply Ok_inj in H as <-. rewrite no_capability_denied, !bool_decide_true by congruence.
  cbn [andb]. apply bool_decide_eq_true. set (input := pay_input cap authority agent "r") in *.
  destruct (issueRoot_grant _ _ _ _ Ecap) as (l & El & Sl & id & Gl).
  assert (A : Admissible input).
  { constructor; [|by vm_compute|by vm_compute|cbn; unfold MAX_CANDIDATES; lia|].
    - unfold buildReplayBundle in Ebundle. next Ebundle x. next Ebundle ev. by rewrite Eev.
    - exists (hex_of agent), cap. split; [done|]. split; [left|]. constructor.
      + eapply (issueRoot_verifies _ SUITE authority); [by eapply fresh_pair | apply suite_active | left | done].
      + intros l' _. unfold revoked_set. cbn. apply not_elem_of_empty.
      + exists (Capability.grant l). unfold effectiveGrant, Capability.tail. rewrite El. cbn. by rewrite Gl.
      + intros l'. rewrite El. intros ->%list_elem_of_singleton. rewrite Gl. by vm_compute. }
  unfold Kernel.decide. destruct (decide_cases input) as [(_ & h & c & _ & _ & _ & _ & _ & _ & _ & E)|(N & _)];
    [by rewrite E | by destruct N].
Qed.

Lemma C14_true b : C14 draw vectors = Ok b -> b = true.
Proof.
  unfold C14. intros H. next H authority. next H agent. next H cap. next H v. apply Ok_inj in H as <-.
  set (input := pay_input cap authority agent "acct://x") in *.
  destruct (fingerprint (Kernel.decide input)) as [f|e] eqn:F.
  - rewrite (oracle_passes input vectors f F) in Ev. by apply Ok_inj in Ev as <-.
  - unfold runNegativeOracle in Ev. by rewrite F in Ev.
Qed.

(** The approval a member makes of a proposal counts, if the proposal's window
    is open: [enact] needs as many different members as the threshold. *)
Lemma approve_verifies p member q a : kpr (publicKey member) (secretKey member) ->
  approve p SUITE member q = Ok a -> verifyApproval p a q = true /\ Governance.signer a = hex_of member.
Proof.
  intros Hk H. unfold approve in H. next H sch. next H qid. next H msg. next H sg.
  apply Ok_inj in H as <-. split; [|done]. unfold verifyApproval. cbn [ap_proposalId ap_suite Governance.signer ap_sig].
  rewrite bool_decide_true by done. cbn [negb]. rewrite Esch. cbn [mbind res_bind]. rewrite Eqid.
  cbn [mbind res_bind]. rewrite Emsg. cbn [mbind res_bind]. rewrite hex_roundtrip. cbn [mbind res_bind].
  assert (V : suite_verify SUITE sg msg (publicKey member) = Ok true).
  { eapply suite_sign_verify; [apply suite_active | done|]. unfold suite_sign. by rewrite Esch. }
  unfold suite_verify in V. rewrite Esch in V. cbn [mbind res_bind] in V. by rewrite V.
Qed.

Lemma C9_true b : (forall k0 k1, fresh draw 0 = Ok k0 -> fresh draw 1 = Ok k1 -> hex_of k0 <> hex_of k1) ->
  C9 draw = Ok b -> b = true.
Proof.
  intros D. unfold C9. intros H. next H m0. next H m1. next H m2. cbv zeta in H. next H pid.
  set (q := {| members := _; threshold := Int 2 |}) in *. set (p := {| p_id := pid |}) in *.
  next H a0. next H a1. apply Ok_inj in H as <-.
  destruct (approve_verifies _ _ _ _ (fresh_pair _ _ Em0) Ea0) as [V0 S0].
  destruct (approve_verifies _ _ _ _ (fresh_pair _ _ Em1) Ea1) as [V1 S1].
  specialize (D m0 m1 Em0 Em1). apply andb_true_iff. split.
  - apply (proj2 (enacted_quorate p [a0; a1] q NOW)).
    + pose proof (List.filter_length_le (by_member q) [a0; a1]) as F. cbn in F.
      etransitivity; [exact F|]. unfold max_verifies. lia.
    + by vm_compute.
    + by vm_compute.
    + exists {[hex_of m0; hex_of m1]}. split.
      * rewrite size_union by set_solver. rewrite !size_singleton. by vm_compute.
      * intros m [->%elem_of_singleton| ->%elem_of_singleton]%elem_of_union; split;
          [cbn; set_solver | exists a0; set_solver | cbn; set_solver | exists a1; set_solver].
  - apply negb_true_iff, not_true_iff_false. intros E.
    destruct (proj1 (enacted_quorate p [a0] q NOW) E) as (_ & _ & X & HX & HA). change (num_Z (threshold q)) with 2 in HX.
    assert (X ⊆ {[hex_of m0]}) as Sub.
    { intros m Hm. destruct (HA m Hm) as (_ & a & ->%list_elem_of_singleton & <- & _). rewrite S0. set_solver. }
    apply subseteq_size in Sub. rewrite size_singleton in Sub. lia.
Qed.

(** *** The checks return *)
(** Runs the next bind of the goal by a fact that the call returns. *)
Tactic Notation "run" constr(H) ident(x) ident(E) :=
  destruct H as [x E]; rewrite E; cbn [mbind res_bind].

Lemma signer_eq : signerFor SUITE = Ok {| scheme_id := "ML-DSA-87"; scheme_sign := ml_dsa87_sign;
  scheme_verify := ml_dsa87_verify |}.
Proof. by vm_compute. Qed.

Lemma fresh_total k : exists kp, fresh draw k = Ok kp.
Proof. unfold fresh. rewrite signer_eq. apply draws. Qed.

Lemma enc_total v : plain v = true -> exists b, encodeCanonical v = Ok b.
Proof. apply encodes. Qed.

Lemma signed_total k kp m : fresh draw k = Ok kp -> exists s, ml_dsa87_sign m (secretKey kp) None = Ok s.
Proof. intros E. eapply signs, fresh_pair, E. Qed.

Lemma deriveId_total g : plain (Capability.body_val g) = true -> exists id, deriveId g = Ok id.
Proof. intros P. unfold deriveId. run (enc_total _ P) b E. by eexists. Qed.

Lemma plain_grant g id : plain (Capability.body_val g) = true ->
  plain (VArr [VStr (tag "CAPABILITY_GRANT"); VStr SUITE; grant_val (with_id g id)]) = true.
Proof. intros P. cbn -[tag] in *. by rewrite P. Qed.

Lemma issueRoot_total subject delegable k authority : fresh draw k = Ok authority ->
  exists cap, issueRoot (pay_root subject delegable) SUITE authority = Ok cap.
Proof.
  intros Hk. unfold issueRoot. cbv zeta. match goal with |- context [deriveId ?g] =>
    assert (P : plain (Capability.body_val g) = true) by (by vm_compute); run (deriveId_total g P) id Ei;
    rewrite signer_eq; cbn [mbind res_bind scheme_sign]; unfold grantSigningMessage;
    run (enc_total _ (plain_grant g id P)) msg Em end.
  run (signed_total k authority msg Hk) sg Es. by eexists.
Qed.

Lemma C2_total : exists b, C2 draw = Ok b.
Proof.
  unfold C2. destruct (the_suite SUITE) as [s|] eqn:Es; [|by vm_compute in Es].
  cbn [mbind res_bind]. destruct (usable_kem (kemId s)) as [kem|] eqn:Ek.
  2: { vm_compute in Es. apply Ok_inj in Es as <-. by vm_compute in Ek. }
  apply usable_kem_ok in Ek as [_ ->]. cbn [mbind res_bind keygen_kem encapsulate decapsulate wrap_kem].
  run (kem_draws (kemId s)) kp Ep. apply kem_pair in Ep.
  run (encapsulates _ _ _ Ep) ct Ec. destruct ct as [ct ss]. cbn [fst snd].
  rewrite (kem_correct _ _ _ _ _ _ Ep Ec). by eexists.
Qed.

Lemma C4_total : exists b, C4 = Ok b.
Proof.
  unfold C4. run (enc_total (VObj [("a", VNum (Int 1)); ("b", VNum (Int 2))]) eq_refl) x Ex.
  run (enc_total (VObj [("b", VNum (Int 2)); ("a", VNum (Int 1))]) eq_refl) y Ey. by eexists.
Qed.

Lemma C5_total : exists b, C5 draw = Ok b.
Proof.
  unfold C5. run (fresh_total 0) authority Ea. run (fresh_total 1) holder Eh.
  run (fresh_total 2) delegatee Ed. run (issueRoot_total (hex_of holder) true 0 authority Ea) root Er.
  destruct (issueRoot_grant _ _ _ _ Er) as (l & El & Sl & id & Gl).
  unfold Capability.attenuate, Capability.tail. rewrite El. cbn [last mbind res_bind].
  rewrite Gl. cbn [delegable subject rs_delegable rs_subject pay_root negb].
  rewrite bool_decide_true by done. cbn [negb]. cbv zeta.
  match goal with |- context [deriveId ?g] =>
    assert (P : plain (Capability.body_val g) = true) by (by vm_compute); run (deriveId_total g P) cid Ei;
    match goal with |- context [isAttenuationOf ?a ?b] =>
      assert (isAttenuationOf a b = true) as -> by
        (unfold isAttenuationOf; rewrite (bool_decide_true (issuer a = subject b)) by done; by vm_compute) end;
    cbn [negb]; rewrite Sl, signer_eq; cbn [mbind res_bind scheme_sign]; unfold grantSigningMessage;
    run (enc_total _ (plain_grant g cid P)) msg Em end.
  run (signed_total 1 holder msg Eh) sg Es. unfold grant_at. cbn [Capability.chain]. rewrite El.
  cbn [app lookup list_lookup mbind res_bind]. by eexists.
Qed.

Lemma plain_tier t : plain (tier_val t) = true.
Proof. by destruct t. Qed.
Lemma plain_fingerprint d : plain (fingerprint_val d) = true.
Proof.
  unfold fingerprint_val. cbn [plain forallb]. by rewrite !plain_strs, plain_tier.
Qed.
Lemma plain_decision s h d : plain (VArr [VStr s; VStr h; decision_val d]) = true.
Proof. unfold decision_val. cbn [plain forallb fst snd]. by rewrite !plain_strs, plain_tier. Qed.

Lemma C14_total : exists b, C14 draw vectors = Ok b.
Proof.
  unfold C14. run (fresh_total 0) authority Ea. run (fresh_total 1) agent Eh.
  run (issueRoot_total (hex_of agent) false 0 authority Ea) cap Er.
  set (input := pay_input cap authority agent "acct://x").
  destruct (enc_total _ (plain_fingerprint (Kernel.decide input))) as [f Ef].
  assert (F : fingerprint (Kernel.decide input) = Ok (bytesToHex f)).
  { unfold fingerprint. by rewrite Ef. }
  rewrite (oracle_passes input vectors _ F). by eexists.
Qed.

Lemma approve_total p q k member : fresh draw k = Ok member ->
  isSafeInteger (threshold q) = true -> isSafeInteger (Governance.notBefore p) = true ->
  isSafeInteger (Governance.notAfter p) = true -> exists a, approve p SUITE member q = Ok a.
Proof.
  intros Hk T N1 N2. unfold approve. rewrite signer_eq. cbn [mbind res_bind scheme_sign].
  unfold quorumId, proposalBytes.
  destruct (enc_total (VArr [VStr GOV_CONTEXT; VStr "quorum";
    VStrs (js_sort str_ltb (members q)); VNum (threshold q)])) as [b E].
  { cbn [plain forallb]. by rewrite plain_strs, T. }
  rewrite E. cbn [mbind res_bind]. match goal with |- context [encodeCanonical ?v] =>
    run (enc_total v ltac:(by cbn [plain forallb]; rewrite N1, N2)) msg Em end.
  run (signed_total k member msg Hk) sg Es. by eexists.
Qed.

Lemma C9_total : exists b, C9 draw = Ok b.
Proof.
  unfold C9. run (fresh_total 0) m0 E0. run (fresh_total 1) m1 E1. run (fresh_total 2) m2 E2.
  cbv zeta. unfold proposalId. match goal with |- context [encodeCanonical ?v] =>
    run (enc_total v ltac:(by vm_compute)) b Eb end.
  match goal with |- context [approve ?p SUITE m0 ?q] =>
    run (approve_total p q 0 m0 E0 eq_refl eq_refl eq_refl) a0 A0;
    run (approve_total p q 1 m1 E1 eq_refl eq_refl eq_refl) a1 A1 end.
  by eexists.
Qed.

(** The library gives the kernel input of C6 back as it was encoded. *)
Definition reads_C6_back : Prop := forall authority agent cap b,
  fresh draw 0 = Ok authority -> fresh draw 1 = Ok agent ->
  issueRoot (pay_root (hex_of agent) false) SUITE authority = Ok cap ->
  cbor_encode (input_val (pay_input cap authority agent "r")) = Ok b ->
  reads_back (pay_input cap authority agent "r") b.

Lemma C6_total : reads_C6_back -> exists b, C6 draw = Ok b.
Proof.
  intros RB. unfold C6. run (fresh_total 0) authority Ea. run (fresh_total 1) agent Eh.
  run (issueRoot_total (hex_of agent) false 0 authority Ea) cap Er. cbv zeta.
  destruct (issueRoot_grant _ _ _ _ Er) as (l & El & Sl & id & Gl).
  set (input := pay_input cap authority agent "r").
  assert (P : plain (input_val input) = true).
  { unfold input_val, input, pay_input, capability_val. cbn [Kernel.capabilities map]. rewrite El.
    cbn [map]. unfold link_val. rewrite Gl. by vm_compute. }
  destruct (enc_total _ P) as [b Eb].
  assert (V : exists ev, evaluatorVersion (policy input) = Ok ev).
  { unfold evaluatorVersion. match goal with |- context [encodeCanonical ?v] =>
      run (enc_total v ltac:(by vm_compute)) e Ee end. by eexists. }
  destruct V as [ev V].
  assert (B : buildReplayBundle input = Ok {| inputBytes := b; rb_evaluatorVersion := ev |}).
  { unfold buildReplayBundle. by rewrite Eb, V. }
  rewrite B. cbn [mbind res_bind]. unfold receipt_hash.
  rewrite (replay_build input _ B (RB _ _ _ b Ea Eh Er Eb)). unfold receipt_core. cbn [inputBytes].
  run (enc_total _ (plain_decision (dec_evaluatorVersion (Kernel.decide input))
    (bytesToHex (sha3_256 b)) (Kernel.decide input))) r Er'.
  by eexists.
Qed.

(** C31: Nine checks of the conformance suite are theorems.  Over libraries that
    satisfy their laws (deterministic CBOR, hex, and generated key pairs for
    which ML-DSA-87 verifies what it signed and the KEM decapsulates what was
    encapsulated) and that do not throw where the checks use them (the encoder on
    values without [undefined] whose numbers are safe integers, key generation on
    the seeds drawn, signing under a generated key, encapsulation to one), when
    the first two keys drawn differ and the library reads the kernel input of C6
    back as it was encoded, each of these checks returns true, whatever is drawn
    and whatever the negative vectors are: C1 (negotiation), C2 (KEM round trip),
    C4 (canonical CBOR), C5 (attenuation), C6 (default deny, allow under the
    grant, and two replays with one receipt hash), C9 (governance threshold), C14
    (the negative oracle), C15 (CNSA classification) and C18 (one-time indices). *)
Theorem lawful_checks_hold :
  (forall k0 k1, fresh draw 0 = Ok k0 -> fresh draw 1 = Ok k1 -> hex_of k0 <> hex_of k1) ->
  reads_C6_back ->
  Forall (fun c => c = Ok true)
    [C1; C2 draw; C4; C5 draw; C6 draw; C9 draw; C14 draw vectors; C15; C18].
Proof.
  intros D RB. repeat (apply Forall_cons_2); [| | | | | | | | |apply Forall_nil_2].
  - by vm_compute.
  - destruct C2_total as [b E]. by rewrite E, (C2_true b E).
  - destruct C4_total as [b E]. by rewrite E, (C4_true b E).
  - destruct C5_total as [b E]. by rewrite E, (C5_true b E).
  - destruct (C6_total RB) as [b E]. by rewrite E, (C6_true b E).
  - destruct C9_total as [b E]. by rewrite E, (C9_true b D E).
  - destruct C14_total as [b E]. by rewrite E, (C14_true b E).
  - by vm_compute.
  - by vm_compute.
Qed.
End lawful.

(** ** A run of the suite *)
Definition toy_draw (k : nat) : bytes := filled 32 (Z.of_nat (k * 7 + 3)).
Definition toy_vectors : list (string * jsval) := [("pose", VNum (Int 3)); ("depth", VStr "far")].

(** The suite passes on the model: every one of the 24 checks of the program
    returns true when the translated packages run on the concrete libraries, the
    accepting halves and the rejecting ones. *)
Theorem conformance_passes :
  let r := runConformance toy_draw toy_vectors in
  rp_ok r = true /\ rp_passed r = 24 /\ rp_total r = 24 /\
  Forall (fun c => r_passed c = true /\ r_detail c = "ok") (rp_results r).
Proof.
  intros r. assert (E : bool_decide (rp_ok r = true /\ rp_passed r = 24 /\ rp_total r = 24 /\
    Forall (fun c => r_passed c = true /\ r_detail c = "ok") (rp_results r)) = true)
    by (vm_cast_no_check (@eq_refl bool true)).
  exact (proj1 (bool_decide_eq_true _) E).
Qed.

(** The concrete library satisfies the assumptions. *)
Lemma ser_some_list {A} (f : A -> option bytes) (g : A -> bytes -> bytes -> bytes) l :
  Forall (fun x => is_Some (f x)) l ->
  is_Some (foldr (fun x acc => b ← f x; r ← acc; Some (g x b r)) (Some []) l).
Proof. induction 1 as [|x l [b E] _ [r IH]]; cbn; [by eexists|]. rewrite E. cbn. rewrite IH. by eexists. Qed.

Lemma concrete_encodes v : plain v = true -> is_Some (ser (norm v)).
Proof.
  induction v as [| | | | | | |l IH|fs IH|] using jsval_ind; intros P; try done; cbn [plain] in P;
    try (by eexists).
  - rewrite forallb_forall in P. cbn [norm ser].
    destruct (ser_some_list ser (fun _ b r => b ++ r) (map norm l)) as [body ->]; [|by eexists].
    apply Forall_fmap, Forall_forall. intros x Hx. rewrite Forall_forall in IH.
    by apply IH, P, list_elem_of_In.
  - rewrite forallb_forall in P. rewrite norm_obj. cbn [ser].
    destruct (ser_some_list (fun kv => ser kv.2) (fun kv b r => ser_str kv.1 ++ b ++ r)
      (js_sort (by_key fst) (map norm_field fs))) as [body ->]; [|by eexists].
    rewrite js_sort_perm.
    apply Forall_fmap, Forall_forall. intros x Hx. rewrite Forall_forall in IH. cbn [norm_field].
    by apply IH, (P x), list_elem_of_In.
Qed.

#[export] Instance toy_no_throw : NoThrow (L := concrete) eq (fun _ pk sk => pk = sk) toy_draw.
Proof.
  split.
  - intros v P. destruct (concrete_encodes v P) as [b E]. exists b. by apply concrete_encode_ok.
  - intros k. by eexists.
  - intros pk sk m _. by eexists.
  - intros id. by eexists.
  - intros id pk sk _. by eexists.
Qed.

Lemma lawful_checks_hold_witness : Forall (fun c => c = Ok true)
  [C1; C2 toy_draw; C4; C5 toy_draw; C6 toy_draw; C9 toy_draw; C14 toy_draw toy_vectors; C15; C18].
Proof.
  refine (lawful_checks_hold (kempair := fun _ pk sk => pk = sk) _ toy_draw toy_vectors _ _).
  - intros id seed kp E. by injection E as <-.
  - intros k0 k1 E0 E1. vm_compute in E0, E1. injection E0 as <-. injection E1 as <-. by vm_compute.
  - intros authority agent cap b E0 E1 E2 E3. vm_compute in E0, E1. injection E0 as <-. injection E1 as <-.
    vm_compute in E2. injection E2 as <-. vm_compute in E3. injection E3 as <-.
    eexists. split; [vm_compute; reflexivity | by vm_compute].
Defined.
