(* ===== verification/Accumulator.v ===== *)
(** * labs/spikes/rev-001: the sparse Merkle revocation accumulator

    src/labs/spikes/rev-001/prototype.mjs: a tree of 2^32 slots of which only
    the nodes that differ from the empty tree are stored.  A capability is
    revoked by writing its slot and hashing the path to the root; that it is
    not revoked is proved by the siblings of that path.  The measurements of
    the prototype are not modelled. *)
From stdpp Require Import pretty.
From S2P Require Import Prelude JsNum JsVal Crypto Concrete Keystore.
Open Scope string_scope.
Open Scope Z_scope.
Open Scope list_scope.

(** [a >>> k] *)
Definition ushr32 (a k : Z) : Z := Z.shiftr (a mod 2 ^ 32) (k mod 32).

(** [s.padEnd(n, c)] *)
Definition padEnd (s : list ascii) (n : nat) (c : ascii) : list ascii :=
  s ++ repeat c (n - length s).

(** [Buffer.from(s, 'hex')]: decoding stops at the first pair that is not two
    hexadecimal digits. *)
Fixpoint hex_prefix (s : list ascii) : bytes :=
  match s with
  | c :: d :: s' =>
      match hex_digit c, hex_digit d with
      | Some x, Some y => byte_of_Z (16 * x + y) :: hex_prefix s'
      | _, _ => []
      end
  | _ => []
  end.

(** [buf.readUInt32BE(0)] *)
Definition readUInt32BE (b : bytes) : res Z :=
  if (length b <? 4)%nat then Throw "Attempt to access memory outside buffer bounds"
  else Ok (be_value (firstn 4 b)).

Definition DEPTH : nat := 32.

Definition capIndex (capId : string) : res Z :=
  let hex := firstn 8 (padEnd (list_ascii_of_string capId) 8 "0"%char) in
  let buf := hex_prefix hex in
  n ← readUInt32BE buf; Ok (ushr32 n 0).

Record SparseMerkleTree := { store : gmap string bytes; count : Z }.
Record NonMembership := { nm_ok : bool; nm_proof : option (list bytes) }.

Section smt.
Context {L : Lib}.

(** [H(...bufs)] *)
Definition H (bufs : list bytes) : bytes := sha3_256 (concat bufs).

Fixpoint DEFAULT (d : nat) : bytes :=
  match d with
  | O => H [utf8 "not-revoked"]
  | S d' => let h := DEFAULT d' in H [h; h]
  end.

Definition new_tree : SparseMerkleTree := {| store := ∅; count := 0 |}.

Definition node_key (depth : nat) (idx : Z) : string :=
  pretty depth +:+ ":" +:+ pretty (ushr32 idx 0).
Definition tree_get (t : SparseMerkleTree) (depth : nat) (idx : Z) : bytes :=
  default (DEFAULT depth) (store t !! node_key depth idx).
Definition tree_set (t : SparseMerkleTree) (depth : nat) (idx : Z) (hash : bytes) : SparseMerkleTree :=
  let k := node_key depth idx in
  if bool_decide (hash = DEFAULT depth) then
    match store t !! k with
    | Some _ => {| store := delete k (store t); count := count t - 1 |}
    | None => t
    end
  else {| store := <[k := hash]> (store t);
          count := match store t !! k with Some _ => count t | None => count t + 1 end |}.
Definition root (t : SparseMerkleTree) : bytes := tree_get t DEPTH 0.

Definition sibling (idx : Z) : Z := ushr32 (xor32 idx 1) 0.
Definition is_right (idx : Z) : bool := and32 idx 1 =? 1.
Definition parent (idx : Z) : Z := ushr32 idx 1.

(** The leaf of a revoked capability *)
Definition REVOKED (capId : string) : bytes := H [utf8 "revoked"; utf8 capId].

(** The loop of [revoke] from depth [d], [n] levels up. *)
Fixpoint climb (n d : nat) (t : SparseMerkleTree) (curIdx : Z) : SparseMerkleTree :=
  match n with
  | O => t
  | S n' =>
      let sib := sibling curIdx in
      let left := if is_right curIdx then tree_get t d sib else tree_get t d curIdx in
      let right := if is_right curIdx then tree_get t d curIdx else tree_get t d sib in
      climb n' (S d) (tree_set t (S d) (parent curIdx) (H [left; right])) (parent curIdx)
  end.

Definition revoke (t : SparseMerkleTree) (capId : string) : res (SparseMerkleTree * bytes) :=
  curIdx ← capIndex capId;
  let t' := climb DEPTH 0 (tree_set t 0 curIdx (REVOKED capId)) curIdx in
  Ok (t', root t').

(** The siblings from depth [d], [n] levels up. *)
Fixpoint siblings (n d : nat) (t : SparseMerkleTree) (curIdx : Z) : list bytes :=
  match n with
  | O => []
  | S n' => tree_get t d (sibling curIdx) :: siblings n' (S d) t (parent curIdx)
  end.

Definition proveNonMembership (t : SparseMerkleTree) (capId : string) : res NonMembership :=
  curIdx ← capIndex capId;
  if negb (bool_decide (tree_get t 0 curIdx = DEFAULT 0)) then Ok {| nm_ok := false; nm_proof := None |}
  else Ok {| nm_ok := true; nm_proof := Some (siblings DEPTH 0 t curIdx) |}.

(** The loop of [verifyNonMembership]. *)
Fixpoint fold_up (cur : bytes) (curIdx : Z) (proof : list bytes) : bytes :=
  match proof with
  | [] => cur
  | sib :: proof' =>
      fold_up (if is_right curIdx then H [sib; cur] else H [cur; sib]) (parent curIdx) proof'
  end.

Definition verifyNonMembership (rt : bytes) (capId : string) (proof : option (list bytes)) : res bool :=
  match proof with
  | None => Ok false
  | Some proof =>
      if negb (bool_decide (length proof = DEPTH)) then Ok false else
      curIdx ← capIndex capId;
      Ok (bool_decide (fold_up (DEFAULT 0) curIdx proof = rt))
  end.

(** A tree after a list of revocations. *)
Definition revoke_all (t : SparseMerkleTree) (caps : list string) : res SparseMerkleTree :=
  foldl (fun t c => t ← t; r ← revoke t c; Ok r.1) (Ok t) caps.

(** ** Indices *)
(** Linear arithmetic with division by constants. *)
Ltac div_lia := Z.to_euclidean_division_equations; lia.

Lemma lxor_1 z : Z.lxor z 1 = z + 1 - 2 * (z mod 2).
Proof.
  assert (E : forall k, Z.lxor (2 * k) 1 = 2 * k + 1).
  { intros k. symmetry. apply Z.add_nocarry_lxor. rewrite (Z.land_ones _ 1) by lia.
    change (2 ^ 1) with 2. div_lia. }
  destruct (Z.eq_dec (z mod 2) 0) as [H0|H0].
  - replace z with (2 * (z / 2)) at 1 by div_lia. rewrite E. div_lia.
  - replace z with (Z.lxor (2 * (z / 2)) 1) at 1 by (rewrite E; div_lia).
    rewrite Z.lxor_assoc, Z.lxor_nilpotent, Z.lxor_0_r. div_lia.
Qed.

Lemma to_int32_low z : exists k, to_int32 z = z + 2 ^ 32 * k.
Proof.
  unfold to_int32. pose proof (Z.div_mod z (2 ^ 32)) as E.
  case_match; [exists (- (z / 2 ^ 32)) | exists (- (z / 2 ^ 32) - 1)]; lia.
Qed.

Lemma parent_eq i : 0 <= i < 2 ^ 32 -> parent i = i / 2.
Proof. intros Hi. unfold parent, ushr32. rewrite Z.mod_small by lia. apply (Z.shiftr_div_pow2 _ 1). lia. Qed.

Lemma is_right_eq i : is_right i = (i mod 2 =? 1).
Proof.
  unfold is_right, and32. destruct (to_int32_low i) as [k ->]. change (to_int32 1) with (Z.ones 1).
  rewrite Z.land_ones by lia. change (2 ^ 1) with 2. f_equal.
  replace (i + 2 ^ 32 * k) with (i + 2 ^ 31 * k * 2) by lia. apply Z.mod_add. lia.
Qed.

Lemma sibling_eq i : 0 <= i < 2 ^ 32 -> sibling i = i + 1 - 2 * (i mod 2).
Proof.
  intros Hi. unfold sibling, ushr32, xor32. change (to_int32 1) with 1.
  rewrite Z.shiftr_0_r. destruct (to_int32_low i) as [k ->]. rewrite lxor_1.
  replace ((i + 2 ^ 32 * k) mod 2) with (i mod 2)
    by (replace (i + 2 ^ 32 * k) with (i + 2 ^ 31 * k * 2) by lia; symmetry; apply Z.mod_add; lia).
  replace (i + 2 ^ 32 * k + 1 - 2 * (i mod 2)) with (i + 1 - 2 * (i mod 2) + k * 2 ^ 32) by lia.
  rewrite Z.mod_add by lia. apply Z.mod_small.
  div_lia.
Qed.

Lemma node_key_inj d e i j : 0 <= i < 2 ^ 32 -> 0 <= j < 2 ^ 32 ->
  node_key d i = node_key e j -> d = e /\ i = j.
Proof.
  intros Hi Hj E. unfold node_key, ushr32 in E. rewrite !Z.shiftr_0_r, !Z.mod_small in E by lia.
  apply until_char in E as [E1 E2]; [|apply pretty_nat_free..].
  by apply (inj pretty) in E1, E2.
Qed.

(** ** The tree *)
Definition idx (i : Z) : Prop := 0 <= i < 2 ^ 32.

Lemma idx_parent i : idx i -> idx (parent i).
Proof. intros Hi. rewrite (parent_eq _ Hi). unfold idx in *. div_lia. Qed.

Lemma get_set t d i h e j : idx i -> idx j ->
  tree_get (tree_set t d i h) e j = if bool_decide (d = e /\ i = j) then h else tree_get t e j.
Proof.
  intros Hi Hj. unfold tree_get. case_bool_decide as E.
  - destruct E as [-> ->]. unfold tree_set. case_bool_decide as Eh.
    + case_match eqn:El; cbn [store]; [by rewrite lookup_delete_eq | by rewrite El].
    + cbn [store]. by rewrite lookup_insert_eq.
  - assert (node_key d i <> node_key e j) as N by (intros K; apply E, (node_key_inj _ _ _ _ Hi Hj K)).
    f_equal. unfold tree_set. case_bool_decide; [case_match; [|done]|]; cbn [store];
      [by rewrite lookup_delete_ne | by rewrite lookup_insert_ne].
Qed.

(** Each stored node is the hash of its children. *)
Definition hashed_at (t : SparseMerkleTree) (d : nat) (i : Z) : Prop :=
  tree_get t (S d) i = H [tree_get t d (2 * i); tree_get t d (2 * i + 1)].
Definition hashed (t : SparseMerkleTree) : Prop :=
  forall d i, (d < DEPTH)%nat -> 0 <= i < 2 ^ 31 -> hashed_at t d i.

(** The books of the store: only nodes that differ from the empty tree are
    stored, [count] is their number, and they are hashes. *)
Record sparse (t : SparseMerkleTree) : Prop := {
  sp_count : count t = Z.of_nat (size (store t));
  sp_default : forall d i, idx i -> store t !! node_key d i <> Some (DEFAULT d);
  sp_length : map_Forall (fun _ h => length h = 32%nat) (store t) }.

Lemma DEFAULT_length `{!HashLen L} d : length (DEFAULT d) = 32%nat.
Proof. destruct d; apply hash_length. Qed.

Lemma get_length `{!HashLen L} t d i : sparse t -> length (tree_get t d i) = 32%nat.
Proof.
  intros S. unfold tree_get. destruct (store t !! _) as [h|] eqn:E; [|apply DEFAULT_length].
  apply (sp_length _ S _ _ E).
Qed.

Lemma new_sparse : sparse new_tree.
Proof. by split; [| |apply map_Forall_empty]. Qed.

Lemma new_hashed : hashed new_tree.
Proof. done. Qed.

Lemma set_sparse t d i h : idx i -> length h = 32%nat -> sparse t -> sparse (tree_set t d i h).
Proof.
  intros Hi Hl [C D F]. unfold tree_set. case_bool_decide as E.
  - destruct (store t !! _) as [g|] eqn:G; [|done]. split; cbn [store count].
    + rewrite map_size_delete_Some by done. pose proof (map_size_ne_0_lookup_2 _ _ (mk_is_Some _ _ G)). lia.
    + intros e j Hj [_ K]%lookup_delete_Some. by eapply D.
    + by apply map_Forall_delete.
  - split; cbn [store count].
    + rewrite map_size_insert. destruct (store t !! _); unfold id; lia.
    + intros e j Hj [[K ->]|[_ K]]%lookup_insert_Some; [|by eapply D].
      apply node_key_inj in K as [-> _]; [done..].
    + by apply map_Forall_insert_2.
Qed.

Lemma climb_sparse `{!HashLen L} n : forall d t i, idx i -> sparse t -> sparse (climb n d t i).
Proof.
  induction n as [|n IH]; intros d t i Hi S; [done|]. cbn [climb]. apply IH; [by apply idx_parent|].
  by apply set_sparse; [apply idx_parent | apply hash_length |].
Qed.

(** The levels below the loop are left alone. *)
Lemma climb_get_below n : forall d t i e j, idx i -> idx j -> (e <= d)%nat ->
  tree_get (climb n d t i) e j = tree_get t e j.
Proof.
  induction n as [|n IH]; intros d t i e j Hi Hj He; [done|]. cbn [climb].
  rewrite IH by (first [by apply idx_parent | done | lia]).
  rewrite get_set by (first [by apply idx_parent | done]). rewrite bool_decide_false by lia. done.
Qed.

(** The children of the parent of [i] are [i] and its sibling. *)
Lemma children i h1 h2 (f : Z -> bytes) : idx i -> h1 = f i -> h2 = f (sibling i) ->
  [if is_right i then h2 else h1; if is_right i then h1 else h2]
  = [f (2 * parent i); f (2 * parent i + 1)].
Proof.
  intros Hi -> ->. rewrite is_right_eq, (parent_eq _ Hi), (sibling_eq _ Hi).
  destruct (i mod 2 =? 1) eqn:E; bool_to_prop; (f_equal; [|f_equal]); f_equal; div_lia.
Qed.

Lemma set_hashed_at t d i : idx i -> 
  let h := H [tree_get t d (2 * parent i); tree_get t d (2 * parent i + 1)] in
  (forall e j, (e < DEPTH)%nat -> 0 <= j < 2 ^ 31 -> (e, j) <> (d, parent i) -> hashed_at t e j) ->
  forall e j, (e < DEPTH)%nat -> 0 <= j < 2 ^ 31 -> (e, j) <> (S d, parent (parent i)) ->
  hashed_at (tree_set t (S d) (parent i) h) e j.
Proof.
  intros Hi h K e j He Hj N. pose proof (idx_parent _ Hi) as Hp. pose proof (idx_parent _ Hp) as Hpp.
  rewrite (parent_eq _ Hp) in N.
  unfold hashed_at. rewrite !get_set by (unfold idx in *; lia).
  destruct (decide ((e, j) = (d, parent i))) as [[= -> ->]|M].
  - rewrite !bool_decide_true, !bool_decide_false by (unfold idx in *; lia). done.
  - rewrite (bool_decide_false (S d = S e /\ _)) by (intros [[=] ?]; congruence).
    rewrite !bool_decide_false; [by apply K|..]; intros [<- E]; apply N; f_equal; div_lia.
Qed.

Lemma climb_hashed n : forall d t i, idx i -> (d + n = DEPTH)%nat ->
  (forall e j, (e < DEPTH)%nat -> 0 <= j < 2 ^ 31 -> (e, j) <> (d, parent i) -> hashed_at t e j) ->
  hashed (climb n d t i).
Proof.
  induction n as [|n IH]; intros d t i Hi Hd K.
  - intros e j He Hj. apply K; [done..|]. intros [= -> _]. lia.
  - cbn [climb]. apply IH; [by apply idx_parent | lia |].
    pose proof (children i _ _ (tree_get t d) Hi eq_refl eq_refl) as E.
    intros e j He Hj N. injection E as E1 E2.
    replace (H _) with (H [tree_get t d (2 * parent i); tree_get t d (2 * parent i + 1)])
      by (rewrite <- E1, <- E2; destruct (is_right i); done).
    by apply set_hashed_at.
Qed.

(** ** The tree that the slots determine

    [slot_of c] reads the first eight characters of an identifier, filled with
    zeros, as a hexadecimal number; the leaf of a slot is the hash of
    "revoked" and the last capability revoked there, or of "not-revoked"; a
    node is the hash of its children. *)
Definition slot_of (c : string) : option Z :=
  ds ← mapM hex_digit (firstn 8 (list_ascii_of_string c ++ repeat "0"%char 8));
  Some (fold_left (fun n d => 16 * n + d) ds 0).

Definition leaf (caps : list string) (i : Z) : bytes :=
  fold_left (fun h c => if bool_decide (slot_of c = Some i)
                        then sha3_256 (utf8 "revoked" ++ utf8 c) else h)
    caps (sha3_256 (utf8 "not-revoked")).

Fixpoint node (f : Z -> bytes) (d : nat) (i : Z) : bytes :=
  match d with
  | O => f i
  | S d' => sha3_256 (node f d' (2 * i) ++ node f d' (2 * i + 1))
  end.

(** What is hashed on the path from node [i] of depth [d], [n] levels up, of
    that tree; and by one who folds a proof from [v]. *)
Fixpoint path_inputs (f : Z -> bytes) (n d : nat) (i : Z) : list bytes :=
  match n with
  | O => []
  | S n' => (node f d (2 * (i / 2)) ++ node f d (2 * (i / 2) + 1)) :: path_inputs f n' (S d) (i / 2)
  end.
Fixpoint proof_inputs (v : bytes) (i : Z) (proof : list bytes) : list bytes :=
  match proof with
  | [] => []
  | sib :: proof' =>
      let x := if i mod 2 =? 1 then sib ++ v else v ++ sib in
      x :: proof_inputs (sha3_256 x) (i / 2) proof'
  end.

(** What is hashed for the leaves. *)
Definition leaf_inputs (caps : list string) : list bytes :=
  utf8 "not-revoked" :: map (fun c => utf8 "revoked" ++ utf8 c) caps.

(** Two different members of [P] with the same digest. *)
Definition hash_collision (P : list bytes) : Prop :=
  exists x y, x ∈ P /\ y ∈ P /\ x <> y /\ sha3_256 x = sha3_256 y.

Lemma hash_collision_mono P Q : P ⊆ Q -> hash_collision P -> hash_collision Q.
Proof. intros S (x & y & Hx & Hy & N). exists x, y. auto. Qed.

Lemma hash_eq P x y : sha3_256 x = sha3_256 y -> x ∈ P -> y ∈ P -> x = y \/ hash_collision P.
Proof. intros E Hx Hy. destruct (decide (x = y)); [by left|]. right. by exists x, y. Qed.

(** ** Paths *)
(** The parent of a node is the hash of the node and its sibling. *)
Lemma up_eq t d i : hashed t -> (d < DEPTH)%nat -> idx i ->
  tree_get t (S d) (parent i) = (if is_right i then H [tree_get t d (sibling i); tree_get t d i]
                                 else H [tree_get t d i; tree_get t d (sibling i)]).
Proof.
  intros K Hd Hi. rewrite (K d (parent i)) by (rewrite ?(parent_eq _ Hi); unfold idx in *; (done || div_lia)).
  rewrite <- (children i _ _ (tree_get t d) Hi eq_refl eq_refl). by destruct (is_right i).
Qed.

Lemma parent_lt n i : 0 <= i < 2 ^ Z.of_nat (S n) -> (S n <= DEPTH)%nat ->
  idx i /\ 0 <= parent i < 2 ^ Z.of_nat n.
Proof.
  unfold DEPTH. intros Hi Hn. assert (idx i).
  { pose proof (Z.pow_le_mono_r 2 (Z.of_nat (S n)) 32). unfold idx. lia. }
  split; [done|]. rewrite parent_eq by done. rewrite Nat2Z.inj_succ, Z.pow_succ_r in Hi by lia. div_lia.
Qed.

Lemma fold_up_siblings n : forall d t i, hashed t -> (d + n = DEPTH)%nat -> 0 <= i < 2 ^ Z.of_nat n ->
  fold_up (tree_get t d i) i (siblings n d t i) = root t.
Proof.
  induction n as [|n IH]; intros d t i K Hd Hi.
  - cbn in *. by replace d with DEPTH by lia; replace i with 0 by lia.
  - destruct (parent_lt n i) as [Hx Hp]; [done | lia |].
    cbn [siblings fold_up]. rewrite <- up_eq by (done || lia). apply IH; [done | lia | done].
Qed.

Lemma tree_node t f : hashed t -> (forall i, idx i -> tree_get t 0 i = f i) ->
  forall d i, (d <= DEPTH)%nat -> 0 <= i < 2 ^ Z.of_nat (DEPTH - d) -> tree_get t d i = node f d i.
Proof.
  intros K G. induction d as [|d IH]; intros i Hd Hi; [by apply G|].
  replace (DEPTH - d)%nat with (Datatypes.S (DEPTH - Datatypes.S d)) in IH by lia.
  rewrite Nat2Z.inj_succ, Z.pow_succ_r in IH by lia.
  assert (0 <= i < 2 ^ 31).
  { pose proof (Z.pow_le_mono_r 2 (Z.of_nat (DEPTH - Datatypes.S d)) 31). unfold DEPTH in *. lia. }
  rewrite K by done. unfold H. cbn [node concat]. by rewrite app_nil_r, !IH by lia.
Qed.

Lemma node_length `{!HashLen L} f d i : (forall j, length (f j) = 32%nat) -> length (node f d i) = 32%nat.
Proof. intros Hf. destruct d; [apply Hf | apply hash_length]. Qed.

Lemma fold_up_sound `{!HashLen L} f (P : list bytes) proof : (forall j, length (f j) = 32%nat) ->
  forall d i v, path_inputs f (length proof) d i ⊆ P -> proof_inputs v i proof ⊆ P ->
  (d + length proof = DEPTH)%nat -> 0 <= i < 2 ^ Z.of_nat (length proof) -> length v = 32%nat ->
  fold_up v i proof = node f DEPTH 0 -> v = node f d i \/ hash_collision P.
Proof.
  intros Hf. induction proof as [|sib proof IH]; intros d i v H1 H2 Hd Hi Hv E; cbn [length] in *.
  - left. change (2 ^ Z.of_nat 0) with 1 in Hi. cbn [fold_up] in E.
    replace d with DEPTH by lia. by replace i with 0 by lia.
  - destruct (parent_lt _ i Hi) as [Hx Hp]; [lia|]. rewrite (parent_eq _ Hx) in Hp.
    cbn [fold_up] in E. cbn [path_inputs proof_inputs] in H1, H2.
    apply list_subseteq_cons_iff in H1 as [P1 H1], H2 as [P2 H2].
    rewrite is_right_eq, (parent_eq _ Hx) in E. unfold H in E. cbn [concat] in E.
    rewrite !app_nil_r in E.
    replace (if i mod 2 =? 1 then sha3_256 (sib ++ v) else sha3_256 (v ++ sib))
      with (sha3_256 (if i mod 2 =? 1 then sib ++ v else v ++ sib)) in E by (by case_match).
    apply (IH (Datatypes.S d)) in E as [E|E]; [|by right|done|done|lia|done|apply hash_length].
    cbn [node] in E. destruct (hash_eq P _ _ E P2 P1) as [Q|]; [left | by right].
    pose proof (node_length f d (2 * (i / 2)) Hf).
    destruct (i mod 2 =? 1) eqn:R; bool_to_prop.
    + apply app_inj_2 in Q as [_ ->]; [f_equal; div_lia|]. by rewrite node_length.
    + apply app_inj_1 in Q as [-> _]; [f_equal; div_lia|]. congruence.
Qed.

Lemma siblings_length n : forall d t i, length (siblings n d t i) = n.
Proof. induction n as [|n IH]; intros; [done|]. cbn. by rewrite IH. Qed.

(** ** Revocations *)
Lemma capIndex_range c i : capIndex c = Ok i -> idx i.
Proof.
  unfold capIndex. intros E. apply bind_ok in E as (n & _ & E). apply Ok_inj in E as <-.
  unfold ushr32, idx. rewrite Z.shiftr_0_r. apply Z.mod_pos_bound. lia.
Qed.

Definition well_formed (t : SparseMerkleTree) : Prop := hashed t /\ sparse t.

Lemma revoke_inv `{!HashLen L} t c t' r : well_formed t -> revoke t c = Ok (t', r) ->
  exists i, capIndex c = Ok i /\ r = root t' /\ well_formed t' /\
    forall j, idx j -> tree_get t' 0 j = if bool_decide (i = j) then REVOKED c else tree_get t 0 j.
Proof.
  intros [K S] E. unfold revoke in E. apply bind_ok in E as (i & Ei & E).
  cbv zeta in E. apply Ok_inj, pair_equal_spec in E as [<- <-].
  pose proof (capIndex_range _ _ Ei) as Hi. exists i. do 2 (split; [done|]). split; [split|].
  - apply climb_hashed; [done..|]. intros e j He Hj N. unfold hashed_at.
    rewrite !get_set by (unfold idx in *; lia). rewrite (parent_eq _ Hi) in N.
    rewrite !bool_decide_false; [by apply K|..]; intros [Ee Ej]; try discriminate Ee; subst e; apply N; f_equal; div_lia.
  - apply climb_sparse; [done|]. by apply set_sparse; [|apply hash_length|].
  - intros j Hj. rewrite climb_get_below, get_set by (done || lia).
    by rewrite (bool_decide_ext (0%nat = 0%nat /\ i = j) (i = j)) by naive_solver.
Qed.

(** The slot the code computes is the number of the first eight digits. *)
Lemma firstn_repeat {A} (c : A) k : forall n, (k <= n)%nat -> firstn k (repeat c n) = repeat c k.
Proof.
  induction k as [|k IH]; intros [|n] Hn; [done | done | lia|]. cbn. f_equal. apply IH. lia.
Qed.

Lemma padEnd_firstn s c n : firstn n (padEnd s n c) = firstn n (s ++ repeat c n).
Proof. unfold padEnd. rewrite !firstn_app. f_equal. rewrite !firstn_repeat by lia. done. Qed.

Lemma hex_digit_range c z : hex_digit c = Some z -> 0 <= z < 16.
Proof.
  unfold hex_digit. cbv zeta. repeat case_match; intros [= <-]; bool_to_prop; lia.
Qed.

Lemma hex_digit_byte x y : 0 <= x < 16 -> 0 <= y < 16 -> Z_of_byte (byte_of_Z (16 * x + y)) = 16 * x + y.
Proof. intros Hx Hy. rewrite Z_of_byte_of_Z. apply Z.mod_small. lia. Qed.

Lemma eight {A} (l : list A) : length l = 8%nat ->
  exists a b c d e f g h, l = [a; b; c; d; e; f; g; h].
Proof. intros E. do 9 (destruct l as [|? l]; try done). by do 8 eexists. Qed.

Lemma capIndex_slot c i : capIndex c = Ok i <-> slot_of c = Some i.
Proof.
  unfold capIndex, slot_of. rewrite padEnd_firstn.
  destruct (eight (firstn 8 (list_ascii_of_string c ++ repeat "0"%char 8)))
    as (c1 & c2 & c3 & c4 & c5 & c6 & c7 & c8 & ->).
  { rewrite length_firstn, length_app. cbn [length repeat]. lia. }
  cbn [hex_prefix mapM]. 
  repeat match goal with
  | |- context [match hex_digit ?c with _ => _ end] =>
      let E := fresh "E" in destruct (hex_digit c) eqn:E; [apply hex_digit_range in E|];
        cbn [mbind option_bind mret option_ret]
  | |- context [hex_digit ?c ≫= _] =>
      let E := fresh "E" in destruct (hex_digit c) eqn:E; [apply hex_digit_range in E|];
        cbn [mbind option_bind mret option_ret]
  end; unfold readUInt32BE; cbn [length Nat.ltb Nat.leb mbind res_bind];
    try (split; intros X; discriminate X).
  unfold be_value. cbn [firstn fold_left].
  rewrite !hex_digit_byte by done. unfold ushr32. rewrite Z.shiftr_0_r, Z.mod_small by lia.
  split; [intros [= <-]; f_equal; lia | intros [= <-]; f_equal; lia].
Qed.

Lemma revoke_all_snoc t caps c : revoke_all t (caps ++ [c]) =
  (t ← revoke_all t caps; r ← revoke t c; Ok r.1).
Proof. unfold revoke_all. by rewrite foldl_app. Qed.

Lemma revoke_all_inv `{!HashLen L} caps : forall t, revoke_all new_tree caps = Ok t ->
  well_formed t /\ forall i, idx i -> tree_get t 0 i = leaf caps i.
Proof.
  induction caps as [|c caps IH] using rev_ind; intros t E.
  - cbn in E. apply Ok_inj in E as <-. split; [split; [apply new_hashed | apply new_sparse]|].
    intros i _. unfold tree_get. cbn [store new_tree]. by rewrite lookup_empty.
  - rewrite revoke_all_snoc in E. apply bind_ok in E as (t0 & E0 & E).
    apply bind_ok in E as ([t' r] & Er & E). apply Ok_inj in E as <-.
    destruct (IH _ E0) as (W & S). destruct (revoke_inv _ _ _ _ W Er) as (i & Ei & _ & W' & G).
    split; [done|]. apply capIndex_slot in Ei.
    intros j Hj. cbn [fst]. rewrite (G j Hj), (S j Hj). unfold leaf. rewrite fold_left_app. cbn [fold_left].
    rewrite Ei, (bool_decide_ext (Some i = Some j) (i = j)) by naive_solver.
    case_bool_decide; [|done]. unfold REVOKED, H. cbn [concat]. by rewrite app_nil_r.
Qed.

(** The leaf of a slot nobody revoked; a revoked slot holds the leaf of one of
    the capabilities revoked there, which is not the empty leaf or collides. *)
Lemma leaf_free caps i : (forall c, c ∈ caps -> slot_of c <> Some i) -> leaf caps i = DEFAULT 0.
Proof.
  unfold leaf. change (sha3_256 (utf8 "not-revoked")) with (DEFAULT 0).
  generalize (DEFAULT 0). induction caps as [|c caps IH]; intros h Hf; [done|].
  cbn [fold_left]. rewrite bool_decide_false by (apply Hf; left). apply IH. intros c' Hc. apply Hf. by right.
Qed.

Lemma leaf_length `{!HashLen L} caps i : length (leaf caps i) = 32%nat.
Proof.
  induction caps as [|c caps IH] using rev_ind; [apply hash_length|].
  unfold leaf in *. rewrite fold_left_app. cbn [fold_left]. case_bool_decide; [apply hash_length | done].
Qed.

Lemma leaf_revoked caps c i : c ∈ caps -> slot_of c = Some i ->
  exists c', c' ∈ caps /\ leaf caps i = sha3_256 (utf8 "revoked" ++ utf8 c').
Proof.
  intros Hc Ei. induction caps as [|d caps IH] using rev_ind; [by apply elem_of_nil in Hc|].
  unfold leaf in *. rewrite fold_left_app. cbn [fold_left]. case_bool_decide as D.
  - exists d. split; [|done]. apply elem_of_app. right. by left.
  - apply elem_of_app in Hc as [Hc| ->%list_elem_of_singleton]; [|done].
    destruct (IH Hc) as (c' & Hc' & E). exists c'. split; [|done]. apply elem_of_app. by left.
Qed.

Lemma leaf_not_default caps c i : c ∈ caps -> slot_of c = Some i ->
  leaf caps i <> DEFAULT 0 \/ hash_collision (leaf_inputs caps).
Proof.
  intros Hc Ei. destruct (leaf_revoked caps c i Hc Ei) as (c' & Hc' & ->).
  destruct (decide (sha3_256 (utf8 "revoked" ++ utf8 c') = DEFAULT 0)) as [E|E]; [right | by left].
  exists (utf8 "revoked" ++ utf8 c'), (utf8 "not-revoked"). split_and!; [|by left|done|done].
  right. by apply (list_elem_of_fmap_2 (fun c => utf8 "revoked" ++ utf8 c)).

Qed.

(** Revoking never fails on identifiers that name a slot. *)
Lemma revoke_all_total caps : Forall (fun c => is_Some (slot_of c)) caps ->
  exists t, revoke_all new_tree caps = Ok t.
Proof.
  induction caps as [|c caps IH] using rev_ind; [by eexists|]. intros [Fs Fc]%Forall_app.
  apply Forall_singleton in Fc as [i Ei%capIndex_slot]. destruct (IH Fs) as [t E].
  rewrite revoke_all_snoc, E. cbn [mbind res_bind]. unfold revoke. rewrite Ei. by eexists.
Qed.

Lemma root_node caps t : hashed t -> (forall i, idx i -> tree_get t 0 i = leaf caps i) ->
  root t = node (leaf caps) DEPTH 0.
Proof. intros K G. apply tree_node; [done|done|done|]. change (2 ^ Z.of_nat (DEPTH - DEPTH)) with 1. lia. Qed.

(** ** Theorems *)
Lemma verify_true rt c p : verifyNonMembership rt c p = Ok true -> exists l i,
  p = Some l /\ length l = DEPTH /\ capIndex c = Ok i /\ fold_up (DEFAULT 0) i l = rt.
Proof.
  unfold verifyNonMembership. destruct p as [l|]; [|done]. case_bool_decide as El; [|done].
  cbn [negb]. intros E. apply bind_ok in E as (i & Ei & E). apply Ok_inj, bool_decide_eq_true in E. eauto 6.
Qed.

(** C30: The accumulator decides revocation by slots.  The slot of an
    identifier is the number of its first eight characters, filled with zeros,
    read as hexadecimal digits.  Revoking any list of capabilities that name a
    slot succeeds; the root is that of the binary tree of depth 32 whose leaf at a
    slot is the hash of "revoked" and the last capability revoked there, or of
    "not-revoked".  A capability whose slot nobody revoked gets a proof of 32
    siblings, and that proof verifies against the root.  For a capability whose
    slot was revoked the prover refuses, or two of the leaves' inputs
    collide; and whatever verifies for it is a list of 32 siblings for which
    two different strings collide under SHA3-256 among the leaves' inputs,
    the 32 strings hashed on the path of the slot in the tree, and the 32
    strings hashed by folding that list. *)
Theorem accumulator_decides `{!HashLen L} caps capId i :
  Forall (fun c => is_Some (slot_of c)) caps -> slot_of capId = Some i ->
  exists t, revoke_all new_tree caps = Ok t /\ root t = node (leaf caps) 32 0 /\
  ((forall c, c ∈ caps -> slot_of c <> Some i) ->
   exists p, proveNonMembership t capId = Ok {| nm_ok := true; nm_proof := Some p |} /\
     length p = 32%nat /\ verifyNonMembership (root t) capId (Some p) = Ok true) /\
  (forall c, c ∈ caps -> slot_of c = Some i ->
   (proveNonMembership t capId = Ok {| nm_ok := false; nm_proof := None |} \/
    hash_collision (leaf_inputs caps)) /\
   (forall p, verifyNonMembership (root t) capId p = Ok true ->
    exists l, p = Some l /\ length l = 32%nat /\
      hash_collision (leaf_inputs caps ++ path_inputs (leaf caps) 32 0 i ++
                      proof_inputs (sha3_256 (utf8 "not-revoked")) i l))).
Proof.
  intros F Si. destruct (revoke_all_total caps F) as [t E]. exists t. split; [done|].
  destruct (revoke_all_inv _ _ E) as ([K S] & G). pose proof (root_node _ _ K G) as R.
  split; [done|]. pose proof Si as Ei. apply capIndex_slot in Ei.
  pose proof (capIndex_range _ _ Ei) as Hi. specialize (G i Hi). split.
  - intros Hf. rewrite leaf_free in G by done. unfold proveNonMembership. rewrite Ei. cbn [mbind res_bind].
    rewrite bool_decide_true by done. eexists. split; [done|]. split; [apply siblings_length|].
    unfold verifyNonMembership. rewrite siblings_length, Ei. cbn [negb mbind res_bind].
    rewrite !bool_decide_true by (try done; rewrite <- G; by apply fold_up_siblings). done.
  - intros c Hc Ec. destruct (leaf_not_default caps c i Hc Ec) as [N|C].
    + split.
      * left. unfold proveNonMembership. rewrite Ei. cbn [mbind res_bind].
        by rewrite G, bool_decide_false.
      * intros p (l & i' & -> & El & Ei' & Fp)%verify_true. assert (i' = i) as -> by congruence.
        exists l. split; [done|]. split; [done|].
        destruct (fold_up_sound (leaf caps) (leaf_inputs caps ++ path_inputs (leaf caps) 32 0 i ++
          proof_inputs (sha3_256 (utf8 "not-revoked")) i l) l (leaf_length caps) 0 i (DEFAULT 0)) as [Q|Q].
        -- rewrite El. intros x Hx. rewrite !elem_of_app. auto.
        -- intros x Hx. rewrite !elem_of_app. auto.
        -- by rewrite El.
        -- rewrite El. exact Hi.
        -- apply DEFAULT_length.
        -- exact (eq_trans Fp R).
        -- by destruct N.
        -- exact Q.
    + split; [by right|]. intros p (l & i' & -> & El & _ & _)%verify_true. exists l. do 2 (split; [done|]).
      eapply hash_collision_mono, C. intros x Hx. rewrite !elem_of_app. auto.
Qed.

(** Two trees with one root agree at every node, or a collision is among what
    their paths hash. *)
Lemma path_sound `{!HashLen L} f g P n : (forall j, length (f j) = 32%nat) ->
  (forall j, length (g j) = 32%nat) -> forall d i, path_inputs f n d i ⊆ P -> path_inputs g n d i ⊆ P ->
  (d + n = DEPTH)%nat -> 0 <= i < 2 ^ Z.of_nat n ->
  node f DEPTH 0 = node g DEPTH 0 -> node f d i = node g d i \/ hash_collision P.
Proof.
  intros Hf Hg. induction n as [|n IH]; intros d i H1 H2 Hd Hi E.
  - left. change (2 ^ Z.of_nat 0) with 1 in Hi. replace d with DEPTH by lia. by replace i with 0 by lia.
  - destruct (parent_lt _ i Hi) as [Hx Hp]; [lia|]. rewrite (parent_eq _ Hx) in Hp.
    cbn [path_inputs] in H1, H2. apply list_subseteq_cons_iff in H1 as [P1 H1], H2 as [P2 H2].
    destruct (IH (Datatypes.S d) (i / 2)) as [Q|]; [done|done|lia|done|exact E| |by right].
    cbn [node] in Q. clear E. rename Q into E. destruct (hash_eq P _ _ E P1 P2) as [Q|]; [left | by right].
    apply app_inj_1 in Q as [Q1 Q2]; [|by rewrite !node_length].
    destruct (Z.eq_dec (i mod 2) 1); [replace i with (2 * (i / 2) + 1) by div_lia |
      replace i with (2 * (i / 2)) by div_lia]; done.
Qed.

(** The root commits to the revoked slots, whatever the order they were revoked
    in: lists of revocations that leave the leaves alike have the same root,
    and the same root means the same leaves, or two different strings collide
    among those hashed on the paths of the slot in the two trees. *)
Theorem root_commits `{!HashLen L} caps caps' t t' :
  revoke_all new_tree caps = Ok t -> revoke_all new_tree caps' = Ok t' ->
  ((forall i, idx i -> leaf caps i = leaf caps' i) -> root t = root t') /\
  (root t = root t' -> forall i, idx i -> leaf caps i = leaf caps' i \/
    hash_collision (path_inputs (leaf caps) 32 0 i ++ path_inputs (leaf caps') 32 0 i)).
Proof.
  intros R R'. destruct (revoke_all_inv _ _ R) as ([K S] & G).
  destruct (revoke_all_inv _ _ R') as ([K' S'] & G'). split.
  - intros E. rewrite (root_node caps t) by done. symmetry. apply root_node; [done|].
    intros i Hi. by rewrite G', E.
  - rewrite (root_node caps t), (root_node caps' t') by done. intros E i Hi.
    apply (path_sound (leaf caps) (leaf caps') _ 32 (leaf_length caps) (leaf_length caps') 0 i);
      [intros x Hx; rewrite elem_of_app; auto | intros x Hx; rewrite elem_of_app; auto | | exact Hi | exact E].
    reflexivity.
Qed.

Lemma set_count t d i h : count (tree_set t d i h) <= count t + 1.
Proof. unfold tree_set. case_bool_decide; case_match; cbn [count]; lia. Qed.

Lemma climb_count n : forall d t i, count (climb n d t i) <= count t + Z.of_nat n.
Proof.
  induction n as [|n IH]; intros d t i; [cbn; lia|]. cbn [climb].
  etransitivity; [apply IH|]. pose proof (set_count t (Datatypes.S d)) as C. etransitivity;
    [apply Z.add_le_mono_r, C|]. lia.
Qed.

(** [count] is the number of stored nodes, none of them a node of the empty
    tree, and a revocation adds at most 33 of them. *)
Theorem stored_nodes_exact `{!HashLen L} caps t : revoke_all new_tree caps = Ok t ->
  count t = Z.of_nat (size (store t)) /\
  (forall d i, idx i -> store t !! node_key d i <> Some (DEFAULT d)) /\
  count t <= 33 * Z.of_nat (length caps).
Proof.
  intros E. destruct (revoke_all_inv _ _ E) as ([_ [C D _]] & _). do 2 (split; [done|]). clear C D.
  revert t E. induction caps as [|c caps IH] using rev_ind; intros t E.
  - cbn in E. by apply Ok_inj in E as <-.
  - rewrite revoke_all_snoc in E. apply bind_ok in E as (t0 & E0 & E). specialize (IH _ E0).
    apply bind_ok in E as ([t' r] & Er & E). apply Ok_inj in E as <-. cbn [fst].
    unfold revoke in Er. apply bind_ok in Er as (i & _ & Er). cbv zeta in Er.
    apply Ok_inj, pair_equal_spec in Er as [<- _]. etransitivity; [apply climb_count|].
    etransitivity; [apply Z.add_le_mono_r, set_count|]. rewrite length_app. cbn [length]. unfold DEPTH. lia.
Qed.

End smt.

(** ** Slots, and witnesses on the concrete library

    The slot of a capability is its first eight characters: revoking one
    takes the proof from every capability that shares them
    ([accumulator_decides]); an identifier that is not hexadecimal there throws. *)
Example slots :
  capIndex "deadbeef012345" = capIndex "deadbeefffffff" /\ capIndex "cafe" = Ok 3405643776 /\
  capIndex "cap-1" = Throw "Attempt to access memory outside buffer bounds".
Proof. vm_compute. repeat split; reflexivity. Qed.

Definition toy_caps : list string := ["deadbeef012345"; "0000000100000f"].
Definition toy_caps' : list string := rev toy_caps.

Lemma toy_slots : Forall (fun c => is_Some (slot_of c)) toy_caps /\
  Forall (fun c => is_Some (slot_of c)) toy_caps'.
Proof. split; repeat constructor; eexists; vm_compute; reflexivity. Qed.

Lemma toy_leaves_apart : ~ hash_collision (leaf_inputs toy_caps).
Proof.
  intros (x & y & Hx & Hy & N & E). unfold leaf_inputs, toy_caps in Hx, Hy. cbn [map] in Hx, Hy.
  repeat (apply elem_of_cons in Hx as [->|Hx]); try (exact (proj1 (elem_of_nil _) Hx));
    repeat (apply elem_of_cons in Hy as [->|Hy]); try (exact (proj1 (elem_of_nil _) Hy));
    first [exact (N eq_refl) | vm_compute in E; discriminate E].
Qed.

(** A capability of a free slot is proved not revoked; the prover refuses for
    one that shares its slot with a revoked capability. *)
Lemma accumulator_decides_witness : exists t p, revoke_all new_tree toy_caps = Ok t /\
  proveNonMembership t "cafebabe0123ff" = Ok {| nm_ok := true; nm_proof := Some p |} /\
  verifyNonMembership (root t) "cafebabe0123ff" (Some p) = Ok true /\
  proveNonMembership t "deadbeefffffff" = Ok {| nm_ok := false; nm_proof := None |}.
Proof.
  destruct (accumulator_decides toy_caps "cafebabe0123ff" 3405691582 (proj1 toy_slots))
    as (t & E & _ & A & _); [vm_compute; reflexivity|].
  destruct (accumulator_decides toy_caps "deadbeefffffff" 3735928559 (proj1 toy_slots))
    as (t' & E' & _ & _ & B); [vm_compute; reflexivity|].
  assert (t' = t) as -> by (rewrite E in E'; by injection E').
  destruct A as (p & P & _ & V).
  - intros c Hc. apply elem_of_cons in Hc as [->|Hc%list_elem_of_singleton]; [|subst c]; vm_compute; discriminate.
  - destruct (B "deadbeef012345") as [[B'|C] _]; [by left | vm_compute; reflexivity | |].
    + exists t, p. exact (conj E (conj P (conj V B'))).
    + destruct (toy_leaves_apart C).
Defined.

Lemma root_commits_witness : exists t t', revoke_all new_tree toy_caps = Ok t /\
  revoke_all new_tree toy_caps' = Ok t' /\ root t = root t'.
Proof.
  destruct (revoke_all_total toy_caps (proj1 toy_slots)) as [t E].
  destruct (revoke_all_total toy_caps' (proj2 toy_slots)) as [t' E'].
  exists t, t'. split; [exact E|]. split; [exact E'|]. apply (root_commits toy_caps toy_caps' t t' E E').
  intros i _. unfold leaf, toy_caps', toy_caps. cbn [rev app fold_left].
  destruct (bool_decide (slot_of "deadbeef012345" = Some i)) eqn:A; [|by case_bool_decide].
  apply bool_decide_eq_true in A. rewrite bool_decide_false; [done|]. intros B. rewrite <- A in B.
  vm_compute in B. discriminate B.
Defined.

Lemma stored_nodes_exact_witness : exists t, revoke_all new_tree toy_caps = Ok t /\ count t <= 66.
Proof.
  destruct (revoke_all_total toy_caps (proj1 toy_slots)) as [t E]. exists t. split; [exact E|].
  exact (proj2 (proj2 (stored_nodes_exact toy_caps t E))).
Defined.
