(* ===== verification/Sloth.v ===== *)
(** * labs/spikes/vrf-002: the sloth delay function

    src/labs/spikes/vrf-002/prototype.mjs: a chain of modular square roots
    modulo a prime p = 3 (mod 4), slow to evaluate, checked by squaring back;
    and the sortition it feeds.  The prime is what [generatePrimeSync] returns,
    a variable with its documented properties; the measurements are not
    modelled. *)
From Stdlib Require ZmodInv.
From S2P Require Import Prelude JsNum JsVal Crypto Concrete Modular Group.
Open Scope Z_scope.
Open Scope list_scope.

(** [modpow(b, e, m)]: [while (e > 0n)] *)
Definition modpow (b e m : Z) : Z :=
  match e with Zpos e => modpow_loop 1 (Z.rem b m) m e | _ => 1 end.

Section vdf.
Context {X : Xof} (p : Z).

Definition SQRT_EXP : Z := Z.quot (p + 1) 4.
(** [H(...a)] *)
Definition H (a : list bytes) : bytes := shake256 (concat a) 32.

Definition seedToX (seed : bytes) : Z :=
  let x := Z.rem (be_value (H [utf8 "vdf/seed"; seed])) p in
  if x =? 0 then 1 else x.

(** The loop of [vdfEval] from [x], [T] steps: the output and the signs. *)
Fixpoint roots (T : nat) (x : Z) : Z * list Z :=
  match T with
  | O => (x, [])
  | S T' =>
      let r := modpow x SQRT_EXP p in
      let s := if Z.rem (r * r) p =? x then 0 else 1 in
      let (y, signs) := roots T' r in (y, s :: signs)
  end.
Definition vdfEval (seed : bytes) (T : nat) : Z * list Z := roots T (seedToX seed).

(** The loop of [vdfVerify], [i] steps to go. *)
Fixpoint square_back (signs : list Z) (i : nat) (v : Z) : Z :=
  match i with
  | O => v
  | S i' =>
      let s := Z.rem (v * v) p in
      square_back signs i' (if bool_decide (signs !! i' = Some 1) then Z.rem (p - s) p else s)
  end.
Definition vdfVerify (seed : bytes) (y : Z) (signs : list Z) (T : nat) : bool :=
  square_back signs T y =? seedToX seed.

(** [sortition]: the validator whose interval of stakes holds the draw. *)
Fixpoint sort_walk {V} (stake : V -> Z) (acc : Z) (vals : list V) : option V :=
  match vals with
  | [] => None
  | v :: vals' => if acc <? stake v then Some v else sort_walk stake (acc - stake v) vals'
  end.
Definition sortition {V} (stake : V -> Z) (delayedSeed : bytes) (vals : list V) (total : Z) : option V :=
  let r := Z.rem (be_value (H [utf8 "vrf002/sortition"; delayedSeed])) total in
  match sort_walk stake r vals with Some v => Some v | None => last vals end.
End vdf.

(** ** Arithmetic modulo p *)
Section field.
Context (p : Z) (p_prime : Z.prime p) (p_34 : p mod 4 = 3).
Abbreviation eqp := (eqm p).

Lemma p_ge3 : 3 <= p.
Proof. pose proof (proj1 p_prime). pose proof (Z.mod_le p 4). lia. Qed.

(** p has no zero divisors. *)
Lemma eqp_zero_iff a : eqp a 0 <-> (p | a).
Proof.
  pose proof p_ge3. rewrite <- Z.mod_divide by lia. split; [intros [E]; by rewrite E, Z.mod_0_l by lia|].
  intros E. split. by rewrite E, Z.mod_0_l by lia.
Qed.

Lemma eqp_zero a b : eqp (a * b) 0 -> eqp a 0 \/ eqp b 0.
Proof. rewrite !eqp_zero_iff. by apply Z.divide_prime_mul. Qed.

Lemma fermat a : ~ eqp a 0 -> eqp (a ^ (p - 1)) 1.
Proof.
  intros Ha. pose proof p_ge3. split. rewrite (Z.mod_small 1) by lia.
  apply ZmodInv.Z.fermat_nz; [done|]. intros E. apply Ha. split. by rewrite E, Z.mod_0_l by lia.
Qed.

(** Equal squares are of equal or opposite numbers. *)
Lemma square_eq a b : eqp (a * a) (b * b) -> eqp a b \/ eqp a (- b).
Proof.
  intros E%eqm_minus. replace (a * a - b * b) with ((a - b) * (a - - b)) in E by lia.
  apply eqp_zero in E as [E|E]; [left|right]; by apply eqm_minus.
Qed.

Definition half : Z := (p - 1) / 2.
Lemma half_spec : p - 1 = 2 * half /\ exists k, 0 <= k /\ half = 2 * k + 1 /\ SQRT_EXP p = k + 1.
Proof.
  pose proof p_ge3. unfold half, SQRT_EXP. rewrite Z.quot_div_nonneg by lia.
  split; [Z.to_euclidean_division_equations; lia|]. exists (p / 4).
  repeat split; Z.to_euclidean_division_equations; lia.
Qed.

(** -1 is not a square. *)
Lemma no_root_of_minus_one a b : eqp (a * a) (- (b * b)) -> eqp a 0 /\ eqp b 0.
Proof.
  intros E. destruct half_spec as (Hp & k & Hk & Hh & _). pose proof p_ge3.
  assert (D : forall c, eqp c 0 \/ ~ eqp c 0).
  { intros c. rewrite eqp_zero_iff. rewrite <- Z.mod_divide by lia. destruct (Z.eq_dec (c mod p) 0); auto. }
  assert (Z0 : forall c d, eqp (c * c) (- (d * d)) -> eqp d 0 -> eqp c 0).
  { intros c d Ec Ed. rewrite Ed in Ec. by apply eqp_zero in Ec as [Ec|Ec]. }
  destruct (D b) as [Db|Db]; [by split; [apply (Z0 a b)|]|]. exfalso.
  assert (Da : ~ eqp a 0).
  { intros A. apply Db, (Z0 b a); [|done]. rewrite E. by rewrite Z.opp_involutive. }
  apply fermat in Da, Db. rewrite Hp, (Z.pow_mul_r a 2), Z.pow_2_r in Da by lia.
  rewrite Hp, (Z.pow_mul_r b 2), Z.pow_2_r in Db by lia.
  destruct half as [|h|h] eqn:Eh; [lia| |lia].
  apply (eqm_pow _ _ h) in E. rewrite Z.pow_opp_odd in E by (exists k; lia).
  rewrite Da, Db in E. apply eqm_minus in E. change (1 - - (1)) with 2 in E.
  apply eqp_zero_iff, Z.divide_pos_le in E; lia.
Qed.

(** Numbers with the same 2^k-th power are equal or opposite. *)
Definition pow2k (k : nat) (a : Z) : Z := Nat.iter k (fun v => v * v) a.

Lemma pow2k_S k a : pow2k (S k) a = pow2k k a * pow2k k a.
Proof. done. Qed.

Lemma power_eq k : forall a b, eqp (pow2k k a) (pow2k k b) -> eqp a b \/ eqp a (- b).
Proof.
  induction k as [|k IH]; intros a b E; [by left|].
  rewrite !pow2k_S in E. apply square_eq in E as [E|E]; [by apply IH|].
  destruct k as [|k]; [by right|].
  rewrite !pow2k_S in E. apply no_root_of_minus_one in E as [Ea Eb]. apply IH.
  by rewrite !pow2k_S, Ea, Eb.
Qed.

(** ** The chain of roots *)
Lemma modpow_ok b e : 0 <= b -> 0 < e -> eqp (modpow b e p) (b ^ e) /\ 0 <= modpow b e p < p.
Proof.
  intros Hb He. pose proof p_ge3. destruct e as [|e|e]; [lia| |lia]. unfold modpow. rewrite rem_mod by lia.
  pose proof (Z.mod_pos_bound b p). split; [|apply modpow_loop_range; lia].
  rewrite modpow_loop_ok by lia. rewrite Z.mul_1_l. apply eqm_pow, mod_eqm.
Qed.

(** One step back from [v]: the square, or its opposite. *)
Definition back (sign : option Z) (v : Z) : Z :=
  let s := Z.rem (v * v) p in if bool_decide (sign = Some 1) then Z.rem (p - s) p else s.
Definition sgn (sign : option Z) : Z := if bool_decide (sign = Some 1) then -1 else 1.

Lemma back_ok sign v : eqp (back sign v) (sgn sign * (v * v)) /\ 0 <= back sign v < p.
Proof.
  pose proof p_ge3. pose proof (Z.mod_pos_bound (v * v) p). pose proof (Z.square_nonneg v). unfold back, sgn. rewrite (rem_mod (v * v)) by lia.
  case_bool_decide; [|split; [by rewrite mod_eqm, Z.mul_1_l | lia]].
  rewrite rem_mod by lia. split; [|apply Z.mod_pos_bound; lia].
  rewrite mod_eqm. apply eqm_minus. replace (p - (v * v) mod p - -1 * (v * v)) with (p * 1 + (v * v - (v * v) mod p)) by ring.
  rewrite mod_eqm, Z.sub_diag, Z.add_0_r, Z.mul_1_r. apply eqp_zero_iff, Z.divide_refl.
Qed.

Lemma square_back_cons s signs i : forall v,
  square_back p (s :: signs) (S i) v = back (Some s) (square_back p signs i v).
Proof. induction i as [|i IH]; intros v; [done|]. change (square_back p (s :: signs) (S (S i)) v) with
  (square_back p (s :: signs) (S i) (back (signs !! i) v)). by rewrite IH. Qed.

(** The root the evaluation takes is one the verification squares back. *)
Lemma root_step x : 0 < x < p -> let r := modpow x (SQRT_EXP p) p in
  0 < r < p /\ back (Some (if Z.rem (r * r) p =? x then 0 else 1)) r = x.
Proof.
  intros Hx r. pose proof p_ge3. destruct half_spec as (Hp & k & Hk & Hh & He).
  destruct (modpow_ok x (SQRT_EXP p)) as [Er Hr]; [lia|lia|]. fold r in Er, Hr.
  assert (N : ~ eqp x 0).
  { rewrite eqp_zero_iff. intros D%Z.divide_pos_le; lia. }
  assert (Sq : eqp (r * r) (x * x ^ half)).
  { rewrite Er, He, <- Z.pow_add_r by lia. rewrite <- (Z.pow_succ_r x half) by lia.
    by replace (k + 1 + (k + 1)) with (Z.succ half) by lia. }
  assert (U : eqp (x ^ half) 1 \/ eqp (x ^ half) (- (1))).
  { apply square_eq. rewrite <- Z.pow_add_r by lia. replace (half + half) with (p - 1) by lia.
    by rewrite fermat. }
  assert (r <> 0).
  { intros R0. rewrite R0 in Sq. destruct U as [U|U]; rewrite U in Sq; apply N; symmetry in Sq.
    - by rewrite Z.mul_1_r in Sq.
    - rewrite Z.mul_opp_r, Z.mul_1_r in Sq. apply eqm_opp in Sq. by rewrite Z.opp_involutive in Sq. }
  split; [lia|]. destruct (Z.rem (r * r) p =? x) eqn:T; rewrite rem_mod in T by nia.
  - apply Z.eqb_eq in T. unfold back. rewrite (rem_mod (r * r)), bool_decide_false by (done || nia). done.
  - apply Z.eqb_neq in T. destruct (back_ok (Some 1) r) as [B R].
    apply (eqm_small (m := p)); [done | lia |]. rewrite B, Sq. change (sgn (Some 1)) with (-1).
    destruct U as [U|U]; rewrite U.
    + destruct T. apply (eqm_small (m := p)); [apply Z.mod_pos_bound; lia | lia |].
      by rewrite mod_eqm, Sq, U, Z.mul_1_r.
    + by replace (-1 * (x * - (1))) with x by ring.
Qed.

Lemma roots_back T : forall x, 0 < x < p -> 0 < (roots p T x).1 < p /\
  length (roots p T x).2 = T /\ square_back p (roots p T x).2 T (roots p T x).1 = x.
Proof.
  induction T as [|T IH]; intros x Hx; [done|]. destruct (root_step x Hx) as [Hr Hb].
  specialize (IH _ Hr). cbn [roots]. destruct (roots p T _) as [y signs]. cbn [fst snd] in *.
  destruct IH as (Hy & Hl & E). split; [done|]. split; [by cbn; rewrite Hl|].
  by rewrite square_back_cons, E.
Qed.

(** Squaring back forgets every sign but the first. *)
#[local] Instance pow2k_eqp k : Proper (eqp ==> eqp) (pow2k k).
Proof. induction k as [|k IH]; intros a b E; [done|]. by rewrite !pow2k_S, (IH _ _ E). Qed.

Lemma pow2k_square k a : pow2k (S k) a = pow2k k (a * a).
Proof. unfold pow2k. by rewrite Nat.iter_succ_r. Qed.

Lemma square_back_power signs i : forall v,
  eqp (square_back p signs (S i) v) (sgn (signs !! 0%nat) * pow2k (S i) v) /\
  0 <= square_back p signs (S i) v < p.
Proof.
  induction i as [|i IH]; intros v; [apply (back_ok (signs !! 0%nat))|].
  change (square_back p signs (S (S i)) v) with (square_back p signs (S i) (back (signs !! S i) v)).
  destruct (IH (back (signs !! S i) v)) as [E R]. split; [|done]. rewrite E.
  rewrite (pow2k_square i), (pow2k_square (S i)), (pow2k_square i).
  destruct (back_ok (signs !! S i) v) as [B _]. rewrite B. unfold sgn at 2 3.
  case_bool_decide; [by replace (-1 * (v * v) * (-1 * (v * v))) with (v * v * (v * v)) by ring|].
  by rewrite Z.mul_1_l.
Qed.

(** ** Theorems *)
Context {X : Xof}.

Lemma be_value_nonneg b : 0 <= be_value b.
Proof.
  unfold be_value. assert (H : forall acc, 0 <= acc -> 0 <= fold_left (fun acc x => acc * 256 + Z_of_byte x) b acc).
  { induction b as [|x b IH]; intros acc Ha; [done|]. cbn [fold_left]. apply IH.
    pose proof (Z_of_byte_range x). lia. }
  by apply H.
Qed.

Lemma seedToX_range seed : 0 < seedToX p seed < p.
Proof.
  pose proof p_ge3. unfold seedToX. set (v := be_value _). pose proof (be_value_nonneg (H [utf8 "vdf/seed"; seed])).
  rewrite rem_mod by (unfold v; lia). pose proof (Z.mod_pos_bound v p).
  destruct (v mod p =? 0) eqn:E; bool_to_prop; lia.
Qed.

Lemma accepts_iff seed T y signs :
  let (y0, signs0) := vdfEval p seed (S T) in
  vdfVerify p seed y signs (S T) = true <->
  (eqp y y0 \/ eqp y (- y0)) /\ (signs !! 0%nat = Some 1 <-> signs0 !! 0%nat = Some 1).
Proof.
  pose proof (seedToX_range seed) as Hx. unfold vdfEval, vdfVerify. pose proof (roots_back (S T) _ Hx) as R.
  destruct (roots p (S T) (seedToX p seed)) as [y0 signs0]. cbn [fst snd] in R.
  destruct R as (_ & _ & R). set (x := seedToX p seed) in *. rewrite Z.eqb_eq.
  destruct (square_back_power signs T y) as [E B]. destruct (square_back_power signs0 T y0) as [E0 _].
  rewrite R in E0.
  assert (N : ~ eqp x 0) by (rewrite eqp_zero_iff; intros D%Z.divide_pos_le; lia).
  assert (Sg : forall a b : option Z, (a = Some 1 <-> b = Some 1) <-> sgn a = sgn b).
  { intros a b. unfold sgn. do 2 case_bool_decide; split; intros; (done || tauto || lia). }
  rewrite Sg. assert (Sq : forall o, sgn o * sgn o = 1) by (intros o; unfold sgn; by case_bool_decide).
  assert (Cases : forall o o', sgn o = sgn o' \/ sgn o = - sgn o').
  { intros o o'. unfold sgn. do 2 case_bool_decide; lia. }
  split.
  - intros V. rewrite V in E. destruct (Cases (signs !! 0%nat) (signs0 !! 0%nat)) as [F|F].
    + split; [|done]. rewrite F in E. apply (power_eq (S T)).
      rewrite <- (Z.mul_1_l (pow2k _ y)), <- (Z.mul_1_l (pow2k _ y0)), <- (Sq (signs0 !! 0%nat)), <- !Z.mul_assoc.
      by rewrite <- E, <- E0.
    + exfalso. apply N. rewrite F in E.
      assert (P : eqp (pow2k (S T) y) (- pow2k (S T) y0)).
      { rewrite <- (Z.mul_1_l (pow2k _ y)), <- (Z.mul_1_l (pow2k _ y0)), <- (Sq (signs0 !! 0%nat)), <- !Z.mul_assoc.
        rewrite <- E0. replace (sgn (signs0 !! 0%nat) * pow2k (S T) y) with
          (- (- sgn (signs0 !! 0%nat) * pow2k (S T) y)) by ring. rewrite <- E. by rewrite Z.mul_opp_r. }
      rewrite !pow2k_S in P. apply no_root_of_minus_one in P as [_ P]. rewrite E0, pow2k_S, P.
      by rewrite !Z.mul_0_r.
  - intros [D F]. apply (eqm_small (m := p)); [done | lia |]. rewrite E, F.
    destruct D as [D|D]; [by rewrite D|]. rewrite E0, !pow2k_square.
    assert (Dy : eqp (y * y) (y0 * y0)) by (rewrite D; by rewrite Z.mul_opp_opp). by rewrite Dy.
Qed.

(** What the evaluation returns verifies, for every number of steps, and its
    signs are as many as the steps. *)
Theorem vdf_verifies seed T :
  vdfVerify p seed (vdfEval p seed T).1 (vdfEval p seed T).2 T = true /\
  length (vdfEval p seed T).2 = T /\ 0 < (vdfEval p seed T).1 < p.
Proof.
  destruct (roots_back T _ (seedToX_range seed)) as (Hy & Hl & E). unfold vdfVerify, vdfEval.
  split; [by apply Z.eqb_eq | done].
Qed.

(** What the verifier accepts, exactly: an output equal or opposite to the
    evaluated one modulo p, with whatever proof as long as its first sign is
    the evaluated one. *)
Theorem vdf_accepts_iff seed T y signs y0 signs0 : vdfEval p seed (S T) = (y0, signs0) ->
  vdfVerify p seed y signs (S T) = true <->
  (eqp y y0 \/ eqp y (- y0)) /\ (signs !! 0%nat = Some 1 <-> signs0 !! 0%nat = Some 1).
Proof. intros E. pose proof (accepts_iff seed T y signs) as A. by rewrite E in A. Qed.

(** So a delayed seed has a second output, and all the signs of the proof but
    the first can be exchanged. *)
Theorem vdf_second_output seed T y0 s signs0 junk : vdfEval p seed (S T) = (y0, s :: signs0) ->
  p - y0 <> y0 /\ 0 < p - y0 < p /\ vdfVerify p seed (p - y0) (s :: junk) (S T) = true.
Proof.
  intros E. pose proof (accepts_iff seed T (p - y0) (s :: junk)) as A. rewrite E in A.
  destruct (roots_back (S T) _ (seedToX_range seed)) as (Hy & _ & _). unfold vdfEval in E. rewrite E in Hy.
  cbn [fst] in Hy. split; [|split; [lia|]].
  - intros D. Z.to_euclidean_division_equations; lia.
  - apply A. split; [right|done]. apply eqm_minus. replace (p - y0 - - y0) with p by lia.
    apply eqp_zero_iff, Z.divide_refl.
Qed.

(** ** Sortition *)
Fixpoint stake_sum {V} (stake : V -> Z) (vals : list V) : Z :=
  match vals with [] => 0 | v :: vals' => stake v + stake_sum stake vals' end.

Lemma sort_walk_ok {V} (stake : V -> Z) vals : forall r, 0 <= r < stake_sum stake vals ->
  exists v before after, sort_walk stake r vals = Some v /\ vals = before ++ v :: after /\
    stake_sum stake before <= r < stake_sum stake before + stake v.
Proof.
  induction vals as [|v vals IH]; intros r Hr; cbn [stake_sum] in Hr; [lia|]. cbn [sort_walk].
  destruct (r <? stake v) eqn:E; bool_to_prop.
  - exists v, [], vals. cbn. repeat split; lia.
  - destruct (IH (r - stake v)) as (w & before & after & Ew & -> & B); [lia|].
    exists w, (v :: before), after. split; [done|]. split; [done|]. cbn [stake_sum]. lia.
Qed.

(** The validator chosen is the one whose interval of the cumulated stakes
    holds the draw, when the total is the sum of the stakes. *)
Theorem sortition_interval {V} (stake : V -> Z) seed vals : 0 < stake_sum stake vals ->
  exists v before after, sortition stake seed vals (stake_sum stake vals) = Some v /\
    vals = before ++ v :: after /\
    stake_sum stake before <= be_value (H [utf8 "vrf002/sortition"; seed]) mod stake_sum stake vals
      < stake_sum stake before + stake v.
Proof.
  intros Ht. unfold sortition. set (b := be_value _). rewrite rem_mod by (try apply be_value_nonneg; done).
  destruct (sort_walk_ok stake vals (b mod stake_sum stake vals)) as (v & before & after & E & El & B);
    [by apply Z.mod_pos_bound|].
  exists v, before, after. by rewrite E.
Qed.
End field.

(** ** A run modulo 23 *)
Lemma prime_23 : Z.prime 23.
Proof. by apply prime_by_trial; vm_compute. Qed.

Definition toy_seed : bytes := [x01; x02].
Example sloth_runs : vdfEval 23 toy_seed 5 = (16, [1; 0; 0; 0; 0]) /\
  vdfVerify 23 toy_seed 16 [0; 0; 0; 0; 0] 5 = false /\ vdfVerify 23 toy_seed 15 [1; 0; 0; 0; 0] 5 = false.
Proof. vm_compute. done. Qed.

Lemma vdf_verifies_witness : vdfVerify 23 toy_seed 16 [1; 0; 0; 0; 0] 5 = true.
Proof. exact (proj1 (vdf_verifies 23 prime_23 eq_refl toy_seed 5)). Defined.

(** 7 = 23 - 16 is accepted as well, with other signs. *)
Lemma vdf_accepts_iff_witness : vdfVerify 23 toy_seed 7 [1; 1; 1] 5 = true.
Proof.
  apply (vdf_accepts_iff 23 prime_23 eq_refl toy_seed 4 7 [1; 1; 1] 16 [1; 0; 0; 0; 0]).
  - vm_compute. reflexivity.
  - split; [right; split; reflexivity | done].
Defined.

Lemma vdf_second_output_witness : vdfVerify 23 toy_seed (23 - 16) [1; 0; 1; 0; 1] 5 = true.
Proof.
  apply (vdf_second_output 23 prime_23 eq_refl toy_seed 4 16 1 [0; 0; 0; 0]). vm_compute. reflexivity.
Defined.

Lemma sortition_interval_witness : exists v, sortition (fun z : Z => z) toy_seed [34; 33; 33] 100 = Some v.
Proof.
  destruct (sortition_interval (fun z : Z => z) toy_seed [34; 33; 33]) as (v & _ & _ & E & _); [done|].
  by exists v.
Defined.
