(* ===== verification/SeedTree.v ===== *)
(** * labs/spikes/nzk-002: the puncturable seed tree

    src/labs/spikes/nzk-002/prototype.mjs: a binary tree of seeds (GGM), its
    opening at all leaves but one, and the check of an opening against the
    commitment to the leaves.  The cost model of the prototype is not
    modelled. *)
From S2P Require Import Prelude JsNum JsVal Crypto Concrete Group.
Open Scope Z_scope.
Open Scope list_scope.

Section ggm.
Context {X : Xof}.

Definition HLEN : nat := 32.
(** [H(...p)] on buffers and strings *)
Definition H (ps : list bytes) : bytes := shake256 (concat ps) HLEN.
Definition childL (s : bytes) : bytes := H [utf8 "ggm/L"; s].
Definition childR (s : bytes) : bytes := H [utf8 "ggm/R"; s].

(** One level down, and the leaves below a seed. *)
Definition next_level (level : list bytes) : list bytes := flat_map (fun x => [childL x; childR x]) level.
Definition expandSubtree (seed : bytes) (subDepth : nat) : list bytes := Nat.iter subDepth next_level [seed].

Definition leaf_commit (l : bytes) : bytes := H [utf8 "ggm/leaf"; l].
Definition commitLeaves (leaves : list bytes) : bytes := H (utf8 "ggm/commit" :: map leaf_commit leaves).

Record Sibling := { sib_seed : bytes; sib_base : Z; sib_subDepth : nat }.

(** The loop of [openAllButOne] from the node [s] at [base], [n] levels to go. *)
Fixpoint open_loop (n : nat) (pStar : Z) (s : bytes) (base : Z) : list Sibling :=
  match n with
  | O => []
  | S subDepth =>
      let half := shl32 1 (Z.of_nat subDepth) in
      let bit := and32 (shr32 pStar (Z.of_nat subDepth)) 1 in
      if bit =? 0
      then {| sib_seed := childR s; sib_base := base + half; sib_subDepth := subDepth |}
           :: open_loop subDepth pStar (childL s) base
      else {| sib_seed := childL s; sib_base := base; sib_subDepth := subDepth |}
           :: open_loop subDepth pStar (childR s) (base + half)
  end.
Definition openAllButOne (root : bytes) (depth : nat) (pStar : Z) : list Sibling :=
  open_loop depth pStar root 0.

(** [leaves[base + i] = sub[i]] for every [i]; the indices of an opening are
    in range. *)
Fixpoint write (leaves : list (option bytes)) (at_ : nat) (sub : list bytes) : list (option bytes) :=
  match sub with
  | [] => leaves
  | x :: sub' => write (<[at_ := Some x]> leaves) (S at_) sub'
  end.
Definition fill (leaves : list (option bytes)) (siblings : list Sibling) : list (option bytes) :=
  fold_left (fun l s => write l (Z.to_nat (sib_base s)) (expandSubtree (sib_seed s) (sib_subDepth s)))
    siblings leaves.
Definition reconstructExcept (depth : nat) (siblings : list Sibling) : list (option bytes) :=
  fill (repeat None (Z.to_nat (shl32 1 (Z.of_nat depth)))) siblings.

(** The verifier's commitment: the punctured leaf's commitment is given. *)
Definition recommit (pStar : nat) (comPstar : bytes) (rl : list (option bytes)) : bytes :=
  H (utf8 "ggm/commit" ::
     imap (fun j l => if bool_decide (j = pStar) then comPstar
                      else leaf_commit (default (utf8 "null") l)) rl).

(** ** The leaves *)
Lemma next_level_app l m : next_level (l ++ m) = next_level l ++ next_level m.
Proof. apply flat_map_app. Qed.

Lemma levels_app n : forall l m, Nat.iter n next_level (l ++ m) = Nat.iter n next_level l ++ Nat.iter n next_level m.
Proof. induction n as [|n IH]; intros l m; [done|]. by rewrite !Nat.iter_succ, IH, next_level_app. Qed.

Lemma expand_S s n : expandSubtree s (S n) = expandSubtree (childL s) n ++ expandSubtree (childR s) n.
Proof. unfold expandSubtree. rewrite Nat.iter_succ_r. apply (levels_app n [childL s] [childR s]). Qed.

Lemma expand_length n : forall s, length (expandSubtree s n) = (2 ^ n)%nat.
Proof. induction n as [|n IH]; intros s; [done|]. rewrite expand_S, length_app, !IH. cbn. lia. Qed.

Lemma write_segment sub : forall pre mid post, length mid = length sub ->
  write (pre ++ mid ++ post) (length pre) sub = pre ++ (Some <$> sub) ++ post.
Proof.
  induction sub as [|x sub IH]; intros pre [|m mid] post Hl; try done.
  cbn [write]. replace (<[length pre := Some x]> (pre ++ (m :: mid) ++ post)) with ((pre ++ [Some x]) ++ mid ++ post).
  - replace (S (length pre)) with (length (pre ++ [Some x])) by (rewrite length_app; cbn; lia).
    rewrite IH by (cbn in Hl; lia). by rewrite <- app_assoc.
  - rewrite <- app_assoc. rewrite insert_app_r_alt by lia. by rewrite Nat.sub_diag.
Qed.

Lemma shl32_pow n : (n <= 30)%nat -> shl32 1 (Z.of_nat n) = 2 ^ Z.of_nat n.
Proof.
  intros Hn. unfold shl32. change (to_int32 1) with 1. rewrite Z.mod_small, Z.shiftl_1_l by lia.
  apply to_int32_id. pose proof (Z.pow_pos_nonneg 2 (Z.of_nat n)).
  pose proof (Z.pow_le_mono_r 2 (Z.of_nat n) 30). lia.
Qed.

(** The bit of [p] that [open_loop] tests says in which half [p] is. *)
Lemma half_bit n p base k : (n <= 29)%nat -> 0 <= p < 2 ^ 31 -> base = k * 2 ^ Z.of_nat (S n) ->
  base <= p < base + 2 ^ Z.of_nat (S n) ->
  (and32 (shr32 p (Z.of_nat n)) 1 =? 0) = (p <? base + 2 ^ Z.of_nat n).
Proof.
  intros Hn Hp -> Hr. rewrite Nat2Z.inj_succ, Z.pow_succ_r in * by lia.
  set (h := 2 ^ Z.of_nat n) in *. assert (0 < h) by (apply Z.pow_pos_nonneg; lia).
  unfold and32, shr32. rewrite (to_int32_id p), (Z.mod_small (Z.of_nat n)), Z.shiftr_div_pow2 by lia. fold h.
  assert (0 <= p / h < 2 ^ 31) by (split; [apply Z.div_pos; lia | apply Z.div_lt_upper_bound; nia]).
  rewrite to_int32_id by lia. change (to_int32 1) with (Z.ones 1). rewrite Z.land_ones by lia. change (2 ^ 1) with 2.
  destruct (p <? k * (2 * h) + h) eqn:E; bool_to_prop.
  - replace (p / h) with (k * 2) by (apply Z.div_unique with (p - k * (2 * h)); nia). by rewrite Z.mod_mul.
  - replace (p / h) with (1 + k * 2) by (apply Z.div_unique with (p - k * (2 * h) - h); nia). by rewrite Z.mod_add.
Qed.

Lemma fill_cons l s ss :
  fill l (s :: ss) = fill (write l (Z.to_nat (sib_base s)) (expandSubtree (sib_seed s) (sib_subDepth s))) ss.
Proof. done. Qed.

(** An opening fills the segment of its subtree, but for the punctured leaf. *)
Lemma open_fills n : forall pStar s base k pre post, (n <= 30)%nat -> 0 <= pStar < 2 ^ 31 ->
  base = k * 2 ^ Z.of_nat n -> Z.of_nat (length pre) = base -> base <= pStar < base + 2 ^ Z.of_nat n ->
  fill (pre ++ repeat None (2 ^ n) ++ post) (open_loop n pStar s base) =
  pre ++ <[Z.to_nat (pStar - base) := None]> (Some <$> expandSubtree s n) ++ post.
Proof.
  induction n as [|n IH]; intros pStar s base k pre post Hn Hp Hb Hl Hr.
  - cbn in *. replace (pStar - base) with 0 by lia. done.
  - cbn [open_loop]. rewrite (half_bit n pStar base k), shl32_pow by (done || lia).
    assert (E2 : 2 ^ Z.of_nat (S n) = 2 ^ Z.of_nat n + 2 ^ Z.of_nat n) by
      (rewrite Nat2Z.inj_succ, Z.pow_succ_r by lia; lia).
    assert (E1 : Z.of_nat (2 ^ n) = 2 ^ Z.of_nat n) by (rewrite Nat2Z.inj_pow; done).
    assert (Er : repeat (@None bytes) (2 ^ S n) = repeat None (2 ^ n) ++ repeat None (2 ^ n)).
    { rewrite <- repeat_app. f_equal. cbn. lia. }
    rewrite Er, expand_S, fmap_app. destruct (pStar <? base + 2 ^ Z.of_nat n) eqn:E; bool_to_prop;
      rewrite fill_cons; cbn [sib_base sib_seed sib_subDepth].
    + replace (Z.to_nat (base + 2 ^ Z.of_nat n)) with (length (pre ++ repeat (@None bytes) (2 ^ n)))
        by (rewrite length_app, repeat_length; lia).
      rewrite <- (app_assoc (repeat None (2 ^ n))), (app_assoc pre), write_segment
        by (by rewrite repeat_length, expand_length).
      rewrite <- app_assoc. rewrite (IH pStar _ base (2 * k)) by (rewrite ?E2 in Hb; lia).
      rewrite insert_app_l by (rewrite length_fmap, expand_length; lia). by rewrite <- app_assoc.
    + replace (Z.to_nat base) with (length pre) by lia.
      rewrite <- (app_assoc (repeat None (2 ^ n))), write_segment by (by rewrite repeat_length, expand_length).
      rewrite (app_assoc pre). rewrite (IH pStar _ (base + 2 ^ Z.of_nat n) (2 * k + 1));
        try (rewrite ?length_app, ?length_fmap, ?expand_length; lia).
      rewrite insert_app_r_alt by (rewrite length_fmap, expand_length; lia).
      rewrite length_fmap, expand_length. rewrite <- !app_assoc. do 3 f_equal. f_equal. lia.
Qed.

Lemma open_length n : forall pStar s base, length (open_loop n pStar s base) = n.
Proof. induction n as [|n IH]; intros; [done|]. cbn. case_match; cbn; by rewrite IH. Qed.

(** The verifier of an opening rebuilds the leaves of the tree, all but the
    punctured one. *)
Lemma reconstruct_ok root depth pStar : (depth <= 30)%nat -> 0 <= pStar < 2 ^ Z.of_nat depth ->
  reconstructExcept depth (openAllButOne root depth pStar) =
  <[Z.to_nat pStar := None]> (Some <$> expandSubtree root depth).
Proof.
  intros Hd Hp. unfold reconstructExcept, openAllButOne. rewrite shl32_pow by done.
  replace (Z.to_nat (2 ^ Z.of_nat depth)) with (2 ^ depth)%nat
    by (apply Nat2Z.inj; rewrite Z2Nat.id, Nat2Z.inj_pow by lia; done).
  pose proof (Z.pow_le_mono_r 2 (Z.of_nat depth) 30).
  pose proof (open_fills depth pStar root 0 0 [] [] Hd) as F. cbn [app length] in F.
  rewrite !app_nil_r, Z.sub_0_r in F. apply F; lia.
Qed.

Lemma recommit_ok root depth pStar leaf : expandSubtree root depth !! pStar = Some leaf ->
  recommit pStar (leaf_commit leaf) (<[pStar := None]> (Some <$> expandSubtree root depth)) =
  commitLeaves (expandSubtree root depth).
Proof.
  intros E. unfold recommit, commitLeaves. do 2 f_equal. apply list_eq. intros j.
  rewrite list_lookup_imap. change (map leaf_commit) with (fmap (M := list) leaf_commit). rewrite list_lookup_fmap.
  destruct (decide (j = pStar)) as [->|N].
  - rewrite list_lookup_insert_eq by (rewrite length_fmap; by apply lookup_lt_Some in E). rewrite E. cbn.
    by rewrite bool_decide_true.
  - rewrite list_lookup_insert_ne, list_lookup_fmap by done. destruct (expandSubtree root depth !! j); cbn; [|done].
    by rewrite bool_decide_false.
Qed.

(** An opening of a tree of up to 2^30 leaves reveals every leaf but the
    punctured one, in as many seeds as the tree is deep, and checks against the
    commitment to the leaves. *)
Theorem opening_complete root depth pStar leaf : (depth <= 30)%nat -> 0 <= pStar < 2 ^ Z.of_nat depth ->
  expandSubtree root depth !! Z.to_nat pStar = Some leaf ->
  let rl := reconstructExcept depth (openAllButOne root depth pStar) in
  rl = <[Z.to_nat pStar := None]> (Some <$> expandSubtree root depth) /\
  length (openAllButOne root depth pStar) = depth /\
  recommit (Z.to_nat pStar) (leaf_commit leaf) rl = commitLeaves (expandSubtree root depth).
Proof.
  intros Hd Hp E rl. unfold rl. rewrite reconstruct_ok by done. split; [done|].
  split; [apply open_length | by apply recommit_ok].
Qed.

(** ** Binding *)
Context (shake_length : forall b n, length (shake256 b n) = n).

(** Two different members of [P] with the same digest. *)
Definition collides (P : list bytes) : Prop :=
  exists x y, x ∈ P /\ y ∈ P /\ x <> y /\ shake256 x HLEN = shake256 y HLEN.

(** What is hashed to check rebuilt leaves [rl] against the commitment to
    [leaves]. *)
Definition commit_inputs (leaves : list bytes) (pStar : nat) (comPstar : bytes)
    (rl : list (option bytes)) : list bytes :=
  [utf8 "ggm/commit" ++ concat (map leaf_commit leaves);
   utf8 "ggm/commit" ++ concat (imap (fun (j : nat) (l : option bytes) =>
     if bool_decide (j = pStar) then comPstar else leaf_commit (default (utf8 "null") l)) rl)] ++
  map (fun l => utf8 "ggm/leaf" ++ l) leaves ++
  map (fun l => utf8 "ggm/leaf" ++ default (utf8 "null") l) rl.

Lemma seed_H_inj P ps qs : H ps = H qs -> concat ps ∈ P -> concat qs ∈ P ->
  concat ps = concat qs \/ collides P.
Proof.
  intros E. destruct (decide (concat ps = concat qs)); [by left | right; by exists (concat ps), (concat qs)].
Qed.

Lemma blocks_inj (n : nat) (xs : list bytes) : forall ys, Forall (fun b => length b = n) xs ->
  Forall (fun b => length b = n) ys -> length xs = length ys -> concat xs = concat ys -> xs = ys.
Proof.
  induction xs as [|x xs IH]; intros [|y ys] Fx Fy Hl E; try done.
  apply Forall_cons in Fx as [Hx Fx], Fy as [Hy Fy]. cbn in E, Hl.
  apply app_inj_1 in E as [-> E]; [|congruence]. f_equal. by apply IH; [| |lia|].
Qed.

Lemma leaf_commit_inj P l m : leaf_commit l = leaf_commit m ->
  utf8 "ggm/leaf" ++ l ∈ P -> utf8 "ggm/leaf" ++ m ∈ P -> l = m \/ collides P.
Proof.
  intros E Hl Hm. destruct (seed_H_inj P _ _ E) as [E'|C];
    [by cbn [concat]; rewrite app_nil_r | by cbn [concat]; rewrite app_nil_r | left | by right].
  cbn [concat] in E'. apply app_inv_head in E'. by rewrite !app_nil_r in E'.
Qed.

(** The commitment binds the verifier to the leaves: rebuilt leaves that check
    against it, from whatever seeds, are the committed ones except where the
    punctured commitment stands, or two different strings collide among those
    hashed to commit to the leaves and to check. *)
Theorem opening_binding leaves pStar comPstar rl : length rl = length leaves ->
  Forall (fun l => is_Some l) (<[pStar := Some []]> rl) -> length comPstar = HLEN ->
  recommit pStar comPstar rl = commitLeaves leaves ->
  let P := commit_inputs leaves pStar comPstar rl in
  (forall j l, j <> pStar -> leaves !! j = Some l -> rl !! j = Some (Some l) \/ collides P) /\
  (forall l, leaves !! pStar = Some l -> comPstar = leaf_commit l \/ collides P).
Proof.
  intros Hl Fs Hc E P. unfold recommit, commitLeaves in E.
  set (f := fun (j : nat) (l : option bytes) => if bool_decide (j = pStar) then comPstar
    else leaf_commit (default (utf8 "null") l)) in E.
  assert (B : imap f rl = map leaf_commit leaves \/ collides P).
  { destruct (seed_H_inj P _ _ E) as [E'|E']; [right; by left | by left | left | by right].
    clear E. rename E' into E. cbn [concat] in E. apply app_inv_head in E.
    apply (blocks_inj HLEN); [| | |done].
    - apply Forall_lookup. intros j b. rewrite list_lookup_imap.
      destruct (rl !! j); cbn; [|done]. intros [= <-]. unfold f. case_bool_decide; [done | apply shake_length].
    - apply Forall_fmap, Forall_forall. intros l _. apply shake_length.
    - rewrite length_imap, length_map. done. }
  destruct B as [B|C]; [|by split; intros; right].
  assert (At : forall j l, leaves !! j = Some l -> exists r, rl !! j = Some r /\ f j r = leaf_commit l).
  { intros j l Ej. apply (f_equal (lookup j)) in B. rewrite list_lookup_imap in B.
    change (map leaf_commit) with (fmap (M := list) leaf_commit) in B. rewrite list_lookup_fmap, Ej in B.
    destruct (rl !! j) as [r|]; [|done]. injection B as B. by exists r. }
  split.
  - intros j l N Ej. destruct (At j l Ej) as (r & Er & F). unfold f in F. rewrite bool_decide_false in F by done.
    assert (is_Some r) as [b ->].
    { rewrite Forall_lookup in Fs. apply (Fs j). by rewrite list_lookup_insert_ne. }
    destruct (leaf_commit_inj P _ _ F) as [F'|F']; [| | left; cbn in F'; by rewrite Er, F' | by right].
    + unfold P, commit_inputs. apply elem_of_app. right. apply elem_of_app. right.
      apply (list_elem_of_fmap_2 (fun l => utf8 "ggm/leaf" ++ default (utf8 "null") l)).
      by eapply list_elem_of_lookup_2.
    + unfold P, commit_inputs. apply elem_of_app. right. apply elem_of_app. left.
      apply (list_elem_of_fmap_2 (fun l => utf8 "ggm/leaf" ++ l)). by eapply list_elem_of_lookup_2.
  - intros l Ej. destruct (At pStar l Ej) as (r & Er & F). unfold f in F. rewrite bool_decide_true in F by done. by left.
Qed.
End ggm.

(** ** A run *)
Definition toy_root : bytes := [x05; x06].

Lemma opening_complete_witness : exists leaf,
  recommit 5 (leaf_commit leaf) (reconstructExcept 3 (openAllButOne toy_root 3 5)) =
  commitLeaves (expandSubtree toy_root 3).
Proof.
  destruct (expandSubtree toy_root 3 !! 5%nat) as [leaf|] eqn:E; [|vm_compute in E; discriminate E].
  exists leaf. apply (opening_complete toy_root 3 5 leaf); [lia | lia | exact E].
Defined.

Lemma toy_shake_length b n : length (shake256 b n) = n.
Proof. apply be_bytes_length. Qed.

Lemma opening_binding_witness :
  let leaves := expandSubtree toy_root 3 in let rl := <[5%nat := None]> (Some <$> leaves) in
  forall l l5, leaves !! 0%nat = Some l -> leaves !! 5%nat = Some l5 ->
    rl !! 0%nat = Some (Some l) \/ collides (commit_inputs leaves 5 (leaf_commit l5) rl).
Proof.
  intros leaves rl l l5 E E5.
  destruct (opening_binding toy_shake_length leaves 5 (leaf_commit l5) rl) as [B _].
  - unfold rl. by rewrite length_insert, length_fmap.
  - unfold rl. rewrite list_insert_insert_eq. apply Forall_insert; [|by eexists].
    apply Forall_fmap, Forall_forall. intros x _. by eexists.
  - apply toy_shake_length.
  - exact (recommit_ok toy_root 3 5 l5 E5).
  - exact (B 0%nat l (fun e => match e with end) E).
Defined.
