(* ===== verification/Macaroon.v ===== *)
(** * labs/spikes/cap-001: macaroons

    src/labs/spikes/cap-001/prototype.mjs: capabilities as a chain of MACs over
    caveats, attenuated without the root key.  The size and speed comparison of
    the prototype is not modelled. *)
From S2P Require Import Prelude JsNum JsVal Crypto.
Open Scope Z_scope.
Open Scope list_scope.

Record Macaroon := { identifier : string; caveats : list string; tag : bytes }.

Section macaroon.
Context {L : Lib}.

Definition chain (t : bytes) (cs : list string) : bytes :=
  fold_left (fun t c => hmac_sha384 t (utf8 c)) cs t.

Definition mint (rootKey : bytes) (identifier : string) (caveats : list string) : Macaroon := {|
  identifier := identifier; caveats := caveats;
  tag := chain (hmac_sha384 rootKey (utf8 identifier)) caveats |}.
Definition attenuate (m : Macaroon) (caveat : string) : Macaroon := {|
  identifier := identifier m; caveats := caveats m ++ [caveat]; tag := hmac_sha384 (tag m) (utf8 caveat) |}.

(** The loop of [verify]: the tag, unless a caveat is not satisfied. *)
Fixpoint verify_loop (t : bytes) (cs : list string) (satisfies : string -> bool) : option bytes :=
  match cs with
  | [] => Some t
  | c :: cs' => if negb (satisfies c) then None else verify_loop (hmac_sha384 t (utf8 c)) cs' satisfies
  end.
Definition verify (rootKey : bytes) (m : Macaroon) (satisfies : string -> bool) : bool :=
  match verify_loop (hmac_sha384 rootKey (utf8 (identifier m))) (caveats m) satisfies with
  | None => false
  | Some t => (length t =? length (tag m))%nat && bool_decide (t = tag m)
  end.

Lemma verify_loop_ok cs sat : forall t t', verify_loop t cs sat = Some t' <->
  (forall c, c ∈ cs -> sat c = true) /\ t' = chain t cs.
Proof.
  induction cs as [|c cs IH]; intros t t'; cbn [verify_loop].
  - unfold chain. cbn. split; [intros [= <-]; split; [by intros c ?%elem_of_nil | done] | by intros [_ ->]].
  - destruct (sat c) eqn:E; cbn [negb]; [|split; [done | intros [S _]]; rewrite (S c) in E by left; done].
    rewrite IH. split; intros [S ->]; (split; [|done]); [|intros c' Hc; apply S; by right].
    intros c' [->|Hc]%elem_of_cons; auto.
Qed.

Lemma verify_iff rootKey m sat : verify rootKey m sat = true <->
  (forall c, c ∈ caveats m -> sat c = true) /\ m = mint rootKey (identifier m) (caveats m).
Proof.
  unfold verify. destruct m as [i cs t]. cbn [identifier caveats tag].
  destruct (verify_loop _ cs sat) as [t'|] eqn:E.
  - apply verify_loop_ok in E as [S ->]. rewrite andb_true_iff, bool_decide_eq_true, Nat.eqb_eq.
    unfold mint. split; [intros [_ <-]; done | by intros [_ [= <-]]].
  - split; [done|]. intros [S [= ->]]. exfalso.
    rewrite (proj2 (verify_loop_ok cs sat _ _) (conj S eq_refl)) in E. done.
Qed.

(** Offline attenuation is minting with one caveat more; what verifies is what
    the holder of the root key would mint, with every caveat satisfied. *)
Theorem macaroon_exact rootKey id cs c m sat :
  attenuate (mint rootKey id cs) c = mint rootKey id (cs ++ [c]) /\
  (verify rootKey m sat = true <->
   (forall c, c ∈ caveats m -> sat c = true) /\ m = mint rootKey (identifier m) (caveats m)).
Proof.
  split; [|apply verify_iff]. unfold attenuate, mint, chain. cbn. by rewrite fold_left_app.
Qed.
End macaroon.
