(* ===== verification/SigTree.v ===== *)
(** * labs/spikes/led-001: the signature tree

    src/labs/spikes/led-001/prototype.mjs: a Merkle tree over signature digests
    that pairs a last odd node with itself.  The cost estimates of the prototype
    are not modelled. *)
From S2P Require Import Prelude JsNum JsVal Crypto Concrete Merkle Group Accumulator.
Open Scope Z_scope.
Open Scope list_scope.

Section tree.
Context {X : Xof}.

(** [H('m', x, y)] *)
Definition H (x y : bytes) : bytes := shake256 (utf8 "m" ++ x ++ y) 32.

(** One level up: a last odd node is its own sibling. *)
Fixpoint level (l : list bytes) : list bytes :=
  match l with
  | x :: y :: l' => H x y :: level l'
  | [x] => [H x x]
  | [] => []
  end.
Fixpoint root_loop (fuel : nat) (l : list bytes) : option bytes :=
  match fuel with
  | O => head l
  | S f => if (1 <? length l)%nat then root_loop f (level l) else head l
  end.
Definition merkleRoot (leaves : list bytes) : option bytes := root_loop (length leaves) leaves.

(** [l[i ^ 1] ?? l[i]] *)
Definition sibling (l : list bytes) (i : nat) : option bytes :=
  match l !! Z.to_nat (xor32 (Z.of_nat i) 1) with Some s => Some s | None => l !! i end.
Fixpoint path_loop (fuel : nat) (l : list bytes) (i : nat) : list (option bytes) :=
  match fuel with
  | O => []
  | S f => if (1 <? length l)%nat
           then sibling l i :: path_loop f (level l) (Z.to_nat (shr32 (Z.of_nat i) 1)) else []
  end.
Definition merklePath (leaves : list bytes) (idx : nat) : list (option bytes) :=
  path_loop (length leaves) leaves idx.

Fixpoint fold_path (h : bytes) (i : Z) (path : list bytes) : bytes :=
  match path with
  | [] => h
  | sib :: path' => fold_path (if and32 i 1 =? 1 then H sib h else H h sib) (shr32 i 1) path'
  end.
Definition merkleVerify (leaf : bytes) (idx : nat) (path : list bytes) (root : bytes) : bool :=
  bool_decide (fold_path leaf (Z.of_nat idx) path = root).

(** ** Levels *)
Lemma pair_ind (P : list bytes -> Prop) : P [] -> (forall x, P [x]) ->
  (forall x y l, P l -> P (x :: y :: l)) -> forall l, P l.
Proof.
  intros P0 P1 P2. enough (H : forall l, P l /\ forall x, P (x :: l)) by (intros l; apply H).
  induction l as [|y l [I1 I2]]; [by split|]. split; [apply I2|]. intros x. by apply P2.
Qed.

Lemma level_length : forall l, length (level l) = Nat.div2 (S (length l)).
Proof. apply pair_ind; [done | done |]. intros x y l IH. cbn [level length]. by rewrite IH. Qed.

Lemma level_lt l : (1 < length l)%nat -> (1 <= length (level l) < length l)%nat.
Proof.
  intros Hl. rewrite level_length. split; [apply (Nat.div2_le_mono 2); lia|].
  pose proof (Nat.div2_odd (S (length l))). destruct (Nat.odd _); cbn in *; lia.
Qed.

Definition sib (i : nat) : nat := if Nat.odd i then Nat.pred i else S i.

Lemma level_lookup : forall l i x, l !! i = Some x -> exists s,
  match l !! sib i with Some s => Some s | None => l !! i end = Some s /\
  level l !! Nat.div2 i = Some (if Nat.odd i then H s x else H x s).
Proof.
  apply (pair_ind (fun l => forall i x, l !! i = Some x -> exists s, _ /\ _)); [done| |].
  - intros y [|i] x E; [|done]. injection E as ->. by exists x.
  - intros y z l IH [|[|i]] x E; [injection E as -> | injection E as -> |]; [by exists z | by exists y |].
    destruct (IH i x E) as (s & Es & El). exists s. unfold sib in *. rewrite Nat.odd_succ_succ.
    split; [|done]. destruct (Nat.odd i) eqn:O; [|done]. destruct i; [done|]. done.
Qed.

Lemma index_parity i : Z.of_nat i mod 2 = Z.of_nat (Nat.b2n (Nat.odd i)).
Proof.
  pose proof (Nat.div2_odd i) as E. rewrite E at 1. rewrite Nat2Z.inj_add, Nat2Z.inj_mul, Z.add_comm, Z.mul_comm.
  change (Z.of_nat 2) with 2. rewrite Z.mod_add by lia. by destruct (Nat.odd i).
Qed.

Lemma sibling_sib l i : Z.of_nat i < 2 ^ 31 - 1 ->
  sibling l i = match l !! sib i with Some s => Some s | None => l !! i end.
Proof.
  intros Hi. unfold sibling, xor32. rewrite (to_int32_id (Z.of_nat i)) by lia. change (to_int32 1) with 1.
  rewrite lxor_1. replace (Z.to_nat (Z.of_nat i + 1 - 2 * (Z.of_nat i mod 2))) with (sib i); [done|].
  unfold sib. rewrite index_parity. destruct (Nat.odd i); cbn [Nat.b2n Z.of_nat]; lia.
Qed.

(** The fuel is enough: the loops do not depend on it. *)
Lemma root_fuel f : forall g l, (length l <= f)%nat -> (length l <= g)%nat -> root_loop f l = root_loop g l.
Proof.
  assert (E0 : forall h l, (length l <= 0)%nat -> root_loop h l = head l).
  { intros [|h] [|x l] Hl; cbn in *; (done || lia). }
  induction f as [|f IH]; intros g l Hf Hg; [by rewrite !E0|]. destruct g as [|g]; [by rewrite !E0|].
  cbn [root_loop]. destruct (1 <? length l)%nat eqn:E; [|done]. apply Nat.ltb_lt, level_lt in E. apply IH; lia.
Qed.

Lemma tree_root_eq l : (1 < length l)%nat -> merkleRoot l = merkleRoot (level l).
Proof.
  intros Hl. unfold merkleRoot at 1. pose proof (level_lt l Hl). destruct (length l) as [|f] eqn:E; [lia|].
  cbn [root_loop]. rewrite E, (proj2 (Nat.ltb_lt _ _)) by lia. apply root_fuel; lia.
Qed.

Lemma path_ok f : forall l i x, (length l <= f)%nat -> Z.of_nat (length l) < 2 ^ 31 - 1 -> l !! i = Some x ->
  exists p r, path_loop f l i = map Some p /\ root_loop f l = Some r /\ fold_path x (Z.of_nat i) p = r.
Proof.
  induction f as [|f IH]; intros l i x Hf Hm E; pose proof (lookup_lt_Some _ _ _ E) as Hi; [lia|].
  cbn [path_loop root_loop]. destruct (1 <? length l)%nat eqn:El.
  - apply Nat.ltb_lt, level_lt in El. destruct (level_lookup _ _ _ E) as (s & Es & Ev).
    assert (Es' : shr32 (Z.of_nat i) 1 = Z.of_nat (Nat.div2 i)).
    { rewrite Nat.div2_div, Nat2Z.inj_div. unfold shr32. rewrite to_int32_id by lia.
      by rewrite (Z.shiftr_div_pow2 _ 1) by lia. }
    rewrite Es', Nat2Z.id. destruct (IH (level l) (Nat.div2 i) _ ltac:(lia) ltac:(lia) Ev) as (p & r & Ep & Er & F).
    exists (s :: p), r. rewrite Ep, Er, sibling_sib, Es by lia. split; [done|]. split; [done|].
    cbn [fold_path]. rewrite <- F, Es'. f_equal. unfold and32. rewrite to_int32_id by lia.
    change (to_int32 1) with (Z.ones 1). rewrite Z.land_ones by lia. change (2 ^ 1) with 2.
    rewrite index_parity. by destruct (Nat.odd i).
  - apply Nat.ltb_ge in El. destruct l as [|y [|z l]]; cbn in *; [lia| |lia].
    destruct i; [|lia]. injection E as ->. by exists [], x.
Qed.

(** The path of every leaf of a tree of fewer than 2^31 - 1 leaves verifies
    against the root. *)
Theorem tree_path_verifies leaves idx leaf : Z.of_nat (length leaves) < 2 ^ 31 - 1 ->
  leaves !! idx = Some leaf ->
  exists p r, merklePath leaves idx = map Some p /\ merkleRoot leaves = Some r /\
    merkleVerify leaf idx p r = true.
Proof.
  intros Hm E. destruct (path_ok _ _ _ _ (le_n _) Hm E) as (p & r & Ep & Er & F).
  exists p, r. split; [done|]. split; [done|]. by apply bool_decide_eq_true.
Qed.

Lemma level_last l : forall x, last l = Some x -> Nat.odd (length l) = true -> level (l ++ [x]) = level l.
Proof.
  revert l. apply (pair_ind (fun l => forall x, _ -> _ -> _)); [done| |].
  - intros y x [= ->] _. done.
  - intros y z l IH x Hl Ho. cbn [length] in Ho. rewrite Nat.odd_succ_succ in Ho.
    destruct l as [|w l]; [done|]. cbn [app level]. f_equal. by apply IH.
Qed.

(** The root does not determine the leaves: repeating the last leaf of an odd
    list gives the same root. *)
Theorem repeated_leaf_same_root leaves x : (1 < length leaves)%nat -> last leaves = Some x ->
  Nat.odd (length leaves) = true -> merkleRoot (leaves ++ [x]) = merkleRoot leaves.
Proof.
  intros Hl Hx Ho. rewrite tree_root_eq, (tree_root_eq leaves), (level_last _ _ Hx Ho); [done | done |].
  rewrite length_app. lia.
Qed.
End tree.
(** ** Witnesses *)
Definition toy_leaves : list bytes := [[x01]; [x02]; [x03]].

Lemma tree_path_verifies_witness : exists p r, merkleRoot toy_leaves = Some r /\
  merkleVerify [x03] 2 p r = true.
Proof.
  destruct (tree_path_verifies toy_leaves 2 [x03]) as (p & r & _ & E & V); [done | done |].
  exists p, r. split; [exact E | exact V].
Defined.

Lemma repeated_leaf_same_root_witness :
  merkleRoot [[x01]; [x02]; [x03]; [x03]] = merkleRoot toy_leaves.
Proof. apply (repeated_leaf_same_root toy_leaves [x03]); [cbn; lia | reflexivity | reflexivity]. Defined.
