(* ===== verification/VerifyCli.v ===== *)
(** * tools/: the external receipt verifier

    src/tools/verify-receipt.mjs: a command that checks a receipt bundle against
    trust anchors given outside it.  Reading the bundle file is I/O: the
    command is a function of the environment, the arguments and the parsed
    bundle; of what it prints, the notes about the bundle's own anchors. *)
From S2P Require Import Prelude JsNum JsVal Crypto Concrete Merkle TransLog Receipts.
Open Scope string_scope.
Open Scope Z_scope.
Open Scope list_scope.

(** The bundle, as [JSON.parse] returns it. *)
Record Bundle := {
  b_body : ReceiptBody; b_sigHex : string; b_signerPublicKeyHex : string;
  b_index : num; b_size : num; b_leafHex : string; b_proofHex : list string; b_rootHex : string;
  b_issuerPublicKeyHex : option string; b_gossipedRootHex : option string }.

(** [process.env.NERION_ISSUER_PK], [process.env.NERION_LOG_ROOT], and the
    arguments of the same meaning *)
Record Anchors := {
  env_issuer : option string; env_root : option string;
  argv_issuer : option string; argv_root : option string }.

Inductive Note := different_issuer | different_root.
Record Outcome := { exit : Z; notes : list Note }.

(** [a ?? b] *)
Definition nullish (a b : option string) : option string := match a with Some x => Some x | None => b end.
(** [!a] *)
Definition falsy (a : option string) : bool := match a with Some x => bool_decide (x = "") | None => true end.
(** [a && a !== x] *)
Definition differs (a : option string) (x : string) : bool :=
  match a with Some y => negb (bool_decide (y = "")) && negb (bool_decide (y = x)) | None => false end.

Section cli.
Context {L : Lib}.

Definition cli_receipt (b : Bundle) : res Receipt :=
  sg ← hexToBytes (b_sigHex b);
  pk ← hexToBytes (b_signerPublicKeyHex b);
  Ok {| body := b_body b; r_sig := sg; r_signerPublicKey := pk; intentSalt := [] |}.
Definition cli_witness (b : Bundle) : res InclusionWitness :=
  leaf ← hexToBytes (b_leafHex b);
  proof ← mapM hexToBytes (b_proofHex b);
  root ← hexToBytes (b_rootHex b);
  Ok {| iw_index := b_index b; iw_size := b_size b; iw_leaf := leaf; iw_proof := proof; iw_root := root |}.

Definition verify_cli (a : Anchors) (b : Bundle) : res Outcome :=
  let issuerHex := nullish (env_issuer a) (argv_issuer a) in
  let rootHex := nullish (env_root a) (argv_root a) in
  match issuerHex, rootHex with
  | Some ih, Some rh =>
      if falsy issuerHex || falsy rootHex then Ok {| exit := 2; notes := [] |} else
      receipt ← cli_receipt b;
      witness ← cli_witness b;
      gossipedRoot ← hexToBytes rh;
      issuerKey ← hexToBytes ih;
      verdict ← verifyReceiptInclusion receipt witness gossipedRoot issuerKey;
      let notes := (if differs (b_issuerPublicKeyHex b) ih then [different_issuer] else []) ++
                   (if differs (b_gossipedRootHex b) rh then [different_root] else []) in
      Ok {| exit := if ev_ok verdict then 0 else 1; notes := notes |}
  | _, _ => Ok {| exit := 2; notes := [] |}
  end.

(** C29: The verifier trusts nothing of the bundle.  It exits with success only if
    an issuer key and a log root were given outside the bundle, the environment
    first; then the receipt of the bundle is signed under that key, over an
    active suite, and in the log whose root was given (a log of the
    bundle's size) its leaf is the entry at the bundle's index, or two
    different inputs hashed for tree or proof collide.  Without both anchors it
    refuses, whatever the bundle says. *)
Theorem cli_trusts_anchors `{!HashLen L} `{!SigLaws L kpr} a b out : verify_cli a b = Ok out ->
  (exit out = 0 -> exists ih rh key root,
     nullish (env_issuer a) (argv_issuer a) = Some ih /\ nullish (env_root a) (argv_root a) = Some rh /\
     ih <> "" /\ rh <> "" /\ hexToBytes ih = Ok key /\ hexToBytes rh = Ok root /\
     rb_suite (b_body b) ∈ activeSuiteIds /\
     (exists msg sg, receiptMessage (b_body b) = Ok msg /\ hexToBytes (b_sigHex b) = Ok sg /\
        ml_dsa87_verify sg msg key None = Ok true) /\
     forall es, root = merkleRoot es -> num_Z (b_size b) = Z.of_nat (length es) ->
       exists r leaf proof, cli_receipt b = Ok r /\ receiptLeaf r = Ok leaf /\
         mapM hexToBytes (b_proofHex b) = Ok proof /\
         (es !! Z.to_nat (num_Z (b_index b)) = Some leaf \/
          collision_among (tree_inputs es ++ inclusion_inputs (b_index b) (b_size b) leaf proof))) /\
  (falsy (nullish (env_issuer a) (argv_issuer a)) || falsy (nullish (env_root a) (argv_root a)) = true ->
   exit out = 2).
Proof.
  unfold verify_cli. intros E.
  destruct (nullish (env_issuer a) _) as [ih|]; [|by apply Ok_inj in E as <-].
  destruct (nullish (env_root a) _) as [rh|]; [|apply Ok_inj in E as <-; split; [done | by intros _]].
  destruct (falsy (Some ih) || falsy (Some rh)) eqn:F; [by apply Ok_inj in E as <-|]. split; [|done].
  cbn [falsy] in F. apply orb_false_iff in F as [Fi%bool_decide_eq_false Fr%bool_decide_eq_false].
  apply bind_ok in E as (r & Er & E). apply bind_ok in E as (w & Ew & E). apply bind_ok in E as (root & Et & E).
  apply bind_ok in E as (key & Ek & E). apply bind_ok in E as (v & Ev & E). apply Ok_inj in E as <-.
  cbn [exit]. destruct (ev_ok v) eqn:Hv; [intros _|done].
  destruct (external_inv _ _ _ _ _ Ev Hv) as (K & A & (msg & Em & V) & leaf & El & B & C).
  pose proof Er as Er'. unfold cli_receipt in Er. apply bind_ok in Er as (sg & Es & Er).
  apply bind_ok in Er as (pk & Ep & Er). apply Ok_inj in Er as <-. cbn [body r_sig] in *.
  exists ih, rh, key, root. do 7 (split; [done|]). split; [by exists msg, sg|].
  intros es -> Hsz. unfold cli_witness in Ew. apply bind_ok in Ew as (lf & Elf & Ew).
  apply bind_ok in Ew as (proof & Epf & Ew). apply bind_ok in Ew as (rt & Ert & Ew). apply Ok_inj in Ew as <-.
  eexists _, leaf, proof. split; [exact Er'|]. do 2 (split; [done|]).
  unfold checkInclusion in C. cbn [iw_leaf iw_index iw_size iw_proof] in *. rewrite B in C.
  by destruct (inclusion_shows es (b_index b) (b_size b) leaf proof C Hsz) as [_ I].
Qed.
End cli.

(** ** A run: the sample receipt, second in a log of two entries *)
Definition cli_log : TransparencyLog := (append {| entries := [[x01]] |} sample_leaf).1.
Definition cli_wit : InclusionWitness := match proveInclusion cli_log 1 with
  | Ok w => w
  | Throw _ => {| iw_index := Int 0; iw_size := Int 0; iw_leaf := []; iw_proof := []; iw_root := [] |} end.
Definition cli_bundle : Bundle := {|
  b_body := body sample_receipt; b_sigHex := bytesToHex (r_sig sample_receipt);
  b_signerPublicKeyHex := bytesToHex (r_signerPublicKey sample_receipt);
  b_index := iw_index cli_wit; b_size := iw_size cli_wit; b_leafHex := bytesToHex (iw_leaf cli_wit);
  b_proofHex := map bytesToHex (iw_proof cli_wit); b_rootHex := bytesToHex (iw_root cli_wit);
  b_issuerPublicKeyHex := Some (bytesToHex [x00]); b_gossipedRootHex := None |}.
Definition cli_anchors : Anchors := {|
  env_issuer := Some (bytesToHex (publicKey (kp "node"))); env_root := None;
  argv_issuer := Some "00"; argv_root := Some (bytesToHex (log_root cli_log)) |}.

Example cli_runs :
  verify_cli cli_anchors cli_bundle = Ok {| exit := 0; notes := [different_issuer] |} /\
  verify_cli {| env_issuer := Some ""; env_root := None; argv_issuer := Some "00"; argv_root := Some "00" |} cli_bundle
    = Ok {| exit := 2; notes := [] |}.
Proof. split; [vm_cast_no_check (@eq_refl _ (Ok {| exit := 0; notes := [different_issuer] |})) | reflexivity]. Qed.

Lemma cli_trusts_anchors_witness : exists ih,
  nullish (env_issuer cli_anchors) (argv_issuer cli_anchors) = Some ih /\ ih <> "".
Proof.
  destruct (cli_trusts_anchors (kpr := eq) _ _ _ (proj1 cli_runs)) as [A _].
  destruct (A eq_refl) as (ih & _ & _ & _ & I & _ & N & _). exact (ex_intro _ ih (conj I N)).
Defined.
